(* ===== verification/_CoqProject ===== *)
-Q . S2P
Prelude.v
Go.v
Tokens.v
Limiter.v
Wanted.v
Diff.v
Bans.v
Pass.v
PassProofs.v
Sessions.v
Crypto.v
Pins.v
CA.v
Csr.v
Net.v
Inventory.v
Proxmox.v
ProxmoxProofs.v
Enroll.v
EnrollProofs.v
EnrollProgress.v
Tpm.v
TpmProofs.v
Client.v
ClientProofs.v
Handshake.v
Imds.v
Mux.v
Config.v
Server.v
ConfigProofs.v
ServerProofs.v
Reload.v
ReloadProofs.v
Served.v
Routes.v
RoutesProofs.v
Service.v
ServiceProofs.v
ServiceTokens.v
AccessLog.v
Nics.v
Bind.v
BindProofs.v
BindMain.v
Spire.v
SpireProofs.v
Json.v
PveApi.v
PveApiProofs.v
Clusters.v
ClustersProofs.v
Reconciler.v
ReconcilerProofs.v
