(* ===== verification/Prelude.v ===== *)
(** * vtpm-mds: a verification library

    vtpm-mds gives the guests of a Proxmox cluster an identity that rests on their
    virtual TPMs. This library models its Go code and proves what makes it correct.

    ** The program

    - On each host the daemon (src/main.go, src/internal/server, src/imds) answers
      guests on a link-local address: EC2-style metadata behind IMDSv2 tokens, and
      the two legs of DevID enrolment (src/internal/devid). A caller is known by its
      connection only: its address is resolved to a MAC in the kernel's ARP table,
      and the MAC to a record of the inventory (src/internal/inventory for YAML,
      src/internal/proxmox for /etc/pve), which is read again when its sources
      change.
    - The bridge binder (src/cmd/vtpm-mds-bind, src/internal/bridgebind) is what makes
      a MAC believable: it keeps an nftables table by which each guest's port sends
      with the MAC of its configuration only.
    - In the guest, devid-enroll (src/cmd/devid-enroll, src/internal/devid) drives the
      TPM, asks for a certificate, writes it with its key, and renews it in time.
    - The reconciler (src/cmd/vtpm-mds-reconcile, src/internal/reconcile) reads the
      guests of each cluster from the Proxmox API and keeps SPIRE's node aliases in
      line with them; agents of VMs that are gone are banned.

    ** Conventions

    A Go pair [(T, error)] is an [outcome]; an error is its text, with the sentinel
    errors that code compares as constructors. Code that changes a state and may
    fail is [fallible]: the state so far is kept with the error. Code under a lock
    is one step; what happens between steps is an explicit argument (the clock,
    random bytes, faults of system calls, what others do). Strings are bytes. A
    function of a package outside the repository is a parameter or a field of a
    class; a law it is assumed to keep is a field of a second class ([WireLaws],
    [CALaws], [NFTLaws], [SpireServer], [SpireRPCLaws] and so on), and each such
    class has an instance, so that no theorem is about nothing.

    ** The files

    Shared:
    - Prelude: [outcome], [fallible], their rules and the common automation.
    - Go, Net, Mux: what the program uses of strings, strconv, sort and time, of net
      (addresses as text), and of net/http (how ServeMux picks a handler).
    - Json: how encoding/json stores a value in Go's types.
    The metadata service:
    - Tokens (imds/token.go): [TokenStore]; [generateTokenAt], [ValidateToken],
      [cleanupExpired], [LiveTokenCount].
    - Limiter (server/limit.go): [guestLimiter]; the three windows, the connections,
      the scrub, the middleware.
    - Inventory (inventory/*.go), Proxmox and ProxmoxProofs (proxmox/vmconfig.go,
      fingerprint.go): the two backends, from the bytes of the files to records,
      topology and fingerprint.
    - Imds (imds/handlers.go, placement.go, tags.go): one definition per handler;
      Routes and RoutesProofs (server.go, [New]): the table of routes.
    - Config (config/config.go): [Load]; Server, ServerProofs, ConfigProofs
      (server.go, reload.go): the caller's binding, reloads, readiness, the loading
      of the enroller; Reload and ReloadProofs: the same reloads, cut into steps
      that interleave; Served: what every reachable state serves.
    - Service, ServiceProofs, ServiceTokens (server.go, [New]; src/main.go): all of the
      above as one machine, from [New] to the signal that ends the process:
      connections are accepted and bound, requests pass the limiter and the routes
      to the handlers, files are read again, stores are swept.
    - AccessLog (server.go, [loggingMiddleware]): the access log around it.
    Enrolment:
    - Crypto (devid/verify.go, challenge.go, templates.go, sign.go): the checks, over
      the classes of x509 and go-tpm; Csr (csr.go): the request on the wire; CA
      (ca.go, san.go); Sessions (session.go); Pins (pin.go, clusterpin.go).
    - Enroll, EnrollProofs and EnrollProgress (auth.go, enroll.go, http.go): the two
      legs composed of these, as HTTP handlers.
    - Tpm and TpmProofs (keys.go, csr.go, activate.go, sign.go): the guest's side, as
      commands to a TPM; Client and ClientProofs (renew.go, client.go,
      instanceid.go): one run of the client, step by step on the disk, and its command
      ([enroll_main], cmd/devid-enroll); Handshake: that run against the service's
      handlers.
    The bridge binder: Nics (proxmox/nics.go), Bind and BindProofs (bridgebind/*.go);
    BindMain: its process ([Exec], [Run], and [main] of cmd/vtpm-mds-bind).
    The reconciler: Wanted (wanted.go), Diff and Bans (diff.go), Pass and PassProofs
    (run.go), Spire and SpireProofs (spire.go), PveApi and PveApiProofs (proxmox.go),
    Clusters and ClustersProofs (config.go), Reconciler and ReconcilerProofs
    (cmd/vtpm-mds-reconcile).

    ** How the parts meet

    The reconciler's pass is proved against [spireAPI] and its laws [SpireServer];
    Spire implements the interface over gRPC and [spire_client_implements] derives
    the laws, so what is proved of a pass holds of the client. [config_loads_exact]
    shows that a loaded configuration gives targets as those theorems require, and
    Reconciler composes all of it into the process. The legs of an enrolment use the
    operations of Sessions, Pins and CA as they are; the server's record of a caller
    is what the handlers of Imds and the legs receive. The reload of Server runs the
    backends of Inventory and Proxmox, and [reload_interleavings] says that its steps,
    interleaved as the locks allow, serve what one load read. Service puts the
    components of the daemon together as [New] does; its theorems use the invariants
    of the components and say what a guest can rely on, over any history.
    Handshake joins the client to the handlers: what one sends the other reads.

    ** What the theorems show

    - The service as a whole: a certificate names the guest whose connection it goes
      out on, known by the MAC the kernel resolved and a record of the inventory, and
      only after both legs ([certificate_names_its_caller]); metadata is for holders of
      a token this service minted ([metadata_needs_token]); and a token lasts, since the
      limiter keeps every peer below the store's quota ([tokens_live_a_minute]). The
      access log is one line per answered request, whatever is asked
      ([access_log_exact]).
    - Access: tokens are counted and capped ([token_store_invariant]) and, up to the
      quota, live until they expire ([minted_token_survives]); no peer exceeds its
      budget ([guest_rate_bound], [scrub_changes_no_verdict]); a connection belongs to
      the one VM its MAC names ([caller_bound_exact]); an unbound caller learns
      nothing ([unbound_caller_refused]).
    - Metadata: records, tags and topology are the sources' ([load_yaml_exact],
      [guest_record_exact], [host_topology_exact]), well formed ([served_well_typed]),
      fresh ([same_fingerprint_same_inventory], [inventory_follows_sources],
      [reload_interleavings]) and advertised as they can be read
      ([metadata_index_exact]).
    - Enrolment, with any two legs of any callers: no certificate without both
      ([certificate_needs_enrolment]), and an honest guest gets its certificate,
      whatever other guests do between its legs ([honest_guest_enrols]), which the
      client then installs ([enrolment_completes]);
      sessions are for one use ([session_single_use]); an EK stays with its VM
      ([pins_stay_exclusive], [issue_needs_own_pin]); what a certificate says
      ([issued_certificate], [loaded_config_enrolls], [ca_files_read_once]); what a
      refusal says ([enroll_replies]); the wire ([signing_request_roundtrip]).
    - The client: due in time ([renew_due_exact]), safe against a crash
      ([client_crash_safe]), and the TPM left as it was ([client_frees_tpm]).
    - The binder: a table that another changed is restored ([binder_restores_table]);
      the process starts exactly when its table is in place ([run_needs_table]).
    - The reconciler: the right aliases ([wanted_aliases], [wanted_problems]), nothing
      else touched or lost ([diff_confined], [pass_loses_no_alias],
      [doubtful_read_inert]), convergence ([pass_converges],
      [pass_meets_no_duplicate], [once_exit_exact]), bans with care
      ([bans_take_two_passes]), reads that are believed only when complete
      ([pve_read_exact], [pve_errors_hide_token], [config_loads_exact]).

    ** Loops and fuel

    A loop of the code that is not structural takes fuel, and a theorem says how much
    is enough: the pages of a listing, one more than the server has ([list_pages] in
    [spire_client_implements]); PEM blocks, one more than the text is long
    ([ca_files_read_once]); the items of a duration, the length of the text
    ([durations_end]); a hash's blocks ([hash_blocks_enough]); the groups of an IPv6
    address, eight; the attempts of a certify command, five, as in the code; an
    attempt to reload, eight steps ([reload_interleavings]).

    ** Not modelled

    - Log lines, except the access log, and where the text of an error becomes one;
      debug lines, except that the arguments of one are evaluated.
    - Listeners, tickers, time-outs, signals and the shutdown of the HTTP server:
      their effect appears as the steps that happen or do not. Flags are arguments.
    - File modes and owners (but for the SVID cache and the client's files, whose
      owner the client keeps), fsync, and the numbers of TPM handles in the client.
    - The syntax of YAML, JSON, PEM, ASN.1 and TPM structures, X.509 verification, the
      cryptography and the TPM: not in the repository, hence parameters.
    - The third-party and vendored code, packaging, and the scripts of the labs. *)

From stdpp Require Export base gmap strings list sorting.
From Stdlib Require Export ZArith.

(** [simpl] computes an append whose left argument is known. *)
#[global] Arguments String.append : simpl nomatch.

(** ** Outcomes: a Go pair [(T, error)] as one value *)

(** [Ok a] is a nil error with its result, [Err e] a non-nil error; the code
    never uses a result that came with an error. *)
Inductive outcome (E A : Type) : Type :=
| Ok (a : A)
| Err (e : E).
Arguments Ok {E A} a.
Arguments Err {E A} e.

#[export] Instance outcome_ret {E} : MRet (outcome E) := fun _ a => Ok a.
#[export] Instance outcome_bind {E} : MBind (outcome E) :=
  fun _ _ k m => match m with Ok a => k a | Err e => Err e end.
#[export] Instance outcome_fmap {E} : FMap (outcome E) :=
  fun _ _ f m => match m with Ok a => Ok (f a) | Err e => Err e end.

#[export] Instance outcome_eq_dec {E A} `{EqDecision E, EqDecision A} :
  EqDecision (outcome E A).
Proof. solve_decision. Defined.

Definition is_ok {E A} (m : outcome E A) : bool :=
  match m with Ok _ => true | Err _ => false end.

Declare Scope mds_scope.
Delimit Scope mds_scope with mds.
(** [check b else e; k]: the early return [if !b { return e }]. *)
Notation "'check' b 'else' e ; k" := (if b then k else Err e)
  (at level 10, b at level 99, e at level 99, k at level 200) : mds_scope.
Open Scope mds_scope.

Lemma bind_Ok {E A B} (m : outcome E A) (k : A → outcome E B) b :
  (m ≫= k) = Ok b ↔ ∃ a, m = Ok a ∧ k a = Ok b.
Proof. destruct m; cbn; split; (intros (? & [= ->] & ?) || intros (? & ? & ?) || intros ?); eauto; done. Qed.

Lemma bind_Err {E A B} (m : outcome E A) (k : A → outcome E B) e :
  (m ≫= k) = Err e ↔ m = Err e ∨ ∃ a, m = Ok a ∧ k a = Err e.
Proof. destruct m; cbn; naive_solver. Qed.

Lemma check_Ok {E A} (b : bool) (e : E) (m : outcome E A) a :
  (check b else e; m) = Ok a ↔ b = true ∧ m = Ok a.
Proof. destruct b; naive_solver. Qed.

(** ** Computations with a state that may fail *)

(** A Go function that changes [S] and returns an error or a result: the state it
    leaves is kept when it fails. *)
Definition fallible (S E A : Type) : Type := S → S * outcome E A.

#[export] Instance fallible_ret {S E} : MRet (fallible S E) := fun _ a s => (s, Ok a).
#[export] Instance fallible_bind {S E} : MBind (fallible S E) :=
  fun _ _ k m s => match m s with (s, Ok a) => k a s | (s, Err e) => (s, Err e) end.

Section fallible.
Context {S E : Type}.

Definition modify (f : S → S) : fallible S E () := fun s => (f s, Ok ()).
Definition gets {A} (f : S → A) : fallible S E A := fun s => (s, Ok (f s)).
Definition throw {A} (e : E) : fallible S E A := fun s => (s, Err e).
(** Wrap the error, as [fmt.Errorf] with %w does. *)
Definition wrap {A} (w : E → E) (m : fallible S E A) : fallible S E A :=
  fun s => match m s with (s, Ok a) => (s, Ok a) | (s, Err e) => (s, Err (w e)) end.
Definition when (b : bool) (m : fallible S E ()) : fallible S E () := if b then m else mret ().

Fixpoint each {A} (f : A → fallible S E ()) (l : list A) : fallible S E () :=
  match l with [] => mret () | a :: l => _ ← f a; each f l end.

Lemma run_bind {A B} (m : fallible S E A) (k : A → fallible S E B) s :
  (m ≫= k) s = match m s with (s, Ok a) => k a s | (s, Err e) => (s, Err e) end.
Proof. done. Qed.
Lemma run_wrap {A} (w : E → E) (m : fallible S E A) s :
  wrap w m s = match m s with (s, Ok a) => (s, Ok a) | (s, Err e) => (s, Err (w e)) end.
Proof. done. Qed.

(** The rule for an invariant of the state that holds whatever fails. *)
Definition preserves {A} (P : S → Prop) (m : fallible S E A) : Prop := ∀ s, P s → P (m s).1.

Lemma preserves_bind {A B} P (m : fallible S E A) (k : A → fallible S E B) :
  preserves P m → (∀ a, preserves P (k a)) → preserves P (m ≫= k).
Proof.
  intros Hm Hk s Hs. specialize (Hm s Hs). unfold mbind, fallible_bind.
  destruct (m s) as [s' [a|e]]; [by apply Hk|done].
Qed.
Lemma preserves_each {A} P (f : A → fallible S E ()) l :
  (∀ a, a ∈ l → preserves P (f a)) → preserves P (each f l).
Proof.
  induction l as [|a l IH]; intros Hf; [by intros s|]. cbn. apply preserves_bind.
  - apply Hf. by left.
  - intros _. apply IH. intros; apply Hf; by right.
Qed.
Lemma preserves_wrap {A} P w (m : fallible S E A) : preserves P m → preserves P (wrap w m).
Proof. intros Hm s Hs. specialize (Hm s Hs). unfold wrap. by destruct (m s) as [s' []]. Qed.
Lemma preserves_when P b (m : fallible S E ()) : preserves P m → preserves P (when b m).
Proof. intros Hm. destruct b; [done|by intros s]. Qed.
(** The rule for what every computation may do to the state: a preorder of states. *)
Definition moves (R : S → S → Prop) {A} (m : fallible S E A) : Prop := ∀ s, R s (m s).1.

Section moves.
Context (R : S → S → Prop) `{!PreOrder R}.
Lemma moves_bind {A B} (m : fallible S E A) (k : A → fallible S E B) :
  moves R m → (∀ a, moves R (k a)) → moves R (m ≫= k).
Proof.
  intros Hm Hk s. specialize (Hm s). rewrite run_bind. destruct (m s) as [s' [a|e]]; [|done].
  etrans; [exact Hm|apply Hk].
Qed.
Lemma moves_ret {A} (a : A) : moves R (mret a : fallible S E A).
Proof. intros s. cbn. reflexivity. Qed.
Lemma moves_each {A} (f : A → fallible S E ()) l : (∀ a, moves R (f a)) → moves R (each f l).
Proof. intros Hf. induction l as [|a l IH]; [apply moves_ret|]. by apply moves_bind. Qed.
Lemma moves_wrap {A} w (m : fallible S E A) : moves R m → moves R (wrap w m).
Proof. intros Hm s. specialize (Hm s). rewrite run_wrap. by destruct (m s) as [? []]. Qed.
Lemma moves_when b (m : fallible S E ()) : moves R m → moves R (when b m).
Proof. intros Hm. destruct b; [done|apply moves_ret]. Qed.
End moves.

(** Hoare triples: [Q] for a result, [X] for an error. *)
Definition hoare {A} (P : S → Prop) (m : fallible S E A) (Q : A → S → Prop) (X : S → Prop) : Prop :=
  ∀ s, P s → match m s with (s', Ok a) => Q a s' | (s', Err _) => X s' end.

Lemma hoare_bind {A B} P (m : fallible S E A) (k : A → fallible S E B) Q R X :
  hoare P m Q X → (∀ a, hoare (Q a) (k a) R X) → hoare P (m ≫= k) R X.
Proof.
  intros Hm Hk s Hs. specialize (Hm s Hs). unfold mbind, fallible_bind.
  destruct (m s) as [s' [a|e]]; [by apply Hk|done].
Qed.
Lemma hoare_pre {A} P P' (m : fallible S E A) Q X : hoare P' m Q X → (∀ s, P s → P' s) → hoare P m Q X.
Proof. intros Hm Hp s Hs. by apply Hm, Hp. Qed.
Lemma hoare_post {A} P (m : fallible S E A) Q Q' X X' :
  hoare P m Q X → (∀ a s, Q a s → Q' a s) → (∀ s, X s → X' s) → hoare P m Q' X'.
Proof. intros Hm Hq Hx s Hs. specialize (Hm s Hs). destruct (m s) as [s' [a|e]]; auto. Qed.
Lemma hoare_ret {A} P (a : A) (Q : A → S → Prop) X : (∀ s, P s → Q a s) → hoare P (mret a) Q X.
Proof. intros H s Hs. by apply H. Qed.
Lemma hoare_throw {A} (P : S → Prop) e (Q : A → S → Prop) X : (∀ s, P s → X s) → hoare P (throw e) Q X.
Proof. intros H s Hs. by apply H. Qed.
Lemma hoare_modify (P : S → Prop) f (Q : () → S → Prop) X : (∀ s, P s → Q () (f s)) → hoare P (modify f) Q X.
Proof. intros H s Hs. by apply H. Qed.
Lemma hoare_wrap {A} P w (m : fallible S E A) Q X : hoare P m Q X → hoare P (wrap w m) Q X.
Proof. intros Hm s Hs. specialize (Hm s Hs). unfold wrap. by destruct (m s) as [s' []]. Qed.
Lemma hoare_when P b (m : fallible S E ()) Q X :
  (b = true → hoare P m Q X) → (b = false → ∀ s, P s → Q () s) → hoare P (when b m) Q X.
Proof. destruct b; cbn [when]; intros Hm Hs; [by apply Hm|]. intros s ?. by apply Hs. Qed.
(** A computation that keeps an invariant, whatever its outcome. *)
Lemma hoare_invariant {A} P (m : fallible S E A) : preserves P m → hoare P m (λ _, P) P.
Proof. intros Hm s Hs. specialize (Hm s Hs). by destruct (m s) as [s' []]. Qed.
End fallible.

(** ** Automation *)

Create HintDb mds discriminated.
#[export] Hint Constants Opaque : mds.
Create Rewrite HintDb mds_simp.
#[export] Hint Rewrite @bind_Ok @bind_Err @check_Ok : mds_simp.

(** Split every conjunction and existential in the context. *)
Ltac deep_destruct :=
  repeat match goal with
  | H : _ ∧ _ |- _ => destruct H
  | H : ∃ _, _ |- _ => destruct H
  end.

(** Case analysis on every [if] and [match] of the goal or a hypothesis, with
    contradictory branches closed at once. *)
Ltac split_cases :=
  repeat (case_match; simplify_eq/=; try done).

(** Read a computation in [outcome] that is known to succeed backwards. *)
Ltac invert_ok H :=
  repeat first
    [ apply bind_Ok in H as (? & ? & H)
    | apply check_Ok in H as (? & H) ];
  simplify_eq/=.

(** Turn boolean tests in the context into propositions. *)
Ltac bool_to_prop :=
  repeat match goal with
  | H : andb _ _ = true |- _ => apply andb_true_iff in H as [??]
  | H : orb _ _ = false |- _ => apply orb_false_iff in H as [??]
  | H : negb _ = true |- _ => apply negb_true_iff in H
  | H : negb _ = false |- _ => apply negb_false_iff in H
  | H : bool_decide _ = true |- _ => apply bool_decide_eq_true in H
  | H : bool_decide _ = false |- _ => apply bool_decide_eq_false in H
  | H : (_ <? _)%Z = true |- _ => apply Z.ltb_lt in H
  | H : (_ <? _)%Z = false |- _ => apply Z.ltb_ge in H
  | H : (_ <=? _)%Z = true |- _ => apply Z.leb_le in H
  | H : (_ <=? _)%Z = false |- _ => apply Z.leb_gt in H
  | H : (_ =? _)%Z = true |- _ => apply Z.eqb_eq in H
  | H : (_ =? _)%Z = false |- _ => apply Z.eqb_neq in H
  end.

(** ** Lists *)

Section lists.
Context {A : Type}.
Implicit Types l k : list A.

Lemma filter_length_le (P : A → Prop) `{∀ x, Decision (P x)} l :
  length (filter P l) ≤ length l.
Proof. induction l as [|x l IH]; [done|]. rewrite filter_cons. case_decide; simpl; lia. Qed.

(** A stronger filter selects no more elements. *)
Lemma filter_length_mono (P Q : A → Prop) `{∀ x, Decision (P x)} `{∀ x, Decision (Q x)} l :
  (∀ x, x ∈ l → P x → Q x) → length (filter P l) ≤ length (filter Q l).
Proof.
  intros HPQ. induction l as [|x l IH]; [done|].
  rewrite !filter_cons.
  assert (∀ y, y ∈ l → P y → Q y) as Hl by (intros; apply HPQ; [by right|done]).
  specialize (IH Hl). specialize (HPQ x (list_elem_of_here _ _)).
  do 2 case_decide; simpl; try lia. exfalso; auto.
Qed.

(** Filtering twice is filtering by the stronger predicate. *)
Lemma filter_filter_absorb (P Q : A → Prop) `{∀ x, Decision (P x)} `{∀ x, Decision (Q x)} l :
  (∀ x, P x → Q x) → filter P (filter Q l) = filter P l.
Proof.
  intros HPQ. induction l as [|x l IH]; [done|].
  rewrite !(filter_cons _ x). destruct (decide (Q x)).
  - rewrite filter_cons. by rewrite IH.
  - rewrite IH. case_decide; [exfalso; auto|done].
Qed.

Lemma filter_ext_in (P Q : A → Prop) `{∀ x, Decision (P x)} `{∀ x, Decision (Q x)} l :
  (∀ x, x ∈ l → P x ↔ Q x) → filter P l = filter Q l.
Proof.
  induction l as [|x l IH]; intros HPQ; [done|]. rewrite !filter_cons.
  rewrite IH by (intros; apply HPQ; by right).
  assert (P x ↔ Q x) by (apply HPQ; by left). repeat case_decide; tauto.
Qed.

Lemma exists_cons (P : A → Prop) x l :
  (∃ y, y ∈ x :: l ∧ P y) ↔ P x ∨ ∃ y, y ∈ l ∧ P y.
Proof.
  setoid_rewrite elem_of_cons. split.
  - intros (y & [->|?] & ?); eauto.
  - intros [?|(y & ? & ?)]; eauto.
Qed.

Lemma filter_all (P : A → Prop) `{∀ x, Decision (P x)} l :
  (∀ x, x ∈ l → P x) → filter P l = l.
Proof.
  induction l as [|x l IH]; intros HP; [done|].
  rewrite filter_cons_True by (apply HP; by left).
  f_equal. apply IH. intros; apply HP; by right.
Qed.

Lemma filter_none (P : A → Prop) `{∀ x, Decision (P x)} l :
  (∀ x, x ∈ l → ¬ P x) → filter P l = [].
Proof.
  induction l as [|x l IH]; intros HP; [done|].
  rewrite filter_cons_False by (apply HP; by left).
  apply IH. intros; apply HP; by right.
Qed.
End lists.

Lemma sublist_fmap_inv {A B} (f : A → B) l k : sublist k (f <$> l) → ∃ k', sublist k' l ∧ k = f <$> k'.
Proof.
  revert k. induction l as [|x l IH]; intros k Hs; cbn in Hs.
  - apply sublist_nil_r in Hs as ->. by exists [].
  - apply sublist_cons_r in Hs as [(k' & ? & ->)%IH|(k' & -> & (k'' & ? & ->)%IH)].
    + exists k'. split; [by constructor|done].
    + exists (x :: k''). split; [by constructor|done].
Qed.

Lemma Forall2_permute {A B} (R : A → B → Prop) l l' k :
  l ≡ₚ l' → Forall2 R l k → ∃ k', k ≡ₚ k' ∧ Forall2 R l' k'.
Proof.
  intros Hp. revert k. induction Hp as [|x l l' Hp IH|x y l|l l1 l2 Hp1 IH1 Hp2 IH2]; intros k Hk.
  - apply Forall2_nil_inv_l in Hk as ->. by exists [].
  - apply Forall2_cons_inv_l in Hk as (b & k0 & ? & (k' & ? & ?)%IH & ->).
    exists (b :: k'). split; [by f_equiv|by constructor].
  - apply Forall2_cons_inv_l in Hk as (b & k0 & ? & Hk & ->).
    apply Forall2_cons_inv_l in Hk as (c & k1 & ? & ? & ->).
    exists (c :: b :: k1). split; [apply Permutation_swap|by repeat constructor].
  - destruct (IH1 _ Hk) as (k1 & ? & Hk1). destruct (IH2 _ Hk1) as (k2 & ? & ?).
    exists k2. split; [by etrans|done].
Qed.
