(* ===== verification/Go.v ===== *)
(** * The parts of Go and its standard library the program uses

    Strings are byte strings ([string], one [ascii] per byte). White space is
    decoded as UTF-8 exactly as [unicode.IsSpace] has it; the Unicode case
    tables are a parameter ([GoUnicode]) that is consulted only for a string
    with a byte above 127, as [strings.ToLower], [strings.EqualFold] and
    [strconv.Quote] do.
    A [time.Time] is its number of nanoseconds, a [time.Duration] a signed
    64-bit number of nanoseconds. *)

From S2P Require Import Prelude.
From Stdlib Require Import Ascii.

(** ** Bytes *)

Definition byte (c : ascii) : Z := Z.of_N (N_of_ascii c).
Definition chr (z : Z) : ascii := ascii_of_N (Z.to_N z).

Definition in_range (lo hi : Z) (c : ascii) : bool := (lo <=? byte c)%Z && (byte c <=? hi)%Z.
Definition is_digit : ascii → bool := in_range 48 57.
Definition is_upper : ascii → bool := in_range 65 90.
Definition is_lower : ascii → bool := in_range 97 122.
Definition is_ascii (c : ascii) : bool := (byte c <? 128)%Z.

Definition lower_byte (c : ascii) : ascii := if is_upper c then chr (byte c + 32) else c.
Definition lf : ascii := chr 10.
Definition lf_string : string := String lf "".

Fixpoint sforall (p : ascii → bool) (s : string) : bool :=
  match s with "" => true | String c s' => p c && sforall p s' end.
Fixpoint smap (f : ascii → ascii) (s : string) : string :=
  match s with "" => "" | String c s' => String (f c) (smap f s') end.
Fixpoint sdrop (n : nat) (s : string) : string :=
  match n, s with O, _ => s | S n', String _ s' => sdrop n' s' | S _, "" => "" end.

(** ** Package strings *)

(** The Unicode tables: [strings.Map(unicode.ToLower, s)], the Unicode part of
    [strings.EqualFold] and [strconv.Quote], for strings with a byte above 127. *)
Class GoUnicode := {
  uni_lower : string → string;
  uni_fold : string → string → bool;
  uni_quote : string → string;
}.

(** A table for strings whose other bytes have no case. *)
Definition caseless : GoUnicode :=
  {| uni_lower := smap lower_byte; uni_fold := fun s t => bool_decide (s = t); uni_quote := fun s => s |}.

(** A byte inside quotes, as [strconv.Quote] writes it. *)
Definition hex_digit (z : Z) : ascii := chr (if (z <? 10)%Z then z + 48 else z + 87).
Definition backslash (s : string) : string := String (chr 92) s.
Definition escape_hex (c : ascii) : string :=
  backslash (String "x" (String (hex_digit (Z.shiftr (byte c) 4)) (String (hex_digit (Z.land (byte c) 15)) ""))).
Definition quote_byte (c : ascii) : string :=
  let z := byte c in
  if (z =? 34)%Z || (z =? 92)%Z then backslash (String c "")
  else if in_range 32 126 c then String c ""
  else if in_range 7 13 c then
    backslash (String (nth (Z.to_nat (z - 7)) (String.list_ascii_of_string "abtnvfr") "a"%char) "")
  else escape_hex c.
Definition between_quotes (f : ascii → string) (s : string) : string :=
  let q := String (chr 34) "" in q +:+ String.concat "" (f <$> String.list_ascii_of_string s) +:+ q.

Section unicode.
Context `{GoUnicode}.

Definition ToLower (s : string) : string :=
  if sforall is_ascii s then smap lower_byte s else uni_lower s.
(** [strconv.Quote], the verb %q. *)
Definition Quote (s : string) : string :=
  if sforall is_ascii s then between_quotes quote_byte s else uni_quote s.

Fixpoint EqualFold (s t : string) : bool :=
  match s, t with
  | "", "" => true
  | String a s', String b t' =>
      if negb (is_ascii a && is_ascii b) then uni_fold s t
      else if bool_decide (lower_byte a = lower_byte b) then EqualFold s' t'
      else false
  | _, _ => false
  end.
End unicode.

Fixpoint HasPrefix (s p : string) {struct p} : bool :=
  match p, s with
  | "", _ => true
  | String a p', String b s' => bool_decide (a = b) && HasPrefix s' p'
  | _, _ => false
  end.

Fixpoint ContainsByte (c : ascii) (s : string) : bool :=
  match s with "" => false | String d s' => bool_decide (c = d) || ContainsByte c s' end.

Fixpoint Contains (s sub : string) : bool :=
  HasPrefix s sub || match s with "" => false | String _ s' => Contains s' sub end.

(** [strings.Cut(s, sep)] for a one-byte separator: before, after, found. *)
Fixpoint Cut (s : string) (sep : ascii) : string * string * bool :=
  match s with
  | "" => ("", "", false)
  | String c s' =>
      if bool_decide (c = sep) then ("", s', true)
      else let '(b, a, ok) := Cut s' sep in (String c b, a, ok)
  end.

(** [strings.Split(s, sep)] for a one-byte separator. *)
Fixpoint Split (s : string) (sep : ascii) : list string :=
  match s with
  | "" => [""]
  | String c s' =>
      if bool_decide (c = sep) then "" :: Split s' sep
      else match Split s' sep with
           | w :: ws => String c w :: ws
           | [] => [String c ""]
           end
  end.

Definition TrimPrefix (s p : string) : string :=
  if HasPrefix s p then sdrop (String.length p) s else s.
Definition CutPrefix (s p : string) : string * bool :=
  if HasPrefix s p then (sdrop (String.length p) s, true) else (s, false).

(** [unicode.IsSpace], by the length of the rune's UTF-8 encoding. *)
Definition space1 (a : ascii) : bool := in_range 9 13 a || bool_decide (a = " "%char).
Definition space2 (a b : ascii) : bool :=
  (byte a =? 194)%Z && ((byte b =? 133)%Z || (byte b =? 160)%Z).
Definition space3 (a b c : ascii) : bool :=
  let a := byte a in let b := byte b in let c := byte c in
  (((a =? 225) && (b =? 154) && (c =? 128))
   || ((a =? 226) && (b =? 128)
       && (((128 <=? c) && (c <=? 138)) || (c =? 168) || (c =? 169) || (c =? 175)))
   || ((a =? 226) && (b =? 129) && (c =? 159))
   || ((a =? 227) && (b =? 128) && (c =? 128)))%Z.

Fixpoint trim_left (s : string) : string :=
  match s with
  | "" => ""
  | String a s1 =>
      if space1 a then trim_left s1 else
      match s1 with
      | "" => s
      | String b s2 =>
          if space2 a b then trim_left s2 else
          match s2 with
          | "" => s
          | String c s3 => if space3 a b c then trim_left s3 else s
          end
      end
  end.

(** The same from the end, on the reversed string. *)
Fixpoint trim_rev (s : string) : string :=
  match s with
  | "" => ""
  | String a s1 =>
      if space1 a then trim_rev s1 else
      match s1 with
      | "" => s
      | String b s2 =>
          if space2 b a then trim_rev s2 else
          match s2 with
          | "" => s
          | String c s3 => if space3 c b a then trim_rev s3 else s
          end
      end
  end.

Fixpoint srev_app (s acc : string) : string :=
  match s with "" => acc | String c s' => srev_app s' (String c acc) end.
Definition srev (s : string) : string := srev_app s "".

Definition TrimSpace (s : string) : string := srev (trim_rev (srev (trim_left s))).

(** [strings.FieldsFunc(s, func(r) { sep r || unicode.IsSpace(r) })] for a [sep] of
    ASCII; [cur] is the field being read, reversed. *)
Definition flush (cur : string) (l : list string) : list string :=
  match cur with "" => l | _ => srev cur :: l end.
Definition tag_sep (a : ascii) : bool :=
  bool_decide (a = ";"%char) || bool_decide (a = ","%char) || space1 a.

Section fields.
Context (sep : ascii → bool).
Fixpoint fields_go (s cur : string) : list string :=
  match s with
  | "" => flush cur []
  | String a s1 =>
      if sep a then flush cur (fields_go s1 "") else
      match s1 with
      | "" => flush (String a cur) []
      | String b s2 =>
          if space2 a b then flush cur (fields_go s2 "") else
          match s2 with
          | "" => fields_go s1 (String a cur)
          | String c s3 =>
              if space3 a b c then flush cur (fields_go s3 "")
              else fields_go s1 (String a cur)
          end
      end
  end.
End fields.
Definition TagFields (s : string) : list string := fields_go tag_sep s "".
(** [strings.Fields]. *)
Definition Fields (s : string) : list string := fields_go space1 s "".

(** [sort.Strings] and [strings.Join]. *)
Definition SortStrings (l : list string) : list string := merge_sort String.le l.
Definition Join (l : list string) (sep : string) : string := String.concat sep l.

(** The comparison functions given to [sort.Slice]: by the string [f], and where
    that is equal by [R]. *)
Definition by_string {A} (f : A → string) (a b : A) : Prop := String.le (f a) (f b).
Definition then_by {A} (f : A → string) (R : relation A) (a b : A) : Prop :=
  if decide (f a = f b) then R a b else String.le (f a) (f b).
#[export] Instance by_string_dec {A} (f : A → string) : RelDecision (by_string f).
Proof. intros a b. unfold by_string. apply _. Defined.
#[export] Instance then_by_dec {A} (f : A → string) R `{!RelDecision R} : RelDecision (then_by f R).
Proof. intros a b. unfold then_by. case_decide; apply _. Defined.

(** %04x of a number below 65536. *)
Definition hex_04 (z : Z) : string :=
  String.concat "" ((λ n, String (hex_digit (Z.land (Z.shiftr z n) 15)) "") <$> [12; 8; 4; 0]%Z).
(** [hex.EncodeToString]. *)
Fixpoint hex_encode (s : string) : string :=
  match s with
  | "" => ""
  | String c s' =>
      String (hex_digit (Z.shiftr (byte c) 4))
        (String (hex_digit (Z.land (byte c) 15)) (hex_encode s'))
  end.
Definition is_hex (c : ascii) : bool := is_digit c || in_range 97 102 c.

(** ** Package time *)

Definition min_int64 : Z := (- 2 ^ 63)%Z.
Definition max_int64 : Z := (2 ^ 63 - 1)%Z.
Definition Nanosecond : Z := 1.
Definition Millisecond : Z := 1000000.
Definition Second : Z := 1000000000.
Definition Minute : Z := (60 * Second)%Z.
Definition Hour : Z := (60 * Minute)%Z.

(** [t.After(u)], [t.Add(d)] and [t.Sub(u)], which saturates. *)
Definition After (t u : Z) : bool := (u <? t)%Z.
Definition Add (t d : Z) : Z := (t + d)%Z.
Definition Sub (t u : Z) : Z := Z.max min_int64 (Z.min max_int64 (t - u)).

(** ** Package encoding/base64, StdEncoding

    The offset in the text of a decoding error is left out. *)

Definition b64_char (v : Z) : ascii :=
  chr (if v <? 26 then v + 65 else if v <? 52 then v + 71 else if v <? 62 then v - 4
       else if v =? 62 then 43 else 47)%Z.
Definition b64_value (c : ascii) : option Z :=
  let z := byte c in
  if is_upper c then Some (z - 65)%Z else if is_lower c then Some (z - 71)%Z
  else if is_digit c then Some (z + 4)%Z
  else if (z =? 43)%Z then Some 62%Z else if (z =? 47)%Z then Some 63%Z else None.

Definition b64_pad : ascii := "="%char.

Fixpoint base64_encode (s : string) : string :=
  match s with
  | "" => ""
  | String a "" =>
      let v := (byte a * 16)%Z in
      String (b64_char (v / 64)) (String (b64_char (v mod 64)) (String b64_pad (String b64_pad "")))
  | String a (String b "") =>
      let v := ((byte a * 256 + byte b) * 4)%Z in
      String (b64_char (v / 4096)) (String (b64_char (v / 64 mod 64))
        (String (b64_char (v mod 64)) (String b64_pad "")))
  | String a (String b (String c r)) =>
      let v := ((byte a * 256 + byte b) * 256 + byte c)%Z in
      String (b64_char (v / 262144)) (String (b64_char (v / 4096 mod 64))
        (String (b64_char (v / 64 mod 64)) (String (b64_char (v mod 64)) (base64_encode r))))
  end.

(** One quantum; the last may end in one or two pads, whose spare bits are not
    checked (the encoding is not [Strict]). *)
Fixpoint b64_quanta (s : string) : option string :=
  match s with
  | "" => Some ""
  | String w (String x (String y (String z r))) =>
      w ← b64_value w; x ← b64_value x;
      if bool_decide (y = b64_pad) then
        if bool_decide (z = b64_pad) && bool_decide (r = "") then
          Some (String (chr ((w * 64 + x) / 16)) "")
        else None
      else
      y ← b64_value y;
      if bool_decide (z = b64_pad) then
        if bool_decide (r = "") then
          let v := (((w * 64 + x) * 64 + y) / 4)%Z in
          Some (String (chr (v / 256)) (String (chr (v mod 256)) ""))
        else None
      else
      z ← b64_value z;
      let v := (((w * 64 + x) * 64 + y) * 64 + z)%Z in
      r ← b64_quanta r;
      Some (String (chr (v / 65536)) (String (chr (v / 256 mod 256)) (String (chr (v mod 256)) r)))
  | _ => None
  end.

(** [DecodeString] skips line breaks anywhere in its input. *)
Fixpoint strip_newlines (s : string) : string :=
  match s with
  | "" => ""
  | String c s' =>
      if (byte c =? 10)%Z || (byte c =? 13)%Z then strip_newlines s'
      else String c (strip_newlines s')
  end.
Definition base64_decode (s : string) : option string := b64_quanta (strip_newlines s).

(** ** Facts about bytes *)

Lemma byte_range c : (0 ≤ byte c < 256)%Z.
Proof. unfold byte. pose proof (N_ascii_bounded c). lia. Qed.

Lemma chr_byte c : chr (byte c) = c.
Proof. unfold chr, byte. by rewrite N2Z.id, ascii_N_embedding. Qed.

Lemma byte_chr z : (0 ≤ z < 256)%Z → byte (chr z) = z.
Proof. intros. unfold chr, byte. rewrite N_ascii_embedding by lia. lia. Qed.

Lemma byte_inj c d : byte c = byte d → c = d.
Proof. intros Hcd. by rewrite <-(chr_byte c), Hcd, chr_byte. Qed.

Lemma in_range_spec lo hi c : in_range lo hi c = true ↔ (lo ≤ byte c ≤ hi)%Z.
Proof. unfold in_range. rewrite andb_true_iff, !Z.leb_le. lia. Qed.

Lemma lower_byte_spec c :
  byte (lower_byte c) = (if is_upper c then byte c + 32 else byte c)%Z.
Proof.
  unfold lower_byte. destruct (is_upper c) eqn:E; [|done].
  apply in_range_spec in E. rewrite byte_chr; lia.
Qed.

Lemma lower_byte_idem c : lower_byte (lower_byte c) = lower_byte c.
Proof.
  assert (is_upper (lower_byte c) = false) as E.
  { apply not_true_iff_false. unfold is_upper. rewrite in_range_spec, lower_byte_spec.
    destruct (is_upper c) eqn:E.
    - apply in_range_spec in E. lia.
    - intros ?%in_range_spec. unfold is_upper in E. congruence. }
  unfold lower_byte at 1. by rewrite E.
Qed.

(** ** Facts about strings *)

Lemma string_app_assoc (a b c : string) : (a +:+ b) +:+ c = a +:+ (b +:+ c).
Proof. induction a as [|x a IH]; [done|]. cbn. by f_equal. Qed.
Lemma string_app_nil_r (a : string) : a +:+ "" = a.
Proof. induction a as [|x a IH]; [done|]. cbn. by f_equal. Qed.
Lemma string_app_cons (x : ascii) (a b : string) : String x a +:+ b = String x (a +:+ b).
Proof. done. Qed.
Lemma string_app_inj_l (p a b : string) : p +:+ a = p +:+ b → a = b.
Proof. induction p as [|x p IH]; cbn; [done|]. intros [= ?]. auto. Qed.

Lemma sforall_app p a b : sforall p (a +:+ b) = sforall p a && sforall p b.
Proof. induction a as [|x a IH]; cbn; [done|]. by rewrite <-andb_assoc, IH. Qed.
Lemma sforall_impl (p q : ascii → bool) s :
  (∀ c, p c = true → q c = true) → sforall p s = true → sforall q s = true.
Proof.
  intros Hpq. induction s as [|c s IH]; cbn; [done|].
  rewrite !andb_true_iff. intuition auto.
Qed.

Lemma HasPrefix_spec s p : HasPrefix s p = true ↔ ∃ r, s = p +:+ r.
Proof.
  revert s. induction p as [|x p IH]; intros s; cbn.
  - split; [by exists s|done].
  - destruct s as [|y s]; [split; [done|by intros [? ?]]|].
    rewrite andb_true_iff, bool_decide_eq_true, IH. split.
    + intros [<- [r ->]]. by exists r.
    + intros [r [= -> ->]]. eauto.
Qed.
Lemma HasPrefix_app p s : HasPrefix (p +:+ s) p = true.
Proof. apply HasPrefix_spec. by exists s. Qed.

Lemma sdrop_app p s : sdrop (String.length p) (p +:+ s) = s.
Proof. by induction p. Qed.

Lemma sdrop_length n s : String.length (sdrop n s) = String.length s - n.
Proof. revert n. induction s as [|c s IH]; intros [|n]; cbn; by rewrite ?IH. Qed.

Lemma Cut_spec s c b a :
  Cut s c = (b, a, true) ↔ s = b +:+ String c a ∧ ContainsByte c b = false.
Proof.
  revert b. induction s as [|x s IH]; intros b; cbn.
  { split; [done|]. intros [Hs ?]. by destruct b. }
  case_bool_decide as Hx; [subst|].
  - split; [by intros [= <- <-]|]. intros [Hs Hb]. destruct b as [|y b]; cbn in *.
    + by simplify_eq.
    + simplify_eq. rewrite bool_decide_eq_true_2 in Hb; done.
  - destruct (Cut s c) as [[b' a'] ok] eqn:E. split.
    + intros [= <- <- ->]. destruct (proj1 (IH b') eq_refl) as [-> Hb']. cbn.
      by rewrite bool_decide_eq_false_2.
    + intros [Hs Hb]. destruct b as [|y b]; cbn in *; simplify_eq.
      rewrite bool_decide_eq_false_2 in Hb by done.
      by injection (proj2 (IH b) (conj eq_refl Hb)) as -> -> ->.
Qed.

Lemma ContainsByte_spec c s : ContainsByte c s = true ↔ ∃ b a, s = b +:+ String c a.
Proof.
  induction s as [|x s IH]; cbn.
  - split; [done|]. intros (b & a & Hs). by destruct b.
  - rewrite orb_true_iff, bool_decide_eq_true, IH. split.
    + intros [<-|(b & a & ->)]; [by exists "", s|by exists (String x b), a].
    + intros ([|y b] & a & Hs); cbn in *; simplify_eq; [by left|right; eauto].
Qed.

Lemma ContainsByte_app c a b : ContainsByte c (a +:+ b) = ContainsByte c a || ContainsByte c b.
Proof. induction a as [|x a IH]; cbn; [done|]. by rewrite <-orb_assoc, IH. Qed.

(** ** Substrings *)

Lemma sforall_no (p : ascii → bool) c s : sforall p s = true → p c = false → ContainsByte c s = false.
Proof.
  intros Hs Hc. induction s as [|d s IH]; cbn in *; [done|]. apply andb_true_iff in Hs as [Hd Hs].
  rewrite IH, orb_false_r by done. apply bool_decide_eq_false_2. intros ->. congruence.
Qed.

Lemma HasPrefix_sep a x b t : ContainsByte x t = false → HasPrefix (a +:+ String x b) t = HasPrefix a t.
Proof.
  revert a. induction t as [|y t IH]; intros [|z a]; cbn; try done;
    intros [Hy Ht]%orb_false_iff; [|by rewrite IH].
  rewrite bool_decide_eq_false_2; [done|]. apply bool_decide_eq_false in Hy. congruence.
Qed.
(** What lacks a byte occurs on one side of it. *)
Lemma Contains_sep a x b t : ContainsByte x t = false → Contains (a +:+ String x b) t = Contains a t || Contains b t.
Proof.
  intros Hx. induction a as [|y a IH].
  - pose proof (HasPrefix_sep "" x b t Hx) as Hp. cbn [String.append Contains] in *. by rewrite Hp, orb_false_r.
  - cbn [String.append Contains]. rewrite <- string_app_cons, HasPrefix_sep, IH by done.
    by rewrite orb_assoc.
Qed.
Lemma Contains_missing x s t : ContainsByte x t = true → ContainsByte x s = false → Contains s t = false.
Proof.
  intros Ht Hs. assert (∀ s, ContainsByte x s = false → HasPrefix s t = false) as Hp.
  { clear s Hs. intros s Hs. apply not_true_iff_false. intros [r ->]%HasPrefix_spec.
    rewrite ContainsByte_app, Ht in Hs. done. }
  induction s as [|y s IH]; cbn [Contains]; rewrite Hp by done; cbn; [done|].
  apply IH. by apply orb_false_iff in Hs as [_ Hs].
Qed.

Section unicode_facts.
Context `{GoUnicode}.

Lemma ToLower_ascii s : sforall is_ascii s = true → ToLower s = smap lower_byte s.
Proof. unfold ToLower. by intros ->. Qed.

(** On ASCII strings [EqualFold] is equality of the lowered strings. *)
Lemma EqualFold_ascii s t :
  sforall is_ascii s = true → sforall is_ascii t = true →
  EqualFold s t = bool_decide (smap lower_byte s = smap lower_byte t).
Proof.
  revert t. induction s as [|a s IH]; intros [|b t]; cbn; try done.
  rewrite !andb_true_iff. intros [-> Hs] [-> Ht]. cbn. rewrite (IH t) by done.
  repeat case_bool_decide; try done; congruence.
Qed.
End unicode_facts.

(** ** Facts about sorting *)

Section orders.
Context {A : Type} (f : A → string) (R : relation A).

#[export] Instance by_string_trans : Transitive (by_string f).
Proof. intros a b c. unfold by_string. apply (transitivity (R:=String.le)). Qed.
#[export] Instance by_string_total : Total (by_string f).
Proof. intros a b. apply (total String.le). Qed.
Lemma by_string_antisymm a b : by_string f a b → by_string f b a → f a = f b.
Proof. apply (anti_symm String.le). Qed.

#[export] Instance then_by_trans `{!Transitive R} : Transitive (then_by f R).
Proof.
  intros a b c. unfold then_by.
  destruct (decide (f a = f b)) as [->|Hab]; [case_decide; [apply transitivity|done]|]. intros Hle.
  destruct (decide (f b = f c)) as [<-|Hbc]; [by rewrite decide_False|]. intros Hle'.
  destruct (decide (f a = f c)) as [Hac|_]; [|by trans (f b)].
  exfalso. rewrite <-Hac in Hle'. by apply Hab, (anti_symm String.le).
Qed.
#[export] Instance then_by_total `{!Total R} : Total (then_by f R).
Proof.
  intros a b. unfold then_by. destruct (decide (f a = f b)) as [->|Hne].
  - rewrite decide_True by done. apply (total R).
  - rewrite decide_False by done. apply (total String.le).
Qed.
Lemma then_by_antisymm a b : then_by f R a b → then_by f R b a → f a = f b ∧ R a b ∧ R b a.
Proof.
  unfold then_by. destruct (decide (f a = f b)) as [Heq|Hne].
  - rewrite decide_True; auto.
  - rewrite decide_False by done. intros ??. by destruct Hne; apply (anti_symm String.le).
Qed.
End orders.

Lemma elem_of_merge_sort {A} (R : relation A) `{!RelDecision R} x l : x ∈ merge_sort R l ↔ x ∈ l.
Proof. by rewrite merge_sort_Permutation. Qed.
Lemma elem_of_SortStrings p l : p ∈ SortStrings l ↔ p ∈ l.
Proof. apply elem_of_merge_sort. Qed.

(** ** Facts about paths *)

(** A string splits at its first separator in one way. *)
Lemma split_first_inj c a a' x y :
  ContainsByte c a = false → ContainsByte c a' = false →
  a +:+ String c x = a' +:+ String c y → a = a' ∧ x = y.
Proof.
  intros Ha Ha' Heq.
  pose proof (proj2 (Cut_spec (a +:+ String c x) c a x) (conj eq_refl Ha)) as H1.
  rewrite Heq in H1. pose proof (proj2 (Cut_spec (a' +:+ String c y) c a' y) (conj eq_refl Ha')) as H2.
  rewrite H2 in H1. by injection H1.
Qed.

(** Hexadecimal text: lowercase already, and ASCII. *)
Definition hex_string (s : string) : bool := sforall is_hex s.

Lemma is_hex_spec c :
  is_hex c = true ↔ (48 ≤ byte c ≤ 57)%Z ∨ (97 ≤ byte c ≤ 102)%Z.
Proof. unfold is_hex, is_digit. rewrite orb_true_iff, !in_range_spec. done. Qed.

Lemma is_hex_lower c : is_hex c = true → lower_byte c = c.
Proof.
  intros Hc%is_hex_spec. unfold lower_byte. destruct (is_upper c) eqn:E; [|done].
  apply in_range_spec in E. lia.
Qed.
Lemma is_hex_ascii c : is_hex c = true → is_ascii c = true.
Proof. intros Hc%is_hex_spec. unfold is_ascii. apply Z.ltb_lt. lia. Qed.

Lemma hex_string_ascii s : hex_string s = true → sforall is_ascii s = true.
Proof. apply sforall_impl, is_hex_ascii. Qed.

Lemma hex_string_lower s : hex_string s = true → smap lower_byte s = s.
Proof.
  unfold hex_string. induction s as [|c s IH]; cbn; [done|].
  intros [Hc Hs]%andb_true_iff. by rewrite is_hex_lower, IH.
Qed.

Lemma hex_digit_is_hex z : (0 ≤ z < 16)%Z → is_hex (hex_digit z) = true.
Proof.
  intros Hz. apply is_hex_spec. unfold hex_digit.
  destruct (Z.ltb_spec z 10); rewrite byte_chr; lia.
Qed.

Lemma hex_encode_hex s : hex_string (hex_encode s) = true.
Proof.
  unfold hex_string. induction s as [|c s IH]; cbn [hex_encode sforall]; [done|].
  pose proof (byte_range c). rewrite !andb_true_iff; repeat split; [| |done].
  - apply hex_digit_is_hex. rewrite Z.shiftr_div_pow2 by lia. change (2 ^ 4)%Z with 16%Z.
    Z.to_euclidean_division_equations; lia.
  - apply hex_digit_is_hex. change 15%Z with (Z.ones 4).
    rewrite Z.land_ones by lia. change (2 ^ 4)%Z with 16%Z.
    Z.to_euclidean_division_equations; lia.
Qed.
Lemma hex_encode_length s : String.length (hex_encode s) = 2 * String.length s.
Proof. induction s as [|c s IH]; cbn [hex_encode String.length]; [done|]. rewrite IH. lia. Qed.

(** ** Facts about trimming *)

(** A byte that is neither white space nor part of a longer rune. *)
Definition is_graph : ascii → bool := in_range 33 126.
Definition graph_string (s : string) : bool := sforall is_graph s.

Lemma is_hex_graph c : is_hex c = true → is_graph c = true.
Proof. intros Hc%is_hex_spec. apply in_range_spec. lia. Qed.
Lemma hex_string_graph s : hex_string s = true → graph_string s = true.
Proof. apply sforall_impl, is_hex_graph. Qed.

Lemma graph_not_space a : is_graph a = true →
  space1 a = false ∧ (∀ b, space2 a b = false ∧ space2 b a = false) ∧
  ∀ b c, space3 a b c = false ∧ space3 b c a = false.
Proof.
  intros Ha%in_range_spec.
  assert (∀ k, (128 ≤ k)%Z → (byte a =? k)%Z = false) as Hk by (intros; apply Z.eqb_neq; lia).
  assert ((128 <=? byte a)%Z = false) as Hle by (apply Z.leb_gt; lia).
  split_and!.
  - unfold space1. apply orb_false_iff. split; [apply not_true_iff_false; intros ?%in_range_spec; lia|].
    apply bool_decide_eq_false. intros ->. change (byte " "%char) with 32%Z in Ha. lia.
  - intros b. unfold space2. rewrite !(Hk 194%Z), !(Hk 133%Z), !(Hk 160%Z) by lia.
    split; [done|by rewrite andb_false_r].
  - intros b c. unfold space3. cbn zeta.
    rewrite !(Hk 225%Z), !(Hk 226%Z), !(Hk 227%Z), !(Hk 128%Z), !(Hk 168%Z), !(Hk 169%Z), !(Hk 175%Z),
      !(Hk 159%Z), Hle by lia.
    split; [done|]. by rewrite !andb_false_r.
Qed.

Lemma trim_left_graph a s : is_graph a = true → trim_left (String a s) = String a s.
Proof.
  intros (H1 & H2 & H3)%graph_not_space. cbn [trim_left]. rewrite H1.
  destruct s as [|b s]; [done|]. rewrite (proj1 (H2 b)). destruct s as [|c s]; [done|].
  by rewrite (proj1 (H3 b c)).
Qed.
Lemma trim_rev_graph a s : is_graph a = true → trim_rev (String a s) = String a s.
Proof.
  intros (H1 & H2 & H3)%graph_not_space. cbn [trim_rev]. rewrite H1.
  destruct s as [|b s]; [done|]. rewrite (proj2 (H2 b)). destruct s as [|c s]; [done|].
  by rewrite (proj2 (H3 c b)).
Qed.

Lemma srev_app_spec s acc : srev_app s acc = srev s +:+ acc.
Proof.
  unfold srev. revert acc. induction s as [|c s IH]; intros acc; cbn [srev_app]; [done|].
  rewrite IH, (IH (String c "")), string_app_assoc. done.
Qed.
Lemma srev_cons c s : srev (String c s) = srev s +:+ String c "".
Proof. unfold srev at 1. cbn [srev_app]. apply srev_app_spec. Qed.
Lemma srev_append a b : srev (a +:+ b) = srev b +:+ srev a.
Proof.
  induction a as [|c a IH]; cbn [String.append]; [by rewrite string_app_nil_r|].
  by rewrite !srev_cons, IH, string_app_assoc.
Qed.
Lemma srev_involutive s : srev (srev s) = s.
Proof. induction s as [|c s IH]; [done|]. rewrite srev_cons, srev_append, IH. done. Qed.
Lemma sforall_srev p s : sforall p (srev s) = sforall p s.
Proof.
  induction s as [|c s IH]; [done|]. rewrite srev_cons, sforall_app, IH. cbn.
  by rewrite andb_true_r, andb_comm.
Qed.

Lemma TrimSpace_graph s : graph_string s = true → TrimSpace s = s.
Proof.
  unfold graph_string, TrimSpace. intros Hs. destruct s as [|c s]; [done|].
  assert (is_graph c = true) as Hc by by apply andb_true_iff in Hs as [? _].
  rewrite trim_left_graph by done. rewrite <-sforall_srev in Hs.
  destruct (srev (String c s)) as [|d r] eqn:E; [by rewrite srev_cons in E; destruct (srev s)|].
  cbn in Hs. apply andb_true_iff in Hs as [Hd _]. rewrite trim_rev_graph by done.
  by rewrite <-E, srev_involutive.
Qed.

(** A line of printable text is itself without its line end. *)
Lemma TrimSpace_line s : graph_string s = true → TrimSpace (s +:+ lf_string) = s.
Proof.
  intros Hs. destruct s as [|c s]; [done|].
  pose proof (TrimSpace_graph _ Hs) as Ht. unfold graph_string in Hs. cbn in Hs.
  apply andb_true_iff in Hs as [Hc _]. unfold TrimSpace in *. cbn [String.append].
  rewrite trim_left_graph in * by done.
  change (String c (s +:+ lf_string)) with (String c s +:+ lf_string). by rewrite srev_append.
Qed.

Lemma EqualFold_hex `{GoUnicode} s t :
  hex_string s = true → hex_string t = true → EqualFold s t = bool_decide (s = t).
Proof.
  intros Hs Ht. rewrite EqualFold_ascii by by apply hex_string_ascii. by rewrite !hex_string_lower.
Qed.
Lemma ToLower_hex `{GoUnicode} s : hex_string s = true → ToLower s = s.
Proof. intros Hs. rewrite ToLower_ascii by by apply hex_string_ascii. by apply hex_string_lower. Qed.

(** ** base64 round trip *)

Lemma below_64 (P : Z → Prop) `{∀ v, Decision (P v)} :
  forallb (λ n, bool_decide (P (Z.of_nat n))) (seq 0 64) = true → ∀ v, (0 ≤ v < 64)%Z → P v.
Proof.
  intros Hall v Hv. rewrite forallb_forall in Hall. specialize (Hall (Z.to_nat v)).
  rewrite Z2Nat.id in Hall by lia. apply (bool_decide_eq_true (P v)), Hall, in_seq. lia.
Qed.

Lemma b64_value_char v : (0 ≤ v < 64)%Z → b64_value (b64_char v) = Some v.
Proof. revert v. apply (below_64 (λ v, b64_value (b64_char v) = Some v)). by vm_compute. Qed.
Lemma b64_char_not_pad v : (0 ≤ v < 64)%Z → bool_decide (b64_char v = b64_pad) = false.
Proof. revert v. apply (below_64 (λ v, bool_decide (b64_char v = b64_pad) = false)). by vm_compute. Qed.
Lemma b64_char_not_newline v :
  (0 ≤ v < 64)%Z → (byte (b64_char v) =? 10)%Z || (byte (b64_char v) =? 13)%Z = false.
Proof.
  revert v. apply (below_64 (λ v, (byte (b64_char v) =? 10)%Z || (byte (b64_char v) =? 13)%Z = false)).
  by vm_compute.
Qed.

(** Induction three bytes at a time. *)
Lemma triple_ind (P : string → Prop) :
  P "" → (∀ a, P (String a "")) → (∀ a b, P (String a (String b ""))) →
  (∀ a b c r, P r → P (String a (String b (String c r)))) → ∀ s, P s.
Proof.
  intros H0 H1 H2 H3.
  assert (∀ s, P s ∧ (∀ a, P (String a s)) ∧ ∀ a b, P (String a (String b s))) as Hall; [|apply Hall].
  induction s as [|c s (IH1 & IH2 & IH3)]; [by auto|]. split_and!; auto.
Qed.

Ltac sextets :=
  repeat match goal with c : ascii |- _ =>
    lazymatch goal with _ : (0 ≤ byte c < 256)%Z |- _ => fail | _ => pose proof (byte_range c) end end;
  Z.to_euclidean_division_equations; lia.

Lemma strip_base64 s : strip_newlines (base64_encode s) = base64_encode s.
Proof.
  induction s as [|a|a b|a b c r IH] using triple_ind; [done|..]; cbn [base64_encode strip_newlines];
    rewrite !b64_char_not_newline by sextets;
    change ((byte b64_pad =? 10)%Z || (byte b64_pad =? 13)%Z) with false; cbn [strip_newlines]; [done..|].
  by rewrite IH.
Qed.

Lemma chr_eq v c : v = byte c → chr v = c.
Proof. intros ->. apply chr_byte. Qed.

Lemma b64_quanta_encode s : b64_quanta (base64_encode s) = Some s.
Proof.
  induction s as [|a|a b|a b c r IH] using triple_ind; [done|..]; cbn [base64_encode b64_quanta].
  - rewrite !b64_value_char by sextets. cbn [mbind option_bind].
    rewrite !bool_decide_eq_true_2 by done. cbn [andb]. do 2 f_equal. apply chr_eq. sextets.
  - rewrite !b64_value_char by sextets. cbn [mbind option_bind].
    rewrite b64_char_not_pad by sextets. rewrite !bool_decide_eq_true_2 by done. cbn zeta.
    rewrite !(chr_eq _ a) by sextets. do 3 f_equal. apply chr_eq. sextets.
  - rewrite !b64_value_char by sextets. cbn [mbind option_bind].
    rewrite !b64_char_not_pad by sextets. cbn zeta. rewrite IH. cbn [mbind option_bind].
    set (v := (_ + _)%Z).
    assert (v = (byte a * 256 + byte b) * 256 + byte c)%Z as -> by (unfold v; sextets).
    rewrite !(chr_eq _ a), !(chr_eq _ b), !(chr_eq _ c) by sextets. done.
Qed.

Lemma base64_roundtrip s : base64_decode (base64_encode s) = Some s.
Proof. unfold base64_decode. by rewrite strip_base64, b64_quanta_encode. Qed.

Lemma base64_encode_empty s : base64_encode s = "" ↔ s = "".
Proof. split; [|by intros ->]. destruct s as [|a [|b [|c s]]]; done. Qed.
