(* ===== verification/Tokens.v ===== *)
(** * The IMDSv2 token store (imds/token.go)

    [TokenStore] keeps the live tokens by value and, per minting peer, in the
    order they were stored. Every method runs under [ts.mu], so each is one
    atomic step; the clock reading and the random bytes it uses are its
    arguments. *)

From S2P Require Import Prelude.
From S2P Require Import Go.

Definition MaxLiveTokensPerPeer : Z := 32.
Definition GlobalTokenEmergencyCap : Z := 65536.

(** [Token]; the field [Token] is called [Value] here. *)
Record Token := mkToken {
  Value : string;
  ExpiresAt : Z;
  CreatedAt : Z;
  Peer : string;
}.

Record TokenStore := mkTokenStore {
  tokens : gmap string Token;
  byPeer : gmap string (list Token);
  liveCount : Z;
  emergencyBrake : bool;
  tokenTTL : Z;
}.

Inductive GenerateError := ErrRandom | ErrTokenStoreEmergency.

#[export] Instance Token_eq_dec : EqDecision Token.
Proof. solve_decision. Defined.
#[export] Instance GenerateError_eq_dec : EqDecision GenerateError.
Proof. solve_decision. Defined.

(** [NewTokenStore], after [ParseDuration] of the configured TTL. *)
Definition NewTokenStore (ttl : Z) : TokenStore := mkTokenStore ∅ ∅ 0 false ttl.

(** ** Operations *)

(** The loop of [prunePeerExpiredLocked]: the tokens kept, and what is left of
    [ts.tokens] and [ts.liveCount]. *)
Fixpoint prune_loop (now : Z) (list : list Token) (m : gmap string Token) (n : Z)
    : Datatypes.list Token * gmap string Token * Z :=
  match list with
  | [] => ([], m, n)
  | tok :: rest =>
      if After now (ExpiresAt tok) then prune_loop now rest (delete (Value tok) m) (n - 1)
      else let '(kept, m', n') := prune_loop now rest m n in (tok :: kept, m', n')
  end.

Definition prunePeerExpiredLocked (peer : string) (now : Z) (ts : TokenStore) : TokenStore :=
  match byPeer ts !! peer with
  | None | Some [] => ts
  | Some list =>
      let '(kept, m, n) := prune_loop now list (tokens ts) (liveCount ts) in
      mkTokenStore m
        (match kept with [] => delete peer (byPeer ts) | _ => <[peer := kept]> (byPeer ts) end)
        n (emergencyBrake ts) (tokenTTL ts)
  end.

(** The loop of [evictOldestOfPeerLocked]. *)
Fixpoint evict_loop (keep : Z) (list : list Token) (m : gmap string Token) (n : Z)
    : Datatypes.list Token * gmap string Token * Z :=
  match list with
  | [] => ([], m, n)
  | oldest :: rest =>
      if (keep <? Z.of_nat (length list))%Z
      then evict_loop keep rest (delete (Value oldest) m) (n - 1)
      else (list, m, n)
  end.

Definition evictOldestOfPeerLocked (peer : string) (keep : Z) (ts : TokenStore) : TokenStore :=
  let keep := if (keep <? 0)%Z then 0%Z else keep in
  let list := default [] (byPeer ts !! peer) in
  let '(kept, m, n) := evict_loop keep list (tokens ts) (liveCount ts) in
  mkTokenStore m
    (match kept with [] => delete peer (byPeer ts) | _ => <[peer := kept]> (byPeer ts) end)
    n (emergencyBrake ts) (tokenTTL ts).

Definition set_brake (b : bool) (ts : TokenStore) : TokenStore :=
  mkTokenStore (tokens ts) (byPeer ts) (liveCount ts) b (tokenTTL ts).

Definition store_token (tok : Token) (ts : TokenStore) : TokenStore :=
  mkTokenStore (<[Value tok := tok]> (tokens ts))
    (<[Peer tok := default [] (byPeer ts !! Peer tok) ++ [tok]]> (byPeer ts))
    (liveCount ts + 1) (emergencyBrake ts) (tokenTTL ts).

(** [generateTokenAt]; [rnd] is what [rand.Read] filled the buffer with, [None]
    when it failed. *)
Definition generateTokenAt (peer : string) (now : Z) (rnd : option string) (ts : TokenStore)
    : TokenStore * outcome GenerateError Token :=
  let peer := if bool_decide (peer = "") then "unknown" else peer in
  match rnd with
  | None => (ts, Err ErrRandom)
  | Some b =>
      let token := mkToken (base64_encode b) (Add now (tokenTTL ts)) now peer in
      let ts := prunePeerExpiredLocked peer now ts in
      let ts := evictOldestOfPeerLocked peer (MaxLiveTokensPerPeer - 1) ts in
      if (GlobalTokenEmergencyCap <=? liveCount ts)%Z
      then (set_brake true ts, Err ErrTokenStoreEmergency)
      else (store_token token (set_brake false ts), Ok token)
  end.

(** [discardExpiredLocked] ranges over the map [byPeer]: [order] is the order in
    which the runtime yields its keys. *)
Definition discardExpiredLocked (order : list string) (now : Z) (ts : TokenStore) : TokenStore :=
  foldl (fun ts peer => prunePeerExpiredLocked peer now ts) ts order.

Definition ValidateToken (now : Z) (tokenStr : string) (ts : TokenStore) : bool :=
  match tokens ts !! tokenStr with
  | None => false
  | Some token => if After now (ExpiresAt token) then false else true
  end.

Definition LiveTokenCount (order : list string) (now : Z) (ts : TokenStore) : TokenStore * Z :=
  let ts := discardExpiredLocked order now ts in (ts, liveCount ts).

Definition LiveTokenCountForPeer (peer : string) (now : Z) (ts : TokenStore) : TokenStore * Z :=
  let ts := prunePeerExpiredLocked peer now ts in
  (ts, Z.of_nat (length (default [] (byPeer ts !! peer)))).

(** One turn of the loop of [cleanupExpired]. *)
Definition cleanupExpired (order : list string) (now : Z) (ts : TokenStore) : TokenStore :=
  let ts := discardExpiredLocked order now ts in
  if (liveCount ts <? GlobalTokenEmergencyCap)%Z then set_brake false ts else ts.

(** ** What the two loops compute *)

Fixpoint delete_all (rem : list Token) (m : gmap string Token) : gmap string Token :=
  match rem with [] => m | tok :: rem => delete_all rem (delete (Value tok) m) end.

Definition set_peer (peer : string) (kept : list Token) (bp : gmap string (list Token))
    : gmap string (list Token) :=
  match kept with [] => delete peer bp | _ => <[peer := kept]> bp end.

(** The store after [peer]'s list was cut down to [kept] by dropping [rem]. *)
Definition drop_tokens (peer : string) (kept rem : list Token) (ts : TokenStore) : TokenStore :=
  mkTokenStore (delete_all rem (tokens ts)) (set_peer peer kept (byPeer ts))
    (liveCount ts - Z.of_nat (length rem)) (emergencyBrake ts) (tokenTTL ts).

Definition peer_tokens (ts : TokenStore) (peer : string) : list Token :=
  default [] (byPeer ts !! peer).

Definition live (now : Z) (tok : Token) : Prop := After now (ExpiresAt tok) = false.
#[export] Instance live_dec now tok : Decision (live now tok).
Proof. unfold live. apply _. Defined.
#[export] Hint Unfold live : mds.

Lemma delete_all_lookup rem m v :
  delete_all rem m !! v = if decide (v ∈ Value <$> rem) then None else m !! v.
Proof.
  revert m. induction rem as [|tok rem IH]; intros m; cbn.
  - by rewrite decide_False by (apply not_elem_of_nil).
  - rewrite IH. destruct (decide (v ∈ Value <$> rem)) as [Hin|Hnin].
    + by rewrite decide_True by (by right).
    + rewrite lookup_delete. destruct (decide (Value tok = v)) as [<-|Hne].
      * by rewrite decide_True by (by left).
      * rewrite decide_False; [done|]. rewrite elem_of_cons. intros [->|]; done.
Qed.

Lemma delete_all_size rem m :
  NoDup (Value <$> rem) → (∀ tok, tok ∈ rem → m !! Value tok = Some tok) →
  Z.of_nat (size (delete_all rem m)) = (Z.of_nat (size m) - Z.of_nat (length rem))%Z.
Proof.
  revert m. induction rem as [|tok rem IH]; intros m Hnd Hin; cbn; [lia|].
  apply NoDup_cons in Hnd as [Hnot Hnd].
  rewrite IH; [|done|].
  - rewrite map_size_delete_Some by (eexists; apply Hin; by left).
    assert (size m ≠ 0) as Hsz.
    { apply map_size_ne_0_lookup. exists (Value tok). eexists; apply Hin; by left. }
    lia.
  - intros tok' Hin'. rewrite lookup_delete_ne; [apply Hin; by right|].
    intros Heq. apply Hnot. rewrite Heq. by apply list_elem_of_fmap_2.
Qed.

Lemma prune_loop_spec now l m n :
  prune_loop now l m n =
    (filter (live now) l, delete_all (filter (λ tok, ¬ live now tok) l) m,
     (n - Z.of_nat (length (filter (λ tok, ¬ live now tok) l)))%Z).
Proof.
  revert m n. induction l as [|tok l IH]; intros m n; cbn [prune_loop].
  { cbn. f_equal. lia. }
  rewrite !filter_cons. destruct (decide (live now tok)) as [Hl|Hl].
  - rewrite decide_False by (intros H; by apply H). unfold live in Hl. by rewrite Hl, IH.
  - rewrite decide_True by done. unfold live in Hl. apply not_false_iff_true in Hl.
    rewrite Hl, IH. cbn [delete_all length]. f_equal. lia.
Qed.

Lemma evict_loop_spec keep l m n :
  (0 ≤ keep)%Z →
  let k := length l - Z.to_nat keep in
  evict_loop keep l m n = (drop k l, delete_all (take k l) m, (n - Z.of_nat k)%Z).
Proof.
  intros Hkeep. revert m n. induction l as [|tok l IH]; intros m n; cbn [evict_loop length].
  { cbn. f_equal. lia. }
  destruct (Z.ltb_spec keep (Z.of_nat (S (length l)))).
  - rewrite IH. replace (S (length l) - Z.to_nat keep) with (S (length l - Z.to_nat keep)) by lia.
    cbn [drop take delete_all]. f_equal. lia.
  - replace (S (length l) - Z.to_nat keep) with 0 by lia. cbn. f_equal. lia.
Qed.

Lemma prune_drop peer now ts :
  peer_tokens ts peer ≠ [] →
  prunePeerExpiredLocked peer now ts =
    drop_tokens peer (filter (live now) (peer_tokens ts peer))
      (filter (λ tok, ¬ live now tok) (peer_tokens ts peer)) ts.
Proof.
  unfold prunePeerExpiredLocked, peer_tokens.
  destruct (byPeer ts !! peer) as [[|tok l]|]; cbn [default]; [done| |done].
  intros _. by rewrite prune_loop_spec.
Qed.

Lemma prune_nil peer now ts :
  peer_tokens ts peer = [] → prunePeerExpiredLocked peer now ts = ts.
Proof.
  unfold prunePeerExpiredLocked, peer_tokens.
  by destruct (byPeer ts !! peer) as [[|tok l]|].
Qed.

Lemma evict_drop peer keep ts :
  (0 ≤ keep)%Z →
  let l := peer_tokens ts peer in let k := length l - Z.to_nat keep in
  evictOldestOfPeerLocked peer keep ts = drop_tokens peer (drop k l) (take k l) ts.
Proof.
  intros Hkeep. unfold evictOldestOfPeerLocked.
  destruct (Z.ltb_spec keep 0); [lia|].
  fold (peer_tokens ts peer). rewrite evict_loop_spec by done.
  unfold drop_tokens. rewrite length_take. repeat f_equal. lia.
Qed.

(** ** The invariant *)

(** The two indexes hold the same tokens, no peer's list is empty or longer
    than its quota, and [liveCount] is the number of tokens, within the cap. *)
Record store_wf (ts : TokenStore) : Prop := {
  wf_peer : ∀ peer l, byPeer ts !! peer = Some l →
    l ≠ [] ∧ NoDup (Value <$> l) ∧ (Z.of_nat (length l) ≤ MaxLiveTokensPerPeer)%Z ∧
    ∀ tok, tok ∈ l → Peer tok = peer ∧ tokens ts !! Value tok = Some tok;
  wf_token : ∀ v tok, tokens ts !! v = Some tok →
    Value tok = v ∧ tok ∈ peer_tokens ts (Peer tok);
  wf_count : liveCount ts = Z.of_nat (size (tokens ts));
  wf_cap : (liveCount ts ≤ GlobalTokenEmergencyCap)%Z;
}.

Lemma wf_peer_tokens ts peer tok :
  store_wf ts → tok ∈ peer_tokens ts peer →
  Peer tok = peer ∧ tokens ts !! Value tok = Some tok.
Proof.
  unfold peer_tokens. intros Hwf Hin. destruct (byPeer ts !! peer) as [l|] eqn:E; cbn in Hin.
  - by apply (wf_peer ts Hwf peer l E).
  - by apply not_elem_of_nil in Hin.
Qed.

Lemma wf_peer_nodup ts peer : store_wf ts → NoDup (Value <$> peer_tokens ts peer).
Proof.
  unfold peer_tokens. intros Hwf. destruct (byPeer ts !! peer) as [l|] eqn:E; cbn.
  - by apply (wf_peer ts Hwf peer l E).
  - apply NoDup_nil_2.
Qed.

Lemma wf_peer_length ts peer :
  store_wf ts → (Z.of_nat (length (peer_tokens ts peer)) ≤ MaxLiveTokensPerPeer)%Z.
Proof.
  unfold peer_tokens. intros Hwf. destruct (byPeer ts !! peer) as [l|] eqn:E; cbn.
  - by apply (wf_peer ts Hwf peer l E).
  - unfold MaxLiveTokensPerPeer. lia.
Qed.

Lemma set_peer_lookup peer kept bp peer' :
  set_peer peer kept bp !! peer' =
    if decide (peer = peer') then match kept with [] => None | _ => Some kept end
    else bp !! peer'.
Proof.
  destruct kept; cbn; rewrite ?lookup_delete, ?lookup_insert; by case_decide.
Qed.

Lemma peer_tokens_drop peer kept rem ts peer' :
  peer_tokens (drop_tokens peer kept rem ts) peer' =
    if decide (peer = peer') then kept else peer_tokens ts peer'.
Proof.
  unfold peer_tokens. cbn. rewrite set_peer_lookup. case_decide; [by destruct kept|done].
Qed.

(** Dropping part of a peer's list: what the other index loses. *)
Lemma drop_tokens_lookup peer kept rem ts v tok :
  store_wf ts → kept ++ rem ≡ₚ peer_tokens ts peer →
  tokens (drop_tokens peer kept rem ts) !! v = Some tok ↔
    tokens ts !! v = Some tok ∧ tok ∉ rem.
Proof.
  intros Hwf Hperm. cbn. rewrite delete_all_lookup. case_decide as Hv.
  - split; [done|]. intros [Htok Hnin]. exfalso.
    apply list_elem_of_fmap in Hv as (tok' & -> & Hin).
    assert (tok' ∈ peer_tokens ts peer) as Hin' by (rewrite <-Hperm; set_solver).
    apply (wf_peer_tokens _ _ _ Hwf) in Hin' as [_ Htok'].
    rewrite Htok in Htok'. by simplify_eq.
  - split; [|by intros []]. intros Htok. split; [done|]. intros Hin. apply Hv.
    apply (wf_token _ Hwf) in Htok as [<- _]. by apply list_elem_of_fmap_2.
Qed.

Lemma drop_tokens_wf peer kept rem ts :
  store_wf ts → kept ++ rem ≡ₚ peer_tokens ts peer → store_wf (drop_tokens peer kept rem ts).
Proof.
  intros Hwf Hperm.
  assert (NoDup (Value <$> kept ++ rem)) as Hnd by (rewrite Hperm; by apply wf_peer_nodup).
  rewrite fmap_app, NoDup_app in Hnd. destruct Hnd as (Hk & Hdisj & Hr).
  assert (∀ tok, tok ∈ kept ++ rem → Peer tok = peer ∧ tokens ts !! Value tok = Some tok) as Hin.
  { intros tok. rewrite Hperm. by apply wf_peer_tokens. }
  split.
  - intros peer' l. cbn [byPeer drop_tokens]. rewrite set_peer_lookup. case_decide as Hp.
    + subst peer'. intros Hl. assert (l = kept ∧ kept ≠ []) as [-> Hne].
      { destruct kept; by simplify_eq. }
      split_and!; [done|done| |].
      * pose proof (wf_peer_length _ peer Hwf) as Hlen.
        rewrite <-Hperm, length_app in Hlen. lia.
      * intros tok Htok. destruct (Hin tok) as [? ?]; [set_solver|]. split; [done|].
        rewrite drop_tokens_lookup by done. split; [done|]. intros Hrem.
        eapply Hdisj; by apply list_elem_of_fmap_2.
    + intros Hl. destruct (wf_peer _ Hwf peer' l Hl) as (? & ? & ? & Hall).
      split_and!; [done..|]. intros tok Htok. destruct (Hall tok Htok) as [Hp' Htk].
      split; [done|]. rewrite drop_tokens_lookup by done. split; [done|].
      intros Hrem. destruct (Hin tok) as [? ?]; [set_solver|congruence].
  - intros v tok. rewrite drop_tokens_lookup by done. intros [Htk Hnin].
    destruct (wf_token _ Hwf v tok Htk) as [Hv Hmem]. split; [done|].
    rewrite peer_tokens_drop. case_decide as Hp; [|done].
    rewrite <-Hp, <-Hperm in Hmem. set_solver.
  - cbn. rewrite delete_all_size, (wf_count _ Hwf); [lia|done|].
    intros tok Htok. apply Hin. set_solver.
  - cbn. pose proof (wf_cap _ Hwf). lia.
Qed.

Lemma filter_split_perm {A} (P : A → Prop) `{∀ x, Decision (P x)} (l : list A) :
  filter P l ++ filter (λ x, ¬ P x) l ≡ₚ l.
Proof.
  induction l as [|x l IH]; [done|]. rewrite !filter_cons. destruct (decide (P x)).
  - rewrite decide_False by tauto. cbn. by rewrite IH.
  - rewrite decide_True by done. by rewrite <-Permutation_middle, IH.
Qed.

Lemma take_drop_perm {A} n (l : list A) : drop n l ++ take n l ≡ₚ l.
Proof. by rewrite Permutation_app_comm, take_drop. Qed.

Lemma prune_wf peer now ts : store_wf ts → store_wf (prunePeerExpiredLocked peer now ts).
Proof.
  intros Hwf. destruct (decide (peer_tokens ts peer = [])) as [Hnil|Hne].
  - by rewrite prune_nil.
  - rewrite prune_drop by done. apply drop_tokens_wf; [done|]. apply filter_split_perm.
Qed.

Lemma evict_wf peer keep ts :
  (0 ≤ keep)%Z → store_wf ts → store_wf (evictOldestOfPeerLocked peer keep ts).
Proof.
  intros Hkeep Hwf. rewrite evict_drop by done. apply drop_tokens_wf; [done|].
  apply take_drop_perm.
Qed.

Lemma set_brake_wf b ts : store_wf ts → store_wf (set_brake b ts).
Proof. by intros []. Qed.

Lemma discard_wf order now ts :
  store_wf ts → store_wf (discardExpiredLocked order now ts).
Proof.
  unfold discardExpiredLocked. revert ts.
  induction order as [|peer order IH]; intros ts Hwf; cbn; [done|].
  apply IH. by apply prune_wf.
Qed.

#[export] Hint Resolve prune_wf evict_wf set_brake_wf discard_wf : mds.

Lemma peer_tokens_prune peer now ts peer' :
  peer_tokens (prunePeerExpiredLocked peer now ts) peer' =
    if decide (peer = peer') then filter (live now) (peer_tokens ts peer')
    else peer_tokens ts peer'.
Proof.
  destruct (decide (peer_tokens ts peer = [])) as [Hnil|Hne].
  - rewrite prune_nil by done. case_decide; [subst; by rewrite Hnil|done].
  - rewrite prune_drop by done. rewrite peer_tokens_drop. case_decide; by subst.
Qed.

Lemma peer_tokens_evict peer keep ts peer' :
  (0 ≤ keep)%Z →
  peer_tokens (evictOldestOfPeerLocked peer keep ts) peer' =
    if decide (peer = peer')
    then drop (length (peer_tokens ts peer) - Z.to_nat keep) (peer_tokens ts peer)
    else peer_tokens ts peer'.
Proof. intros. by rewrite evict_drop, peer_tokens_drop. Qed.

Lemma peer_tokens_store tok ts peer :
  peer_tokens (store_token tok ts) peer =
    if decide (Peer tok = peer) then peer_tokens ts peer ++ [tok] else peer_tokens ts peer.
Proof.
  unfold peer_tokens, store_token. cbn. rewrite lookup_insert. by case_decide; subst.
Qed.

Lemma peer_tokens_set_brake b ts peer : peer_tokens (set_brake b ts) peer = peer_tokens ts peer.
Proof. done. Qed.

(** In a well-formed store a token is in one index iff it is in the other. *)
Lemma tokens_iff ts v tok :
  store_wf ts → tokens ts !! v = Some tok ↔ Value tok = v ∧ tok ∈ peer_tokens ts (Peer tok).
Proof.
  intros Hwf. split; [by apply wf_token|]. intros [<- Hin].
  by apply (wf_peer_tokens _ _ _ Hwf) in Hin as [_ ?].
Qed.

Lemma store_token_wf tok ts :
  store_wf ts → tokens ts !! Value tok = None →
  (Z.of_nat (length (peer_tokens ts (Peer tok))) < MaxLiveTokensPerPeer)%Z →
  (liveCount ts < GlobalTokenEmergencyCap)%Z →
  store_wf (store_token tok ts).
Proof.
  intros Hwf Hfresh Hlen Hcap.
  assert (∀ tok', tokens ts !! Value tok' = Some tok' → tokens (store_token tok ts) !! Value tok' = Some tok') as Hold.
  { intros tok' Ht. cbn. rewrite lookup_insert_ne; [done|]. intros Heq. congruence. }
  split.
  - intros peer l. cbn [byPeer store_token]. rewrite lookup_insert. case_decide as Hp.
    + intros [= <-]. subst peer. fold (peer_tokens ts (Peer tok)).
      pose proof (wf_peer_nodup ts (Peer tok) Hwf) as Hnd.
      split_and!.
      * by destruct (peer_tokens ts (Peer tok)).
      * rewrite fmap_app. cbn. apply NoDup_app. split_and!; [done| |apply NoDup_singleton].
        intros v Hv ->%list_elem_of_singleton. apply list_elem_of_fmap in Hv as (tok' & Heq & Hin).
        apply (wf_peer_tokens _ _ _ Hwf) in Hin as [_ Ht]. congruence.
      * rewrite length_app. cbn. lia.
      * intros tok' [Hin| ->%list_elem_of_singleton]%elem_of_app.
        -- apply (wf_peer_tokens _ _ _ Hwf) in Hin as [? ?]. split; [done|by apply Hold].
        -- split; [done|]. cbn. apply lookup_insert_eq.
    + intros Hl. destruct (wf_peer _ Hwf peer l Hl) as (? & ? & ? & Hall).
      split_and!; [done..|]. intros tok' Hin. destruct (Hall tok' Hin). split; [done|by apply Hold].
  - intros v tok'. cbn [tokens store_token]. rewrite lookup_insert, peer_tokens_store.
    case_decide as Hv.
    + intros [= <-]. split; [done|]. rewrite decide_True by done. set_solver.
    + intros Ht. destruct (wf_token _ Hwf v tok' Ht) as [? ?]. split; [done|].
      case_decide; set_solver.
  - cbn. rewrite map_size_insert_None by done. rewrite (wf_count _ Hwf). lia.
  - cbn. lia.
Qed.

(** The store just before a mint decides: pruned, then evicted to one below the quota. *)
Definition make_room (peer : string) (now : Z) (ts : TokenStore) : TokenStore :=
  evictOldestOfPeerLocked peer (MaxLiveTokensPerPeer - 1) (prunePeerExpiredLocked peer now ts).

Definition mint_peer (peer : string) : string :=
  if bool_decide (peer = "") then "unknown" else peer.

Lemma make_room_wf peer now ts : store_wf ts → store_wf (make_room peer now ts).
Proof. intros. apply evict_wf; [done|by apply prune_wf]. Qed.

Lemma peer_tokens_make_room peer now ts peer' :
  peer_tokens (make_room peer now ts) peer' =
    if decide (peer = peer')
    then let l := filter (live now) (peer_tokens ts peer) in drop (length l - 31) l
    else peer_tokens ts peer'.
Proof.
  unfold make_room. rewrite peer_tokens_evict by done. rewrite !peer_tokens_prune.
  rewrite (decide_True_pi (eq_refl peer)). by case_decide.
Qed.

Lemma make_room_length peer now ts :
  (Z.of_nat (length (peer_tokens (make_room peer now ts) peer)) < MaxLiveTokensPerPeer)%Z.
Proof.
  rewrite peer_tokens_make_room, decide_True by done. cbn. rewrite length_drop.
  unfold MaxLiveTokensPerPeer. lia.
Qed.

Lemma make_room_sublist peer now ts tok :
  tok ∈ peer_tokens (make_room peer now ts) peer → tok ∈ peer_tokens ts peer ∧ live now tok.
Proof.
  rewrite peer_tokens_make_room, decide_True by done. cbn.
  intros Hin. apply (subseteq_drop _ _ _), list_elem_of_filter in Hin. tauto.
Qed.

(** A mint only ever removes tokens of its own peer. *)
Lemma make_room_tokens peer now ts v tok :
  store_wf ts → tokens (make_room peer now ts) !! v = Some tok → tokens ts !! v = Some tok.
Proof.
  intros Hwf. rewrite !tokens_iff by auto using make_room_wf.
  intros [? Hin]. split; [done|]. destruct (decide (Peer tok = peer)) as [<-|Hne].
  - by apply make_room_sublist in Hin as [? _].
  - rewrite peer_tokens_make_room, decide_False in Hin by done. done.
Qed.

Lemma generate_eq peer now rnd ts :
  generateTokenAt peer now rnd ts =
    match rnd with
    | None => (ts, Err ErrRandom)
    | Some b =>
        let token := mkToken (base64_encode b) (Add now (tokenTTL ts)) now (mint_peer peer) in
        let ts := make_room (mint_peer peer) now ts in
        if (GlobalTokenEmergencyCap <=? liveCount ts)%Z
        then (set_brake true ts, Err ErrTokenStoreEmergency)
        else (store_token token (set_brake false ts), Ok token)
    end.
Proof. done. Qed.

(** [rand.Read] filled the buffer with bytes no live token is made of. *)
Definition fresh_random (rnd : option string) (ts : TokenStore) : Prop :=
  ∀ b, rnd = Some b → tokens ts !! base64_encode b = None.

Lemma generate_wf peer now rnd ts :
  store_wf ts → fresh_random rnd ts → store_wf (generateTokenAt peer now rnd ts).1.
Proof.
  intros Hwf Hfr. rewrite generate_eq. destruct rnd as [b|]; [|done]. cbn zeta.
  destruct (Z.leb_spec GlobalTokenEmergencyCap (liveCount (make_room (mint_peer peer) now ts))).
  - cbn. apply set_brake_wf, make_room_wf, Hwf.
  - cbn [fst]. apply store_token_wf.
    + apply set_brake_wf, make_room_wf, Hwf.
    + cbn. destruct (tokens (make_room _ _ _) !! _) eqn:E; [|done].
      apply make_room_tokens in E; [|done]. by rewrite Hfr in E.
    + apply make_room_length.
    + done.
Qed.

Lemma cleanup_wf order now ts : store_wf ts → store_wf (cleanupExpired order now ts).
Proof. intros Hwf. unfold cleanupExpired. case_match; eauto with mds. Qed.

(** ** Traces of the store *)

Inductive ts_op :=
| OpMint (peer : string) (now : Z) (rnd : option string)
| OpCleanup (order : list string) (now : Z)
| OpCount (order : list string) (now : Z)
| OpCountPeer (peer : string) (now : Z).

Definition ts_exec (op : ts_op) (ts : TokenStore) : TokenStore :=
  match op with
  | OpMint peer now rnd => (generateTokenAt peer now rnd ts).1
  | OpCleanup order now => cleanupExpired order now ts
  | OpCount order now => (LiveTokenCount order now ts).1
  | OpCountPeer peer now => (LiveTokenCountForPeer peer now ts).1
  end.

Definition op_time (op : ts_op) : Z :=
  match op with
  | OpMint _ now _ | OpCleanup _ now | OpCount _ now | OpCountPeer _ now => now
  end.

Definition op_fresh (op : ts_op) (ts : TokenStore) : Prop :=
  match op with OpMint _ _ rnd => fresh_random rnd ts | _ => True end.

(** How many of [ops] are mints by [peer]. *)
Fixpoint mints_of (peer : string) (ops : list ts_op) : nat :=
  match ops with
  | [] => 0
  | OpMint p _ _ :: ops => (if decide (mint_peer p = peer) then 1 else 0) + mints_of peer ops
  | _ :: ops => mints_of peer ops
  end.

Fixpoint ts_run (ops : list ts_op) (ts : TokenStore) : TokenStore :=
  match ops with [] => ts | op :: ops => ts_run ops (ts_exec op ts) end.

Fixpoint trace_fresh (ops : list ts_op) (ts : TokenStore) : Prop :=
  match ops with
  | [] => True
  | op :: ops => op_fresh op ts ∧ trace_fresh ops (ts_exec op ts)
  end.

Lemma exec_wf op ts : store_wf ts → op_fresh op ts → store_wf (ts_exec op ts).
Proof.
  intros Hwf Hfr. destruct op; cbn in *.
  - by apply generate_wf.
  - by apply cleanup_wf.
  - eauto with mds.
  - eauto with mds.
Qed.

Lemma new_store_wf ttl : store_wf (NewTokenStore ttl).
Proof.
  split; [intros ? ? Hl|intros ? ? Hl|done|cbn; unfold GlobalTokenEmergencyCap; lia];
    cbn in Hl; by rewrite lookup_empty in Hl.
Qed.

(** [tok] is stored with at most [k] younger tokens of its peer. *)
Definition stored_with (k : nat) (tok : Token) (ts : TokenStore) : Prop :=
  ∃ l1 l2, peer_tokens ts (Peer tok) = l1 ++ tok :: l2 ∧ length l2 ≤ k.

Lemma stored_with_prune k tok peer now ts :
  live now tok → stored_with k tok ts → stored_with k tok (prunePeerExpiredLocked peer now ts).
Proof.
  intros Hlive (l1 & l2 & Hl & Hk). unfold stored_with. rewrite peer_tokens_prune, Hl.
  case_decide; [|by exists l1, l2].
  rewrite filter_app, filter_cons_True by done.
  do 2 eexists. split; [done|]. etrans; [apply filter_length_le|done].
Qed.

Lemma stored_with_discard k tok order now ts :
  live now tok → stored_with k tok ts → stored_with k tok (discardExpiredLocked order now ts).
Proof.
  intros Hlive. unfold discardExpiredLocked. revert ts.
  induction order as [|peer order IH]; intros ts Hst; cbn; [done|].
  apply IH. by apply stored_with_prune.
Qed.

Lemma stored_with_make_room k tok peer now ts :
  live now tok → k ≤ 30 → stored_with k tok ts → stored_with k tok (make_room peer now ts).
Proof.
  intros Hlive H30 (l1 & l2 & Hl & Hk). unfold stored_with. rewrite peer_tokens_make_room.
  case_decide as Hp; [subst peer|by exists l1, l2]. rewrite Hl. cbn zeta.
  rewrite filter_app, filter_cons_True by done.
  pose proof (filter_length_le (live now) l2).
  rewrite length_app. cbn [length]. rewrite drop_app_le by lia.
  do 2 eexists. split; [done|]. lia.
Qed.

Lemma stored_with_make_room_other k tok peer now ts :
  peer ≠ Peer tok → stored_with k tok ts → stored_with k tok (make_room peer now ts).
Proof.
  intros Hne. unfold stored_with. by rewrite peer_tokens_make_room, decide_False.
Qed.

Lemma stored_with_mint k tok peer now rnd ts :
  live now tok → (mint_peer peer = Peer tok → k ≤ 30) → stored_with k tok ts →
  stored_with (k + if decide (mint_peer peer = Peer tok) then 1 else 0) tok
    (generateTokenAt peer now rnd ts).1.
Proof.
  intros Hlive H30 Hst. rewrite generate_eq.
  assert (stored_with k tok (make_room (mint_peer peer) now ts)) as (l1 & l2 & Hl & Hk).
  { destruct (decide (mint_peer peer = Peer tok)).
    - apply stored_with_make_room; auto.
    - by apply stored_with_make_room_other. }
  destruct rnd as [b|]; cbn zeta;
    [destruct (GlobalTokenEmergencyCap <=? _)%Z|]; cbn [fst].
  - exists l1, l2. split; [done|lia].
  - unfold stored_with. rewrite peer_tokens_store. cbn [Peer]. case_decide as Hp.
    + exists l1. eexists. split.
      * rewrite peer_tokens_set_brake, Hl. by rewrite <-app_assoc.
      * rewrite length_app. cbn. lia.
    + exists l1, l2. split; [done|lia].
  - destruct Hst as (l1' & l2' & ? & ?). exists l1', l2'. split; [done|lia].
Qed.

Lemma stored_with_run tok ops : ∀ k ts,
  (∀ op, op ∈ ops → (op_time op ≤ ExpiresAt tok)%Z) →
  k + mints_of (Peer tok) ops < 32 → stored_with k tok ts →
  ∃ k', stored_with k' tok (ts_run ops ts).
Proof.
  induction ops as [|op ops IH]; intros k ts Htime Hk Hst; cbn [ts_run]; [by exists k|].
  assert (live (op_time op) tok) as Hlive.
  { unfold live, After. apply Z.ltb_ge. apply Htime. by left. }
  assert (∀ op', op' ∈ ops → (op_time op' ≤ ExpiresAt tok)%Z) as Htime'
    by (intros; apply Htime; by right).
  destruct op as [peer now rnd|order now|order now|peer now]; cbn in *.
  - apply (IH (k + if decide (mint_peer peer = Peer tok) then 1 else 0)); [done| |].
    + case_decide; lia.
    + apply stored_with_mint; [done| |done]. intros Hp. rewrite decide_True in Hk by done. lia.
  - apply (IH k); [done|lia|]. unfold cleanupExpired.
    case_match; by apply stored_with_discard.
  - apply (IH k); [done|lia|]. by apply stored_with_discard.
  - apply (IH k); [done|lia|]. by apply stored_with_prune.
Qed.

Lemma run_wf ops : ∀ ts, store_wf ts → trace_fresh ops ts → store_wf (ts_run ops ts).
Proof.
  induction ops as [|op ops IH]; intros ts Hwf Hfr; cbn; [done|].
  destruct Hfr. apply IH; [by apply exec_wf|done].
Qed.

Lemma stored_with_validate k tok ts t :
  store_wf ts → stored_with k tok ts →
  ValidateToken t (Value tok) ts = negb (After t (ExpiresAt tok)).
Proof.
  intros Hwf (l1 & l2 & Hl & _). unfold ValidateToken.
  rewrite (proj2 (tokens_iff ts (Value tok) tok Hwf)).
  - by destruct (After t (ExpiresAt tok)).
  - split; [done|]. rewrite Hl. set_solver.
Qed.

Lemma generate_stored peer now rnd ts tok :
  (generateTokenAt peer now rnd ts).2 = Ok tok →
  stored_with 0 tok (generateTokenAt peer now rnd ts).1.
Proof.
  rewrite generate_eq. destruct rnd as [b|]; cbn zeta; [|done].
  destruct (GlobalTokenEmergencyCap <=? _)%Z; cbn [fst snd]; [done|]. intros [= <-].
  unfold stored_with. rewrite peer_tokens_store, decide_True by done. by eexists _, [].
Qed.

(** Dropping tokens peer by peer commutes, so the order of the map's keys does
    not matter. *)
Lemma delete_all_comm r1 r2 m : delete_all r1 (delete_all r2 m) = delete_all r2 (delete_all r1 m).
Proof. apply map_eq. intros v. rewrite !delete_all_lookup. by repeat case_decide. Qed.

Lemma set_peer_comm p q k1 k2 bp :
  p ≠ q → set_peer p k1 (set_peer q k2 bp) = set_peer q k2 (set_peer p k1 bp).
Proof.
  intros Hne. apply map_eq. intros x. rewrite !set_peer_lookup. repeat case_decide; congruence.
Qed.

Lemma prune_comm p q now ts :
  prunePeerExpiredLocked p now (prunePeerExpiredLocked q now ts) =
  prunePeerExpiredLocked q now (prunePeerExpiredLocked p now ts).
Proof.
  destruct (decide (p = q)) as [->|Hne]; [done|].
  assert (∀ a b, a ≠ b → peer_tokens (prunePeerExpiredLocked a now ts) b = peer_tokens ts b) as Hpt.
  { intros a b ?. by rewrite peer_tokens_prune, decide_False. }
  destruct (decide (peer_tokens ts p = [])) as [Hp|Hp], (decide (peer_tokens ts q = [])) as [Hq|Hq].
  - by rewrite !(prune_nil _ _ ts).
  - rewrite (prune_nil p _ ts) by done. by rewrite (prune_nil p) by by rewrite Hpt.
  - rewrite (prune_nil q _ ts) by done. by rewrite (prune_nil q) by by rewrite Hpt.
  - rewrite (prune_drop p), (prune_drop q _ (prunePeerExpiredLocked p now ts)) by by rewrite Hpt.
    rewrite !Hpt by done. rewrite !(prune_drop _ _ ts) by done.
    unfold drop_tokens. cbn. f_equal; [apply delete_all_comm|by apply set_peer_comm|lia].
Qed.

Lemma discard_permutation o1 o2 now ts :
  o1 ≡ₚ o2 → discardExpiredLocked o1 now ts = discardExpiredLocked o2 now ts.
Proof.
  intros Hp. revert ts. unfold discardExpiredLocked.
  induction Hp as [| | |? ? ? _ IH1 _ IH2]; intros ts; cbn;
    [done|auto|by rewrite prune_comm|by rewrite IH1].
Qed.

Lemma discard_lookup order now ts v tok :
  store_wf ts →
  tokens (discardExpiredLocked order now ts) !! v = Some tok ↔
    tokens ts !! v = Some tok ∧ (Peer tok ∈ order → live now tok).
Proof.
  unfold discardExpiredLocked. revert ts.
  induction order as [|peer order IH]; intros ts Hwf; cbn.
  { split; [|by intros []]. intros ?. split; [done|]. by intros ?%not_elem_of_nil. }
  rewrite IH by eauto with mds. rewrite !tokens_iff, peer_tokens_prune by eauto with mds.
  rewrite elem_of_cons. case_decide as Hp.
  - rewrite list_elem_of_filter. naive_solver.
  - naive_solver.
Qed.

Lemma make_room_count peer now ts :
  store_wf ts →
  let own := peer_tokens ts peer in
  liveCount (make_room peer now ts) =
    (liveCount ts - Z.of_nat (length own)
     + Z.of_nat (Nat.min 31 (length (filter (live now) own))))%Z.
Proof.
  intros Hwf own. unfold make_room. rewrite evict_drop by done. cbn [drop_tokens liveCount].
  rewrite peer_tokens_prune, decide_True by done. fold own.
  pose proof (Permutation_length (filter_split_perm (live now) own)) as Hlen.
  rewrite length_app in Hlen. rewrite length_take.
  change (Z.to_nat (MaxLiveTokensPerPeer - 1)) with 31.
  destruct (decide (own = [])) as [Hnil|Hne].
  - rewrite prune_nil by done. rewrite Hnil. cbn [filter list_filter length]. lia.
  - rewrite prune_drop by done. cbn [drop_tokens liveCount]. fold own. lia.
Qed.

(** ** Properties *)

(** C5: from a new store, whatever mints, sweeps and counts run and in
    whatever order, the two indexes stay in step: every stored token is listed
    exactly once under its minting peer and conversely, no peer holds more than
    32 tokens, and [liveCount] is the number of stored tokens and never above the
    emergency cap. Random bytes are assumed not to repeat those of a live token. *)
Theorem token_store_invariant ttl ops :
  trace_fresh ops (NewTokenStore ttl) → store_wf (ts_run ops (NewTokenStore ttl)).
Proof. intros. apply run_wf; [apply new_store_wf|done]. Qed.

Definition demo_random (b : string) : option string := Some b.
Definition demo_ops : list ts_op :=
  [OpMint "10.0.0.1" 0 (demo_random "a"); OpMint "" 5 (demo_random "b");
   OpCleanup ["10.0.0.1"; "unknown"] 70; OpMint "10.0.0.1" 80 (demo_random "a")].

Ltac fresh_by_compute :=
  repeat split; intros ? [= <-]; vm_compute; reflexivity.

Lemma demo_wf ttl ops : trace_fresh ops (NewTokenStore ttl) → store_wf (ts_run ops (NewTokenStore ttl)).
Proof. intros. by apply run_wf; [apply new_store_wf|]. Qed.

Lemma token_store_invariant_witness : store_wf (ts_run demo_ops (NewTokenStore 60)).
Proof. apply (token_store_invariant 60 demo_ops). fresh_by_compute. Defined.

(** A mint by one peer, successful or refused, leaves the tokens of every
    other peer exactly as they were. *)
Theorem mint_leaves_other_peers peer now rnd ts v tok :
  store_wf ts → fresh_random rnd ts → Peer tok ≠ mint_peer peer →
  tokens (generateTokenAt peer now rnd ts).1 !! v = Some tok ↔ tokens ts !! v = Some tok.
Proof.
  intros Hwf Hfr Hne.
  rewrite !tokens_iff by eauto using generate_wf.
  rewrite generate_eq. destruct rnd as [b|]; cbn zeta; [|done].
  destruct (GlobalTokenEmergencyCap <=? _)%Z; cbn [fst];
    rewrite ?peer_tokens_store, ?peer_tokens_set_brake, peer_tokens_make_room;
    rewrite ?decide_False by (cbn; congruence); done.
Qed.

Lemma mint_leaves_other_peers_witness :
  let ts := ts_run [OpMint "10.0.0.1" 0 (demo_random "a")] (NewTokenStore 60) in
  let tok := mkToken (base64_encode "a") 60 0 "10.0.0.1" in
  tokens (generateTokenAt "10.0.0.2" 100 (demo_random "b") ts).1 !! base64_encode "a" = Some tok.
Proof.
  apply (mint_leaves_other_peers "10.0.0.2" 100 (demo_random "b")).
  - apply demo_wf; fresh_by_compute.
  - intros ? [= <-]. by vm_compute.
  - by vm_compute.
  - by vm_compute.
Defined.

(** A token that was issued validates until it expires and not after,
    whatever other peers do and whatever sweeps run, as long as its own peer
    mints fewer than 32 further tokens. *)
Theorem minted_token_survives peer now rnd ts tok ops t :
  store_wf ts → fresh_random rnd ts →
  (generateTokenAt peer now rnd ts).2 = Ok tok →
  (∀ op, op ∈ ops → (op_time op ≤ ExpiresAt tok)%Z) →
  mints_of (Peer tok) ops < 32 →
  trace_fresh ops (generateTokenAt peer now rnd ts).1 →
  ValidateToken t (Value tok) (ts_run ops (generateTokenAt peer now rnd ts).1)
    = negb (After t (now + tokenTTL ts)).
Proof.
  intros Hwf Hfr Hok Htime Hm Htr.
  destruct (stored_with_run tok ops 0 (generateTokenAt peer now rnd ts).1) as [k Hk];
    [done|lia|by apply generate_stored|].
  rewrite (stored_with_validate k); [|apply run_wf; [by apply generate_wf|done]|done].
  rewrite generate_eq in Hok. destruct rnd; [|done]. cbn in Hok.
  by case_match; simplify_eq/=.
Qed.

Lemma minted_token_survives_witness :
  let ts := (generateTokenAt "10.0.0.1" 0 (demo_random "a") (NewTokenStore 60)).1 in
  let ops := [OpMint "10.0.0.2" 10 (demo_random "b"); OpCleanup ["10.0.0.2"; "10.0.0.1"] 50;
              OpMint "10.0.0.1" 60 (demo_random "c")] in
  ValidateToken 60 (base64_encode "a") (ts_run ops ts) = negb (After 60 (0 + 60)).
Proof.
  apply (minted_token_survives "10.0.0.1" 0 (demo_random "a") (NewTokenStore 60)
           (mkToken (base64_encode "a") 60 0 "10.0.0.1")).
  - apply new_store_wf.
  - intros ? [= <-]. by vm_compute.
  - by vm_compute.
  - intros op Hop. repeat (apply elem_of_cons in Hop as [->|Hop]; [cbn; lia|]).
    by apply not_elem_of_nil in Hop.
  - cbn. repeat case_decide; lia.
  - fresh_by_compute.
Defined.

(** A mint is refused with [ErrTokenStoreEmergency] exactly when, after the
    peer's own expired and surplus tokens are dropped, the store is at the
    emergency cap; otherwise it answers the token built from the random bytes,
    the clock, the TTL and the peer (["unknown"] for an empty one), and the
    store has one token more than it had after that clean-up. *)
Theorem mint_outcome peer now b ts :
  store_wf ts →
  let own := peer_tokens ts (mint_peer peer) in
  let room := (liveCount ts - Z.of_nat (length own)
               + Z.of_nat (Nat.min 31 (length (filter (live now) own))))%Z in
  let '(ts', res) := generateTokenAt peer now (Some b) ts in
  if (GlobalTokenEmergencyCap <=? room)%Z
  then res = Err ErrTokenStoreEmergency ∧ liveCount ts' = room ∧ emergencyBrake ts' = true
  else res = Ok (mkToken (base64_encode b) (now + tokenTTL ts) now (mint_peer peer)) ∧
       liveCount ts' = (room + 1)%Z ∧ emergencyBrake ts' = false.
Proof.
  intros Hwf own room. rewrite generate_eq. cbn zeta.
  pose proof (make_room_count (mint_peer peer) now ts Hwf) as Hroom. cbn zeta in Hroom.
  fold own in Hroom. fold room in Hroom. rewrite Hroom.
  destruct (GlobalTokenEmergencyCap <=? room)%Z; cbn; by rewrite Hroom.
Qed.

Lemma mint_outcome_witness :
  let ts := ts_run [OpMint "10.0.0.1" 0 (demo_random "a")] (NewTokenStore 60) in
  store_wf ts ∧
  let '(ts', res) := generateTokenAt "10.0.0.1" 100 (demo_random "b") ts in
  res = Ok (mkToken (base64_encode "b") 160 100 "10.0.0.1") ∧
  liveCount ts' = 1%Z ∧ emergencyBrake ts' = false.
Proof.
  assert (store_wf (ts_run [OpMint "10.0.0.1" 0 (demo_random "a")] (NewTokenStore 60))) as Hwf.
  { apply demo_wf; fresh_by_compute. }
  split; [exact Hwf|].
  exact (mint_outcome "10.0.0.1" 100 "b" _ Hwf).
Defined.

(** A sweep over all peers keeps exactly the unexpired tokens, and its
    result does not depend on the order in which the runtime yields the keys of
    [byPeer]. *)
Theorem cleanup_exact order order' now ts v tok :
  store_wf ts → order ≡ₚ (map_to_list (byPeer ts)).*1 → order' ≡ₚ order →
  cleanupExpired order' now ts = cleanupExpired order now ts ∧
  (tokens (cleanupExpired order now ts) !! v = Some tok ↔
    tokens ts !! v = Some tok ∧ (now ≤ ExpiresAt tok)%Z).
Proof.
  intros Hwf Hall Hperm. split.
  { unfold cleanupExpired. by rewrite (discard_permutation order' order). }
  assert (tokens (cleanupExpired order now ts) = tokens (discardExpiredLocked order now ts)) as ->.
  { unfold cleanupExpired. by case_match. }
  rewrite discard_lookup by done.
  assert (live now tok ↔ (now ≤ ExpiresAt tok)%Z) as <- by apply Z.ltb_ge.
  split; intros [Htok Hlive]; (split; [done|]); [|done].
  apply Hlive. rewrite Hall. apply (wf_token _ Hwf) in Htok as [_ Hin].
  unfold peer_tokens in Hin. destruct (byPeer ts !! Peer tok) as [l|] eqn:E; [|by apply not_elem_of_nil in Hin].
  apply list_elem_of_fmap. exists (Peer tok, l). split; [done|]. by apply elem_of_map_to_list.
Qed.

Lemma cleanup_exact_witness :
  let ts := ts_run [OpMint "10.0.0.1" 0 (demo_random "a"); OpMint "10.0.0.2" 30 (demo_random "b")]
              (NewTokenStore 60) in
  let order := (map_to_list (byPeer ts)).*1 in
  let tok := mkToken (base64_encode "b") 90 30 "10.0.0.2" in
  cleanupExpired (reverse order) 70 ts = cleanupExpired order 70 ts ∧
  (tokens (cleanupExpired order 70 ts) !! base64_encode "b" = Some tok ↔
    tokens ts !! base64_encode "b" = Some tok ∧ (70 ≤ 90)%Z).
Proof.
  apply cleanup_exact; [|done|apply reverse_Permutation].
  apply demo_wf; fresh_by_compute.
Defined.

(** The clock is read before the lock is taken, so two concurrent mints of one
    peer can be stored against the order of their [CreatedAt]: the list is in
    storing order, and the head that eviction drops is the token stored first. *)
Example stored_out_of_order :
  CreatedAt <$> peer_tokens (ts_run [OpMint "p" 2 (demo_random "a"); OpMint "p" 1 (demo_random "b")]
                               (NewTokenStore 60)) "p" = [2%Z; 1%Z].
Proof. by vm_compute. Qed.
