(* ===== verification/Limiter.v ===== *)
(** * The per-peer guest limiter (internal/server/limit.go)

    [guestLimiter] keeps, per peer address, the times of the requests, token
    PUTs and enrol POSTs it admitted in the last minute and the number of open
    connections. Every method runs under [l.mu], so each is one atomic step.
    [trip] reads the wall clock itself: [c1] and [c2] are what its [time.Since]
    and [time.Now] read. A [net.Conn] is its identity, a number. *)

From S2P Require Import Prelude.
From S2P Require Import Go.

Definition limitWindow : Z := (60 * Second)%Z.
Definition maxTokenPUTsPerPeer : Z := 30.
Definition maxRequestsPerPeer : Z := 120.
Definition maxConnsPerPeer : Z := 16.
Definition maxEnrollPerPeer : Z := 6.
Definition retryAfterSeconds : string := "60".

Inductive limitKind := limitKindRequest | limitKindToken | limitKindEnroll | limitKindConn.

#[export] Instance limitKind_eq_dec : EqDecision limitKind.
Proof. solve_decision. Defined.

(** The constants' values, the map keys of [logged]. *)
Definition kind_name (k : limitKind) : string :=
  match k with
  | limitKindRequest => "request"
  | limitKindToken => "token"
  | limitKindEnroll => "enroll"
  | limitKindConn => "conn"
  end.

Record peerBudget := mkBudget {
  requests : list Z;
  tokenPUTs : list Z;
  enrolls : list Z;
  conns : Z;
  logged : gmap string Z;
}.

Record guestLimiter := mkLimiter {
  peers : gmap string peerBudget;
  overCap : gset nat;
}.

Definition newGuestLimiter : guestLimiter := mkLimiter ∅ ∅.
Definition newBudget : peerBudget := mkBudget [] [] [] 0 ∅.

(** ** Operations *)

(** [l.peer(key)]: the budget the pointer refers to; a missing one is created. *)
Definition peer (key : string) (l : guestLimiter) : peerBudget :=
  default newBudget (peers l !! key).
Definition set_budget (key : string) (p : peerBudget) (l : guestLimiter) : guestLimiter :=
  mkLimiter (<[key := p]> (peers l)) (overCap l).

Definition in_window (now t : Z) : Prop := After t (Add now (- limitWindow)) = true.
#[export] Instance in_window_dec now t : Decision (in_window now t).
Proof. unfold in_window. apply _. Defined.

(** [prune] compacts its slice in place, keeping the order. *)
Definition prune (times : list Z) (now : Z) : list Z := filter (in_window now) times.

Definition trip (key : string) (kind : limitKind) (c1 c2 : Z) (l : guestLimiter) : guestLimiter :=
  let p := peer key l in
  match logged p !! kind_name kind with
  | Some last => if (Sub c1 last <? limitWindow)%Z then set_budget key p l
                 else set_budget key (mkBudget (requests p) (tokenPUTs p) (enrolls p) (conns p)
                                        (<[kind_name kind := c2]> (logged p))) l
  | None => set_budget key (mkBudget (requests p) (tokenPUTs p) (enrolls p) (conns p)
                              (<[kind_name kind := c2]> (logged p))) l
  end.

Definition set_requests (r : list Z) (p : peerBudget) : peerBudget :=
  mkBudget r (tokenPUTs p) (enrolls p) (conns p) (logged p).
Definition set_tokenPUTs (r : list Z) (p : peerBudget) : peerBudget :=
  mkBudget (requests p) r (enrolls p) (conns p) (logged p).
Definition set_enrolls (r : list Z) (p : peerBudget) : peerBudget :=
  mkBudget (requests p) (tokenPUTs p) r (conns p) (logged p).
Definition set_conns (n : Z) (p : peerBudget) : peerBudget :=
  mkBudget (requests p) (tokenPUTs p) (enrolls p) n (logged p).

Definition allowRequest (key : string) (now c1 c2 : Z) (l : guestLimiter) : guestLimiter * bool :=
  let p := peer key l in
  let r := prune (requests p) now in
  let l := set_budget key (set_requests r p) l in
  if (maxRequestsPerPeer <=? Z.of_nat (length r))%Z
  then (trip key limitKindRequest c1 c2 l, false)
  else (set_budget key (set_requests (r ++ [now]) p) l, true).

Definition allowToken (key : string) (now c1 c2 : Z) (l : guestLimiter) : guestLimiter * bool :=
  let p := peer key l in
  let r := prune (tokenPUTs p) now in
  let l := set_budget key (set_tokenPUTs r p) l in
  if (maxTokenPUTsPerPeer <=? Z.of_nat (length r))%Z
  then (trip key limitKindToken c1 c2 l, false)
  else (set_budget key (set_tokenPUTs (r ++ [now]) p) l, true).

Definition allowEnroll (key : string) (now c1 c2 : Z) (l : guestLimiter) : guestLimiter * bool :=
  let p := peer key l in
  let r := prune (enrolls p) now in
  let l := set_budget key (set_enrolls r p) l in
  if (maxEnrollPerPeer <=? Z.of_nat (length r))%Z
  then (trip key limitKindEnroll c1 c2 l, false)
  else (set_budget key (set_enrolls (r ++ [now]) p) l, true).

(** [http.ConnState]. *)
Inductive ConnState := StateNew | StateActive | StateIdle | StateHijacked | StateClosed.

(** [trackConnState(c, state)] for a connection [c] whose remote address has the
    key [key]; the boolean is whether [c] is then closed ([closeOver]). *)
Definition trackConnState (key : string) (c : nat) (state : ConnState) (c1 c2 : Z)
    (l : guestLimiter) : guestLimiter * bool :=
  let p := peer key l in
  let l := set_budget key p l in
  match state with
  | StateNew =>
      if (maxConnsPerPeer <=? conns p)%Z then
        let l := trip key limitKindConn c1 c2 l in
        (mkLimiter (peers l) ({[c]} ∪ overCap l), true)
      else (set_budget key (set_conns (conns p + 1) p) l, false)
  | StateClosed | StateHijacked =>
      if bool_decide (c ∈ overCap l) then (mkLimiter (peers l) (overCap l ∖ {[c]}), false)
      else if (0 <? conns p)%Z then (set_budget key (set_conns (conns p - 1) p) l, false)
      else (l, false)
  | StateActive | StateIdle => (l, false)
  end.

(** One peer of [scrubIdlePeers]: its pruned budget, or [None] when it is deleted. *)
Definition scrub_budget (now : Z) (p : peerBudget) : option peerBudget :=
  let p := mkBudget (prune (requests p) now) (prune (tokenPUTs p) now) (prune (enrolls p) now)
             (conns p) (logged p) in
  if (0 <? conns p)%Z then Some p
  else if (0 <? length (requests p)) || (0 <? length (tokenPUTs p)) || (0 <? length (enrolls p))
  then Some p
  else if existsb (fun e => After e.2 (Add now (- limitWindow))) (map_to_list (logged p)) then Some p
  else None.

Definition scrubIdlePeers (now : Z) (l : guestLimiter) : guestLimiter :=
  mkLimiter (omap (scrub_budget now) (peers l)) (overCap l).

(** What [guestLimitMiddleware] decides for a request: pass it to the next
    handler, or answer with [writeTooManyRequests]. *)
Definition isEnrollPath (path : string) : bool := HasPrefix path "/latest/devid/enroll/".

Definition guestLimitMiddleware (method path key : string) (now c1 c2 : Z) (l : guestLimiter)
    : guestLimiter * bool :=
  if bool_decide (method = "GET") && bool_decide (path = "/health") then (l, true)
  else
    let '(l, ok) := allowRequest key now c1 c2 l in
    if negb ok then (l, false)
    else
      let '(l, ok) :=
        if bool_decide (method = "PUT") && bool_decide (path = "/latest/api/token")
        then allowToken key now c1 c2 l else (l, true) in
      if negb ok then (l, false)
      else if bool_decide (method = "POST") && isEnrollPath path
      then allowEnroll key now c1 c2 l
      else (l, true).

(** [writeTooManyRequests]: status, headers and body. *)
Definition writeTooManyRequests : Z * list (string * string) * string :=
  (429%Z,
   [("Content-Type", "text/plain"); ("Retry-After", retryAfterSeconds); ("Connection", "close")],
   "Too many requests" +:+ lf_string).

Definition peerCount (l : guestLimiter) : nat := size (peers l).

(** ** One budget of the three *)

Definition times_of (k : limitKind) (p : peerBudget) : list Z :=
  match k with
  | limitKindRequest => requests p
  | limitKindToken => tokenPUTs p
  | limitKindEnroll => enrolls p
  | limitKindConn => []
  end.
Definition set_times (k : limitKind) (r : list Z) (p : peerBudget) : peerBudget :=
  match k with
  | limitKindRequest => set_requests r p
  | limitKindToken => set_tokenPUTs r p
  | limitKindEnroll => set_enrolls r p
  | limitKindConn => p
  end.
Definition max_of (k : limitKind) : Z :=
  match k with
  | limitKindRequest => maxRequestsPerPeer
  | limitKindToken => maxTokenPUTsPerPeer
  | limitKindEnroll => maxEnrollPerPeer
  | limitKindConn => maxConnsPerPeer
  end.

(** The common shape of [allowRequest], [allowToken] and [allowEnroll]. *)
Definition allow (k : limitKind) (key : string) (now c1 c2 : Z) (l : guestLimiter)
    : guestLimiter * bool :=
  let p := peer key l in
  let r := prune (times_of k p) now in
  let l := set_budget key (set_times k r p) l in
  if (max_of k <=? Z.of_nat (length r))%Z
  then (trip key k c1 c2 l, false)
  else (set_budget key (set_times k (r ++ [now]) p) l, true).

Lemma allow_instances key now c1 c2 l :
  allowRequest key now c1 c2 l = allow limitKindRequest key now c1 c2 l ∧
  allowToken key now c1 c2 l = allow limitKindToken key now c1 c2 l ∧
  allowEnroll key now c1 c2 l = allow limitKindEnroll key now c1 c2 l.
Proof. done. Qed.

Definition timed (k : limitKind) : Prop := k ≠ limitKindConn.

Lemma peer_set_budget key p l key' :
  peer key' (set_budget key p l) = if decide (key = key') then p else peer key' l.
Proof. unfold peer, set_budget. cbn. rewrite lookup_insert. by case_decide. Qed.

Lemma times_of_set_times k k' r p :
  timed k → times_of k' (set_times k r p) = if decide (k = k') then r else times_of k' p.
Proof. intros Hk. destruct k, k'; done. Qed.

Lemma conns_set_times k r p : conns (set_times k r p) = conns p.
Proof. by destruct k. Qed.

(** [trip] touches the log times only. *)
Lemma trip_times key kind c1 c2 l k key' :
  times_of k (peer key' (trip key kind c1 c2 l)) = times_of k (peer key' l).
Proof.
  unfold trip. destruct (logged (peer key l) !! _); [case_match|];
    rewrite peer_set_budget; case_decide; subst; by destruct k.
Qed.
Lemma trip_conns key kind c1 c2 l key' :
  conns (peer key' (trip key kind c1 c2 l)) = conns (peer key' l).
Proof.
  unfold trip. destruct (logged (peer key l) !! _); [case_match|];
    rewrite peer_set_budget; by case_decide; subst.
Qed.
Lemma trip_overCap key kind c1 c2 l : overCap (trip key kind c1 c2 l) = overCap l.
Proof. unfold trip. destruct (logged (peer key l) !! _); [case_match|]; done. Qed.

Lemma in_window_spec now t : in_window now t ↔ (now - limitWindow < t)%Z.
Proof. unfold in_window, After, Add. rewrite Z.ltb_lt. lia. Qed.

Lemma in_window_mono now now' t : (now ≤ now')%Z → in_window now' t → in_window now t.
Proof. rewrite !in_window_spec. lia. Qed.

Lemma in_window_self now : in_window now now.
Proof. rewrite in_window_spec. unfold limitWindow, Second. lia. Qed.

(** Pruning at [now] is invisible to any window that ends later. *)
Lemma filter_prune now t l :
  (now ≤ t)%Z → filter (in_window t) (prune l now) = filter (in_window t) l.
Proof. intros Ht. apply filter_filter_absorb. intros x. by apply in_window_mono. Qed.

Lemma allow_times k key now c1 c2 l k' key' :
  timed k →
  times_of k' (peer key' (allow k key now c1 c2 l).1) =
    if decide (k = k' ∧ key = key')
    then prune (times_of k (peer key l)) now ++ (if (allow k key now c1 c2 l).2 then [now] else [])
    else times_of k' (peer key' l).
Proof.
  intros Hk. unfold allow. cbn zeta.
  destruct (max_of k <=? _)%Z; cbn [fst snd]; rewrite ?trip_times, !peer_set_budget;
    (destruct (decide (key = key')) as [->|]; [|by rewrite decide_False by naive_solver]);
    rewrite times_of_set_times by done;
    (destruct (decide (k = k')) as [->|];
      [rewrite decide_True by done|rewrite decide_False by naive_solver]);
    by rewrite ?app_nil_r.
Qed.

Lemma allow_verdict k key now c1 c2 l :
  (allow k key now c1 c2 l).2 =
    (Z.of_nat (length (filter (in_window now) (times_of k (peer key l)))) <? max_of k)%Z.
Proof.
  unfold allow. fold (prune (times_of k (peer key l)) now). cbn zeta.
  destruct (Z.leb_spec (max_of k) (Z.of_nat (length (prune (times_of k (peer key l)) now))));
    cbn [snd]; symmetry; [apply Z.ltb_ge|apply Z.ltb_lt]; lia.
Qed.

Lemma allow_conns k key now c1 c2 l key' :
  timed k → conns (peer key' (allow k key now c1 c2 l).1) = conns (peer key' l).
Proof.
  intros Hk. unfold allow. cbn zeta. case_match; cbn [fst];
    rewrite ?trip_conns, !peer_set_budget; case_decide; subst; by rewrite ?conns_set_times.
Qed.
Lemma allow_overCap k key now c1 c2 l : overCap (allow k key now c1 c2 l).1 = overCap l.
Proof. unfold allow. cbn zeta. case_match; cbn [fst]; by rewrite ?trip_overCap. Qed.

(** ** The middleware as three guarded admissions *)

Definition exempt (method path : string) : bool :=
  bool_decide (method = "GET") && bool_decide (path = "/health").

(** The budgets a request is charged to. *)
Definition charges (k : limitKind) (method path : string) : bool :=
  match k with
  | limitKindRequest => negb (exempt method path)
  | limitKindToken => bool_decide (method = "PUT") && bool_decide (path = "/latest/api/token")
  | limitKindEnroll => bool_decide (method = "POST") && isEnrollPath path
  | limitKindConn => false
  end.

Definition cond_allow (c : bool) (k : limitKind) (key : string) (now c1 c2 : Z)
    (l : guestLimiter) : guestLimiter * bool :=
  if c then allow k key now c1 c2 l else (l, true).

(** Charge the budgets [ks] one after the other until one refuses. *)
Fixpoint admit_all (ks : list limitKind) (method path key : string) (now c1 c2 : Z)
    (l : guestLimiter) : guestLimiter * bool :=
  match ks with
  | [] => (l, true)
  | k :: ks =>
      let s := cond_allow (charges k method path) k key now c1 c2 l in
      if s.2 then admit_all ks method path key now c1 c2 s.1 else (s.1, false)
  end.

Definition budgets : list limitKind := [limitKindRequest; limitKindToken; limitKindEnroll].

Lemma charges_exempt k method path : exempt method path = true → charges k method path = false.
Proof.
  unfold exempt, charges. intros [Hm Hp]%andb_true_iff. bool_to_prop. subst.
  by destruct k.
Qed.

Lemma middleware_eq method path key now c1 c2 l :
  guestLimitMiddleware method path key now c1 c2 l =
    admit_all budgets method path key now c1 c2 l.
Proof.
  unfold guestLimitMiddleware. fold (exempt method path). cbn [admit_all budgets].
  destruct (exempt method path) eqn:He.
  { by rewrite !(charges_exempt _ _ _ He). }
  unfold charges. rewrite He. unfold cond_allow. cbn [negb].
  destruct (allow_instances key now c1 c2 l) as (-> & _ & _).
  destruct (allow limitKindRequest key now c1 c2 l) as [l1 []]; cbn [fst snd negb]; [|done].
  destruct (allow_instances key now c1 c2 l1) as (_ & -> & _).
  destruct (bool_decide (method = "PUT") && _).
  - destruct (allow limitKindToken key now c1 c2 l1) as [l2 []]; cbn [fst snd negb]; [|done].
    destruct (allow_instances key now c1 c2 l2) as (_ & _ & ->).
    destruct (bool_decide (method = "POST") && _); [|done].
    by destruct (allow limitKindEnroll key now c1 c2 l2) as [? []].
  - cbn [fst snd negb]. destruct (allow_instances key now c1 c2 l1) as (_ & _ & ->).
    destruct (bool_decide (method = "POST") && _); [|done].
    by destruct (allow limitKindEnroll key now c1 c2 l1) as [? []].
Qed.

(** The times of [key]'s budget [k] a window ending at [t] sees. *)
Definition seen (t : Z) (k : limitKind) (key : string) (l : guestLimiter) : list Z :=
  filter (in_window t) (times_of k (peer key l)).

Lemma cond_allow_seen c k0 key now c1 c2 l k key' t :
  timed k0 → (now ≤ t)%Z →
  seen t k key' (cond_allow c k0 key now c1 c2 l).1 =
    seen t k key' l ++
      (if decide (k0 = k ∧ key = key' ∧ c = true ∧ (cond_allow c k0 key now c1 c2 l).2 = true)
       then filter (in_window t) [now] else []).
Proof.
  intros Hk Ht. unfold seen, cond_allow. destruct c; cbn [fst snd].
  - rewrite allow_times by done.
    destruct (decide (k0 = k ∧ key = key')) as [[-> ->]|Hne].
    + rewrite filter_app, filter_prune by done. f_equal.
      destruct (allow k key' now c1 c2 l).2; [by rewrite decide_True|].
      by rewrite decide_False by naive_solver.
    + rewrite decide_False by naive_solver. by rewrite app_nil_r.
  - rewrite decide_False by naive_solver. by rewrite app_nil_r.
Qed.

Lemma cond_allow_verdict c k key now c1 c2 l :
  (cond_allow c k key now c1 c2 l).2 = true ↔
    (c = true → (Z.of_nat (length (seen now k key l)) < max_of k)%Z).
Proof.
  unfold cond_allow. destruct c; [|naive_solver].
  rewrite allow_verdict, Z.ltb_lt. naive_solver.
Qed.

Lemma cond_allow_conns c k key now c1 c2 l key' :
  timed k → conns (peer key' (cond_allow c k key now c1 c2 l).1) = conns (peer key' l).
Proof. intros. unfold cond_allow. destruct c; [by apply allow_conns|done]. Qed.
Lemma cond_allow_overCap c k key now c1 c2 l :
  overCap (cond_allow c k key now c1 c2 l).1 = overCap l.
Proof. unfold cond_allow. destruct c; [apply allow_overCap|done]. Qed.

(** Budgets other than the one charged are as before, whatever the verdict. *)
Lemma cond_allow_seen_other c k0 key now c1 c2 l k key' t :
  timed k0 → (now ≤ t)%Z → k0 ≠ k → seen t k key' (cond_allow c k0 key now c1 c2 l).1 = seen t k key' l.
Proof.
  intros. rewrite cond_allow_seen by done. rewrite decide_False by naive_solver. by rewrite app_nil_r.
Qed.

Section admits.
Context (method path key : string) (now c1 c2 : Z).
Abbreviation admits ks := (admit_all ks method path key now c1 c2).

Lemma admit_all_other ks l k key' t :
  Forall timed ks → (now ≤ t)%Z → k ∉ ks → seen t k key' (admits ks l).1 = seen t k key' l.
Proof.
  intros Hks Ht. revert l. induction Hks as [|k0 ks Hk0 Hks IH]; intros l Hnin; cbn; [done|].
  apply not_elem_of_cons in Hnin as [? ?].
  case_match; cbn [fst]; [rewrite IH by done|]; by apply cond_allow_seen_other.
Qed.

Lemma admit_all_verdict ks l :
  Forall timed ks → NoDup ks →
  (admits ks l).2 = true ↔
    ∀ k, k ∈ ks → charges k method path = true →
      (Z.of_nat (length (seen now k key l)) < max_of k)%Z.
Proof.
  intros Hks. revert l. induction Hks as [|k0 ks Hk0 Hks IH]; intros l Hnd; cbn.
  { split; [|done]. by intros _ k ?%not_elem_of_nil. }
  apply NoDup_cons in Hnd as [Hnin Hnd].
  pose proof (cond_allow_verdict (charges k0 method path) k0 key now c1 c2 l) as Hv.
  destruct (cond_allow _ k0 key now c1 c2 l).2 eqn:E; cbn [snd].
  - rewrite IH by done. split.
    + intros Hall k [->|Hk]%elem_of_cons Hc; [by apply Hv|].
      rewrite <-(cond_allow_seen_other (charges k0 method path) k0 key now c1 c2 l) by (done || set_solver).
      by apply Hall.
    + intros Hall k Hk Hc. rewrite cond_allow_seen_other by (done || set_solver).
      apply Hall; [by right|done].
  - split; [done|]. intros Hall. apply Hv, Hall. by left.
Qed.

(** What the charged budgets of [key] gain, as any later window sees them:
    the new time, when the request passes or was refused by a later budget. *)
Lemma admit_all_seen ks l k key' t :
  Forall timed ks → NoDup ks → (now ≤ t)%Z → k ∈ ks →
  ∃ b : bool,
    seen t k key' (admits ks l).1 = seen t k key' l ++ (if b then filter (in_window t) [now] else []) ∧
    ((admits ks l).2 = true → key = key' → charges k method path = true → b = true) ∧
    (b = true → (Z.of_nat (length (seen now k key' l)) < max_of k)%Z).
Proof.
  intros Hks Hnd Ht. revert l. induction Hks as [|k0 ks Hk0 Hks IH]; intros l Hk; cbn.
  { by apply not_elem_of_nil in Hk. }
  apply NoDup_cons in Hnd as [Hnin Hnd]. set (s := cond_allow _ k0 key now c1 c2 l).
  apply elem_of_cons in Hk as [->|Hk].
  - exists (bool_decide (key = key' ∧ charges k0 method path = true ∧ s.2 = true)).
    assert (seen t k0 key' (if s.2 then admits ks s.1 else (s.1, false)).1 = seen t k0 key' s.1) as ->.
    { case_match; [|done]. by apply admit_all_other. }
    unfold s at 1. rewrite cond_allow_seen by done. fold s. split_and!.
    + f_equal. case_bool_decide; [by rewrite decide_True|by rewrite decide_False by naive_solver].
    + intros Hv -> Hc. apply bool_decide_eq_true. by destruct s.2.
    + intros (<- & Hc & Hv)%bool_decide_eq_true. by eapply cond_allow_verdict.
  - assert (∀ t', (now ≤ t')%Z → seen t' k key' s.1 = seen t' k key' l) as Hs.
    { intros. apply cond_allow_seen_other; [done..|]. set_solver. }
    destruct s.2; cbn [fst snd].
    + destruct (IH Hnd s.1 Hk) as (b & Hb & Hv & Hr). rewrite !Hs in * by done. by exists b.
    + exists false. rewrite Hs by done. by rewrite app_nil_r.
Qed.

Lemma admit_all_conns ks l key' :
  Forall timed ks → conns (peer key' (admits ks l).1) = conns (peer key' l).
Proof.
  intros Hks. revert l. induction Hks as [|k0 ks Hk0 Hks IH]; intros l; cbn; [done|].
  case_match; cbn [fst]; [rewrite IH|]; by apply cond_allow_conns.
Qed.
Lemma admit_all_overCap ks l : overCap (admits ks l).1 = overCap l.
Proof.
  revert l. induction ks as [|k0 ks IH]; intros l; cbn; [done|].
  case_match; cbn [fst]; [rewrite IH|]; apply cond_allow_overCap.
Qed.
End admits.

Lemma budgets_timed : Forall timed budgets.
Proof. by repeat constructor. Qed.
Lemma budgets_nodup : NoDup budgets.
Proof. by apply (bool_decide_unpack (NoDup budgets)). Qed.
Lemma budgets_all k : timed k → k ∈ budgets.
Proof. unfold budgets. destruct k; set_solver. Qed.
#[export] Hint Resolve budgets_timed budgets_nodup budgets_all : mds.

(** ** Connections and the scrub, seen through the same observations *)

Lemma peer_overCap key l s : peer key (mkLimiter (peers l) s) = peer key l.
Proof. by destruct l. Qed.

Lemma track_times key c st c1 c2 l k key' :
  times_of k (peer key' (trackConnState key c st c1 c2 l).1) = times_of k (peer key' l).
Proof.
  unfold trackConnState. cbn zeta.
  destruct st; repeat case_match; cbn [fst]; rewrite ?peer_overCap, ?trip_times, ?peer_set_budget;
    repeat case_decide; subst; try done; by destruct k.
Qed.

Lemma scrub_peer now l key :
  peer key (scrubIdlePeers now l) = default newBudget (peers l !! key ≫= scrub_budget now).
Proof. unfold peer, scrubIdlePeers. cbn. by rewrite lookup_omap. Qed.

Lemma scrub_budget_spec now p :
  (0 ≤ conns p)%Z →
  let p' := default newBudget (scrub_budget now p) in
  conns p' = conns p ∧ (∀ k, times_of k p' = prune (times_of k p) now).
Proof.
  intros Hp. unfold scrub_budget. cbn [requests tokenPUTs enrolls conns logged].
  destruct (Z.ltb_spec 0 (conns p)); [cbn; split; [done|by intros []]|].
  destruct (prune (requests p) now) as [|] eqn:E1, (prune (tokenPUTs p) now) as [|] eqn:E2,
    (prune (enrolls p) now) as [|] eqn:E3; cbn [length orb Nat.ltb Nat.leb]; [|split; [done|by intros []]..].
  case_match; cbn; (split; [lia|intros []; cbn; by rewrite ?E1, ?E2, ?E3]).
Qed.

Definition conns_nonneg (l : guestLimiter) : Prop := ∀ key, (0 ≤ conns (peer key l))%Z.

Lemma scrub_spec now l key :
  conns_nonneg l →
  conns (peer key (scrubIdlePeers now l)) = conns (peer key l) ∧
  ∀ k, times_of k (peer key (scrubIdlePeers now l)) = prune (times_of k (peer key l)) now.
Proof.
  intros Hnn. specialize (Hnn key). rewrite scrub_peer. unfold peer in *.
  destruct (peers l !! key) as [p|]; cbn in *; [by apply scrub_budget_spec|].
  split; [done|by intros []].
Qed.

Lemma scrub_seen now l k key t :
  conns_nonneg l → (now ≤ t)%Z → seen t k key (scrubIdlePeers now l) = seen t k key l.
Proof.
  intros Hnn Ht. unfold seen. rewrite (proj2 (scrub_spec now l key Hnn)). by apply filter_prune.
Qed.

Lemma middleware_conns method path key now c1 c2 l key' :
  conns (peer key' (guestLimitMiddleware method path key now c1 c2 l).1) = conns (peer key' l).
Proof. rewrite middleware_eq. apply admit_all_conns; auto with mds. Qed.
Lemma middleware_overCap method path key now c1 c2 l :
  overCap (guestLimitMiddleware method path key now c1 c2 l).1 = overCap l.
Proof. rewrite middleware_eq. apply admit_all_overCap. Qed.

(** What an event does to the connection counts. *)
Lemma track_conns key c st c1 c2 l key' :
  conns (peer key' (trackConnState key c st c1 c2 l).1) =
    (conns (peer key' l) +
     (if decide (key = key') then
        match st with
        | StateNew => if maxConnsPerPeer <=? conns (peer key l) then 0 else 1
        | StateClosed | StateHijacked =>
            if bool_decide (c ∈ overCap l) then 0 else if 0 <? conns (peer key l) then -1 else 0
        | _ => 0
        end
      else 0))%Z.
Proof.
  unfold trackConnState. cbn zeta. cbn [overCap set_budget].
  destruct st; repeat case_match; cbn [fst]; rewrite ?peer_overCap, ?trip_conns, ?peer_set_budget;
    repeat case_decide; subst; cbn; lia || done.
Qed.

Lemma track_overCap key c st c1 c2 l :
  overCap (trackConnState key c st c1 c2 l).1 =
    match st with
    | StateNew => if (maxConnsPerPeer <=? conns (peer key l))%Z then {[c]} ∪ overCap l else overCap l
    | StateClosed | StateHijacked => if bool_decide (c ∈ overCap l) then overCap l ∖ {[c]} else overCap l
    | _ => overCap l
    end.
Proof.
  unfold trackConnState. cbn zeta. cbn [overCap set_budget].
  destruct st; repeat case_match; cbn [fst overCap]; rewrite ?trip_overCap; done.
Qed.

(** ** Runs of the limiter *)

(** What reaches the limiter: requests, connection events and the ticks of
    [startScrub]. *)
Inductive event :=
| Request (method path key : string) (now c1 c2 : Z)
| ConnEvent (key : string) (c : nat) (state : ConnState) (c1 c2 : Z)
| ScrubTick (now : Z).

Definition step (e : event) (l : guestLimiter) : guestLimiter * bool :=
  match e with
  | Request method path key now c1 c2 => guestLimitMiddleware method path key now c1 c2 l
  | ConnEvent key c state c1 c2 => trackConnState key c state c1 c2 l
  | ScrubTick now => (scrubIdlePeers now l, true)
  end.

(** The final limiter and each event with its verdict. *)
Fixpoint run (es : list event) (l : guestLimiter) : guestLimiter * list (event * bool) :=
  match es with
  | [] => (l, [])
  | e :: es => let s := step e l in let r := run es s.1 in (r.1, (e, s.2) :: r.2)
  end.

(** The clock the limiter reads does not go back. *)
Definition tick (last : Z) (e : event) : Z :=
  match e with
  | Request _ _ _ now _ _ | ScrubTick now => now
  | ConnEvent _ _ _ _ _ => last
  end.
Fixpoint clocked (last : Z) (es : list event) : Prop :=
  match es with
  | [] => True
  | e :: es => (last ≤ tick last e)%Z ∧ clocked (tick last e) es
  end.

(** The time of an event that was a request charged to [key]'s budget [k] and passed. *)
Definition pass_time (k : limitKind) (key : string) (r : event * bool) : option Z :=
  match r with
  | (Request method path key' now _ _, true) =>
      if bool_decide (key = key') && charges k method path then Some now else None
  | _ => None
  end.

Definition in_minute (t x : Z) : Prop := (t - limitWindow < x ≤ t)%Z.
#[export] Instance in_minute_dec t x : Decision (in_minute t x).
Proof. unfold in_minute. apply _. Defined.

Record rate_inv (k : limitKind) (key : string) (last : Z) (l : guestLimiter) (log : list Z) : Prop := {
  inv_conns : conns_nonneg l;
  inv_past : ∀ x, x ∈ log → (x ≤ last)%Z;
  inv_seen : ∀ t, (last ≤ t)%Z → length (filter (in_window t) log) ≤ length (seen t k key l);
  inv_rate : ∀ t, (Z.of_nat (length (filter (in_minute t) log)) ≤ max_of k)%Z;
}.

Lemma conns_step e l : conns_nonneg l → conns_nonneg (step e l).1.
Proof.
  intros Hl key. destruct e; cbn [step fst].
  - by rewrite middleware_conns.
  - rewrite track_conns. specialize (Hl key). case_decide; subst; [|lia]. split_cases; bool_to_prop; lia.
  - by rewrite (proj1 (scrub_spec _ _ _ Hl)).
Qed.

Lemma conns_nonneg_new : conns_nonneg newGuestLimiter.
Proof. intros key. unfold peer. cbn [peers newGuestLimiter]. by rewrite lookup_empty. Qed.

Lemma track_seen t k key' key c st c1 c2 l :
  seen t k key' (trackConnState key c st c1 c2 l).1 = seen t k key' l.
Proof. unfold seen. by rewrite track_times. Qed.

Lemma in_minute_window t x : in_minute t x → in_window t x.
Proof. unfold in_minute. rewrite in_window_spec. lia. Qed.

(** The part of the log a minute ending at or after [last] holds is what the budget sees. *)
Lemma minute_seen k key last l log t :
  rate_inv k key last l log → (last ≤ t)%Z →
  length (filter (in_minute t) log) ≤ length (seen t k key l).
Proof.
  intros H Ht. etrans; [|by apply (inv_seen _ _ _ _ _ H)].
  apply filter_length_mono. intros x _. apply in_minute_window.
Qed.

Lemma rate_inv_same k key last last' l l' log :
  rate_inv k key last l log → (last ≤ last')%Z → conns_nonneg l' →
  (∀ t, (last' ≤ t)%Z → length (seen t k key l) ≤ length (seen t k key l')) →
  rate_inv k key last' l' log.
Proof.
  intros [Hc Hp Hs Hr] Hle Hc' Hs'. split; [done| |..|done].
  - intros x Hx. specialize (Hp x Hx). lia.
  - intros t Ht. etrans; [apply Hs; lia|auto].
Qed.

Lemma rate_inv_pass k key last now l l' log :
  rate_inv k key last l log → (last ≤ now)%Z → conns_nonneg l' →
  (Z.of_nat (length (seen now k key l)) < max_of k)%Z →
  (∀ t, (now ≤ t)%Z → seen t k key l' = seen t k key l ++ filter (in_window t) [now]) →
  rate_inv k key now l' (log ++ [now]).
Proof.
  intros Hi Hle Hc Hroom Hseen. pose proof Hi as [_ Hp Hs Hr]. split; [done|..].
  - intros x [Hx|Hx%list_elem_of_singleton]%elem_of_app; [|lia]. specialize (Hp x Hx). lia.
  - intros t Ht. rewrite Hseen, filter_app, !length_app by done.
    specialize (Hs t ltac:(lia)). lia.
  - intros t. rewrite filter_app, length_app.
    destruct (decide (in_minute t now)) as [Hin|Hout].
    + rewrite (filter_all _ [now]) by (by intros ? ->%list_elem_of_singleton).
      pose proof (minute_seen _ _ _ _ _ now Hi Hle) as Hm.
      assert (length (filter (in_minute t) log) ≤ length (filter (in_minute now) log)) as Hmono.
      { apply filter_length_mono. intros x Hx. specialize (Hp x Hx). unfold in_minute in *. lia. }
      cbn [length]. lia.
    + rewrite (filter_none _ [now]) by (by intros ? ->%list_elem_of_singleton).
      specialize (Hr t). cbn [length]. lia.
Qed.

Lemma rate_inv_step k key last e l log :
  timed k → rate_inv k key last l log → (last ≤ tick last e)%Z →
  rate_inv k key (tick last e) (step e l).1 (log ++ option_list (pass_time k key (e, (step e l).2))).
Proof.
  intros Hk Hi Hle. pose proof (conns_step e l (inv_conns _ _ _ _ _ Hi)) as Hc.
  destruct e as [method path key' now c1 c2|key' c st c1 c2|now]; cbn [step tick fst snd pass_time] in *.
  - rewrite !middleware_eq in *.
    assert (∀ t, (now ≤ t)%Z → ∃ b : bool,
      seen t k key (admit_all budgets method path key' now c1 c2 l).1 =
        seen t k key l ++ (if b then filter (in_window t) [now] else []) ∧
      ((admit_all budgets method path key' now c1 c2 l).2 = true → key' = key → charges k method path = true → b = true) ∧
      (b = true → (Z.of_nat (length (seen now k key l)) < max_of k)%Z)) as Hadm.
    { intros t Ht. apply admit_all_seen; auto with mds. }
    destruct (admit_all budgets method path key' now c1 c2 l) as [l' ok]; cbn [fst snd] in *.
    destruct (ok && (bool_decide (key = key') && charges k method path)) eqn:E.
    + bool_to_prop. subst key' ok. rewrite bool_decide_true by done.
      replace (charges k method path) with true by done. cbn.
      eapply rate_inv_pass; [done..| |].
      * destruct (Hadm now) as (b & _ & Hb & Hroom); [lia|]. auto.
      * intros t Ht. destruct (Hadm t Ht) as (b & -> & Hb & _). by rewrite Hb.
    + replace (option_list _) with (@nil Z).
      2:{ destruct ok; [|done]. cbn in E. by rewrite E. }
      rewrite app_nil_r. eapply rate_inv_same; [done..|].
      intros t Ht. destruct (Hadm t Ht) as (b & -> & _). rewrite length_app. lia.
  - rewrite app_nil_r. eapply rate_inv_same; [done..|]. intros. by rewrite track_seen.
  - rewrite app_nil_r. eapply rate_inv_same; [done..|].
    intros. rewrite scrub_seen; [done|apply (inv_conns _ _ _ _ _ Hi)|done].
Qed.

Lemma run_rate_inv k key es last l log :
  timed k → rate_inv k key last l log → clocked last es →
  ∃ last', rate_inv k key last' (run es l).1 (log ++ omap (pass_time k key) (run es l).2).
Proof.
  intros Hk. revert last l log. induction es as [|e es IH]; intros last l log Hi Hcl; cbn [run fst snd].
  - exists last. by rewrite app_nil_r.
  - destruct Hcl as [Hle Hcl].
    destruct (IH _ _ _ (rate_inv_step _ _ _ e _ _ Hk Hi Hle) Hcl) as [last' H]. exists last'.
    rewrite <-(assoc_L (++)) in H. cbn [omap list_omap].
    by destruct (pass_time k key (e, (step e l).2)).
Qed.

Lemma rate_inv_new k key last : rate_inv k key last newGuestLimiter [].
Proof.
  split; [apply conns_nonneg_new|by intros x ?%not_elem_of_nil| |].
  - intros. cbn. lia.
  - intros. by destruct k.
Qed.


Definition enroll_request (now : Z) : event :=
  Request "POST" "/latest/devid/enroll/start" "10.0.0.7" now now now.
(** Seven enrolments in a row, a scrub, and one more a minute later. *)
Definition enroll_burst : list event :=
  map (fun i => enroll_request (Z.of_nat i * Second)) (seq 1 7) ++
  [ScrubTick (10 * Second)%Z; enroll_request (61 * Second)%Z].


(** ** Scrubbing changes no decision *)

(** Two limiters nothing at or after [now] tells apart, log times aside. *)
Record limiter_sim (now : Z) (l1 l2 : guestLimiter) : Prop := {
  sim_seen : ∀ k key t, (now ≤ t)%Z → seen t k key l1 = seen t k key l2;
  sim_conns : ∀ key, conns (peer key l1) = conns (peer key l2);
  sim_overCap : overCap l1 = overCap l2;
}.

Lemma cond_allow_sim c k key now c1 c2 l1 l2 :
  timed k → limiter_sim now l1 l2 →
  (cond_allow c k key now c1 c2 l1).2 = (cond_allow c k key now c1 c2 l2).2 ∧
  limiter_sim now (cond_allow c k key now c1 c2 l1).1 (cond_allow c k key now c1 c2 l2).1.
Proof.
  intros Hk [Hs Hc Ho].
  assert ((cond_allow c k key now c1 c2 l1).2 = (cond_allow c k key now c1 c2 l2).2) as Hv.
  { apply eq_true_iff_eq. by rewrite !cond_allow_verdict, Hs. }
  split; [done|]. split.
  - intros k' key' t Ht. by rewrite !cond_allow_seen, Hs, Hv.
  - intros. by rewrite !cond_allow_conns.
  - by rewrite !cond_allow_overCap.
Qed.

Lemma admit_all_sim ks method path key now c1 c2 l1 l2 :
  Forall timed ks → limiter_sim now l1 l2 →
  (admit_all ks method path key now c1 c2 l1).2 = (admit_all ks method path key now c1 c2 l2).2 ∧
  limiter_sim now (admit_all ks method path key now c1 c2 l1).1
    (admit_all ks method path key now c1 c2 l2).1.
Proof.
  intros Hks. revert l1 l2. induction Hks as [|k ks Hk Hks IH]; intros l1 l2 Hs; cbn; [done|].
  destruct (cond_allow_sim (charges k method path) k key now c1 c2 l1 l2 Hk Hs) as [<- Hs'].
  case_match; [by apply IH|done].
Qed.

Lemma track_sim key c st c1 c2 now l1 l2 :
  limiter_sim now l1 l2 →
  (trackConnState key c st c1 c2 l1).2 = (trackConnState key c st c1 c2 l2).2 ∧
  limiter_sim now (trackConnState key c st c1 c2 l1).1 (trackConnState key c st c1 c2 l2).1.
Proof.
  intros [Hs Hc Ho]. split; [|split].
  - unfold trackConnState. cbn zeta. cbn [overCap set_budget]. rewrite Ho, Hc.
    destruct st; repeat case_match; done.
  - intros. by rewrite !track_seen, Hs.
  - intros. by rewrite !track_conns, !Hc, Ho.
  - by rewrite !track_overCap, Hc, Ho.
Qed.

Lemma limiter_sim_later now now' l1 l2 :
  (now ≤ now')%Z → limiter_sim now l1 l2 → limiter_sim now' l1 l2.
Proof. intros Hle [Hs Hc Ho]. split; [|done..]. intros. apply Hs. lia. Qed.

Lemma scrub_sim now l1 l2 :
  conns_nonneg l1 → limiter_sim now l1 l2 → limiter_sim now (scrubIdlePeers now l1) l2.
Proof.
  intros Hnn [Hs Hc Ho]. split; [| |done].
  - intros. by rewrite scrub_seen, Hs.
  - intros key. by rewrite (proj1 (scrub_spec now l1 key Hnn)).
Qed.

Definition is_scrub (e : event) : bool := match e with ScrubTick _ => true | _ => false end.

Lemma run_sim es last l1 l2 :
  conns_nonneg l1 → clocked last es → limiter_sim last l1 l2 →
  filter (λ r, is_scrub r.1 = false) (run es l1).2 =
    (run (filter (λ e, is_scrub e = false) es) l2).2.
Proof.
  revert last l1 l2. induction es as [|e es IH]; intros last l1 l2 Hnn Hcl Hs; [done|].
  destruct Hcl as [Hle Hcl]. apply (limiter_sim_later _ _ _ _ Hle) in Hs.
  pose proof (conns_step e l1 Hnn) as Hnn'. cbn [run snd]. rewrite !filter_cons. cbn [fst].
  destruct e as [method path key now c1 c2|key c st c1 c2|now]; cbn [is_scrub];
    rewrite ?decide_True by done; cbn [run snd fst step tick] in *.
  - rewrite middleware_eq in *. rewrite middleware_eq.
    destruct (admit_all_sim budgets method path key now c1 c2 l1 l2 budgets_timed Hs) as [<- Hs'].
    f_equal. by eapply IH.
  - destruct (track_sim key c st c1 c2 last l1 l2 Hs) as [<- Hs']. f_equal. by eapply IH.
  - rewrite !decide_False by done. eapply IH; [done..|by apply scrub_sim].
Qed.



(** ** Connection accounting *)

(** The connections the HTTP server has open, with the peer key of each. The
    server announces each connection once, before anything else it says of it,
    and its end once. *)
Definition track_open (e : event) (open : gmap nat string) : option (gmap nat string) :=
  match e with
  | ConnEvent key c StateNew _ _ =>
      if bool_decide (open !! c = None) then Some (<[c := key]> open) else None
  | ConnEvent key c _ _ _ as e =>
      if bool_decide (open !! c = Some key) then
        match e with
        | ConnEvent _ _ StateClosed _ _ | ConnEvent _ _ StateHijacked _ _ => Some (delete c open)
        | _ => Some open
        end
      else None
  | _ => Some open
  end.
Fixpoint track_opens (es : list event) (open : gmap nat string) : option (gmap nat string) :=
  match es with
  | [] => Some open
  | e :: es => o ← track_open e open; track_opens es o
  end.

Definition counted (over : gset nat) (key : string) (r : nat * string) : Prop :=
  r.2 = key ∧ r.1 ∉ over.
#[export] Instance counted_dec over key r : Decision (counted over key r).
Proof. unfold counted. apply _. Defined.

(** The open connections of [key] that were not closed for being over the cap. *)
Definition serving (open : gmap nat string) (over : gset nat) (key : string) : nat :=
  size (filter (counted over key) open).

Record conn_inv (open : gmap nat string) (l : guestLimiter) : Prop := {
  conn_count : ∀ key, conns (peer key l) = Z.of_nat (serving open (overCap l) key);
  conn_cap : ∀ key, (conns (peer key l) ≤ maxConnsPerPeer)%Z;
  conn_over : overCap l ⊆ dom open;
}.

Lemma serving_insert open over c key key' :
  open !! c = None → c ∉ over →
  serving (<[c := key]> open) over key' = serving open over key' + (if decide (key = key') then 1 else 0).
Proof.
  intros Hc Ho. unfold serving. destruct (decide (key = key')) as [->|Hne].
  - rewrite map_filter_insert_True by done.
    rewrite map_size_insert_None by (apply map_lookup_filter_None; by left). lia.
  - rewrite map_filter_insert_not' by (by intros [? ?] || by rewrite Hc). lia.
Qed.

Lemma serving_over open over c key :
  open !! c = None → over ⊆ dom open →
  ∀ key', serving (<[c := key]> open) ({[c]} ∪ over) key' = serving open over key'.
Proof.
  intros Hc Hover key'. unfold serving. f_equal.
  rewrite map_filter_insert_False by (intros [_ H]; cbn in H; set_solver).
  rewrite delete_id by done. apply map_filter_ext. intros c' x Hx. unfold counted. cbn.
  assert (c' ≠ c) by congruence. set_solver.
Qed.

Lemma serving_delete_over open over c key :
  c ∈ over → serving (delete c open) (over ∖ {[c]}) key = serving open over key.
Proof.
  intros Hc. unfold serving. f_equal. apply map_eq. intros c'.
  apply option_eq. intros x. rewrite !map_lookup_filter_Some. unfold counted. cbn.
  destruct (decide (c' = c)) as [->|Hne].
  - rewrite lookup_delete_eq. naive_solver.
  - rewrite lookup_delete_ne by done. set_solver.
Qed.

Lemma serving_delete open over c key key' :
  open !! c = Some key → c ∉ over →
  serving open over key' = serving (delete c open) over key' + (if decide (key = key') then 1 else 0).
Proof.
  intros Hc Ho. rewrite <-(insert_delete_id open c key Hc) at 1.
  rewrite serving_insert; [done|apply lookup_delete_eq|done].
Qed.

Lemma conn_inv_same open l l' :
  conn_inv open l → overCap l' = overCap l →
  (∀ key, conns (peer key l') = conns (peer key l)) → conn_inv open l'.
Proof. intros [H1 H2 H3] Ho Hc. split; [intros; by rewrite Hc, Ho|intros; by rewrite Hc|by rewrite Ho]. Qed.

Lemma conn_inv_new_conn open l key c c1 c2 :
  conn_inv open l → open !! c = None →
  conn_inv (<[c := key]> open) (trackConnState key c StateNew c1 c2 l).1.
Proof.
  intros [Hn Hcap Ho] Hc. split.
  - intros key'. rewrite track_conns, track_overCap.
    destruct (Z.leb_spec maxConnsPerPeer (conns (peer key l))).
    + rewrite serving_over by done. rewrite Hn. case_decide; lia.
    + rewrite serving_insert, Hn; [case_decide; lia|done|].
      intros Hin%Ho%elem_of_dom. destruct Hin; congruence.
  - intros key'. rewrite track_conns. specialize (Hcap key').
    destruct (Z.leb_spec maxConnsPerPeer (conns (peer key l))); case_decide; subst; lia.
  - rewrite track_overCap. case_match; set_solver.
Qed.

Lemma conn_inv_end open l key c st c1 c2 :
  conn_inv open l → open !! c = Some key → st = StateClosed ∨ st = StateHijacked →
  conn_inv (delete c open) (trackConnState key c st c1 c2 l).1.
Proof.
  intros [Hn Hcap Ho] Hc Hst.
  assert ((trackConnState key c st c1 c2 l).1 = (trackConnState key c StateClosed c1 c2 l).1) as ->
    by by destruct Hst as [->| ->].
  split.
  - intros key'. rewrite track_conns, track_overCap. case_bool_decide.
    + rewrite serving_delete_over, Hn by done. case_decide; lia.
    + pose proof (serving_delete open (overCap l) c key key' Hc ltac:(done)) as Hd.
      rewrite !Hn. case_decide; [subst; case_match; bool_to_prop; lia|lia].
  - intros key'. rewrite track_conns. specialize (Hcap key'). case_decide; [|lia].
    repeat case_match; lia.
  - rewrite track_overCap, dom_delete_L. case_bool_decide; set_solver.
Qed.

Lemma conn_inv_step open open' e l :
  conn_inv open l → conns_nonneg l → track_open e open = Some open' → conn_inv open' (step e l).1.
Proof.
  intros Hi Hnn Ht. destruct e as [method path key now c1 c2|key c st c1 c2|now]; cbn [step] in *.
  - simplify_eq/=. eapply conn_inv_same; [done|apply middleware_overCap|apply middleware_conns].
  - destruct st; cbn in Ht; case_bool_decide; simplify_eq.
    + by apply conn_inv_new_conn.
    + eapply conn_inv_same; [done|by rewrite track_overCap|intros; rewrite track_conns; case_decide; lia].
    + eapply conn_inv_same; [done|by rewrite track_overCap|intros; rewrite track_conns; case_decide; lia].
    + apply conn_inv_end; auto.
    + apply conn_inv_end; auto.
  - simplify_eq/=. eapply conn_inv_same; [done..|]. intros. by apply scrub_spec.
Qed.

Lemma run_conn_inv es open open' l :
  conn_inv open l → conns_nonneg l → track_opens es open = Some open' → conn_inv open' (run es l).1.
Proof.
  revert open l. induction es as [|e es IH]; intros open l Hi Hnn Ht; cbn in *; [by simplify_eq|].
  apply bind_Some in Ht as (o & Ho & Ht).
  eapply IH; [by eapply conn_inv_step|by apply conns_step|done].
Qed.

Lemma conn_inv_new : conn_inv ∅ newGuestLimiter.
Proof.
  split; [|by intros key; unfold peer; cbn [peers newGuestLimiter]; rewrite lookup_empty|done].
  intros key. unfold peer, serving. cbn [peers newGuestLimiter overCap].
  by rewrite map_filter_empty, map_size_empty, lookup_empty.
Qed.

(** When every connection is announced and ended once, a peer's count is
    exactly its open connections that were not refused: it never exceeds 16,
    never leaks, and the set of refused connections holds open ones only. *)
Theorem connection_accounting es open :
  track_opens es ∅ = Some open →
  let l := (run es newGuestLimiter).1 in
  ∀ key, conns (peer key l) = Z.of_nat (serving open (overCap l) key) ∧
    (conns (peer key l) ≤ maxConnsPerPeer)%Z ∧ overCap l ⊆ dom open.
Proof.
  intros Ht l key.
  destruct (run_conn_inv es ∅ open newGuestLimiter conn_inv_new conns_nonneg_new Ht) as [H1 H2 H3].
  by split_and!.
Qed.

(** Eighteen connections of one peer, of which the last two are refused; the
    first and a refused one end. *)
Definition conn_burst : list event :=
  map (fun c => ConnEvent "10.0.0.7" c StateNew 0 0) (seq 1 18) ++
  [ConnEvent "10.0.0.7" 1 StateClosed 0 0; ConnEvent "10.0.0.7" 18 StateClosed 0 0].

Lemma connection_accounting_witness :
  let l := (run conn_burst newGuestLimiter).1 in
  conns (peer "10.0.0.7" l) = 15%Z ∧ overCap l = {[17]} ∧
  conns (peer "10.0.0.7" l) =
    Z.of_nat (serving (default ∅ (track_opens conn_burst ∅)) (overCap l) "10.0.0.7").
Proof.
  split; [by vm_compute|split; [by vm_compute|]].
  apply (connection_accounting conn_burst). by vm_compute.
Defined.

(** ** The middleware's verdict *)

(** A request reaches its handler exactly when each budget it is charged to
    (every request but GET /health to the request budget, a PUT of the token
    path also to the token budget, a POST under the enrol path also to the enrol
    budget) admitted fewer than its maximum in the minute before. *)
Theorem request_passes_iff method path key now c1 c2 l :
  (guestLimitMiddleware method path key now c1 c2 l).2 = true ↔
    ∀ k, timed k → charges k method path = true →
      (Z.of_nat (length (seen now k key l)) < max_of k)%Z.
Proof.
  rewrite middleware_eq, admit_all_verdict by auto with mds. split.
  - intros H k Hk. apply H. by apply budgets_all.
  - intros H k Hk. apply H. by eapply (proj1 (Forall_forall _ _) budgets_timed).
Qed.
