(* ===== verification/Wanted.v ===== *)
(** * The wanted node aliases (internal/reconcile/wanted.go)

    [Wanted] turns the guests of one cluster into SPIRE node aliases and the
    problems to log. The maps of the code are [gmap]s; the two places that range
    over a map ([collide]) fold over it in the map's own order, and
    [collide_spec] shows the order does not matter. *)

From S2P Require Import Prelude.
From S2P Require Import Go.
From Stdlib Require Import Ascii.

Record Guest := mkGuest { VMID : string; Pool : string; Tags : string; Template : bool }.
Record Cluster := mkCluster { ClusterName : string; Fingerprints : list string }.
Record Alias := mkAlias { SPIFFEID : string; Selectors : list string }.
Record Problem := mkProblem { ProblemVMID : string; Reason : string; Detail : string }.

#[export] Instance Guest_eq_dec : EqDecision Guest.
Proof. solve_decision. Defined.
#[export] Instance Alias_eq_dec : EqDecision Alias.
Proof. solve_decision. Defined.
#[export] Instance Problem_eq_dec : EqDecision Problem.
Proof. solve_decision. Defined.

Definition ReasonBadSegment : string := "bad-segment".
Definition ReasonNestedPool : string := "nested-pool".
Definition ReasonPoolCollision : string := "pool-collision".
Definition tagPrefix : string := "vtpm_mds.io.".

(** Every rune the loop accepts is one byte, and no byte above 127 is accepted. *)
Definition seg_char (c : ascii) : bool :=
  is_lower c || is_digit c || bool_decide (c = "."%char)
  || bool_decide (c = "-"%char) || bool_decide (c = "_"%char).
Definition validSegment (s : string) : bool :=
  negb (bool_decide (s = "") || bool_decide (s = ".") || bool_decide (s = "..")) && sforall seg_char s.

Definition splitTags (s : string) : list string := TagFields s.

(** The separator of [selectorKey] and of the aliases' order. *)
Definition nul_string : string := String (chr 0) "".

Definition fp_selector (fp : string) : string := "tpm_devid:ca:fingerprint:" +:+ fp.
Definition cn_selector (vmid : string) : string := "tpm_devid:subject:cn:" +:+ vmid.

Section wanted.
Context `{GoUnicode}.

(** ** Pools that collide once lowercased *)

Definition add_pool (m : gmap string (gset string)) (g : Guest) : gmap string (gset string) :=
  if Template g || bool_decide (Pool g = "") || Contains (Pool g) "/" then m
  else
    let l := ToLower (Pool g) in
    if negb (validSegment l) then m
    else <[l := {[Pool g]} ∪ default ∅ (m !! l)]> m.
Definition byLower (guests : list Guest) : gmap string (gset string) := foldl add_pool ∅ guests.

Definition collide_set (set : gset string) (m : gmap string string) : gmap string string :=
  if size set <? 2 then m
  else
    let ids := SortStrings (elements set) in
    let detail := Join ids "," in
    foldl (fun m id => <[id := detail]> m) m ids.
Definition collide (guests : list Guest) : gmap string string :=
  map_fold (fun _ => collide_set) ∅ (byLower guests).

(** ** The pass over the guests *)

Record acc := mkAcc {
  seen : gset (string * string);
  wants : list (string * string);
  problems : list Problem;
}.
Definition add (id vmid : string) (st : acc) : acc :=
  if bool_decide ((id, vmid) ∈ seen st) then st
  else mkAcc ({[(id, vmid)]} ∪ seen st) (wants st ++ [(id, vmid)]) (problems st).
Definition problem (p : Problem) (st : acc) : acc :=
  mkAcc (seen st) (wants st) (problems st ++ [p]).

(** What a tag says: its key and value, lowercased; [None] when it is another
    program's tag, [Some None] when it is refused. *)
Definition parse_tag (piece : string) : option (option (string * string)) :=
  if (String.length piece <? String.length tagPrefix)
     || negb (EqualFold (String.substring 0 (String.length tagPrefix) piece) tagPrefix)
  then None
  else
    let rest := sdrop (String.length tagPrefix) piece in
    let '(key, value, ok) := Cut rest "." in
    let key := ToLower key in
    let value := ToLower value in
    if negb ok || negb (validSegment key) || negb (validSegment value) then Some None
    else Some (Some (key, value)).

Definition tag_step (base pool vmid : string) (st : acc) (piece : string) : acc :=
  match parse_tag piece with
  | None => st
  | Some None => problem (mkProblem vmid ReasonBadSegment piece) st
  | Some (Some (key, value)) =>
      add (base +:+ "/pool/" +:+ pool +:+ "/tag/" +:+ key +:+ "/" +:+ value) vmid st
  end.

Definition guest_step (base : string) (collide : gmap string string) (st : acc) (g : Guest) : acc :=
  if Template g then st
  else
    let st := add (base +:+ "/vm/" +:+ VMID g) (VMID g) st in
    if bool_decide (Pool g = "") then st
    else if Contains (Pool g) "/" then problem (mkProblem (VMID g) ReasonNestedPool (Pool g)) st
    else
      let pool := ToLower (Pool g) in
      if negb (validSegment pool) then problem (mkProblem (VMID g) ReasonBadSegment (Pool g)) st
      else
        match collide !! Pool g with
        | Some d => problem (mkProblem (VMID g) ReasonPoolCollision d) st
        | None =>
            foldl (tag_step base pool (VMID g))
              (add (base +:+ "/pool/" +:+ pool) (VMID g) st) (splitTags (Tags g))
        end.

(** ** The sorted results *)

Definition alias_for (w : string * string) (fp : string) : Alias :=
  mkAlias w.1 (SortStrings [fp_selector fp; cn_selector w.2]).

(** [sort.Slice]'s orders; elements neither sorts before the other are equal. *)
Definition alias_le : relation Alias :=
  then_by SPIFFEID (by_string (fun a => Join (Selectors a) nul_string)).
Definition problem_le : relation Problem := then_by ProblemVMID (then_by Reason (by_string Detail)).

(** A problem equal to the one before it is dropped. *)
Fixpoint uniq_from (prev : option Problem) (l : list Problem) : list Problem :=
  match l with
  | [] => []
  | p :: l => if bool_decide (prev = Some p) then uniq_from (Some p) l else p :: uniq_from (Some p) l
  end.

Definition Wanted (td : string) (c : Cluster) (guests : list Guest) : list Alias * list Problem :=
  let base := "spiffe://" +:+ td +:+ "/pve/" +:+ ClusterName c in
  let st := foldl (guest_step base (collide guests)) (mkAcc ∅ [] []) guests in
  (merge_sort alias_le (wants st ≫= fun w => map (alias_for w) (Fingerprints c)),
   uniq_from None (merge_sort problem_le (problems st))).

(** ** The colliding pools *)

(** The guest counts for a pool: it runs, and its pool is one path segment. *)
Definition pooled (g : Guest) : Prop :=
  Template g = false ∧ Pool g ≠ "" ∧ Contains (Pool g) "/" = false ∧
  validSegment (ToLower (Pool g)) = true.

(** No other pool of a counted guest has the same lowercase name. *)
Definition unique_pool (guests : list Guest) (p : string) : Prop :=
  ∀ g, g ∈ guests → pooled g → ToLower (Pool g) = ToLower p → Pool g = p.

Lemma add_pool_elem m g l p :
  p ∈ default ∅ (add_pool m g !! l) ↔
    p ∈ default ∅ (m !! l) ∨ pooled g ∧ Pool g = p ∧ ToLower p = l.
Proof.
  unfold add_pool, pooled.
  destruct (Template g); cbn; [naive_solver|].
  case_bool_decide; cbn; [naive_solver|].
  destruct (Contains (Pool g) "/"); cbn; [naive_solver|].
  destruct (validSegment (ToLower (Pool g))) eqn:E; cbn; [|naive_solver].
  destruct (decide (ToLower (Pool g) = l)) as [<-|Hne].
  - rewrite lookup_insert_eq. cbn. set_solver.
  - rewrite lookup_insert_ne by done. naive_solver.
Qed.

Lemma byLower_elem guests l p :
  p ∈ default ∅ (byLower guests !! l) ↔ ∃ g, g ∈ guests ∧ pooled g ∧ Pool g = p ∧ ToLower p = l.
Proof.
  unfold byLower.
  assert (∀ m, p ∈ default ∅ (foldl add_pool m guests !! l) ↔
    p ∈ default ∅ (m !! l) ∨ ∃ g, g ∈ guests ∧ pooled g ∧ Pool g = p ∧ ToLower p = l) as Hgen.
  { induction guests as [|g guests IH]; intros m; cbn [foldl].
    - set_solver.
    - rewrite IH, add_pool_elem. setoid_rewrite elem_of_cons. naive_solver. }
  rewrite Hgen, lookup_empty. set_solver.
Qed.

Lemma foldl_insert_None (d : string) ids (m : gmap string string) p :
  foldl (fun m id => <[id := d]> m) m ids !! p = None ↔ m !! p = None ∧ p ∉ ids.
Proof.
  revert m. induction ids as [|id ids IH]; intros m; cbn [foldl]; [set_solver|].
  rewrite IH, lookup_insert, not_elem_of_cons. case_decide; naive_solver.
Qed.

Lemma collide_None guests p :
  collide guests !! p = None ↔
    ∀ l set, byLower guests !! l = Some set → p ∈ set → size set < 2.
Proof.
  unfold collide. generalize (byLower guests) as m. intros m.
  induction m as [|l set m Hl Hfirst IH] using map_first_key_ind.
  { rewrite map_fold_empty. split; [intros _ ? ? H'; by rewrite lookup_empty in H'|done]. }
  rewrite map_fold_insert_first_key by done.
  assert (∀ r : gmap string string, collide_set set r !! p = None ↔
    r !! p = None ∧ (p ∈ set → size set < 2)) as Hset.
  { intros r. unfold collide_set. destruct (Nat.ltb_spec (size set) 2); [naive_solver|].
    rewrite foldl_insert_None, elem_of_SortStrings, elem_of_elements.
    split; intros [? Hp]; (split; [done|]); [done|]. intros ?. specialize (Hp H2). lia. }
  rewrite Hset, IH. split.
  - intros [Hm Hs] l' set'. rewrite lookup_insert. case_decide; naive_solver.
  - intros Hall. split; [|intros; eapply (Hall l); [by rewrite lookup_insert_eq|done]].
    intros l' set' Hl'. apply (Hall l'). rewrite lookup_insert_ne; [done|congruence].
Qed.

(** The code's map answers exactly whether another pool collides. *)
Lemma collide_spec guests g :
  g ∈ guests → pooled g → collide guests !! Pool g = None ↔ unique_pool guests (Pool g).
Proof.
  intros Hg Hpg. rewrite collide_None. split.
  - intros Hall g' Hg' Hp' Hl'.
    pose proof (proj2 (byLower_elem guests (ToLower (Pool g)) (Pool g)) ltac:(eauto)) as H1.
    pose proof (proj2 (byLower_elem guests (ToLower (Pool g)) (Pool g')) ltac:(eauto)) as H2.
    destruct (byLower guests !! ToLower (Pool g)) as [set|] eqn:E; [|set_solver]. cbn in *.
    specialize (Hall _ _ E H1). destruct (decide (Pool g' = Pool g)) as [|Hne]; [done|exfalso].
    assert (({[Pool g; Pool g']} : gset string) ⊆ set) as Hsub%subseteq_size by set_solver.
    rewrite size_union, !size_singleton in Hsub by set_solver. lia.
  - intros Hu l set Hset Hin.
    assert (set ⊆ {[Pool g]}) as Hsub%subseteq_size.
    { intros p Hp. pose proof (byLower_elem guests l) as Hel. rewrite Hset in Hel. cbn in Hel.
      apply Hel in Hp as (g' & ? & ? & <- & Hl'). apply Hel in Hin as (? & ? & ? & ? & <-).
      apply elem_of_singleton. by apply Hu. }
    rewrite size_singleton in Hsub. lia.
Qed.

(** [ids] are the pools with the lowercase name of [p], in order. *)
Definition colliding (guests : list Guest) (p : string) (ids : list string) : Prop :=
  StronglySorted String.le ids ∧ NoDup ids ∧
  ∀ p', p' ∈ ids ↔ ∃ g, g ∈ guests ∧ pooled g ∧ Pool g = p' ∧ ToLower p' = ToLower p.

Lemma colliding_unique guests p ids ids' :
  colliding guests p ids → colliding guests p ids' → ids = ids'.
Proof.
  intros (Hs & Hn & He) (Hs' & Hn' & He').
  apply (StronglySorted_unique String.le); [done..|].
  apply NoDup_Permutation; [done..|]. intros q. by rewrite He, He'.
Qed.

Lemma foldl_insert_Some (d : string) ids (m : gmap string string) p d' :
  foldl (fun m id => <[id := d]> m) m ids !! p = Some d' → m !! p = Some d' ∨ p ∈ ids ∧ d' = d.
Proof.
  revert m. induction ids as [|id ids IH]; intros m; cbn [foldl]; [by left|].
  intros [Hp|[? ->]]%IH; [|right; split; [by right|done]].
  rewrite lookup_insert in Hp. case_decide; [|by left]. simplify_eq. right. split; [by left|done].
Qed.

Lemma collide_Some guests p d :
  collide guests !! p = Some d → ∃ ids, colliding guests p ids ∧ d = Join ids ",".
Proof.
  intros Hd.
  assert (∃ l set, byLower guests !! l = Some set ∧ p ∈ set ∧
    d = Join (SortStrings (elements set)) ",") as (l & set & Hl & Hp & ->).
  { revert Hd. unfold collide. generalize (byLower guests) as m. intros m.
    induction m as [|l set m Hl Hfirst IH] using map_first_key_ind.
    { rewrite map_fold_empty. intros Hd. by rewrite lookup_empty in Hd. }
    rewrite map_fold_insert_first_key by done. unfold collide_set at 1. intros Hd.
    assert (map_fold (λ _, collide_set) ∅ m !! p = Some d ∨
      p ∈ set ∧ d = Join (SortStrings (elements set)) ",") as [Hm|[? ->]].
    { destruct (size set <? 2); [by left|].
      by apply foldl_insert_Some in Hd as [?|[?%elem_of_SortStrings%elem_of_elements ->]]; auto. }
    - destruct (IH Hm) as (l' & set' & Hl' & ? & ->). exists l', set'.
      rewrite lookup_insert_ne by congruence. done.
    - exists l, set. by rewrite lookup_insert_eq. }
  pose proof (byLower_elem guests l) as Hel. rewrite Hl in Hel. cbn in Hel.
  apply Hel in Hp as (_ & _ & _ & _ & <-). eexists. split; [|done]. split_and!.
  - apply StronglySorted_merge_sort; apply _.
  - unfold SortStrings. rewrite merge_sort_Permutation. apply NoDup_elements.
  - intros p'. by rewrite elem_of_SortStrings, elem_of_elements, Hel.
Qed.

(** ** What each guest asks for *)

(** The guest is listed in a pool whose aliases it gets. *)
Definition in_pool (guests : list Guest) (g : Guest) : Prop :=
  pooled g ∧ unique_pool guests (Pool g).

(** The names of a running guest, under the cluster's base. *)
Inductive names (guests : list Guest) (base : string) (g : Guest) : string → Prop :=
| names_vm : names guests base g (base +:+ "/vm/" +:+ VMID g)
| names_pool : in_pool guests g → names guests base g (base +:+ "/pool/" +:+ ToLower (Pool g))
| names_tag piece key value :
    in_pool guests g → piece ∈ splitTags (Tags g) → parse_tag piece = Some (Some (key, value)) →
    names guests base g
      (base +:+ "/pool/" +:+ ToLower (Pool g) +:+ "/tag/" +:+ key +:+ "/" +:+ value).

(** What is reported of a running guest. *)
Inductive complaint (guests : list Guest) (g : Guest) : Problem → Prop :=
| complain_nested :
    Pool g ≠ "" → Contains (Pool g) "/" = true →
    complaint guests g (mkProblem (VMID g) ReasonNestedPool (Pool g))
| complain_segment :
    Pool g ≠ "" → Contains (Pool g) "/" = false → validSegment (ToLower (Pool g)) = false →
    complaint guests g (mkProblem (VMID g) ReasonBadSegment (Pool g))
| complain_collision ids :
    pooled g → ¬ unique_pool guests (Pool g) → colliding guests (Pool g) ids →
    complaint guests g (mkProblem (VMID g) ReasonPoolCollision (Join ids ","))
| complain_tag piece :
    in_pool guests g → piece ∈ splitTags (Tags g) → parse_tag piece = Some None →
    complaint guests g (mkProblem (VMID g) ReasonBadSegment piece).

Record acc_wf (st : acc) : Prop := {
  acc_seen : ∀ w, w ∈ seen st ↔ w ∈ wants st;
  acc_nodup : NoDup (wants st);
}.

Lemma add_spec id vmid st :
  acc_wf st →
  acc_wf (add id vmid st) ∧ problems (add id vmid st) = problems st ∧
  ∀ w, w ∈ wants (add id vmid st) ↔ w ∈ wants st ∨ w = (id, vmid).
Proof.
  intros [Hs Hn]. unfold add. case_bool_decide as Hin; cbn.
  - split_and!; [by split|done|]. intros w. split; [by left|]. intros [| ->]; [done|by apply Hs].
  - split_and!; [|done|set_solver]. split; cbn; [set_solver|].
    apply NoDup_app. split_and!; [done| |apply NoDup_singleton].
    intros w Hw ->%list_elem_of_singleton. by apply Hin, Hs.
Qed.

Lemma problem_spec p st :
  acc_wf st →
  acc_wf (problem p st) ∧ wants (problem p st) = wants st ∧
  ∀ q, q ∈ problems (problem p st) ↔ q ∈ problems st ∨ q = p.
Proof. intros [Hs Hn]. split_and!; [by split|done|]. cbn. set_solver. Qed.

Lemma tag_step_spec base pool vmid st pieces :
  acc_wf st →
  let st' := foldl (tag_step base pool vmid) st pieces in
  acc_wf st' ∧
  (∀ w, w ∈ wants st' ↔ w ∈ wants st ∨ ∃ piece,
    piece ∈ pieces ∧ ∃ key value, parse_tag piece = Some (Some (key, value)) ∧
    w = (base +:+ "/pool/" +:+ pool +:+ "/tag/" +:+ key +:+ "/" +:+ value, vmid)) ∧
  (∀ q, q ∈ problems st' ↔ q ∈ problems st ∨ ∃ piece,
    piece ∈ pieces ∧ parse_tag piece = Some None ∧ q = mkProblem vmid ReasonBadSegment piece).
Proof.
  revert st. induction pieces as [|piece pieces IH]; intros st Hst; cbn [foldl].
  { split_and!; [done|set_solver|set_solver]. }
  assert (acc_wf (tag_step base pool vmid st piece) ∧
    (∀ w, w ∈ wants (tag_step base pool vmid st piece) ↔ w ∈ wants st ∨ ∃ key value,
      parse_tag piece = Some (Some (key, value)) ∧
      w = (base +:+ "/pool/" +:+ pool +:+ "/tag/" +:+ key +:+ "/" +:+ value, vmid)) ∧
    (∀ q, q ∈ problems (tag_step base pool vmid st piece) ↔ q ∈ problems st ∨
      parse_tag piece = Some None ∧ q = mkProblem vmid ReasonBadSegment piece)) as (Hwf & Hw & Hq).
  { unfold tag_step. destruct (parse_tag piece) as [[[key value]|]|].
    - destruct (add_spec (base +:+ "/pool/" +:+ pool +:+ "/tag/" +:+ key +:+ "/" +:+ value) vmid st Hst)
        as (? & -> & Hw). split_and!; [done| |naive_solver].
      intros w. rewrite Hw. naive_solver.
    - destruct (problem_spec (mkProblem vmid ReasonBadSegment piece) st Hst) as (? & -> & Hq).
      split_and!; [done|naive_solver|]. intros q. rewrite Hq. naive_solver.
    - split_and!; [done|naive_solver|naive_solver]. }
  destruct (IH _ Hwf) as (Hwf' & Hw' & Hq'). split_and!; [done|..].
  - intros w. rewrite Hw', Hw, exists_cons. tauto.
  - intros q. rewrite Hq', Hq, exists_cons. tauto.
Qed.

Definition step_spec (guests : list Guest) (base : string) (g : Guest) (st st' : acc) : Prop :=
  acc_wf st' ∧
  (∀ id v, (id, v) ∈ wants st' ↔
    (id, v) ∈ wants st ∨ Template g = false ∧ v = VMID g ∧ names guests base g id) ∧
  (∀ q, q ∈ problems st' ↔ q ∈ problems st ∨ Template g = false ∧ complaint guests g q).

(** A guest whose pool gives it no alias gets the VM alias and one complaint. *)
Lemma guest_step_refused guests base g st q0 :
  acc_wf st → Template g = false → ¬ in_pool guests g →
  (∀ q, complaint guests g q ↔ q = q0) →
  step_spec guests base g st (problem q0 (add (base +:+ "/vm/" +:+ VMID g) (VMID g) st)).
Proof.
  intros Hst Ht Hni Hc.
  destruct (add_spec (base +:+ "/vm/" +:+ VMID g) (VMID g) st Hst) as (Hst' & Hp & Hw).
  destruct (problem_spec q0 _ Hst') as (Hst'' & Hw' & Hq). split_and!; [done|..].
  - intros id v. rewrite Hw', Hw. split.
    + intros [?|[= -> ->]]; [by left|]. right. split_and!; [done|done|constructor].
    + intros [?|(_ & -> & Hn)]; [by left|]. right. by inversion Hn.
  - intros q. rewrite Hq, Hp, Hc. naive_solver.
Qed.

Lemma guest_step_spec guests base g st :
  g ∈ guests → acc_wf st →
  step_spec guests base g st (guest_step base (collide guests) st g).
Proof.
  intros Hg Hst. unfold guest_step.
  destruct (Template g) eqn:Ht.
  { unfold step_spec. rewrite Ht. split_and!; [done|naive_solver|naive_solver]. }
  destruct (add_spec (base +:+ "/vm/" +:+ VMID g) (VMID g) st Hst) as (Hst' & Hp & Hw).
  case_bool_decide as Hne.
  { split_and!; [done|..].
    - intros id v. rewrite Hw. split.
      + intros [?|[= -> ->]]; [by left|]. right. split_and!; [done|done|constructor].
      + intros [?|(_ & -> & Hn)]; [by left|]. right. inversion Hn; [done|..];
          match goal with H : in_pool _ _ |- _ => by destruct H as [(_ & ? & _) _] end.
    - intros q. rewrite Hp. split; [by left|]. intros [?|[_ Hc]]; [done|exfalso].
      inversion Hc; try done;
        match goal with H : pooled _ |- _ => by destruct H as (_ & ? & _)
                      | H : in_pool _ _ |- _ => by destruct H as [(_ & ? & _) _] end. }
  destruct (Contains (Pool g) "/") eqn:Hn.
  { apply guest_step_refused; [done|done|by intros [(_ & _ & ? & _) _]; congruence|].
    intros q. split; [|intros ->; by constructor]. inversion 1 as [| |? (_ & _ & ? & _)|? [(_ & _ & ? & _) _]]; congruence. }
  destruct (validSegment (ToLower (Pool g))) eqn:Hv; cbn [negb].
  2:{ apply guest_step_refused; [done|done|by intros [(_ & _ & _ & ?) _]; congruence|].
    intros q. split; [|intros ->; by constructor].
    inversion 1 as [| |? (_ & _ & _ & ?)|? [(_ & _ & _ & ?) _]]; congruence. }
  assert (pooled g) as Hpg by done.
  pose proof (collide_spec guests g Hg Hpg) as Hcol.
  destruct (collide guests !! Pool g) as [d|] eqn:Hd.
  { destruct (collide_Some _ _ _ Hd) as (ids & Hids & ->).
    assert (¬ in_pool guests g) by (intros [_ ?%Hcol]; done).
    apply guest_step_refused; [done..|]. intros q. split.
    - inversion 1 as [| |ids' _ _ Hids'|]; try congruence.
      by rewrite (colliding_unique _ _ _ _ Hids Hids').
    - intros ->. apply complain_collision; [done|by intros ?%Hcol|done]. }
  assert (in_pool guests g) as Hin by (split; [done|by apply Hcol]).
  destruct (add_spec (base +:+ "/pool/" +:+ ToLower (Pool g)) (VMID g) _ Hst') as (Hst2 & Hp2 & Hw2).
  destruct (tag_step_spec base (ToLower (Pool g)) (VMID g) _ (splitTags (Tags g)) Hst2) as (Hst3 & Hw3 & Hp3).
  split_and!; [done|..].
  - intros id v. rewrite Hw3, Hw2, Hw. split.
    + intros [[[?|[= -> ->]]|[= -> ->]]|(piece & ? & key & value & ? & [= -> ->])];
        [by left|right..]; (split_and!; [done|done|by econstructor]).
    + intros [?|(_ & -> & Hna)]; [by do 3 left|]. inversion Hna; subst; [by left; left; right|by left; right|].
      right. eauto 10.
  - intros q. rewrite Hp3, Hp2, Hp. split.
    + intros [?|(piece & ? & ? & ->)]; [by left|]. right. split; [done|by constructor].
    + intros [?|(_ & Hc)]; [by left|]. right. inversion Hc; subst; try congruence; [|eauto]. by destruct Hin.
Qed.

Lemma guests_spec guests base gs st :
  (∀ g, g ∈ gs → g ∈ guests) → acc_wf st →
  let st' := foldl (guest_step base (collide guests)) st gs in
  acc_wf st' ∧
  (∀ id v, (id, v) ∈ wants st' ↔ (id, v) ∈ wants st ∨
    ∃ g, g ∈ gs ∧ Template g = false ∧ v = VMID g ∧ names guests base g id) ∧
  (∀ q, q ∈ problems st' ↔ q ∈ problems st ∨
    ∃ g, g ∈ gs ∧ Template g = false ∧ complaint guests g q).
Proof.
  revert st. induction gs as [|g gs IH]; intros st Hgs Hst; cbn [foldl].
  { split_and!; [done|set_solver|set_solver]. }
  destruct (guest_step_spec guests base g st (Hgs g (list_elem_of_here _ _)) Hst) as (Hst' & Hw & Hp).
  destruct (IH _ ltac:(intros; apply Hgs; by right) Hst') as (Hst'' & Hw' & Hp').
  split_and!; [done|..].
  - intros id v. rewrite Hw', Hw, exists_cons. tauto.
  - intros q. rewrite Hp', Hp, exists_cons. tauto.
Qed.

(** ** The results *)

(** The two prefixes differ first in [c] against [s], so the pair is sorted. *)
Lemma selectors_sorted fp v :
  SortStrings [fp_selector fp; cn_selector v] = [fp_selector fp; cn_selector v].
Proof. unfold SortStrings. cbn. rewrite decide_True; done. Qed.

Lemma alias_for_inj w fp w' fp' : alias_for w fp = alias_for w' fp' → w = w' ∧ fp = fp'.
Proof.
  unfold alias_for. rewrite !selectors_sorted. destruct w as [id v], w' as [id' v']. cbn.
  intros [= -> Hfp Hv]. split; congruence.
Qed.

Abbreviation base_of td c := ("spiffe://" +:+ td +:+ "/pve/" +:+ ClusterName c).

Lemma wanted_spec td c guests a :
  a ∈ (Wanted td c guests).1 ↔
    ∃ g fp, g ∈ guests ∧ Template g = false ∧ fp ∈ Fingerprints c ∧
      names guests (base_of td c) g (SPIFFEID a) ∧
      Selectors a = [fp_selector fp; cn_selector (VMID g)].
Proof.
  unfold Wanted. cbn zeta. cbn [fst]. rewrite elem_of_merge_sort, list_elem_of_bind.
  destruct (guests_spec guests (base_of td c) guests (mkAcc ∅ [] [])) as (_ & Hw & _);
    [done|split; cbn; [set_solver|constructor]|]. split.
  - intros ([id v] & Hfp & [Hin|(g & ? & ? & -> & Hn)]%Hw); [by apply not_elem_of_nil in Hin|].
    apply list_elem_of_fmap in Hfp as (fp & -> & Hfp). exists g, fp. split_and!; [done..|].
    apply selectors_sorted.
  - intros (g & fp & Hg & Ht & Hfp & Hn & Hs). exists (SPIFFEID a, VMID g). split.
    + apply list_elem_of_fmap. exists fp. split; [|done]. destruct a; cbn in *. subst.
      unfold alias_for. by rewrite selectors_sorted.
    + apply Hw. right. eauto 6.
Qed.

Lemma wanted_problems_spec td c guests q :
  q ∈ problems (foldl (guest_step (base_of td c) (collide guests)) (mkAcc ∅ [] []) guests) ↔
    ∃ g, g ∈ guests ∧ Template g = false ∧ complaint guests g q.
Proof.
  destruct (guests_spec guests (base_of td c) guests (mkAcc ∅ [] [])) as (_ & _ & Hp);
    [done|split; cbn; [set_solver|constructor]|]. rewrite Hp. cbn. set_solver.
Qed.

Lemma problem_le_antisymm p q : problem_le p q → problem_le q p → p = q.
Proof.
  intros Hpq Hqp. destruct (then_by_antisymm _ _ _ _ Hpq Hqp) as (Hv & Hpq' & Hqp').
  destruct (then_by_antisymm _ _ _ _ Hpq' Hqp') as (Hr & Hd & Hd').
  pose proof (by_string_antisymm _ _ _ Hd Hd'). destruct p, q; cbn in *. by subst.
Qed.

(** On a sorted list, dropping repeats keeps the elements and leaves them distinct. *)
Lemma uniq_from_spec prev l :
  StronglySorted problem_le (option_list prev ++ l) →
  StronglySorted problem_le (option_list prev ++ uniq_from prev l) ∧
  NoDup (option_list prev ++ uniq_from prev l) ∧
  ∀ q, q ∈ option_list prev ++ uniq_from prev l ↔ q ∈ option_list prev ++ l.
Proof.
  revert prev. induction l as [|p l IH]; intros prev Hs; cbn [uniq_from].
  { rewrite app_nil_r in *. split_and!; [done|destruct prev; cbn; [apply NoDup_singleton|constructor]|done]. }
  assert (StronglySorted problem_le (option_list (Some p) ++ l)) as Hp.
  { destruct prev; cbn in *; [by inversion Hs|done]. }
  destruct (IH (Some p) Hp) as (IHs & IHn & IHe). cbn [option_list app] in *.
  case_bool_decide as Heq; [subst prev|].
  - split_and!; [done..|]. intros q. cbn. rewrite IHe. set_solver.
  - destruct prev as [p0|]; cbn [option_list app] in *; [|split_and!; [done..|intros q; by rewrite IHe]].
    apply StronglySorted_inv in Hs as [Hs Hle].
    assert (∀ q, q ∈ p :: uniq_from (Some p) l → problem_le p0 q) as Hle'.
    { intros q Hq%IHe. by eapply Forall_forall. }
    split_and!.
    + constructor; [done|by apply Forall_forall].
    + constructor; [|done]. intros Hin%IHe. apply Heq. f_equal.
      apply problem_le_antisymm; [apply Hle'; left|].
      apply elem_of_cons in Hin as [->|Hin]; [by destruct (total problem_le p p)|].
      apply StronglySorted_inv in Hp as [_ Hp]. by eapply Forall_forall.
    + intros q. specialize (IHe q). rewrite !elem_of_app. cbn in *. tauto.
Qed.

(** C8: the aliases of a cluster are exactly, for each running guest and each
    configured intermediate, the guest's names with the two selectors that pin
    that intermediate and the guest's VM ID: its VM name; its pool's name when
    the pool is one path segment and no other pool has the same lowercase name;
    and under that pool a name per well-formed tag. They come sorted by SPIFFE
    ID and then selectors, each once. *)
Theorem wanted_aliases td c guests :
  NoDup (Fingerprints c) →
  (∀ a, a ∈ (Wanted td c guests).1 ↔
    ∃ g fp, g ∈ guests ∧ Template g = false ∧ fp ∈ Fingerprints c ∧
      names guests (base_of td c) g (SPIFFEID a) ∧
      Selectors a = [fp_selector fp; cn_selector (VMID g)]) ∧
  StronglySorted alias_le (Wanted td c guests).1 ∧ NoDup (Wanted td c guests).1.
Proof.
  intros Hfps. split_and!; [apply wanted_spec|..].
  - apply StronglySorted_merge_sort; apply _.
  - unfold Wanted. cbn zeta. cbn [fst]. rewrite merge_sort_Permutation.
    destruct (guests_spec guests (base_of td c) guests (mkAcc ∅ [] [])) as ([_ Hn] & _);
      [done|split; cbn; [set_solver|constructor]|].
    apply NoDup_bind; [|intros w _; apply NoDup_fmap_2_strong; [|done]|done].
    + intros w w' a _ _ (fp & -> & _)%list_elem_of_fmap (fp' & Heq & _)%list_elem_of_fmap.
      by apply alias_for_inj in Heq as [-> _].
    + intros fp fp' _ _ Heq. by apply alias_for_inj in Heq as [_ ->].
Qed.


(** ** One name, one meaning *)

Lemma seg_char_slash c : seg_char c = true → c ≠ "/"%char.
Proof. by intros Hc ->. Qed.

Lemma segment_no_slash s : validSegment s = true → ContainsByte "/" s = false.
Proof.
  intros [_ Hs]%andb_true_iff. induction s as [|c s IH]; [done|]. cbn in *.
  apply andb_true_iff in Hs as [Hc%seg_char_slash Hs]. rewrite (IH Hs).
  by rewrite bool_decide_eq_false_2.
Qed.

Lemma parse_tag_segments piece key value :
  parse_tag piece = Some (Some (key, value)) → validSegment key = true ∧ validSegment value = true.
Proof.
  unfold parse_tag. case_match; [done|]. destruct (Cut _ _) as [[k v] ok].
  destruct ok, (validSegment (ToLower k)) eqn:Hk, (validSegment (ToLower v)) eqn:Hv; cbn; try done.
  by intros [= <- <-].
Qed.

Lemma app_slash (a b : string) : a +:+ "/" +:+ b = a +:+ String "/" b.
Proof. done. Qed.

(** The three forms of a name never meet, and each determines its segments. *)
Lemma names_tag_inv guests base g p k v :
  validSegment p = true → validSegment k = true →
  names guests base g (base +:+ "/pool/" +:+ p +:+ "/tag/" +:+ k +:+ "/" +:+ v) →
  in_pool guests g ∧ ToLower (Pool g) = p ∧
  ∃ piece, piece ∈ splitTags (Tags g) ∧ parse_tag piece = Some (Some (k, v)).
Proof.
  intros Hp%segment_no_slash Hk%segment_no_slash Hn. inversion Hn as [Heq|Hin Heq|piece k' v' Hin Hpc Ht Heq];
    apply string_app_inj_l in Heq; cbn in Heq; first [discriminate Heq|injection Heq as Heq].
  - exfalso. destruct Hin as [(_ & _ & _ & Hv%segment_no_slash) _].
    rewrite Heq in Hv. by rewrite ContainsByte_app, orb_true_r in Hv.
  - pose proof Hin as [(_ & _ & _ & Hv%segment_no_slash) _].
    destruct (parse_tag_segments _ _ _ Ht) as [Hk'%segment_no_slash _].
    apply (split_first_inj "/") in Heq as [-> Heq]; [|done..]. simplify_eq/=.
    apply (split_first_inj "/") in Heq as [-> ->]; [|done..]. eauto.
Qed.

Lemma names_pool_inv guests base g p :
  validSegment p = true → names guests base g (base +:+ "/pool/" +:+ p) →
  in_pool guests g ∧ ToLower (Pool g) = p.
Proof.
  intros Hp%segment_no_slash Hn. inversion Hn as [Heq|Hin Heq|piece k' v' Hin Hpc Ht Heq];
    apply string_app_inj_l in Heq; cbn in Heq;
    first [discriminate Heq|injection Heq as Heq]; [done|].
  exfalso. rewrite <-Heq in Hp. by rewrite ContainsByte_app, orb_true_r in Hp.
Qed.

(** No guest can obtain another's name. The name of a pool's tag goes to a
    VM ID exactly when a running guest with that VM ID is listed in that pool,
    the pool's lowercase name is no other pool's, and one of the guest's own
    tags parses to that key and value; hence only to members of the pool. *)
Theorem tag_name_exact td c guests p k v fp vm :
  validSegment p = true → validSegment k = true → validSegment v = true →
  let base := base_of td c in
  mkAlias (base +:+ "/pool/" +:+ p +:+ "/tag/" +:+ k +:+ "/" +:+ v) [fp_selector fp; cn_selector vm]
      ∈ (Wanted td c guests).1 ↔
    fp ∈ Fingerprints c ∧ ∃ g, g ∈ guests ∧ Template g = false ∧ VMID g = vm ∧
      in_pool guests g ∧ ToLower (Pool g) = p ∧
      ∃ piece, piece ∈ splitTags (Tags g) ∧ parse_tag piece = Some (Some (k, v)).
Proof.
  intros Hp Hk Hv base. rewrite wanted_spec. cbn [SPIFFEID Selectors]. split.
  - intros (g & fp' & Hg & Ht & Hfp & Hn & [= -> ->]). split; [done|].
    apply names_tag_inv in Hn as (? & ? & ?); [|done..]. by exists g.
  - intros (Hfp & g & Hg & Ht & <- & Hin & <- & piece & Hpc & Hpt).
    exists g, fp. split_and!; [done..| |done]. by eapply names_tag.
Qed.
End wanted.

(** A cluster with two pools that collide, a template, a nested pool and tags of
    other programs. *)
Definition demo_cluster : Cluster := mkCluster "c1" ["ab12"; "00ff"].
Definition demo_guests : list Guest :=
  [mkGuest "350" "Web" "vtpm_mds.io.role.Front;other" false;
   mkGuest "351" "db" "" false; mkGuest "352" "DB" "VTPM_MDS.io.role.x" false;
   mkGuest "353" "a/b" "" false; mkGuest "354" "Web" "vtpm_mds.io.role.Front" true;
   mkGuest "355" "Web" "vtpm_mds.io.bad vtpm_mds.io.bad" false].

Example demo_wanted :
  let '(aliases, problems) := Wanted (H := caseless) "example.org" demo_cluster demo_guests in
  length aliases = 16 ∧
  head aliases = Some (mkAlias "spiffe://example.org/pve/c1/pool/web"
    ["tpm_devid:ca:fingerprint:00ff"; "tpm_devid:subject:cn:350"]) ∧
  problems = [mkProblem "351" "pool-collision" "DB,db"; mkProblem "352" "pool-collision" "DB,db";
              mkProblem "353" "nested-pool" "a/b"; mkProblem "355" "bad-segment" "vtpm_mds.io.bad"].
Proof. by vm_compute. Qed.

Lemma wanted_aliases_witness :
  let l := (Wanted (H := caseless) "example.org" demo_cluster demo_guests).1 in
  NoDup (Fingerprints demo_cluster) ∧ StronglySorted alias_le l ∧ NoDup l.
Proof.
  assert (NoDup (Fingerprints demo_cluster)) as Hfps.
  { apply (bool_decide_unpack _). by vm_compute. }
  split; [exact Hfps|].
  exact (proj2 (wanted_aliases (H := caseless) "example.org" demo_cluster demo_guests Hfps)).
Defined.

Lemma tag_name_exact_witness :
  mkAlias "spiffe://example.org/pve/c1/pool/web/tag/role/front"
      [fp_selector "ab12"; cn_selector "350"]
    ∈ (Wanted (H := caseless) "example.org" demo_cluster demo_guests).1 ↔
    "ab12" ∈ Fingerprints demo_cluster ∧
    ∃ g, g ∈ demo_guests ∧ Template g = false ∧ VMID g = "350" ∧
      in_pool (H := caseless) demo_guests g ∧ ToLower (H := caseless) (Pool g) = "web" ∧
      ∃ piece, piece ∈ splitTags (Tags g) ∧
        parse_tag (H := caseless) piece = Some (Some ("role", "front")).
Proof.
  apply (tag_name_exact (H := caseless) "example.org" demo_cluster demo_guests "web" "role" "front");
    by vm_compute.
Defined.
