(* ===== verification/Diff.v ===== *)
(** * Comparing entries with wanted aliases (internal/reconcile/diff.go)

    [Diff] decides which wanted aliases to create and which entries to delete;
    [Observe], of the [BanTracker], which agents to ban. *)

From S2P Require Import Prelude.
From S2P Require Import Go.
From S2P Require Import Wanted.
From Stdlib Require Import Ascii.

Record Entry := mkEntry {
  EntryID : string;
  ParentID : string;
  EntrySPIFFEID : string;
  EntrySelectors : list string;
  Default : bool;
}.
#[export] Instance Entry_eq_dec : EqDecision Entry.
Proof. solve_decision. Defined.

Definition selectorKey (sel : list string) : string := Join (SortStrings sel) nul_string.

(** The comparison key of an alias and of an entry. *)
Abbreviation skey := (string * string)%type.
Definition alias_skey (a : Alias) : skey := (SPIFFEID a, selectorKey (Selectors a)).
Definition entry_skey (e : Entry) : skey := (EntrySPIFFEID e, selectorKey (EntrySelectors e)).

Section diff.
Context (td cluster : string).

Definition diff_parent : string := "spiffe://" +:+ td +:+ "/spire/server".
Definition diff_prefix : string := "spiffe://" +:+ td +:+ "/pve/" +:+ cluster +:+ "/".

Definition owned (e : Entry) : bool :=
  bool_decide (ParentID e = diff_parent) && HasPrefix (EntrySPIFFEID e) diff_prefix.

Record diff_acc := mkDiff { matched : gset skey; del : list string }.

Definition match_step (want : gset skey) (st : diff_acc) (e : Entry) : diff_acc :=
  if negb (owned e) then st
  else
    let k := entry_skey e in
    if Default e && bool_decide (k ∈ want) && negb (bool_decide (k ∈ matched st))
    then mkDiff ({[k]} ∪ matched st) (del st)
    else mkDiff (matched st) (del st ++ [EntryID e]).

Definition create_step (matched : gset skey) (st : gset skey * list Alias) (a : Alias)
    : gset skey * list Alias :=
  let k := alias_skey a in
  if bool_decide (k ∈ matched) || bool_decide (k ∈ st.1) then st
  else ({[k]} ∪ st.1, st.2 ++ [a]).

Definition Diff (existing : list Entry) (wanted : list Alias) : list Alias * list string :=
  let want := foldl (fun w a => {[alias_skey a]} ∪ w) ∅ wanted in
  let st := foldl (match_step want) (mkDiff ∅ []) existing in
  ((foldl (create_step (matched st)) (∅, []) wanted).2, del st).

(** ** What [Diff] keeps, deletes and creates *)

Section match_entries.
Context (want : gset skey).

Definition good (e : Entry) : Prop := owned e = true ∧ Default e = true ∧ entry_skey e ∈ want.
#[export] Instance good_dec e : Decision (good e).
Proof. unfold good. apply _. Defined.

(** The entries the loop keeps and drops once the keys [M] are matched. *)
Fixpoint kept (M : gset skey) (es : list Entry) : list Entry :=
  match es with
  | [] => []
  | e :: es =>
      if owned e then
        if decide (good e ∧ entry_skey e ∉ M) then e :: kept ({[entry_skey e]} ∪ M) es
        else kept M es
      else e :: kept M es
  end.
Fixpoint dropped (M : gset skey) (es : list Entry) : list Entry :=
  match es with
  | [] => []
  | e :: es =>
      if owned e then
        if decide (good e ∧ entry_skey e ∉ M) then dropped ({[entry_skey e]} ∪ M) es
        else e :: dropped M es
      else dropped M es
  end.

Lemma match_step_eq st e :
  match_step want st e =
    if owned e then
      if decide (good e ∧ entry_skey e ∉ matched st)
      then mkDiff ({[entry_skey e]} ∪ matched st) (del st)
      else mkDiff (matched st) (del st ++ [EntryID e])
    else st.
Proof.
  unfold match_step. cbn zeta. case_decide as Hg; unfold good in Hg.
  - destruct Hg as [(-> & -> & Hk) Hn]. cbn.
    by rewrite bool_decide_eq_true_2, bool_decide_eq_false_2.
  - destruct (owned e); cbn; [|done].
    destruct (Default e); cbn; [|done]. repeat case_bool_decide; cbn; tauto.
Qed.

Lemma match_run es st :
  del (foldl (match_step want) st es) = del st ++ map EntryID (dropped (matched st) es) ∧
  ∀ k, k ∈ matched (foldl (match_step want) st es) ↔
    k ∈ matched st ∨ ∃ e, e ∈ es ∧ good e ∧ entry_skey e = k.
Proof.
  revert st. induction es as [|e es IH]; intros st; cbn [foldl dropped].
  { rewrite app_nil_r. split; [done|]. set_solver. }
  destruct (IH (match_step want st e)) as [Hd Hm]. rewrite match_step_eq in *.
  setoid_rewrite exists_cons.
  destruct (owned e) eqn:Ho.
  - destruct (decide (good e ∧ entry_skey e ∉ matched st)) as [[Hg Hn]|Hn].
    + split; [done|]. intros k. rewrite Hm. cbn. set_solver.
    + split.
      * rewrite Hd. cbn. by rewrite <-(assoc_L (++)).
      * intros k. rewrite Hm. cbn. destruct (decide (good e)); [|tauto].
        assert (entry_skey e ∈ matched st) by (destruct (decide (entry_skey e ∈ matched st)); tauto).
        split; [tauto|]. intros [?|[[_ <-]|?]]; tauto.
  - split; [done|]. intros k. rewrite Hm. split; [tauto|].
    intros [?|[[[Ho' _] _]|?]]; [tauto|congruence|tauto].
Qed.

Lemma kept_dropped M es : kept M es ++ dropped M es ≡ₚ es.
Proof.
  revert M. induction es as [|e es IH]; intros M; cbn; [done|].
  repeat case_match; cbn; rewrite ?IH; [done| |done].
  by rewrite <-Permutation_middle, IH.
Qed.

Lemma dropped_spec M es e :
  e ∈ dropped M es → e ∈ es ∧ owned e = true ∧ (good e →
    entry_skey e ∈ M ∨ ∃ e', e' ∈ kept M es ∧ good e' ∧ entry_skey e' = entry_skey e).
Proof.
  revert M. induction es as [|e0 es IH]; intros M; cbn; [by intros ?%not_elem_of_nil|].
  destruct (owned e0) eqn:Ho.
  - destruct (decide (good e0 ∧ entry_skey e0 ∉ M)) as [[Hg Hn]|Hn].
    + intros (Hin & ? & Hgood)%IH. split_and!; [by right|done|]. intros Hge.
      destruct (Hgood Hge) as [[->%elem_of_singleton|?]%elem_of_union|(e' & ? & ?)].
      * right. exists e0. split; [by left|done].
      * by left.
      * right. exists e'. split; [by right|done].
    + intros [->|(Hin & ? & Hgood)%IH]%elem_of_cons.
      * split_and!; [by left|done|]. intros Hg. left.
        destruct (decide (entry_skey e0 ∈ M)); tauto.
      * split_and!; [by right|done|done].
  - intros (Hin & ? & Hgood)%IH. split_and!; [by right|done|]. intros Hge.
    destruct (Hgood Hge) as [?|(e' & ? & ?)]; [by left|].
    right. exists e'. split; [by right|done].
Qed.

Lemma kept_elem M es e :
  e ∈ kept M es → e ∈ es ∧ (owned e = true → good e ∧ entry_skey e ∉ M).
Proof.
  revert M. induction es as [|e0 es IH]; intros M; cbn; [by intros ?%not_elem_of_nil|].
  destruct (owned e0) eqn:Ho; [destruct (decide (good e0 ∧ entry_skey e0 ∉ M)) as [[Hg Hn]|Hn]|].
  - intros [->|(Hin & Hg')%IH]%elem_of_cons; [split; [by left|done]|].
    split; [by right|]. intros Ho'. destruct (Hg' Ho') as [? ?%not_elem_of_union]. tauto.
  - intros (Hin & Hg')%IH. split; [by right|done].
  - intros [->|(Hin & Hg')%IH]%elem_of_cons; [split; [by left|congruence]|]. split; [by right|done].
Qed.

Lemma kept_nodup M es : NoDup (entry_skey <$> filter (λ e, owned e = true) (kept M es)).
Proof.
  revert M. induction es as [|e0 es IH]; intros M; cbn; [constructor|].
  destruct (owned e0) eqn:Ho; [destruct (decide (good e0 ∧ entry_skey e0 ∉ M)) as [[Hg Hn]|Hn]|].
  - rewrite filter_cons_True by done. cbn. constructor; [|apply IH].
    intros (e & Heq & [Hoe [_ Hke]%kept_elem]%list_elem_of_filter)%list_elem_of_fmap.
    destruct (Hke Hoe) as [_ Hk]. apply Hk, elem_of_union_l, elem_of_singleton. done.
  - apply IH.
  - rewrite filter_cons_False by congruence. apply IH.
Qed.

Lemma kept_foreign M es :
  filter (λ e, owned e = false) (kept M es) = filter (λ e, owned e = false) es.
Proof.
  revert M. induction es as [|e0 es IH]; intros M; cbn [kept]; [done|].
  rewrite (filter_cons _ _ es).
  destruct (owned e0) eqn:Ho; [case_match|]; rewrite ?filter_cons, ?IH, ?Ho; done.
Qed.

(** When IDs are unique, deleting by ID deletes exactly the dropped entries. *)
Lemma kept_by_id M es :
  NoDup (EntryID <$> es) →
  filter (λ e, EntryID e ∉ EntryID <$> dropped M es) es = kept M es.
Proof.
  revert M. induction es as [|e0 es IH]; intros M Hnd; cbn [dropped kept]; [done|].
  cbn in Hnd. apply NoDup_cons in Hnd as [Hni Hnd].
  assert (∀ M, EntryID e0 ∉ EntryID <$> dropped M es) as Hfresh.
  { intros M' (e & Heq & Hin)%list_elem_of_fmap. apply Hni. rewrite Heq.
    apply list_elem_of_fmap_2. by apply (dropped_spec _ _ _ Hin). }
  destruct (owned e0) eqn:Ho; [case_match|].
  - rewrite filter_cons_True by done. f_equal. by apply IH.
  - cbn [fmap list_fmap]. rewrite filter_cons_False by (rewrite not_elem_of_cons; tauto).
    rewrite <-(IH M) by done. apply filter_ext_in. intros e Hin. rewrite not_elem_of_cons. split; [tauto|].
    intros ?. split; [|done]. intros Heq. apply Hni. rewrite <-Heq. by apply list_elem_of_fmap_2.
  - rewrite filter_cons_True by done. f_equal. by apply IH.
Qed.
End match_entries.

Lemma want_spec wanted k :
  k ∈ foldl (fun w a => {[alias_skey a]} ∪ w) (∅ : gset skey) wanted ↔ k ∈ alias_skey <$> wanted.
Proof.
  assert (∀ w : gset skey, k ∈ foldl (fun w a => {[alias_skey a]} ∪ w) w wanted ↔
    k ∈ w ∨ k ∈ alias_skey <$> wanted) as Hgen; [|rewrite Hgen; set_solver].
  induction wanted as [|a wanted IH]; intros w; cbn [foldl fmap list_fmap].
  - split; [by left|]. intros [?|?%not_elem_of_nil]; done.
  - rewrite IH, elem_of_union, elem_of_singleton, elem_of_cons. tauto.
Qed.

(** What [Diff] creates: an alias per key not matched, each once, from [wanted]. *)
Lemma create_run M wanted D c :
  let st := foldl (create_step M) (D, c) wanted in
  ∃ new, st.2 = c ++ new ∧ NoDup (alias_skey <$> new) ∧ (∀ a, a ∈ new → a ∈ wanted) ∧
    ∀ k, k ∈ alias_skey <$> new ↔ k ∈ alias_skey <$> wanted ∧ k ∉ M ∧ k ∉ D.
Proof.
  revert D c. induction wanted as [|a wanted IH]; intros D c; cbn [foldl].
  { exists []. rewrite app_nil_r. split_and!; [done|constructor|done|]. set_solver. }
  assert (create_step M (D, c) a = if bool_decide (alias_skey a ∈ M) || bool_decide (alias_skey a ∈ D)
    then (D, c) else ({[alias_skey a]} ∪ D, c ++ [a])) as -> by done.
  destruct (bool_decide (alias_skey a ∈ M) || bool_decide (alias_skey a ∈ D)) eqn:E.
  - destruct (IH D c) as (new & Hc & Hn & Hin & Hk). exists new. split_and!; [done|done| |].
    + intros b Hb. right. auto.
    + intros k. rewrite Hk. cbn [fmap list_fmap]. rewrite elem_of_cons. split; [tauto|].
      intros ([->|?] & HM & HD); [|tauto]. by rewrite !bool_decide_eq_false_2 in E.
  - destruct (IH ({[alias_skey a]} ∪ D) (c ++ [a])) as (new & Hc & Hn & Hin & Hk). bool_to_prop.
    exists (a :: new). cbn [fmap list_fmap]. split_and!.
    + rewrite Hc. by rewrite <-(assoc_L (++)).
    + constructor; [|done]. rewrite Hk. set_solver.
    + intros b [->|Hb]%elem_of_cons; [by left|right; auto].
    + intros k. rewrite !elem_of_cons, Hk, not_elem_of_union, not_elem_of_singleton.
      destruct (decide (k = alias_skey a)) as [->|]; tauto.
Qed.

(** [Diff] in terms of the entries it keeps and drops. *)
Lemma diff_spec existing wanted :
  let want := list_to_set (C := gset skey) (alias_skey <$> wanted) in
  let M e := e ∈ existing ∧ good want e in
  (Diff existing wanted).2 = EntryID <$> dropped want ∅ existing ∧
  NoDup (alias_skey <$> (Diff existing wanted).1) ∧
  (∀ a, a ∈ (Diff existing wanted).1 → a ∈ wanted) ∧
  ∀ k, k ∈ alias_skey <$> (Diff existing wanted).1 ↔
    k ∈ alias_skey <$> wanted ∧ ¬ ∃ e, M e ∧ entry_skey e = k.
Proof.
  intros want M. unfold Diff. cbn zeta. cbn [fst snd].
  assert (foldl (fun w a => {[alias_skey a]} ∪ w) ∅ wanted = want) as ->.
  { apply set_eq. intros k. rewrite want_spec. unfold want. by rewrite elem_of_list_to_set. }
  destruct (match_run want existing (mkDiff ∅ [])) as [Hd Hm].
  destruct (create_run (matched (foldl (match_step want) (mkDiff ∅ []) existing)) wanted ∅ [])
    as (new & -> & Hn & Hin & Hk).
  split_and!; [done..|]. intros k. cbn [app]. rewrite Hk, Hm. cbn [matched]. unfold M.
  split; intros (? & HM).
  - destruct HM as [HM _]. split; [done|]. intros (e & [??] & ?). apply HM. right. by exists e.
  - split_and!; [done| |set_solver]. intros [?|(e & ? & ? & ?)]; [set_solver|]. apply HM. by exists e.
Qed.

(** ** Applying what [Diff] answers *)

(** The entries [news] SPIRE makes of the aliases [create]: parented on the
    server, every other field at its default. *)
Definition created (create : list Alias) (news : list Entry) : Prop :=
  Forall2 (λ a e, ParentID e = diff_parent ∧ EntrySPIFFEID e = SPIFFEID a ∧
    selectorKey (EntrySelectors e) = selectorKey (Selectors a) ∧ Default e = true) create news.

Definition deleted (ids : list string) (es : list Entry) : list Entry :=
  filter (λ e, EntryID e ∉ ids) es.

(** The cluster's entries are the wanted aliases: one default entry per key. *)
Definition in_line (es : list Entry) (wanted : list Alias) : Prop :=
  NoDup (entry_skey <$> filter (λ e, owned e = true) es) ∧
  (∀ e, e ∈ es → owned e = true → Default e = true) ∧
  ∀ k, k ∈ entry_skey <$> filter (λ e, owned e = true) es ↔ k ∈ alias_skey <$> wanted.

Lemma dropped_none want M es :
  NoDup (entry_skey <$> filter (λ e, owned e = true) es) →
  (∀ e, e ∈ es → owned e = true → good want e ∧ entry_skey e ∉ M) →
  dropped want M es = [].
Proof.
  revert M. induction es as [|e es IH]; intros M Hnd Hg; cbn [dropped]; [done|].
  rewrite filter_cons in Hnd. destruct (owned e) eqn:Ho; cbn in Hnd.
  - rewrite decide_True by (apply Hg; [by left|done]).
    apply NoDup_cons in Hnd as [Hni Hnd]. apply IH; [done|]. intros e' He' Ho'.
    destruct (Hg e' ltac:(by right) Ho') as [Hge HM]. split; [done|].
    rewrite not_elem_of_union, not_elem_of_singleton. split; [|done].
    intros Heq. apply Hni. rewrite <-Heq. apply list_elem_of_fmap_2, list_elem_of_filter. done.
  - apply IH; [done|]. intros; apply Hg; [by right|done].
Qed.

Lemma fmap_empty_inv {A B} (f : A → B) l : (∀ k, k ∉ f <$> l) → l = [].
Proof. destruct l as [|x l]; [done|]. intros H. destruct (H (f x)). by left. Qed.

(** Entries in line with the wanted aliases need no change. *)
Lemma diff_settled es wanted : in_line es wanted → Diff es wanted = ([], []).
Proof.
  intros (Hn & Hd & Hk). destruct (diff_spec es wanted) as (Hdel & _ & _ & Hc).
  rewrite (surjective_pairing (Diff es wanted)). f_equal.
  - apply (fmap_empty_inv alias_skey). intros k [Hw Hne]%Hc.
    apply Hk, list_elem_of_fmap in Hw as (e & -> & [Ho He]%list_elem_of_filter).
    apply Hne. exists e. split_and!; [done| |done]. split_and!; [done|by apply Hd|].
    apply elem_of_list_to_set, Hk, list_elem_of_fmap_2, list_elem_of_filter. done.
  - rewrite Hdel, dropped_none; [done|done|]. intros e He Ho. split; [|set_solver].
    split_and!; [done|by apply Hd|].
    apply elem_of_list_to_set, Hk, list_elem_of_fmap_2, list_elem_of_filter. done.
Qed.

Lemma created_keys create news : created create news → entry_skey <$> news = alias_skey <$> create.
Proof.
  induction 1 as [|a e create news (_ & Hid & Hs & _) _ IH]; [done|].
  cbn. rewrite IH. f_equal. unfold entry_skey, alias_skey. by rewrite Hid, Hs.
Qed.

Lemma created_owned create news :
  created create news → (∀ a, a ∈ create → HasPrefix (SPIFFEID a) diff_prefix = true) →
  (∀ e, e ∈ news → owned e = true ∧ Default e = true).
Proof.
  intros Hc Hp e He. apply list_elem_of_lookup in He as [i Hi].
  apply (Forall2_lookup_r _ _ _ _ _ Hc) in Hi as (a & Ha & Hpar & Hid & _ & Hd).
  split; [|done]. unfold owned. rewrite Hpar, Hid, bool_decide_eq_true_2 by done.
  by apply Hp, list_elem_of_lookup; eexists.
Qed.

(** Deleting and creating what [Diff] says brings the cluster in line. *)
Lemma diff_applied existing wanted news :
  NoDup (EntryID <$> existing) →
  (∀ a, a ∈ wanted → HasPrefix (SPIFFEID a) diff_prefix = true) →
  created (Diff existing wanted).1 news →
  let after := deleted (Diff existing wanted).2 existing ++ news in
  in_line after wanted ∧
  filter (λ e, owned e = false) after = filter (λ e, owned e = false) existing.
Proof.
  intros Hids Hpre Hnews after. destruct (diff_spec existing wanted) as (Hdel & Hcn & Hcw & Hck).
  set (want := list_to_set (C := gset skey) (alias_skey <$> wanted)) in *.
  assert (deleted (Diff existing wanted).2 existing = kept want ∅ existing) as Hkept.
  { unfold deleted. rewrite Hdel. by apply kept_by_id. }
  assert (∀ e, e ∈ news → owned e = true ∧ Default e = true) as Hno.
  { eapply created_owned; [done|]. auto. }
  pose proof (created_keys _ _ Hnews) as Hnk. unfold after. rewrite Hkept.
  assert (filter (λ e, owned e = true) news = news) as Hfn.
  { apply filter_all. intros e He. by apply Hno. }
  assert (∀ k, k ∈ entry_skey <$> filter (λ e, owned e = true) (kept want ∅ existing) ↔
    ∃ e, (e ∈ existing ∧ good want e) ∧ entry_skey e = k) as Hold.
  { intros k. split.
    - intros (e & -> & [Ho He]%list_elem_of_filter)%list_elem_of_fmap.
      apply kept_elem in He as [He Hg]. exists e. split; [|done]. split; [done|]. by apply Hg.
    - intros (e & [He Hg] & <-). destruct Hg as [Ho Hg].
      pose proof (kept_dropped want ∅ existing) as Hperm.
      rewrite <-Hperm in He. apply elem_of_app in He as [He|He].
      + by apply list_elem_of_fmap_2, list_elem_of_filter.
      + apply dropped_spec in He as (_ & _ & Hgood).
        destruct (Hgood (conj Ho Hg)) as [?|(e' & He' & Hg' & <-)]; [set_solver|].
        by apply list_elem_of_fmap_2, list_elem_of_filter; destruct Hg'. }
  split; [split_and!|].
  - rewrite filter_app, fmap_app, Hfn, Hnk. apply NoDup_app. split_and!; [apply kept_nodup| |done].
    intros k Hk%Hold [_ Hno']%Hck. done.
  - intros e [He|He]%elem_of_app Ho; [|by apply Hno]. apply kept_elem in He as [_ Hg]. by apply Hg.
  - intros k. rewrite filter_app, fmap_app, Hfn, Hnk, elem_of_app, Hck, Hold. split.
    + intros [(e & [_ (_ & _ & Hw)] & <-)|[? _]]; [|done]. by apply elem_of_list_to_set in Hw.
    + intros Hw. destruct (decide (k ∈ entry_skey <$> filter (λ e, owned e = true) (kept want ∅ existing)))
        as [?%Hold|Hn]; [by left|]. right. split; [done|]. by rewrite <-Hold.
  - rewrite filter_app, kept_foreign, (filter_none _ news), app_nil_r; [done|].
    intros e [Ho _]%Hno. congruence.
Qed.
End diff.

Lemma distinct_id l e e' :
  NoDup (EntryID <$> l) → e ∈ l → e' ∈ l → EntryID e = EntryID e' → e = e'.
Proof.
  induction l as [|x l IH]; [by intros _ ?%not_elem_of_nil|]. cbn. intros [Hni Hnd]%NoDup_cons.
  assert (∀ y, y ∈ l → EntryID y ≠ EntryID x) as Hne.
  { intros y Hy Heq. apply Hni. rewrite <-Heq. by apply list_elem_of_fmap_2. }
  intros [->|He]%elem_of_cons [->|He']%elem_of_cons; [done| |  |by apply IH].
  - intros Heq. by destruct (Hne e').
  - intros Heq. by destruct (Hne e).
Qed.

Lemma deleted_filter ids (P : Entry → bool) l :
  filter (λ e, P e = true) (deleted ids l) = deleted ids (filter (λ e, P e = true) l).
Proof. unfold deleted. rewrite !list_filter_filter. apply filter_ext_in. intros e _. tauto. Qed.

Lemma diff_del_owned td cluster existing wanted i :
  i ∈ (Diff td cluster existing wanted).2 →
  ∃ e, e ∈ existing ∧ owned td cluster e = true ∧ EntryID e = i.
Proof.
  destruct (diff_spec td cluster existing wanted) as (-> & _).
  intros (e & -> & (? & ? & _)%dropped_spec)%list_elem_of_fmap. by exists e.
Qed.

(** A default entry of a wanted alias, or an equal one, is not deleted. *)
Lemma diff_keeps td cluster existing wanted e :
  NoDup (EntryID <$> existing) → e ∈ existing → owned td cluster e = true → Default e = true →
  entry_skey e ∈ alias_skey <$> wanted →
  ∃ e', e' ∈ existing ∧ EntryID e' ∉ (Diff td cluster existing wanted).2 ∧
    owned td cluster e' = true ∧ Default e' = true ∧ entry_skey e' = entry_skey e.
Proof.
  intros Hids He Ho Hd Hw. destruct (diff_spec td cluster existing wanted) as (-> & _).
  set (want := list_to_set (C := gset skey) (alias_skey <$> wanted)) in *.
  pose proof (kept_by_id td cluster want ∅ existing Hids) as Hkept.
  assert (∃ e', e' ∈ kept td cluster want ∅ existing ∧ good td cluster want e' ∧
    entry_skey e' = entry_skey e) as (e' & He' & (? & ? & _) & ?).
  { assert (good td cluster want e) as Hg by (split_and!; [done..|by apply elem_of_list_to_set]).
    pose proof (kept_dropped td cluster want ∅ existing) as Hperm. rewrite <-Hperm in He.
    apply elem_of_app in He as [He|He]; [by exists e|].
    apply dropped_spec in He as (_ & _ & Hgood). destruct (Hgood Hg) as [?|?]; [set_solver|done]. }
  exists e'. rewrite <-Hkept in He'. by apply list_elem_of_filter in He' as [? ?].
Qed.

#[export] Instance deleted_permutation ids : Proper ((≡ₚ) ==> (≡ₚ)) (deleted ids).
Proof. intros l l' Hp. unfold deleted. by rewrite Hp. Qed.
Lemma deleted_app ids l l' : deleted ids (l ++ l') = deleted ids l ++ deleted ids l'.
Proof. apply filter_app. Qed.

(** C10: [Diff] is confined to its cluster. An entry it deletes is parented on
    the SPIRE server and named under the cluster's prefix, and when it is a
    default entry of a wanted alias, an equal one stays: no working alias is
    lost. It creates wanted aliases only, one per key, none that an entry has. *)
Theorem diff_confined td cluster existing wanted :
  NoDup (EntryID <$> existing) →
  let '(create, del) := Diff td cluster existing wanted in
  (∀ e, e ∈ existing → EntryID e ∈ del →
    ParentID e = diff_parent td ∧ HasPrefix (EntrySPIFFEID e) (diff_prefix td cluster) = true ∧
    (Default e = true → entry_skey e ∈ alias_skey <$> wanted →
      ∃ e', e' ∈ existing ∧ EntryID e' ∉ del ∧ Default e' = true ∧ entry_skey e' = entry_skey e)) ∧
  NoDup (alias_skey <$> create) ∧
  ∀ a, a ∈ create → a ∈ wanted ∧
    ∀ e, e ∈ existing → owned td cluster e = true → Default e = true → entry_skey e ≠ alias_skey a.
Proof.
  intros Hids. rewrite (surjective_pairing (Diff _ _ _ _)).
  destruct (diff_spec td cluster existing wanted) as (Hdel & Hcn & Hcw & Hck).
  set (want := list_to_set (C := gset skey) (alias_skey <$> wanted)) in *.
  split_and!; [|done|].
  - intros e He Hin. pose proof Hin as (e0 & He0 & Ho & Heq)%diff_del_owned.
    rewrite (distinct_id existing e0 e) in Ho by done. pose proof Ho as Ho'. unfold owned in Ho'.
    bool_to_prop. split_and!; [done|done|]. intros Hdef Hw.
    destruct (diff_keeps td cluster existing wanted e) as (e' & ? & ? & _ & ? & ?); eauto.
  - intros a Ha. split; [by apply Hcw|]. intros e He Ho Hdef Heq.
    assert (alias_skey a ∈ alias_skey <$> (Diff td cluster existing wanted).1) as [Hw Hne]%Hck
      by by apply list_elem_of_fmap_2.
    apply Hne. exists e. split_and!; [done| |done]. split_and!; [done..|].
    rewrite Heq. by apply elem_of_list_to_set.
Qed.

(** One pass is enough. When the deletions and creations [Diff] answers are
    carried out, the cluster has exactly one default entry for each wanted alias
    and no other, every entry outside the cluster's prefix or parent is as it
    was, and comparing again, whatever the order of the listing, asks for nothing. *)
Theorem diff_converges td cluster existing wanted news after :
  NoDup (EntryID <$> existing) →
  (∀ a, a ∈ wanted → HasPrefix (SPIFFEID a) (diff_prefix td cluster) = true) →
  created td (Diff td cluster existing wanted).1 news →
  after ≡ₚ deleted (Diff td cluster existing wanted).2 existing ++ news →
  in_line td cluster after wanted ∧
  filter (λ e, owned td cluster e = false) after ≡ₚ
    filter (λ e, owned td cluster e = false) existing ∧
  Diff td cluster after wanted = ([], []).
Proof.
  intros Hids Hpre Hnews Hafter.
  destruct (diff_applied td cluster existing wanted news Hids Hpre Hnews) as [(Hn & Hd & Hk) Hf].
  assert (in_line td cluster after wanted) as Hline.
  { split_and!.
    - by rewrite Hafter.
    - intros e. rewrite Hafter. apply Hd.
    - intros k. rewrite Hafter. apply Hk. }
  split_and!; [done|by rewrite Hafter, Hf|by apply diff_settled].
Qed.

(** A wanted entry listed twice, one of another cluster, one edited by hand, and
    an alias that is missing. *)
Definition demo_selectors (vm : string) : list string := [fp_selector "ab12"; cn_selector vm].
Definition demo_id (path : string) : string := "spiffe://example.org" +:+ path.
Definition demo_entries : list Entry :=
  [mkEntry "e1" (demo_id "/spire/server") (demo_id "/pve/c1/vm/350") (reverse (demo_selectors "350")) true;
   mkEntry "e2" (demo_id "/spire/server") (demo_id "/pve/c1/vm/350") (demo_selectors "350") true;
   mkEntry "e3" (demo_id "/spire/server") (demo_id "/pve/c2/vm/350") (demo_selectors "350") true;
   mkEntry "e4" (demo_id "/spire/server") (demo_id "/pve/c1/vm/351") (demo_selectors "351") false].
Definition demo_aliases : list Alias :=
  [mkAlias (demo_id "/pve/c1/vm/350") (demo_selectors "350");
   mkAlias (demo_id "/pve/c1/vm/351") (demo_selectors "351")].

Example demo_diff :
  Diff "example.org" "c1" demo_entries demo_aliases =
    ([mkAlias (demo_id "/pve/c1/vm/351") (demo_selectors "351")], ["e2"; "e4"]).
Proof. by vm_compute. Qed.

Lemma demo_entries_nodup : NoDup (EntryID <$> demo_entries).
Proof. apply (bool_decide_unpack _). by vm_compute. Qed.

Lemma diff_confined_witness :
  let '(create, del) := Diff "example.org" "c1" demo_entries demo_aliases in
  EntryID <$> demo_entries = ["e1"; "e2"; "e3"; "e4"] ∧ NoDup (alias_skey <$> create).
Proof.
  pose proof (diff_confined "example.org" "c1" demo_entries demo_aliases demo_entries_nodup) as H.
  destruct (Diff "example.org" "c1" demo_entries demo_aliases) as [create del].
  split; [by vm_compute|exact (proj1 (proj2 H))].
Defined.

Definition demo_after : list Entry :=
  [mkEntry "e5" (demo_id "/spire/server") (demo_id "/pve/c1/vm/351") (demo_selectors "351") true;
   mkEntry "e1" (demo_id "/spire/server") (demo_id "/pve/c1/vm/350") (reverse (demo_selectors "350")) true;
   mkEntry "e3" (demo_id "/spire/server") (demo_id "/pve/c2/vm/350") (demo_selectors "350") true].

Lemma diff_converges_witness :
  in_line "example.org" "c1" demo_after demo_aliases ∧
  Diff "example.org" "c1" demo_after demo_aliases = ([], []).
Proof.
  destruct (diff_converges "example.org" "c1" demo_entries demo_aliases (take 1 demo_after) demo_after)
    as (Hl & _ & Hs); [exact demo_entries_nodup| | | |by split].
  - intros a Ha. repeat (apply elem_of_cons in Ha as [->|Ha]; [by vm_compute|]).
    by apply not_elem_of_nil in Ha.
  - rewrite demo_diff. cbn [fst demo_after take]. constructor; [by vm_compute|constructor].
  - replace (deleted _ _) with (drop 1 demo_after) by (by vm_compute).
    apply (Permutation_cons_append (drop 1 demo_after)).
Defined.
