(* ===== verification/Bans.v ===== *)
(** * Banning the agents of destroyed VMs (internal/reconcile/diff.go)

    The [BanTracker] counts, per agent, the good reads of the agent's cluster in
    a row that did not list its VM. Its map is a [gmap]; a nil map is the empty
    one. [listed] is the set of keys of the code's [map[string]bool], whose
    values are all true. *)

From S2P Require Import Prelude.
From S2P Require Import Go.

Record Agent := mkAgent { AgentID : string; AgentSelectors : list string; Banned : bool }.
Record Ban := mkBan { BanAgentID : string; BanVMID : string }.
Record miss := mkMiss { count : Z; fps : list string }.
Abbreviation BanTracker := (gmap string miss).

#[export] Instance miss_eq_dec : EqDecision miss.
Proof. solve_decision. Defined.
#[export] Instance Ban_eq_dec : EqDecision Ban.
Proof. solve_decision. Defined.

Definition fpPrefix : string := "tpm_devid:ca:fingerprint:".
Definition cnPrefix : string := "tpm_devid:subject:cn:".

(** One selector of [agentInfo]'s loop: fingerprints, VM ID, number of cn selectors. *)
Definition info_step (st : list string * string * Z) (s : string) : list string * string * Z :=
  let '(fps, vmid, cns) := st in
  if HasPrefix s fpPrefix then (fps ++ [sdrop (String.length fpPrefix) s], vmid, cns)
  else if HasPrefix s cnPrefix then (fps, sdrop (String.length cnPrefix) s, cns + 1)%Z
  else st.
Definition agentInfo (a : Agent) : list string * string * bool :=
  if Banned a then ([], "", false)
  else
    let '(fps, vmid, cns) := foldl info_step ([], "", 0%Z) (AgentSelectors a) in
    (fps, vmid, (cns =? 1)%Z).

Definition belongs (mine : list string) (fps : list string) : bool :=
  existsb (fun f => bool_decide (f ∈ mine)) fps.

Record observation := mkObs { misses : BanTracker; seen : gset string; bans : list Ban }.

Definition observe_step (fingerprints : list string) (listed : gset string)
    (st : observation) (a : Agent) : observation :=
  let '(fps, vmid, ok) := agentInfo a in
  if negb ok || negb (belongs fingerprints fps) then st
  else
    let seen' := {[AgentID a]} ∪ seen st in
    if bool_decide (vmid ∈ listed) then mkObs (delete (AgentID a) (misses st)) seen' (bans st)
    else
      let m := default (mkMiss 0 []) (misses st !! AgentID a) in
      let m := mkMiss (count m + 1) fps in
      if (2 <=? count m)%Z
      then mkObs (delete (AgentID a) (misses st)) seen' (bans st ++ [mkBan (AgentID a) vmid])
      else mkObs (<[AgentID a := m]> (misses st)) seen' (bans st).

Definition Observe (fingerprints : list string) (listed : gset string) (agents : list Agent)
    (b : BanTracker) : BanTracker * list Ban :=
  let st := foldl (observe_step fingerprints listed) (mkObs b ∅ []) agents in
  (filter (fun r => ¬ (r.1 ∉ seen st ∧ belongs fingerprints (fps r.2) = true)) (misses st),
   merge_sort (by_string BanAgentID) (bans st)).

(** ** One agent's automaton *)

(** What one read says of an agent. *)
Inductive view :=
| Missing (fps : list string) (vmid : string)
| Present
| Absent.

Definition agent_view (fingerprints : list string) (listed : gset string) (a : Agent) : view :=
  let '(fps, vmid, ok) := agentInfo a in
  if negb ok || negb (belongs fingerprints fps) then Absent
  else if bool_decide (vmid ∈ listed) then Present else Missing fps vmid.

Fixpoint read_view (fingerprints : list string) (listed : gset string) (agents : list Agent)
    (id : string) : view :=
  match agents with
  | [] => Absent
  | a :: agents =>
      if bool_decide (AgentID a = id) then agent_view fingerprints listed a
      else read_view fingerprints listed agents id
  end.

(** The count and the VM ID to ban: two misses in a row ban, anything else of the
    agent's cluster forgets the first. *)
Definition agent_step (fingerprints : list string) (m : option miss) (v : view)
    : option miss * option string :=
  match v with
  | Missing fps vmid =>
      let n := (count (default (mkMiss 0 []) m) + 1)%Z in
      if (2 <=? n)%Z then (None, Some vmid) else (Some (mkMiss n fps), None)
  | Present => (None, None)
  | Absent =>
      (match m with Some m => if belongs fingerprints (fps m) then None else Some m | None => None end,
       None)
  end.

Section observe.
Context (F : list string) (listed : gset string).
Abbreviation step := (observe_step F listed).

Definition is_absent (v : view) : bool := match v with Absent => true | _ => false end.

Lemma observe_step_eq st a :
  let v := agent_view F listed a in
  (∀ id, id ≠ AgentID a → misses (step st a) !! id = misses st !! id) ∧
  (if is_absent v then step st a = st
   else misses (step st a) !! AgentID a = (agent_step F (misses st !! AgentID a) v).1) ∧
  (∀ id, id ∈ seen (step st a) ↔ id ∈ seen st ∨ is_absent v = false ∧ id = AgentID a) ∧
  (∀ b, b ∈ bans (step st a) ↔ b ∈ bans st ∨
    (agent_step F (misses st !! AgentID a) v).2 = Some (BanVMID b) ∧ BanAgentID b = AgentID a).
Proof.
  unfold observe_step, agent_view. destruct (agentInfo a) as [[fps vmid] ok].
  destruct (negb ok || negb (belongs F fps)); cbn zeta.
  { cbn. split_and!; [done|done|naive_solver|naive_solver]. }
  case_bool_decide; cbn.
  - split_and!; [intros; by rewrite lookup_delete_ne|by rewrite lookup_delete_eq|set_solver|naive_solver].
  - destruct (2 <=? _)%Z; cbn.
    + split_and!; [intros; by rewrite lookup_delete_ne|by rewrite lookup_delete_eq|set_solver|].
      intros [id vm]. rewrite elem_of_app, list_elem_of_singleton. cbn. naive_solver.
    + split_and!; [intros; by rewrite lookup_insert_ne|by rewrite lookup_insert_eq|set_solver|naive_solver].
Qed.

Lemma read_view_absent agents id :
  id ∉ AgentID <$> agents → read_view F listed agents id = Absent.
Proof.
  induction agents as [|a agents IH]; cbn; [done|]. rewrite not_elem_of_cons. intros [Hne Hni].
  rewrite bool_decide_eq_false_2 by congruence. auto.
Qed.

Lemma observe_run agents st :
  NoDup (AgentID <$> agents) →
  let st' := foldl step st agents in
  ∀ id, let v := read_view F listed agents id in
    misses st' !! id = (if is_absent v then misses st !! id else (agent_step F (misses st !! id) v).1) ∧
    (id ∈ seen st' ↔ id ∈ seen st ∨ is_absent v = false) ∧
    (∀ vm, mkBan id vm ∈ bans st' ↔
      mkBan id vm ∈ bans st ∨ (agent_step F (misses st !! id) v).2 = Some vm).
Proof.
  revert st. induction agents as [|a agents IH]; intros st Hnd; cbn [foldl]; intros id.
  { cbn. split_and!; [done|naive_solver|naive_solver]. }
  cbn in Hnd. apply NoDup_cons in Hnd as [Hni Hnd].
  destruct (observe_step_eq st a) as (Hother & Hmine & Hseen & Hbans).
  destruct (IH (step st a) Hnd id) as (Hm & Hs & Hb). cbn [read_view].
  destruct (decide (AgentID a = id)) as [<-|Hne].
  - rewrite bool_decide_eq_true_2 by done. rewrite read_view_absent in Hm, Hs, Hb by done.
    cbn in Hm, Hs, Hb. split_and!.
    + rewrite Hm. destruct (is_absent (agent_view F listed a)); [by rewrite Hmine|done].
    + rewrite Hs, Hseen. naive_solver.
    + intros vm. rewrite Hb, Hbans. cbn. naive_solver.
  - rewrite bool_decide_eq_false_2 by done. rewrite Hother in Hm, Hb by done. split_and!.
    + done.
    + rewrite Hs, Hseen. naive_solver.
    + intros vm. rewrite Hb, Hbans. cbn. naive_solver.
Qed.

(** [Observe] moves every agent's count by its own automaton, and bans exactly
    what the automata ban. *)
Lemma observe_spec agents b id :
  NoDup (AgentID <$> agents) →
  let s := agent_step F (b !! id) (read_view F listed agents id) in
  (Observe F listed agents b).1 !! id = s.1 ∧
  ∀ vm, mkBan id vm ∈ (Observe F listed agents b).2 ↔ s.2 = Some vm.
Proof.
  intros Hnd. destruct (observe_run agents (mkObs b ∅ []) Hnd id) as (Hm & Hs & Hb).
  unfold Observe. cbn zeta. cbn [fst snd misses seen bans] in *. split.
  - destruct (read_view F listed agents id) as [fps vmid| |] eqn:Hv; cbn [is_absent] in *.
    + apply option_eq. intros m. rewrite map_lookup_filter_Some, Hm. cbn [fst snd].
      assert (id ∈ seen (foldl step (mkObs b ∅ []) agents)) by (apply Hs; by right). tauto.
    + rewrite map_lookup_filter_None_2; [done|]. left. by rewrite Hm.
    + cbn. apply option_eq. intros m. rewrite map_lookup_filter_Some, Hm. cbn [fst snd].
      assert (id ∉ seen (foldl step (mkObs b ∅ []) agents)).
      { rewrite Hs. intros [?|?]; [set_solver|done]. }
      destruct (b !! id) as [m'|]; [|by split; [intros [? _]|]].
      destruct (belongs F (fps m')) eqn:Hbel.
      * split; [|done]. intros [[= ->] Hn]. exfalso. by apply Hn.
      * split; [by intros [? _]|]. intros [= ->]. split; [done|]. intros [_ ?]. congruence.
  - intros vm. rewrite elem_of_merge_sort, Hb. split; [intros [?%not_elem_of_nil|?]; done|by right].
Qed.
End observe.

(** ** Histories *)

(** One good read: the cluster's fingerprints, the listed VM IDs and the agents. *)
Record reading := mkReading {
  read_fps : list string;
  read_listed : gset string;
  read_agents : list Agent;
}.
Definition reading_view (c : reading) (id : string) : view :=
  read_view (read_fps c) (read_listed c) (read_agents c) id.
Definition observe_all (cs : list reading) (b : BanTracker) : BanTracker :=
  foldl (fun b c => (Observe (read_fps c) (read_listed c) (read_agents c) b).1) b cs.

Definition missing (c : reading) (id : string) : Prop := ∃ fps vm, reading_view c id = Missing fps vm.

(** The readings of one cluster are those with its fingerprints, and no other
    reading has a fingerprint the agent [id] carries. *)
Definition one_cluster (id : string) (F : list string) (cs : list reading) : Prop :=
  ∀ c c' a, c ∈ cs → c' ∈ cs → a ∈ read_agents c → AgentID a = id →
    belongs (read_fps c') (agentInfo a).1.1 = true → read_fps c' = F.

Lemma read_view_agent F listed agents id v :
  read_view F listed agents id = v → v ≠ Absent →
  ∃ a, a ∈ agents ∧ AgentID a = id ∧ agent_view F listed a = v.
Proof.
  induction agents as [|a agents IH]; cbn; [congruence|]. case_bool_decide.
  - intros. exists a. split; [by left|done].
  - intros Hv Hn. destruct (IH Hv Hn) as (a' & ? & ?). exists a'. split; [by right|done].
Qed.

Lemma agent_view_missing F listed a fps vm :
  agent_view F listed a = Missing fps vm →
  (agentInfo a).1 = (fps, vm) ∧ belongs F fps = true ∧ vm ∉ listed.
Proof.
  unfold agent_view. destruct (agentInfo a) as [[fps' vm'] ok].
  destruct ok, (belongs F fps') eqn:E; cbn; try done. case_bool_decide; [done|]. intros [= <- <-]. done.
Qed.

Lemma agent_view_belongs F listed a :
  agent_view F listed a ≠ Absent → belongs F (agentInfo a).1.1 = true.
Proof.
  unfold agent_view. destruct (agentInfo a) as [[fps' vm'] ok].
  destruct ok, (belongs F fps') eqn:E; cbn; done.
Qed.

(** What a stored miss says of the history: the last reading of the agent's
    cluster missed its VM, and no earlier one counts. *)
Definition stored_miss (id : string) (F : list string) (cs : list reading) (m : miss) : Prop :=
  count m = 1%Z ∧ ∃ cs1 c cs2 vm, cs = cs1 ++ c :: cs2 ∧ reading_view c id = Missing (fps m) vm ∧
    read_fps c = F ∧ ∀ c', c' ∈ cs2 → read_fps c' ≠ F.

Lemma observe_all_miss id F cs :
  (∀ c, c ∈ cs → NoDup (AgentID <$> read_agents c)) → one_cluster id F cs →
  ∀ m, observe_all cs ∅ !! id = Some m → stored_miss id F cs m.
Proof.
  induction cs as [|c cs IH] using rev_ind; intros Hnd Hone m.
  { cbn. by rewrite lookup_empty. }
  unfold observe_all. rewrite foldl_app. cbn [foldl]. fold (observe_all cs ∅).
  assert (∀ m, observe_all cs ∅ !! id = Some m → stored_miss id F cs m) as IH'.
  { apply IH.
    - intros; apply Hnd, elem_of_app; by left.
    - intros c1 c2 a Hc1 Hc2. apply Hone; apply elem_of_app; by left. }
  assert (c ∈ cs ++ [c]) as Hc by (apply elem_of_app; right; by left).
  destruct (observe_spec (read_fps c) (read_listed c) (read_agents c) (observe_all cs ∅) id (Hnd c Hc)) as [-> _].
  assert (∀ a, a ∈ read_agents c → AgentID a = id → agent_view (read_fps c) (read_listed c) a ≠ Absent →
    read_fps c = F) as Hown.
  { intros a Ha Hid Hv. eapply (Hone c c a); [done..|]. by eapply agent_view_belongs. }
  destruct (read_view _ _ _ id) as [fps vm| |] eqn:Hv; cbn.
  - destruct (read_view_agent _ _ _ _ _ Hv) as (a & Ha & Hid & Hav); [done|].
    assert (read_fps c = F) as HF by (apply (Hown a); [done..|congruence]).
    destruct (observe_all cs ∅ !! id) as [m0|]; cbn.
    + destruct (IH' m0 eq_refl) as [-> _]. done.
    + intros [= <-]. split; [done|]. exists cs, c, [], vm. split_and!; [done..|].
      by intros c' ?%not_elem_of_nil.
  - done.
  - destruct (observe_all cs ∅ !! id) as [m0|] eqn:E; [|done].
    destruct (belongs (read_fps c) (fps m0)) eqn:Hb; [done|]. intros [= <-].
    destruct (IH' m0 eq_refl) as (Hn & cs1 & c0 & cs2 & vm & -> & Hv0 & HF & Hrest).
    split; [done|]. exists cs1, c0, (cs2 ++ [c]), vm. rewrite <-(assoc_L (++)).
    split_and!; [done..|]. intros c' [?|?%list_elem_of_singleton]%elem_of_app; [auto|subst c'].
    intros HcF. destruct (read_view_agent _ _ _ _ _ Hv0) as (a & _ & _ & Hav); [done|].
    apply agent_view_missing in Hav as (_ & Hbel & _). congruence.
Qed.

(** [Observe] bans an agent only when the read it is given and the last good
    read of the agent's cluster before it both missed the agent's VM; reads of
    other clusters in between, however many, neither count nor cancel. *)
Theorem ban_needs_two_misses id vm F cs c :
  (∀ c', c' ∈ cs ++ [c] → NoDup (AgentID <$> read_agents c')) →
  one_cluster id F (cs ++ [c]) →
  mkBan id vm ∈ (Observe (read_fps c) (read_listed c) (read_agents c) (observe_all cs ∅)).2 →
  vm ∉ read_listed c ∧ missing c id ∧
  ∃ cs1 c0 cs2, cs = cs1 ++ c0 :: cs2 ∧ read_fps c0 = read_fps c ∧ missing c0 id ∧
    ∀ c', c' ∈ cs2 → read_fps c' ≠ read_fps c.
Proof.
  intros Hnd Hone Hban. assert (c ∈ cs ++ [c]) as Hc by (apply elem_of_app; right; by left).
  apply (observe_spec _ _ _ _ _ (Hnd c Hc)) in Hban.
  destruct (read_view _ _ _ id) as [fps vm'| |] eqn:Hv; cbn in Hban; [|done..].
  destruct (read_view_agent _ _ _ _ _ Hv) as (a & Ha & Hid & Hav); [done|].
  assert (read_fps c = F) as HF.
  { eapply (Hone c c a); [done..|]. eapply agent_view_belongs. by rewrite Hav. }
  destruct (observe_all cs ∅ !! id) as [m|] eqn:Hm; cbn in Hban; [|done].
  destruct (2 <=? _)%Z; [|done]. injection Hban as ->.
  split_and!; [by eapply agent_view_missing|by exists fps, vm|].
  apply (observe_all_miss id F) in Hm as (_ & cs1 & c0 & cs2 & vm0 & -> & Hv0 & HF0 & Hrest).
  - exists cs1, c0, cs2. rewrite HF. split_and!; [done|done|by eexists _, _|done].
  - intros; apply Hnd, elem_of_app; by left.
  - intros c1 c2 a' Hc1 Hc2. apply Hone; apply elem_of_app; by left.
Qed.

(** On any listing with distinct agent IDs, in any order, [Observe] moves
    each agent's count by [agent_step] and answers exactly the bans of those
    automata, sorted by agent ID: a first miss is counted, a second in a row
    bans and forgets, a listed VM or a vanished agent forgets, and an agent of
    another cluster is left alone. *)
Theorem observe_per_agent F listed agents b :
  NoDup (AgentID <$> agents) →
  (∀ id, let s := agent_step F (b !! id) (read_view F listed agents id) in
    (Observe F listed agents b).1 !! id = s.1 ∧
    ∀ vm, mkBan id vm ∈ (Observe F listed agents b).2 ↔ s.2 = Some vm) ∧
  StronglySorted (by_string BanAgentID) (Observe F listed agents b).2.
Proof.
  intros Hnd. split; [intros id; by apply observe_spec|].
  unfold Observe. cbn zeta. cbn [snd]. apply StronglySorted_merge_sort; apply _.
Qed.

Definition demo_agent (id vm fp : string) : Agent :=
  mkAgent id [cnPrefix +:+ vm; fpPrefix +:+ fp] false.
(** VM 350 is missed twice, with a read of another cluster in between; VM 351
    comes back. *)
Definition demo_reads : list reading :=
  [mkReading ["ab12"] {["351"]} [demo_agent "a" "350" "ab12"; demo_agent "b" "351" "ab12"];
   mkReading ["00ff"] {["7"]} [demo_agent "c" "7" "00ff"; demo_agent "a" "350" "ab12"]].
Definition demo_read : reading :=
  mkReading ["ab12"] {["351"]} [demo_agent "b" "351" "ab12"; demo_agent "a" "350" "ab12"].

Lemma ban_needs_two_misses_witness :
  mkBan "a" "350" ∈
    (Observe (read_fps demo_read) (read_listed demo_read) (read_agents demo_read) (observe_all demo_reads ∅)).2 ∧
  "350" ∉ read_listed demo_read ∧ missing demo_read "a".
Proof.
  assert (mkBan "a" "350" ∈
    (Observe (read_fps demo_read) (read_listed demo_read) (read_agents demo_read)
       (observe_all demo_reads ∅)).2) as H by (apply (bool_decide_unpack _); by vm_compute).
  split; [exact H|].
  destruct (ban_needs_two_misses "a" "350" ["ab12"] demo_reads demo_read) as (H1 & H2 & _);
    [| |exact H|exact (conj H1 H2)].
  - apply Forall_forall. repeat constructor; apply (bool_decide_unpack _); by vm_compute.
  - intros c c' a Hc Hc' Ha Hid.
    repeat (apply elem_of_cons in Hc as [->|Hc];
      [repeat (apply elem_of_cons in Ha as [->|Ha];
         [try done; repeat (apply elem_of_cons in Hc' as [->|Hc']; [by vm_compute|]);
          by apply not_elem_of_nil in Hc'|]); by apply not_elem_of_nil in Ha|]);
      by apply not_elem_of_nil in Hc.
Defined.

Lemma observe_per_agent_witness :
  Observe ["ab12"] {["351"]} (read_agents demo_read) (observe_all demo_reads ∅) = (∅, [mkBan "a" "350"]) ∧
  StronglySorted (by_string BanAgentID)
    (Observe ["ab12"] {["351"]} (read_agents demo_read) (observe_all demo_reads ∅)).2.
Proof.
  split; [by apply (bool_decide_unpack _); vm_compute|].
  apply (observe_per_agent ["ab12"] {["351"]} (read_agents demo_read) (observe_all demo_reads ∅)).
  apply (bool_decide_unpack _). by vm_compute.
Defined.
