(* ===== verification/Pass.v ===== *)
(** * One reconciler pass (internal/reconcile/run.go)

    [Pass] is written against [spireAPI], the operations it needs of the SPIRE
    server; the class [SpireServer] says what the server's documentation
    promises of them. A pass reads each cluster once, so a target holds what its
    reader answers. *)

From S2P Require Import Prelude.
From S2P Require Import Go.
From S2P Require Import Wanted.
From S2P Require Import Diff.
From S2P Require Import Bans.
From Stdlib Require Import Ascii.

Record Target := mkTarget { TargetCluster : Cluster; Reading : outcome string (list Guest) }.

(** The log lines, by their formats. *)
Inductive logline :=
| LogUnchanged (cluster : string) (err : string)
| LogProblem (cluster : string) (p : Problem)
| LogChanged (cluster : string) (created deleted : nat)
| LogBanned (cluster : string) (b : Ban).

(** ** The interface *)

Class spireAPI (W : Type) := {
  Entries : fallible W string (list Entry);
  Create : list Alias → fallible W string ();
  Delete : list string → fallible W string ();
  Agents : fallible W string (list Agent);
  BanAgent : string → fallible W string ();
}.

Section pass.
Context {W : Type} `{spireAPI W} `{GoUnicode}.
Context (td : string).

(** The variables of [Pass] and what it acts on. [entries] and [agents] are
    [None] while [haveEntries] and [haveAgents] are false. *)
Record pass_state := mkPass {
  world : W;
  tracker : BanTracker;
  entries : option (list Entry);
  agents : option (list Agent);
  skipped : nat;
  logs : list logline;
}.

Definition set_world (w : W) (st : pass_state) : pass_state :=
  mkPass w (tracker st) (entries st) (agents st) (skipped st) (logs st).
Definition log (l : logline) : fallible pass_state string () :=
  modify (fun st => mkPass (world st) (tracker st) (entries st) (agents st) (skipped st) (logs st ++ [l])).
Definition lift {A} (m : fallible W string A) : fallible pass_state string A :=
  fun st => let r := m (world st) in (set_world r.1 st, r.2).

Definition errorf (name what : string) (e : string) : string :=
  "cluster " +:+ name +:+ ": " +:+ what +:+ ": " +:+ e.

Definition list_entries (name : string) : fallible pass_state string (list Entry) :=
  have ← gets entries;
  match have with
  | Some es => mret es
  | None =>
      es ← wrap (errorf name "list entries") (lift Entries);
      _ ← modify (fun st => mkPass (world st) (tracker st) (Some es) (agents st) (skipped st) (logs st));
      mret es
  end.

Definition list_agents (name : string) : fallible pass_state string (list Agent) :=
  have ← gets agents;
  match have with
  | Some l => mret l
  | None =>
      l ← wrap (errorf name "list agents") (lift Agents);
      _ ← modify (fun st => mkPass (world st) (tracker st) (entries st) (Some l) (skipped st) (logs st));
      mret l
  end.

(** The keys of the entries about to be deleted. *)
Definition replaced (es : list Entry) (del : list string) : gset skey :=
  let doomed := list_to_set (C := gset string) del in
  list_to_set (entry_skey <$> filter (λ e, EntryID e ∈ doomed) es).
Definition colliding (es : list Entry) (del : list string) (create : list Alias) : list Alias :=
  filter (λ a, alias_skey a ∈ replaced es del) create.
Definition safe (es : list Entry) (del : list string) (create : list Alias) : list Alias :=
  filter (λ a, alias_skey a ∉ replaced es del) create.

Definition nonempty {A} (l : list A) : bool := match l with [] => false | _ => true end.

(** The changes of one cluster, creations that replace nothing first. *)
Definition apply_changes (name : string) (es : list Entry) (create : list Alias) (del : list string)
    : fallible pass_state string () :=
  let safe := safe es del create in
  let colliding := colliding es del create in
  _ ← when (nonempty safe) (wrap (errorf name "create entries") (lift (Create safe)));
  _ ← when (nonempty del) (wrap (errorf name "delete entries") (lift (Delete del)));
  _ ← when (nonempty colliding) (wrap (errorf name "create replaced entries") (lift (Create colliding)));
  let n := length safe + length colliding in
  when (0 <? n + length del) (log (LogChanged name n (length del))).

Definition observe (fps : list string) (guests : list Guest) (l : list Agent)
    : fallible pass_state string (list Ban) :=
  fun st =>
    let listed := list_to_set (C := gset string) (VMID <$> guests) in
    let '(b, bans) := Observe fps listed l (tracker st) in
    (mkPass (world st) b (entries st) (agents st) (skipped st) (logs st), Ok bans).

Definition ban_agents (name : string) (fps : list string) (guests : list Guest)
    : fallible pass_state string () :=
  l ← list_agents name;
  bans ← observe fps guests l;
  each (fun b =>
    _ ← wrap (errorf name ("ban " +:+ BanAgentID b)) (lift (BanAgent (BanAgentID b)));
    log (LogBanned name b)) bans.

Definition cluster_step (allowBans : bool) (t : Target) : fallible pass_state string () :=
  let name := ClusterName (TargetCluster t) in
  match Reading t with
  | Err e =>
      _ ← log (LogUnchanged name e);
      modify (fun st => mkPass (world st) (tracker st) (entries st) (agents st) (S (skipped st)) (logs st))
  | Ok guests =>
      es ← list_entries name;
      let '(aliases, problems) := Wanted td (TargetCluster t) guests in
      _ ← each (fun p => log (LogProblem name p)) problems;
      let '(create, del) := Diff td name es aliases in
      _ ← apply_changes name es create del;
      when allowBans (ban_agents name (Fingerprints (TargetCluster t)) guests)
  end.

Definition Pass (targets : list Target) (allowBans : bool) (b : BanTracker) (w : W)
    : pass_state * outcome string () :=
  each (cluster_step allowBans) targets (mkPass w b None None 0 []).
End pass.
