(* ===== verification/PassProofs.v ===== *)
(** * What a reconciler pass achieves

    [SpireServer] states what the SPIRE server documents of the operations of
    [spireAPI]: batch operations work entry by entry, so a call that fails may
    have done a part of its work. Nobody else edits entries during the pass. *)

From S2P Require Import Prelude.
From S2P Require Import Go.
From S2P Require Import Wanted.
From S2P Require Import Diff.
From S2P Require Import Bans.
From S2P Require Import Pass.
From Stdlib Require Import Ascii.

Abbreviation distinct l := (NoDup (EntryID <$> l)).

(** Every selector has a type and a value. *)
Definition typed (a : Alias) : Prop := Forall (λ s, ContainsByte ":" s = true) (Selectors a).
(** An alias of a cluster. *)
Definition proper (td n : string) (a : Alias) : Prop :=
  HasPrefix (SPIFFEID a) (diff_prefix td n) = true ∧ typed a.

(** [entries_of w]: the node aliases, the entries parented on the server. *)
Class SpireServer (W : Type) `{spireAPI W} (td : string) := {
  entries_of : W → list Entry;
  Entries_law w : entries_of (Entries w).1 = entries_of w ∧
    ∀ es, (Entries w).2 = Ok es → es ≡ₚ entries_of w;
  Agents_law w : entries_of (Agents w).1 = entries_of w;
  Ban_law id w : entries_of (BanAgent id w).1 = entries_of w;
  Create_law aliases w : distinct (entries_of w) → (∀ a, a ∈ aliases → typed a) →
    ∃ done news, done ⊆ aliases ∧ created td done news ∧
      entries_of (Create aliases w).1 ≡ₚ entries_of w ++ news ∧
      distinct (entries_of w ++ news) ∧
      ((Create aliases w).2 = Ok () → done = aliases);
  Delete_law ids w : ∃ done, done ⊆ ids ∧
    entries_of (Delete ids w).1 ≡ₚ deleted done (entries_of w) ∧
    ((Delete ids w).2 = Ok () → done = ids);
}.

(** ** Names and prefixes *)

Lemma owned_disjoint td n m e :
  ContainsByte "/" n = false → ContainsByte "/" m = false → n ≠ m →
  owned td n e = true → owned td m e = false.
Proof.
  intros Hn Hm Hne [_ [x Hx]%HasPrefix_spec]%andb_true_iff. apply not_true_iff_false.
  intros [_ [y Hy]%HasPrefix_spec]%andb_true_iff. apply Hne.
  assert (∀ n z, diff_prefix td n +:+ z = ("spiffe://" +:+ td +:+ "/pve/") +:+ (n +:+ String "/" z)) as Heq.
  { intros. unfold diff_prefix. by rewrite !string_app_assoc. }
  rewrite Hx, !Heq in Hy. by apply string_app_inj_l, split_first_inj in Hy as [-> _].
Qed.

Lemma wanted_prefix `{GoUnicode} td c guests a :
  a ∈ (Wanted td c guests).1 → HasPrefix (SPIFFEID a) (diff_prefix td (ClusterName c)) = true.
Proof.
  intros (g & fp & _ & _ & _ & Hn & _)%wanted_spec.
  assert (∀ z, HasPrefix (("spiffe://" +:+ td +:+ "/pve/" +:+ ClusterName c) +:+ String "/" z)
    (diff_prefix td (ClusterName c)) = true) as Hp.
  { intros z. apply HasPrefix_spec. exists z. unfold diff_prefix. by rewrite !string_app_assoc. }
  destruct Hn; apply Hp.
Qed.

Lemma selector_typed fp : ContainsByte ":" (fp_selector fp) = true ∧ ContainsByte ":" (cn_selector fp) = true.
Proof. done. Qed.
Lemma wanted_proper `{GoUnicode} td c guests a : a ∈ (Wanted td c guests).1 → proper td (ClusterName c) a.
Proof.
  intros Ha. split; [by eapply wanted_prefix|]. apply wanted_spec in Ha as (g & fp & _ & _ & _ & _ & Hs).
  unfold typed. rewrite Hs. repeat constructor; apply selector_typed.
Qed.

Lemma in_line_permute td n es es' wanted :
  filter (λ e, owned td n e = true) es ≡ₚ filter (λ e, owned td n e = true) es' →
  in_line td n es wanted → in_line td n es' wanted.
Proof.
  intros Hp (Hn & Hd & Hk). split_and!.
  - by rewrite <-Hp.
  - intros e He Ho. assert (e ∈ filter (λ e, owned td n e = true) es) as Hin.
    { rewrite Hp. by apply list_elem_of_filter. }
    apply list_elem_of_filter in Hin as [_ Hin]. by apply Hd.
  - intros k. by rewrite <-Hp.
Qed.

(** ** What a change of one cluster may do to the entries *)

Section change.
Context (td n : string) (del : list string).

Record change (l l' : list Entry) : Prop := {
  change_distinct : distinct l';
  change_frame : ∀ P : Entry → bool, (∀ e, P e = true → owned td n e = false) →
    filter (λ e, P e = true) l' ≡ₚ filter (λ e, P e = true) l;
  change_kept : ∀ e, e ∈ l → EntryID e ∉ del → e ∈ l';
  change_doomed : ∀ e, e ∈ l' → EntryID e ∈ del → owned td n e = true;
}.
Definition doomed_owned (l : list Entry) : Prop :=
  ∀ e, e ∈ l → EntryID e ∈ del → owned td n e = true.

Lemma change_refl l l' : distinct l → doomed_owned l → l' ≡ₚ l → change l l'.
Proof.
  intros Hd Ho Hp. split.
  - by rewrite Hp.
  - intros P _. by rewrite Hp.
  - intros e. by rewrite Hp.
  - intros e. rewrite Hp. apply Ho.
Qed.

Lemma change_trans l1 l2 l3 : change l1 l2 → change l2 l3 → change l1 l3.
Proof.
  intros [? F1 K1 _] [? F2 K2 ?]. split; [done| |auto|done].
  intros P HP. by rewrite F2, F1.
Qed.

Lemma change_create l l' aliases news :
  doomed_owned l → (∀ a, a ∈ aliases → HasPrefix (SPIFFEID a) (diff_prefix td n) = true) →
  created td aliases news → distinct (l ++ news) → l' ≡ₚ l ++ news → change l l'.
Proof.
  intros Ho Hpre Hc Hd Hp. pose proof (created_owned td n aliases news Hc Hpre) as Hno. split.
  - by rewrite Hp.
  - intros P HP. rewrite Hp, filter_app, (filter_none _ news), app_nil_r; [done|].
    intros e [He _]%Hno HPe. specialize (HP e HPe). congruence.
  - intros e He _. rewrite Hp. apply elem_of_app. by left.
  - intros e. rewrite Hp. intros [He|He]%elem_of_app; [by apply Ho|]. intros _. by apply Hno.
Qed.

Lemma change_delete l l' ids :
  doomed_owned l → distinct l → ids ⊆ del → l' ≡ₚ deleted ids l → change l l'.
Proof.
  intros Ho Hd Hids Hp. split.
  - rewrite Hp. unfold deleted. eapply sublist_NoDup; [done|]. apply fmap_sublist, sublist_filter.
  - intros P HP. rewrite Hp. unfold deleted. rewrite list_filter_filter.
    erewrite filter_ext_in; [done|]. intros e He. cbn. split; [tauto|]. intros HPe. split; [done|].
    intros Hin%Hids%(Ho e He). apply HP in HPe. congruence.
  - intros e He Hne. rewrite Hp. apply list_elem_of_filter. split; [|done]. intros ?. by apply Hne, Hids.
  - intros e. rewrite Hp. intros [_ He]%list_elem_of_filter. by apply Ho.
Qed.
End change.

(** ** The calls of one cluster *)

Section server.
Context {W : Type} `{GoUnicode} (td : string) `{SpireServer W td}.
Abbreviation state := (@pass_state W).
Abbreviation live st := (entries_of (td := td) (world st)).

Lemma step_create name del f aliases (st : state) :
  distinct (live st) → doomed_owned td name del (live st) →
  (∀ a, a ∈ aliases → proper td name a) →
  let r := when (nonempty aliases) (wrap f (lift (Create aliases))) st in
  entries r.1 = entries st ∧ change td name del (live st) (live r.1) ∧
  (r.2 = Ok () → ∃ news, created td aliases news ∧ live r.1 ≡ₚ live st ++ news ∧ distinct (live st ++ news)).
Proof.
  intros Hd Ho Hpre. destruct aliases as [|a0 aliases0] eqn:Ea.
  { cbn. split_and!; [done|by apply change_refl|]. intros _. exists [].
    rewrite app_nil_r. split_and!; [constructor|done|done]. }
  rewrite <-Ea in *. replace (nonempty aliases) with true by by rewrite Ea.
  destruct (Create_law aliases (world st) Hd (λ a Ha, proj2 (Hpre a Ha))) as (done & news & Hsub & Hc & Hp & Hdn & Hok).
  unfold when, wrap, lift. cbn zeta.
  assert (change td name del (live st) (entries_of (Create aliases (world st)).1)) as Hch.
  { eapply change_create; [done| |done..]. intros a Ha. apply (proj1 (Hpre a (Hsub a Ha))). }
  destruct (Create aliases (world st)) as [w' [[]|e]]; cbn in *; (split_and!; [done|done|]); [|done].
  intros _. rewrite Hok in Hc by done. by exists news.
Qed.

Lemma step_delete name del f (st : state) :
  distinct (live st) → doomed_owned td name del (live st) →
  let r := when (nonempty del) (wrap f (lift (Delete del))) st in
  entries r.1 = entries st ∧ change td name del (live st) (live r.1) ∧
  (r.2 = Ok () → live r.1 ≡ₚ deleted del (live st)).
Proof.
  intros Hd Ho. destruct del as [|i0 del0] eqn:Ed.
  { cbn. split_and!; [done|by apply change_refl|]. intros _. unfold deleted.
    rewrite filter_all; [done|]. intros e _. apply not_elem_of_nil. }
  rewrite <-Ed in *. replace (nonempty del) with true by by rewrite Ed.
  destruct (Delete_law del (world st)) as (done & Hsub & Hp & Hok).
  unfold when, wrap, lift. cbn zeta.
  assert (change td name del (live st) (entries_of (Delete del (world st)).1)) as Hch.
  { by eapply change_delete. }
  destruct (Delete del (world st)) as [w' [[]|e]]; cbn in *; (split_and!; [done|done|]); [|done].
  intros _. by rewrite <-Hok.
Qed.

Lemma change_doomed_owned name del l l' : change td name del l l' → doomed_owned td name del l'.
Proof. intros Hc e. apply (change_doomed _ _ _ _ _ Hc). Qed.

Lemma created_permute create create' news :
  create ≡ₚ create' → created td create news → ∃ news', news ≡ₚ news' ∧ created td create' news'.
Proof. apply Forall2_permute. Qed.

Lemma deleted_fresh del l news :
  del ⊆ EntryID <$> l → distinct (l ++ news) → deleted del news = news.
Proof.
  intros Hsub Hd. apply filter_all. intros e He Hin%Hsub. rewrite fmap_app in Hd.
  apply NoDup_app in Hd as (_ & Hd & _). by apply (Hd _ Hin), list_elem_of_fmap_2.
Qed.

Lemma safe_colliding es del create : safe es del create ++ colliding es del create ≡ₚ create.
Proof.
  unfold safe, colliding. rewrite (Permutation_app_comm (filter _ _)). apply filter_app_complement.
Qed.

(** However far the calls of a cluster get, they [change] its entries only; when
    they all succeed, the doomed entries are gone and the created ones there. *)
Lemma apply_changes_spec name es create del (st : state) :
  distinct (live st) → doomed_owned td name del (live st) → del ⊆ EntryID <$> live st →
  (∀ a, a ∈ create → proper td name a) →
  let r := apply_changes name es create del st in
  entries r.1 = entries st ∧ change td name del (live st) (live r.1) ∧
  (r.2 = Ok () → ∃ news, created td create news ∧ live r.1 ≡ₚ deleted del (live st) ++ news).
Proof.
  intros Hd Ho Hsub Hpre. pose proof (safe_colliding es del create) as Hsc. unfold apply_changes.
  destruct (step_create name del (errorf name "create entries") (safe es del create) st Hd Ho)
    as (He1 & Hc1 & Hok1).
  { intros a [_ Ha]%list_elem_of_filter. auto. }
  unfold mbind, fallible_bind. cbn zeta in *.
  destruct (when (nonempty (safe es del create)) _ st) as [st1 [[]|e1]]; cbn [fst snd] in *; [|done].
  destruct (Hok1 eq_refl) as (news1 & Hn1 & Hp1 & Hd1).
  destruct (step_delete name del (errorf name "delete entries") st1) as (He2 & Hc2 & Hok2);
    [apply Hc1|by eapply change_doomed_owned|].
  destruct (when (nonempty del) _ st1) as [st2 [[]|e2]]; cbn [fst snd] in *;
    [|split_and!; [congruence|by eapply change_trans|done]].
  specialize (Hok2 eq_refl).
  rewrite Hp1, deleted_app, (deleted_fresh del (live st) news1) in Hok2 by done.
  destruct (step_create name del (errorf name "create replaced entries") (colliding es del create) st2)
    as (He3 & Hc3 & Hok3); [apply Hc2|by eapply change_doomed_owned| |].
  { intros a [_ Ha]%list_elem_of_filter. auto. }
  destruct (when (nonempty (colliding es del create)) _ st2) as [st3 [[]|e3]]; cbn [fst snd] in *;
    [|split_and!; [congruence|by do 2 (eapply change_trans; [done|])|done]].
  destruct (Hok3 eq_refl) as (news2 & Hn2 & Hp3 & _).
  assert (change td name del (live st) (live st3)) as Hc by by do 2 (eapply change_trans; [done|]).
  destruct (created_permute _ _ (news1 ++ news2) Hsc) as (news & Hnp & Hnews);
    [by apply Forall2_app|].
  assert (live st3 ≡ₚ deleted del (live st) ++ news) as Hfin.
  { by rewrite Hp3, Hok2, <-(assoc_L (++)), Hnp. }
  unfold when. case_match; cbn [fst snd]; (split_and!; [cbn; congruence|done|]); intros _; by exists news.
Qed.

(** ** One target *)

(** What a target asks for once its read is good: its cluster's name and aliases. *)
Abbreviation request := (string * list Alias)%type.
Definition plan (t : Target) : option request :=
  match Reading t with
  | Ok guests => Some (ClusterName (TargetCluster t), (Wanted td (TargetCluster t) guests).1)
  | Err _ => None
  end.

(** [L] is what the entries have become, [E0] what they were, [have] the listing
    the pass holds, [reqs] the requests worked on so far. *)
Record pass_inv (E0 : list Entry) (reqs : list request) (L : list Entry) (have : option (list Entry))
    : Prop := {
  pi_distinct : distinct L;
  pi_have : match have with Some es => es ≡ₚ E0 | None => L ≡ₚ E0 end;
  pi_frame : ∀ P : Entry → bool,
    (∀ e, P e = true → ∀ r, r ∈ reqs → owned td r.1 e = false) →
    filter (λ e, P e = true) L ≡ₚ filter (λ e, P e = true) E0;
  pi_kept : ∀ r e, r ∈ reqs → e ∈ E0 → owned td r.1 e = true → Default e = true →
    entry_skey e ∈ alias_skey <$> r.2 →
    ∃ e', e' ∈ L ∧ owned td r.1 e' = true ∧ Default e' = true ∧ entry_skey e' = entry_skey e;
}.
Definition settled (reqs : list request) (L : list Entry) : Prop :=
  ∀ r, r ∈ reqs → in_line td r.1 L r.2.

Lemma perm_filter_in (P : Entry → bool) L L' e :
  filter (λ e, P e = true) L ≡ₚ filter (λ e, P e = true) L' → e ∈ L → P e = true → e ∈ L'.
Proof.
  intros Hp He HP. assert (e ∈ filter (λ e, P e = true) L') as Hin.
  { rewrite <-Hp. by apply list_elem_of_filter. }
  by apply list_elem_of_filter in Hin as [_ ?].
Qed.

Section step.
Context (E0 : list Entry) (reqs : list request) (n : string) (aliases : list Alias).
Context (HE0 : distinct E0) (Hn : ContainsByte "/" n = false).
Context (Hreqs : ∀ r, r ∈ reqs → ContainsByte "/" r.1 = false ∧ r.1 ≠ n).
Context (Hpre : ∀ a, a ∈ aliases → proper td n a).

Lemma other_request e r : r ∈ reqs → owned td n e = true → owned td r.1 e = false.
Proof. intros [Hs Hne]%Hreqs. apply owned_disjoint; auto. Qed.
Lemma other_request' e r : r ∈ reqs → owned td r.1 e = true → owned td n e = false.
Proof. intros [Hs Hne]%Hreqs. by apply owned_disjoint. Qed.

(** Before its turn a cluster's entries are as they were. *)
Lemma turn_frame L have :
  pass_inv E0 reqs L have →
  filter (λ e, owned td n e = true) L ≡ₚ filter (λ e, owned td n e = true) E0.
Proof. intros Hi. apply (pi_frame _ _ _ _ Hi). intros e He r Hr. by apply other_request. Qed.

(** Working on one more request without changing anything is no loss. *)
Lemma inv_request_skip L have :
  pass_inv E0 reqs L have → pass_inv E0 (reqs ++ [(n, aliases)]) L have.
Proof.
  intros Hi. pose proof (turn_frame _ _ Hi) as Ht. destruct Hi as [Hd Hh Hf Hk]. split; [done|done|..].
  - intros P HP. apply Hf. intros e He r Hr. apply HP; [done|]. apply elem_of_app. by left.
  - intros r e [Hr| ->%list_elem_of_singleton]%elem_of_app He Ho Hdef Hw; [by eapply Hk|].
    exists e. split_and!; [|done..]. by eapply (perm_filter_in _ _ _ _ (symmetry Ht)).
Qed.

Lemma inv_request_step L L' es :
  pass_inv E0 reqs L (Some es) → change td n (Diff td n es aliases).2 L L' →
  pass_inv E0 (reqs ++ [(n, aliases)]) L' (Some es).
Proof.
  intros Hi Hc. pose proof (turn_frame _ _ Hi) as Ht. destruct Hi as [Hd Hh Hf Hk]. cbn in Hh.
  pose proof (change_frame _ _ _ _ _ Hc) as Hcf. split.
  - apply Hc.
  - done.
  - intros P HP. rewrite Hcf; [apply Hf|].
    + intros e He r Hr. apply HP; [done|]. apply elem_of_app. by left.
    + intros e He. apply (HP e He (n, aliases)). apply elem_of_app. right. by left.
  - intros r e [Hr| ->%list_elem_of_singleton]%elem_of_app He Ho Hdef Hw.
    + destruct (Hk r e Hr He Ho Hdef Hw) as (e' & He' & Ho' & ? & ?).
      exists e'. split_and!; [|done..]. eapply (perm_filter_in (owned td r.1)); [|done|done].
      symmetry. apply Hcf. intros e1. by apply other_request'.
    + cbn in *. destruct (diff_keeps td n es aliases e) as (e' & He' & Hni & Ho' & ? & ?);
        [by rewrite Hh|by rewrite Hh|done..|].
      exists e'. split_and!; [|done..]. apply (change_kept _ _ _ _ _ Hc); [|done].
      rewrite Hh in He'. by eapply (perm_filter_in _ _ _ _ (symmetry Ht)).
Qed.

Lemma settled_step L L' es news :
  pass_inv E0 reqs L (Some es) → settled reqs L → change td n (Diff td n es aliases).2 L L' →
  created td (Diff td n es aliases).1 news →
  L' ≡ₚ deleted (Diff td n es aliases).2 L ++ news →
  settled (reqs ++ [(n, aliases)]) L'.
Proof.
  intros Hi Hs Hc Hnews HL' r [Hr| ->%list_elem_of_singleton]%elem_of_app.
  - eapply in_line_permute; [|by apply Hs]. symmetry. apply (change_frame _ _ _ _ _ Hc).
    intros e. by apply other_request'.
  - pose proof (turn_frame _ _ Hi) as Ht. destruct Hi as [_ Hh _ _]. cbn in Hh |- *.
    destruct (diff_applied td n es aliases news) as [Hl _]; [by rewrite Hh|intros a Ha; by apply (Hpre a Ha)|done|].
    eapply in_line_permute; [|exact Hl].
    rewrite HL', !filter_app, !deleted_filter. f_equiv. f_equiv. rewrite Ht. by rewrite Hh.
Qed.

Lemma doomed_in_turn L es :
  pass_inv E0 reqs L (Some es) →
  doomed_owned td n (Diff td n es aliases).2 L ∧ (Diff td n es aliases).2 ⊆ EntryID <$> L.
Proof.
  intros Hi. pose proof (turn_frame _ _ Hi) as Ht. destruct Hi as [Hd Hh _ _]. cbn in Hh.
  assert (∀ i, i ∈ (Diff td n es aliases).2 → ∃ e, e ∈ L ∧ owned td n e = true ∧ EntryID e = i) as Hdel.
  { intros i (e & He & Ho & Hid)%diff_del_owned. exists e. split_and!; [|done..].
    rewrite Hh in He. by eapply (perm_filter_in _ _ _ _ (symmetry Ht)). }
  split.
  - intros e He (e' & He' & Ho & Heq)%Hdel. by rewrite (distinct_id L e e').
  - intros i (e & He & _ & <-)%Hdel. by apply list_elem_of_fmap_2.
Qed.
End step.

(** ** The whole pass *)

(** The parts of the state the entries' story depends on. *)
Definition at_rest (L : list Entry) (have : option (list Entry)) (st : state) : Prop :=
  live st = L ∧ entries st = have.

Lemma log_rest L have l : preserves (at_rest L have) (log (W := W) l).
Proof. by intros st [? ?]. Qed.

Lemma agents_rest L have name : preserves (at_rest L have) (list_agents (W := W) name).
Proof.
  unfold list_agents. apply preserves_bind; [by intros st|]. intros [l|]; [by intros st|].
  apply preserves_bind; [|intros l; by intros st [? ?]].
  apply preserves_wrap. intros st [HL Hh]. unfold lift, at_rest. cbn. by rewrite Agents_law.
Qed.

Lemma ban_rest L have name fps guests : preserves (at_rest L have) (ban_agents (W := W) name fps guests).
Proof.
  unfold ban_agents. apply preserves_bind; [apply agents_rest|]. intros l.
  apply preserves_bind; [by intros st [? ?]; unfold observe; destruct (Observe _ _ _ _)|].
  intros bans. apply preserves_each. intros b _. apply preserves_bind; [|intros _; apply log_rest].
  apply preserves_wrap. intros st [HL Hh]. unfold lift, at_rest. cbn. by rewrite Ban_law.
Qed.

Lemma list_entries_inv E0 reqs name (st : state) :
  pass_inv E0 reqs (live st) (entries st) →
  let r := list_entries name st in
  live r.1 = live st ∧ pass_inv E0 reqs (live r.1) (entries r.1) ∧
  (∀ es, r.2 = Ok es → entries r.1 = Some es).
Proof.
  intros Hi. unfold list_entries, mbind, fallible_bind, gets.
  destruct (entries st) as [es|] eqn:He; cbn.
  { rewrite He. split_and!; [done|done|by intros ? [= <-]]. }
  destruct (Entries_law (world st)) as [Hw Hok]. unfold wrap, lift.
  destruct (Entries (world st)) as [w' [es|e]]; cbn in *; rewrite Hw; (split_and!; [done| |]); try done.
  - destruct Hi as [Hd Hh Hf Hk]. split; [done| |done..]. by rewrite Hok.
  - by intros ? [= <-].
  - by rewrite He.
Qed.

Definition slashless (s : string) : Prop := ContainsByte "/" s = false.

Lemma cluster_step_inv E0 reqs allowBans t (st : state) :
  distinct E0 → slashless (ClusterName (TargetCluster t)) →
  (∀ r, r ∈ reqs → slashless r.1 ∧ r.1 ≠ ClusterName (TargetCluster t)) →
  pass_inv E0 reqs (live st) (entries st) →
  let r := cluster_step td allowBans t st in
  let reqs' := reqs ++ option_list (plan t) in
  pass_inv E0 reqs' (live r.1) (entries r.1) ∧
  (r.2 = Ok () → settled reqs (live st) → settled reqs' (live r.1)).
Proof.
  intros HE0 Hn Hreqs Hi. unfold cluster_step, plan.
  destruct (Reading t) as [guests|e]; cbn [option_list]; [|by rewrite app_nil_r].
  set (n := ClusterName (TargetCluster t)) in *.
  assert (∀ a, a ∈ (Wanted td (TargetCluster t) guests).1 → proper td n a)
    as Hpre by (intros a; apply wanted_proper).
  destruct (Wanted td (TargetCluster t) guests) as [aliases problems]. cbn [fst] in *.
  destruct (list_entries_inv E0 reqs n st Hi) as (HL1 & Hi1 & Hes).
  unfold mbind, fallible_bind. destruct (list_entries n st) as [st1 [es|e]]; cbn [fst snd] in *.
  2:{ split; [|done]. by eapply inv_request_skip. }
  specialize (Hes es eq_refl).
  destruct (preserves_each (at_rest (live st1) (Some es)) (λ p, log (LogProblem n p)) problems
    (λ p _, log_rest _ _ _) st1 (conj eq_refl Hes)) as [HL2 He2].
  destruct (each _ problems st1) as [st2 [[]|e]]; cbn [fst snd] in *;
    rewrite <-HL2, Hes in Hi1.
  2:{ split; [|done]. rewrite He2. by eapply inv_request_skip. }
  destruct (doomed_in_turn E0 reqs n aliases Hn Hreqs _ _ Hi1) as [Hdo Hsub].
  destruct (diff_spec td n es aliases) as (_ & _ & Hcw & _).
  rewrite (surjective_pairing (Diff td n es aliases)).
  destruct (apply_changes_spec n es (Diff td n es aliases).1 (Diff td n es aliases).2 st2)
    as (He3 & Hc3 & Hok3); [apply Hi1|done|done|auto|].
  destruct (apply_changes n es _ _ st2) as [st3 [[]|e]]; cbn [fst snd] in *.
  2:{ split; [|done]. rewrite He3, He2. by eapply inv_request_step. }
  destruct (Hok3 eq_refl) as (news & Hnews & HL3).
  destruct (preserves_when _ allowBans _ (ban_rest (live st3) (Some es) n
    (Fingerprints (TargetCluster t)) guests) st3) as [HL4 He4]; [split; congruence|].
  destruct (when allowBans _ st3) as [st4 res]; cbn [fst snd] in *. rewrite HL4, He4. split.
  - by eapply inv_request_step.
  - intros _ Hs. eapply settled_step; [done..| |done|done|done]. by rewrite HL2, HL1.
Qed.

Definition requests (targets : list Target) : list request := omap plan targets.
Definition name_of (t : Target) : string := ClusterName (TargetCluster t).

Lemma plan_name t r : plan t = Some r → r.1 = name_of t.
Proof. unfold plan. destruct (Reading t); [by intros [= <-]|done]. Qed.

Lemma pass_run E0 allowBans targets reqs (st : state) :
  distinct E0 → Forall slashless (map name_of targets) → NoDup (map name_of targets) →
  (∀ r, r ∈ reqs → slashless r.1 ∧ r.1 ∉ map name_of targets) →
  pass_inv E0 reqs (live st) (entries st) →
  let r := each (cluster_step td allowBans) targets st in
  (∃ done, done ⊆ requests targets ∧ pass_inv E0 (reqs ++ done) (live r.1) (entries r.1)) ∧
  (r.2 = Ok () → settled reqs (live st) → 
    pass_inv E0 (reqs ++ requests targets) (live r.1) (entries r.1) ∧
    settled (reqs ++ requests targets) (live r.1)).
Proof.
  intros HE0. revert reqs st. induction targets as [|t ts IH]; intros reqs st Hsl Hnd Hreqs Hi.
  { cbn. rewrite app_nil_r. split; [|done]. exists []. rewrite app_nil_r. done. }
  cbn [map] in *. apply Forall_cons in Hsl as [Hsl0 Hsl]. apply NoDup_cons in Hnd as [Hni Hnd].
  destruct (cluster_step_inv E0 reqs allowBans t st HE0 Hsl0) as (Hi1 & Hok1); [|done|].
  { intros r [? Hr]%Hreqs. split; [done|]. intros Heq. apply Hr. rewrite Heq. by left. }
  assert (requests (t :: ts) = option_list (plan t) ++ requests ts) as ->.
  { unfold requests. cbn. by destruct (plan t). }
  assert (∀ r, r ∈ reqs ++ option_list (plan t) → slashless r.1 ∧ r.1 ∉ map name_of ts) as Hreqs1.
  { intros r [Hr|Hr]%elem_of_app.
    - destruct (Hreqs r Hr) as [? Hrn]. split; [done|]. intros ?. apply Hrn. by right.
    - destruct (plan t) eqn:E; [|by apply not_elem_of_nil in Hr].
      apply list_elem_of_singleton in Hr as ->. by rewrite (plan_name _ _ E). }
  cbn [each]. unfold mbind, fallible_bind.
  destruct (cluster_step td allowBans t st) as [st1 [[]|e]]; cbn [fst snd] in *.
  - destruct (IH _ st1 Hsl Hnd Hreqs1 Hi1) as [(done & Hsub & Hid) Hok]. split.
    + exists (option_list (plan t) ++ done). rewrite (assoc_L (++)). split; [|done].
      intros r [?|?%Hsub]%elem_of_app; apply elem_of_app; auto.
    + intros Hr Hs. rewrite (assoc_L (++)). apply Hok; auto.
  - split; [|done]. exists (option_list (plan t)). split; [|done].
    intros r ?. apply elem_of_app. by left.
Qed.

Definition valid_targets (targets : list Target) : Prop :=
  Forall slashless (map name_of targets) ∧ NoDup (map name_of targets).

Lemma pass_inv_start w : distinct (entries_of w) → pass_inv (entries_of w) [] (entries_of w) None.
Proof. intros Hd. split; [done..|]. by intros r e ?%not_elem_of_nil. Qed.

Lemma settled_nil L : settled [] L.
Proof. by intros r ?%not_elem_of_nil. Qed.

(** ** The pass never runs into SPIRE's refusal of duplicates *)

(** A server that is up refuses only a duplicate: a second alias with the SPIFFE
    ID and selectors of an existing one. *)
Class SpireUp := {
  parent_law w e : e ∈ entries_of w → ParentID e = diff_parent td;
  Entries_up w : is_ok (Entries w).2 = true;
  Agents_up w : is_ok (Agents w).2 = true;
  Ban_up id w : (BanAgent id w).2 = Ok ();
  Delete_up ids w : (Delete ids w).2 = Ok ();
  Create_up aliases w : NoDup (alias_skey <$> aliases) →
    (∀ a e, a ∈ aliases → e ∈ entries_of w → entry_skey e ≠ alias_skey a) →
    (Create aliases w).2 = Ok ();
}.

Section up.
Context `{SpireUp}.

Definition runs {A} (m : fallible state string A) : Prop := ∀ st, is_ok (m st).2 = true.
Lemma runs_bind {A B} (m : fallible state string A) (k : A → fallible state string B) st :
  is_ok (m st).2 = true → (∀ st' a, m st = (st', Ok a) → is_ok (k a st').2 = true) →
  is_ok ((m ≫= k) st).2 = true.
Proof. intros Hm Hk. unfold mbind, fallible_bind. destruct (m st) as [st' [a|e]]; [by apply Hk|done]. Qed.
Lemma runs_each {A} (f : A → fallible state string ()) l : (∀ a, runs (f a)) → runs (each f l).
Proof. intros Hf. induction l as [|a l IH]; intros st; [done|]. cbn. apply runs_bind; [apply Hf|auto]. Qed.
Lemma runs_wrap {A} g (m : fallible state string A) st :
  is_ok (m st).2 = true → is_ok (wrap g m st).2 = true.
Proof. unfold wrap. by destruct (m st) as [? []]. Qed.
Lemma runs_log l : runs (log (W := W) l).
Proof. done. Qed.

Lemma runs_ban name fps guests : runs (ban_agents (W := W) name fps guests).
Proof.
  intros st. unfold ban_agents. apply runs_bind; [|intros st1 l _; apply runs_bind].
  - unfold list_agents. apply runs_bind; [done|]. intros st1 [l|] _; [done|].
    apply runs_bind; [|done]. apply runs_wrap. unfold lift. apply Agents_up.
  - unfold observe. by destruct (Observe _ _ _ _).
  - intros st2 bans _. apply runs_each. intros b st3. apply runs_bind; [|done].
    apply runs_wrap. unfold lift. cbn. by rewrite Ban_up.
Qed.

Lemma create_runs f aliases (st : state) :
  NoDup (alias_skey <$> aliases) →
  (∀ a e, a ∈ aliases → e ∈ live st → entry_skey e ≠ alias_skey a) →
  is_ok (when (nonempty aliases) (wrap f (lift (Create aliases))) st).2 = true.
Proof.
  intros Hn Hk. destruct (nonempty aliases); [|done]. apply runs_wrap. unfold lift. cbn.
  by rewrite Create_up.
Qed.

(** An entry with the key of an alias to create is doomed, and so replaced. *)
Lemma clash_is_doomed es n aliases w e a :
  (∀ a, a ∈ aliases → proper td n a) → distinct es →
  filter (λ e, owned td n e = true) (entries_of w) ≡ₚ filter (λ e, owned td n e = true) es →
  e ∈ entries_of w → a ∈ (Diff td n es aliases).1 → entry_skey e = alias_skey a →
  e ∈ es ∧ EntryID e ∈ (Diff td n es aliases).2.
Proof.
  intros Hpre Hd Hf He Ha Heq. destruct (diff_spec td n es aliases) as (Hdel & _ & Hcw & Hck).
  set (want := list_to_set (C := gset skey) (alias_skey <$> aliases)) in *.
  assert (owned td n e = true) as Ho.
  { unfold owned. rewrite (parent_law w e He), bool_decide_eq_true_2 by done. cbn.
    injection Heq as -> _. by apply (Hpre a), Hcw. }
  assert (e ∈ es) as Hes by (by eapply (perm_filter_in _ _ _ _ Hf)). split; [done|].
  assert (alias_skey a ∈ alias_skey <$> (Diff td n es aliases).1) as [Hw Hne]%Hck
    by by apply list_elem_of_fmap_2.
  rewrite Hdel. apply list_elem_of_fmap_2.
  pose proof (kept_dropped td n want ∅ es) as Hperm. pose proof Hes as Hin. rewrite <-Hperm in Hin.
  apply elem_of_app in Hin as [Hin|Hin]; [exfalso|done].
  apply kept_elem in Hin as [_ Hg]. destruct (Hg Ho) as [Hgood _]. apply Hne. by exists e.
Qed.

Lemma apply_changes_runs name es aliases (st : state) :
  let D := Diff td name es aliases in
  (∀ a, a ∈ aliases → proper td name a) → distinct es →
  distinct (live st) → doomed_owned td name D.2 (live st) → D.2 ⊆ EntryID <$> live st →
  filter (λ e, owned td name e = true) (live st) ≡ₚ filter (λ e, owned td name e = true) es →
  is_ok (apply_changes name es D.1 D.2 st).2 = true.
Proof.
  intros D Hpre Hes Hd Ho Hsub Hf. destruct (diff_spec td name es aliases) as (_ & Hcn & Hcw & _).
  fold D in Hcn, Hcw. pose proof (safe_colliding es D.2 D.1) as Hsc.
  pose proof Hcn as Hcn'. rewrite <-Hsc, fmap_app in Hcn'.
  apply NoDup_app in Hcn' as (Hns & Hdisj & Hnc).
  assert (∀ e a, e ∈ live st → a ∈ D.1 → entry_skey e = alias_skey a → e ∈ es ∧ EntryID e ∈ D.2) as Hclash.
  { intros. by eapply clash_is_doomed. }
  unfold apply_changes. cbn zeta. apply runs_bind; [|intros st1 [] E1; apply runs_bind].
  - apply create_runs; [done|]. intros a e [Hnr Ha]%list_elem_of_filter He Heq.
    destruct (Hclash e a He Ha Heq) as [Hee Hdoom]. apply Hnr. unfold replaced.
    apply elem_of_list_to_set. rewrite <-Heq. apply list_elem_of_fmap_2, list_elem_of_filter.
    split; [|done]. by apply elem_of_list_to_set.
  - destruct (nonempty D.2); [|done]. apply runs_wrap. unfold lift. cbn. by rewrite Delete_up.
  - intros st2 [] E2. apply runs_bind; [|intros st3 [] _; unfold when; by case_match].
    destruct (step_create name D.2 (errorf name "create entries") (safe es D.2 D.1) st Hd Ho)
      as (_ & Hc1 & Hok1); [intros a [_ ?]%list_elem_of_filter; auto|].
    rewrite E1 in Hc1, Hok1. destruct (Hok1 eq_refl) as (news & Hnews & HL1 & Hdn). cbn [fst] in *.
    destruct (step_delete name D.2 (errorf name "delete entries") st1) as (_ & _ & Hok2);
      [apply Hc1|by eapply change_doomed_owned|].
    rewrite E2 in Hok2. specialize (Hok2 eq_refl). cbn [fst] in Hok2.
    rewrite HL1, deleted_app, (deleted_fresh D.2 (live st) news) in Hok2 by done.
    apply create_runs; [done|]. intros a e Hac. rewrite Hok2. pose proof Hac as [_ Ha]%list_elem_of_filter.
    intros [[Hni He]%list_elem_of_filter|He]%elem_of_app Heq.
    + by destruct (Hclash e a He Ha Heq).
    + apply (Hdisj (alias_skey a)); [|by apply list_elem_of_fmap_2].
      rewrite <-(created_keys td _ _ Hnews), <-Heq. by apply list_elem_of_fmap_2.
Qed.

Lemma cluster_step_runs E0 reqs allowBans t (st : state) :
  distinct E0 → slashless (name_of t) → (∀ r, r ∈ reqs → slashless r.1 ∧ r.1 ≠ name_of t) →
  pass_inv E0 reqs (live st) (entries st) → is_ok (cluster_step td allowBans t st).2 = true.
Proof.
  intros HE0 Hn Hreqs Hi. unfold cluster_step. fold (name_of t).
  destruct (Reading t) as [guests|e]; [|done].
  assert (∀ a, a ∈ (Wanted td (TargetCluster t) guests).1 →
    proper td (name_of t) a) as Hpre by (intros a; apply wanted_proper).
  destruct (Wanted td (TargetCluster t) guests) as [aliases problems]. cbn [fst] in *.
  apply runs_bind.
  { unfold list_entries. apply runs_bind; [done|]. intros st1 [l|] _; [done|].
    apply runs_bind; [|done]. apply runs_wrap. unfold lift. apply Entries_up. }
  intros st1 es E1. destruct (list_entries_inv E0 reqs (name_of t) st Hi) as (_ & Hi1 & Hes).
  rewrite E1 in *. cbn [fst snd] in *. specialize (Hes es eq_refl).
  apply runs_bind; [by apply runs_each|]. intros st2 [] E2.
  destruct (preserves_each (at_rest (live st1) (Some es)) (λ p, log (LogProblem (name_of t) p)) problems
    (λ p _, log_rest _ _ _) st1 (conj eq_refl Hes)) as [HL2 He2].
  rewrite E2 in HL2, He2. cbn [fst] in *. rewrite <-HL2, Hes in Hi1.
  destruct (doomed_in_turn E0 reqs (name_of t) aliases Hn Hreqs _ _ Hi1) as [Hdo Hsub].
  pose proof (turn_frame E0 reqs (name_of t) Hn Hreqs _ _ Hi1) as Hf.
  rewrite (surjective_pairing (Diff td (name_of t) es aliases)).
  pose proof (pi_have _ _ _ _ Hi1) as Hh. cbn in Hh.
  apply runs_bind; [|intros st3 [] _; destruct allowBans; [apply runs_ban|done]].
  apply apply_changes_runs; [done|by rewrite Hh|apply Hi1|done|done|by rewrite Hf, Hh].
Qed.

Lemma pass_runs E0 allowBans targets reqs (st : state) :
  distinct E0 → Forall slashless (map name_of targets) → NoDup (map name_of targets) →
  (∀ r, r ∈ reqs → slashless r.1 ∧ r.1 ∉ map name_of targets) →
  pass_inv E0 reqs (live st) (entries st) →
  is_ok (each (cluster_step td allowBans) targets st).2 = true.
Proof.
  intros HE0. revert reqs st. induction targets as [|t ts IH]; intros reqs st Hsl Hnd Hreqs Hi; [done|].
  cbn [map] in *. apply Forall_cons in Hsl as [Hsl0 Hsl]. apply NoDup_cons in Hnd as [Hni Hnd].
  assert (∀ r, r ∈ reqs → slashless r.1 ∧ r.1 ≠ name_of t) as Hreqs0.
  { intros r [? Hr]%Hreqs. split; [done|]. intros Heq. apply Hr. rewrite Heq. by left. }
  cbn [each]. apply runs_bind; [by eapply cluster_step_runs|]. intros st1 [] E1.
  destruct (cluster_step_inv E0 reqs allowBans t st HE0 Hsl0 Hreqs0 Hi) as (Hi1 & _).
  rewrite E1 in Hi1. cbn [fst] in Hi1. eapply IH; [done..| |exact Hi1].
  intros r [Hr|Hr]%elem_of_app.
  - destruct (Hreqs r Hr) as [? Hrn]. split; [done|]. intros ?. apply Hrn. by right.
  - destruct (plan t) eqn:E; [|by apply not_elem_of_nil in Hr].
    apply list_elem_of_singleton in Hr as ->. by rewrite (plan_name _ _ E).
Qed.
End up.
End server.

(** ** A server in memory *)

(** Entries with fresh IDs; a duplicate is refused, the rest of the batch done. *)
Record memory := mkMemory { mem_entries : list Entry; mem_agents : list Agent; mem_banned : list string }.

Section memory_server.
Context (td : string).

Definition mem_create_one (st : list Entry * bool) (a : Alias) : list Entry * bool :=
  if existsb (λ e, bool_decide (ParentID e = diff_parent td ∧ entry_skey e = alias_skey a)) st.1 then (st.1, false)
  else (st.1 ++ [mkEntry (fresh (list_to_set (EntryID <$> st.1) : gset string)) (diff_parent td)
                   (SPIFFEID a) (Selectors a) true], st.2).

Definition has_key (a : Alias) (es : list Entry) : bool :=
  existsb (λ e, bool_decide (ParentID e = diff_parent td ∧ entry_skey e = alias_skey a)) es.
Lemma mem_one_eq es ok a :
  mem_create_one (es, ok) a =
    if has_key a es then (es, false)
    else (es ++ [mkEntry (fresh (list_to_set (EntryID <$> es) : gset string)) (diff_parent td)
                   (SPIFFEID a) (Selectors a) true], ok).
Proof. done. Qed.

Lemma mem_create_false aliases es : (foldl mem_create_one (es, false) aliases).2 = false.
Proof.
  revert es. induction aliases as [|a aliases IH]; intros es; [done|]. cbn [foldl].
  rewrite mem_one_eq. destruct (has_key a es); apply IH.
Qed.

Lemma mem_create_spec aliases es ok :
  ∃ done news, done ⊆ aliases ∧ created td done news ∧
    (foldl mem_create_one (es, ok) aliases).1 = es ++ news ∧ 
    distinct news ∧ (∀ e, e ∈ news → EntryID e ∉ EntryID <$> es) ∧
    ((foldl mem_create_one (es, ok) aliases).2 = true → done = aliases).
Proof.
  revert es ok. induction aliases as [|a aliases IH]; intros es ok; cbn [foldl].
  { exists [], []. rewrite app_nil_r. split_and!; [done|constructor|done|constructor| |done].
    by intros e ?%not_elem_of_nil. }
  rewrite mem_one_eq. destruct (has_key a es).
  - destruct (IH es false) as (dn & news & Hs & Hc & He & Hdd & Hf & _). exists dn, news.
    split_and!; [set_solver|done|done|done|done|]. intros Hr.
    by rewrite mem_create_false in Hr.
  - set (e := mkEntry _ _ _ _ _).
    assert (EntryID e ∉ EntryID <$> es) as Hfresh.
    { intros Hi. apply (is_fresh (list_to_set (EntryID <$> es) : gset string)). by apply elem_of_list_to_set. }
    destruct (IH (es ++ [e]) ok) as (dn & news & Hs & Hc & He & Hdd & Hf & Hok).
    assert (∀ e', e' ∈ news → EntryID e' ∉ EntryID <$> es ∧ EntryID e' ≠ EntryID e) as Hf'.
    { intros e' He'. specialize (Hf e' He'). rewrite fmap_app in Hf. split.
      - intros ?. apply Hf, elem_of_app. by left.
      - intros Heq. apply Hf, elem_of_app. right. rewrite Heq. by left. }
    exists (a :: dn), (e :: news). rewrite <-(assoc_L (++)) in He. split_and!; [|by constructor|done|..].
    + intros b [->|?%Hs]%elem_of_cons; [by left|by right].
    + constructor; [|done]. intros (e' & Heq & He')%list_elem_of_fmap. by destruct (Hf' e' He').
    + intros e' [->|He']%elem_of_cons; [done|]. by apply Hf'.
    + intros Hr. by rewrite Hok.
Qed.

(** [ListEntries] by parent ID lists the node aliases. *)
Definition node_aliases (es : list Entry) : list Entry := filter (λ e, ParentID e = diff_parent td) es.

Lemma node_aliases_app l l' : node_aliases (l ++ l') = node_aliases l ++ node_aliases l'.
Proof. apply filter_app. Qed.

#[export] Instance mem_api : spireAPI memory := {|
  Entries m := (m, Ok (reverse (node_aliases (mem_entries m))));
  Create aliases m :=
    let r := foldl mem_create_one (mem_entries m, true) aliases in
    (mkMemory r.1 (mem_agents m) (mem_banned m), if r.2 then Ok () else Err "AlreadyExists");
  Delete ids m := (mkMemory (deleted ids (mem_entries m)) (mem_agents m) (mem_banned m), Ok ());
  Agents m := (m, Ok (mem_agents m));
  BanAgent id m := (mkMemory (mem_entries m) (mem_agents m) (mem_banned m ++ [id]), Ok ());
|}.

Lemma created_parents aliases news : created td aliases news → node_aliases news = news.
Proof.
  intros Hc. apply filter_all. intros e He. apply list_elem_of_lookup in He as [i Hi].
  by apply (Forall2_lookup_r _ _ _ _ _ Hc) in Hi as (a & _ & ? & _).
Qed.

#[export] Program Instance mem_server : SpireServer memory td :=
  {| entries_of m := node_aliases (mem_entries m) |}.
Next Obligation. intros m. split; [done|]. intros es [= <-]. apply reverse_Permutation. Qed.
Next Obligation. done. Qed.
Next Obligation. done. Qed.
Next Obligation.
  intros aliases m Hd _. cbn in *.
  destruct (mem_create_spec aliases (mem_entries m) true) as (dn & news & ? & Hc & He & Hdn & Hf & Hok).
  exists dn, news. split_and!; [done|done| | |destruct (foldl _ _ _).2; auto; done].
  - by rewrite He, node_aliases_app, (created_parents _ _ Hc).
  - rewrite fmap_app. apply NoDup_app. split_and!; [done| |done].
    intros i (e & -> & [_ He']%list_elem_of_filter)%list_elem_of_fmap (e' & Heq & He'')%list_elem_of_fmap.
    apply (Hf e' He''). rewrite <-Heq. by apply list_elem_of_fmap_2.
Qed.
Next Obligation.
  intros ids m. exists ids. split_and!; [done| |done]. cbn. unfold node_aliases, deleted.
  rewrite !list_filter_filter. erewrite filter_ext_in; [done|]. intros e _. cbn. tauto.
Qed.

Lemma mem_create_up aliases es :
  NoDup (alias_skey <$> aliases) →
  (∀ a e, a ∈ aliases → e ∈ es → ParentID e = diff_parent td → entry_skey e ≠ alias_skey a) →
  (foldl mem_create_one (es, true) aliases).2 = true.
Proof.
  revert es. induction aliases as [|a aliases IH]; intros es Hn Hk; [done|]. cbn [foldl].
  cbn in Hn. apply NoDup_cons in Hn as [Hni Hn]. rewrite mem_one_eq.
  destruct (has_key a es) eqn:Hdup.
  - apply existsb_exists in Hdup as (e & He%list_elem_of_In & [Hp Heq]%bool_decide_eq_true).
    exfalso. eapply Hk; [by left|exact He|done..].
  - apply IH; [done|]. intros b e Hb [He|He%list_elem_of_singleton]%elem_of_app.
    + apply Hk; [by right|done].
    + subst e. intros _ Heq. apply Hni. unfold entry_skey in Heq. cbn in Heq.
      apply list_elem_of_fmap. by exists b.
Qed.

#[export] Program Instance mem_up : SpireUp td.
Next Obligation. by intros m e [? _]%list_elem_of_filter. Qed.
Next Obligation. done. Qed.
Next Obligation. done. Qed.
Next Obligation. done. Qed.
Next Obligation. done. Qed.
Next Obligation.
  intros aliases m Hn Hk. cbn. rewrite mem_create_up; [done|done|].
  intros a e Ha He Hp. apply Hk; [done|]. by apply list_elem_of_filter.
Qed.
End memory_server.

(** ** The theorems *)

Section theorems.
Context {W : Type} `{GoUnicode} (td : string) `{SpireServer W td}.
Abbreviation aliases_now := (entries_of (td := td)).

Lemma pass_start allowBans targets b w :
  valid_targets targets → distinct (aliases_now w) →
  let r := Pass td targets allowBans b w in
  (∃ done, done ⊆ requests td targets ∧
    pass_inv td (aliases_now w) done (aliases_now (world r.1)) (entries r.1)) ∧
  (r.2 = Ok () →
    pass_inv td (aliases_now w) (requests td targets) (aliases_now (world r.1)) (entries r.1) ∧
    settled td (requests td targets) (aliases_now (world r.1))).
Proof.
  intros [Hsl Hnd] Hd. unfold Pass.
  destruct (pass_run td (aliases_now w) allowBans targets [] (mkPass w b None None 0 []))
    as [Hany Hok]; [done..| |by apply pass_inv_start|].
  { by intros r ?%not_elem_of_nil. }
  split; [exact Hany|]. intros Hr. apply Hok; [done|apply settled_nil].
Qed.

(** C12: whatever call fails and wherever the pass stops, no working alias is
    lost. Every entry outside the clusters whose reads were good is as it was;
    in such a cluster, each wanted alias that a default entry held before the
    pass is still held by one after it. *)
Theorem pass_loses_no_alias allowBans targets b w :
  valid_targets targets → distinct (aliases_now w) →
  let w' := world (Pass td targets allowBans b w).1 in
  (∀ e, (∀ r, r ∈ requests td targets → owned td r.1 e = false) →
    e ∈ aliases_now w' ↔ e ∈ aliases_now w) ∧
  (∀ name aliases e, (name, aliases) ∈ requests td targets → e ∈ aliases_now w →
    owned td name e = true → Default e = true → entry_skey e ∈ alias_skey <$> aliases →
    ∃ e', e' ∈ aliases_now w' ∧ owned td name e' = true ∧ Default e' = true ∧
      entry_skey e' = entry_skey e).
Proof.
  intros Hv Hd w'. destruct (pass_start allowBans targets b w Hv Hd) as [(done & Hsub & Hi) _].
  fold w' in Hi. split.
  - intros e He. pose proof (pi_frame _ _ _ _ _ Hi (λ e', bool_decide (e' = e))) as Hf.
    assert (∀ l : list Entry, e ∈ filter (λ e', bool_decide (e' = e) = true) l ↔ e ∈ l) as Hin.
    { intros l. rewrite list_elem_of_filter. split; [tauto|]. intros ?. split; [|done].
      by apply bool_decide_eq_true. }
    rewrite <-Hin, Hf, Hin; [done|]. intros e' ->%bool_decide_eq_true r Hr. by apply He, Hsub.
  - intros name aliases e Hr He Ho Hdef Hk. destruct (decide ((name, aliases) ∈ done)) as [Hdn|Hdn].
    + by apply (pi_kept _ _ _ _ _ Hi (name, aliases) e).
    + exists e. split_and!; [|done..]. eapply (perm_filter_in (owned td name)); [|done|done].
      symmetry. apply (pi_frame _ _ _ _ _ Hi). intros e' He' r Hr'.
      destruct Hv as [Hsl Hnd].
      assert (∀ r, r ∈ requests td targets → ∃ t, t ∈ targets ∧ plan td t = Some r ∧ r.1 = name_of t) as Hreq.
      { intros r0 (t & Ht & Hp)%list_elem_of_omap. exists t. split_and!; [done|done|].
        by eapply plan_name. }
      destruct (Hreq r (Hsub r Hr')) as (t1 & Ht1 & Hp1 & Hn1), (Hreq _ Hr) as (t2 & Ht2 & Hp2 & Hn2).
      apply (owned_disjoint td name); [..|done].
      * change (slashless (name, aliases).1). rewrite Hn2. eapply Forall_forall; [exact Hsl|]. by apply list_elem_of_fmap_2.
      * change (slashless r.1). rewrite Hn1. eapply Forall_forall; [exact Hsl|]. by apply list_elem_of_fmap_2.
      * intros Heq. apply Hdn. assert (name_of t1 = name_of t2) as Hnn by (cbn in Hn2; congruence).
        apply list_elem_of_lookup in Ht1 as [i Hi1], Ht2 as [j Hj1].
        assert (i = j) as ->.
        { eapply (NoDup_lookup (map name_of targets)); [done|..]; rewrite list_lookup_fmap.
          - by rewrite Hi1. - by rewrite Hj1, Hnn. }
        assert (t1 = t2) as -> by congruence. rewrite Hp1 in Hp2. by injection Hp2 as <-.
Qed.

Lemma pass_settles allowBans targets b w :
  valid_targets targets → distinct (aliases_now w) →
  (Pass td targets allowBans b w).2 = Ok () →
  let w' := world (Pass td targets allowBans b w).1 in
  (∀ t guests, t ∈ targets → Reading t = Ok guests →
    in_line td (name_of t) (aliases_now w') (Wanted td (TargetCluster t) guests).1) ∧
  filter (λ e, forallb (λ r, negb (owned td r.1 e)) (requests td targets) = true) (aliases_now w') ≡ₚ
    filter (λ e, forallb (λ r, negb (owned td r.1 e)) (requests td targets) = true) (aliases_now w).
Proof.
  intros Hv Hd Hok w'. destruct (pass_start allowBans targets b w Hv Hd) as [_ Hr].
  destruct (Hr Hok) as [Hi Hs]. split.
  - intros t guests Ht Hread. apply (Hs (name_of t, (Wanted td (TargetCluster t) guests).1)).
    apply list_elem_of_omap. exists t. split; [done|]. unfold plan. by rewrite Hread.
  - apply (pi_frame _ _ _ _ _ Hi). intros e He r Hr'.
    apply forallb_forall with (x := r) in He; [by apply negb_true_iff|by apply list_elem_of_In].
Qed.

(** C13: a pass that returns no error has brought every cluster whose read was
    good in line: one default entry per wanted alias under the cluster's prefix
    and no other entry there; all other entries are as they were. *)
Theorem pass_converges allowBans targets b w :
  valid_targets targets → distinct (aliases_now w) →
  (Pass td targets allowBans b w).2 = Ok () →
  let w' := world (Pass td targets allowBans b w).1 in
  (∀ t guests, t ∈ targets → Reading t = Ok guests →
    in_line td (name_of t) (aliases_now w') (Wanted td (TargetCluster t) guests).1) ∧
  filter (λ e, forallb (λ r, negb (owned td r.1 e)) (requests td targets) = true) (aliases_now w') ≡ₚ
    filter (λ e, forallb (λ r, negb (owned td r.1 e)) (requests td targets) = true) (aliases_now w).
Proof. apply pass_settles. Qed.

Lemma pass_succeeds `{!SpireUp td} allowBans targets b w :
  valid_targets targets → distinct (aliases_now w) →
  is_ok (Pass td targets allowBans b w).2 = true.
Proof.
  intros [Hsl Hnd] Hd. unfold Pass. eapply (pass_runs td (aliases_now w)); [done..| |by apply pass_inv_start].
  by intros r ?%not_elem_of_nil.
Qed.

(** The order of the calls (creations that replace nothing, deletions, then
    the other creations) never meets SPIRE's refusal of duplicates: against a
    server that is up and refuses nothing else, every pass succeeds. *)
Theorem pass_meets_no_duplicate `{!SpireUp td} allowBans targets b w :
  valid_targets targets → distinct (aliases_now w) →
  is_ok (Pass td targets allowBans b w).2 = true.
Proof. apply pass_succeeds. Qed.
End theorems.

(** Two clusters, the second unreadable; of the first's entries one is listed
    twice, one was edited by hand and one is foreign. *)
Definition demo_targets : list Target :=
  [mkTarget (mkCluster "c1" ["ab12"]) (Ok [mkGuest "350" "" "" false; mkGuest "351" "" "" false]);
   mkTarget (mkCluster "c2" ["00ff"]) (Err "doubtful read")].
Definition demo_memory : memory := mkMemory demo_entries [demo_agent "a" "9" "ab12"] [].

Lemma demo_targets_valid : valid_targets demo_targets.
Proof. split; [by repeat constructor|]. apply (bool_decide_unpack _). by vm_compute. Qed.
Abbreviation demo_now := (@entries_of memory (mem_api "example.org") "example.org" (mem_server "example.org")).
Lemma demo_memory_distinct : distinct (demo_now demo_memory).
Proof. apply (bool_decide_unpack _). by vm_compute. Qed.

Abbreviation demo_pass :=
  (Pass (H := mem_api "example.org") (H0 := caseless) "example.org" demo_targets true ∅ demo_memory).

Example demo_pass_result :
  demo_pass.2 = Ok () ∧ skipped demo_pass.1 = 1 ∧
  logs demo_pass.1 = [LogChanged "c1" 1 2; LogUnchanged "c2" "doubtful read"] ∧
  tracker demo_pass.1 = {["a" := mkMiss 1 ["ab12"]]} ∧
  EntryID <$> mem_entries (world demo_pass.1) = ["e2"; "e3"; "0"].
Proof. by vm_compute. Qed.

Lemma pass_loses_no_alias_witness :
  valid_targets demo_targets ∧
  ∀ e, (∀ r, r ∈ requests (H := caseless) "example.org" demo_targets → owned "example.org" r.1 e = false) →
    e ∈ demo_now (world demo_pass.1) ↔
    e ∈ demo_now demo_memory.
Proof.
  split; [exact demo_targets_valid|].
  exact (proj1 (pass_loses_no_alias (H := caseless) (H1 := mem_server "example.org") "example.org" true demo_targets ∅ demo_memory
    demo_targets_valid demo_memory_distinct)).
Defined.

Lemma pass_converges_witness :
  demo_pass.2 = Ok () ∧
  in_line "example.org" "c1" (demo_now (world demo_pass.1))
    (Wanted (H := caseless) "example.org" (mkCluster "c1" ["ab12"])
       [mkGuest "350" "" "" false; mkGuest "351" "" "" false]).1.
Proof.
  assert (demo_pass.2 = Ok ()) as Hok by by vm_compute. split; [exact Hok|].
  refine (proj1 (pass_converges (H := caseless) (H1 := mem_server "example.org") "example.org" true demo_targets ∅ demo_memory
    demo_targets_valid demo_memory_distinct Hok) (mkTarget (mkCluster "c1" ["ab12"]) _) _ _ eq_refl).
  by left.
Defined.

Lemma pass_meets_no_duplicate_witness : is_ok demo_pass.2 = true.
Proof.
  exact (pass_meets_no_duplicate (H := caseless) (H1 := mem_server "example.org") "example.org" true demo_targets ∅ demo_memory
    demo_targets_valid demo_memory_distinct).
Defined.

(** ** Doubtful reads *)

Section doubtful.
Context {W : Type} `{spireAPI W} `{GoUnicode} (td : string).

Definition good_read (t : Target) : Prop := is_ok (Reading t) = true.
(** Equal but for the count of skipped clusters and the log. *)
Definition same_but_skips (st st' : @pass_state W) : Prop :=
  world st = world st' ∧ tracker st = tracker st' ∧ entries st = entries st' ∧ agents st = agents st'.
Definition skips_added (n : nat) {A} (r r' : @pass_state W * outcome string A) : Prop :=
  same_but_skips r.1 r'.1 ∧ r.2 = r'.2 ∧ skipped r.1 = skipped r'.1 + n.

Definition blind {A} (m : fallible (@pass_state W) string A) : Prop :=
  ∀ st st' n, same_but_skips st st' → skipped st = skipped st' + n → skips_added n (m st) (m st').

Lemma blind_bind {A B} (m : fallible _ string A) (k : A → fallible _ string B) :
  blind m → (∀ a, blind (k a)) → blind (m ≫= k).
Proof.
  intros Hm Hk st st' n Hs Hn. unfold mbind, fallible_bind.
  destruct (Hm st st' n Hs Hn) as (Hs1 & Hr & Hn1).
  destruct (m st) as [st1 r], (m st') as [st1' r']; cbn in *. subst r'.
  destruct r as [a|e]; [by apply Hk|done].
Qed.
Lemma blind_ret {A} (a : A) : blind (mret a).
Proof. done. Qed.
Lemma blind_each {A} (f : A → fallible _ string ()) l : (∀ a, blind (f a)) → blind (each f l).
Proof. intros Hf. induction l as [|a l IH]; [apply blind_ret|]. by apply blind_bind. Qed.
Lemma blind_wrap {A} w (m : fallible _ string A) : blind m → blind (wrap w m).
Proof.
  intros Hm st st' n Hs Hn. destruct (Hm st st' n Hs Hn) as (Hs1 & Hr & Hn1). unfold wrap.
  destruct (m st) as [? []], (m st') as [? []]; cbn in *; simplify_eq; done.
Qed.
Lemma blind_when b (m : fallible _ string ()) : blind m → blind (when b m).
Proof. by destruct b. Qed.
Lemma blind_log l : blind (log l).
Proof. by intros st st' n. Qed.
Lemma blind_lift {A} (m : fallible W string A) : blind (lift m).
Proof. intros [] [] n (Hw & Ht & He & Ha) Hn; cbn in *; subst. done. Qed.
Hint Resolve blind_bind blind_ret blind_each blind_wrap blind_when blind_log blind_lift : core.

Lemma blind_have {A} (f : @pass_state W → option A) (m : fallible _ string A) :
  (∀ st st', same_but_skips st st' → f st = f st') → blind m →
  blind (have ← gets f; match have with Some a => mret a | None => m end).
Proof.
  intros Hf Hm st st' n Hs Hn. unfold mbind, fallible_bind, gets. rewrite (Hf _ _ Hs).
  destruct (f st'); [done|by apply Hm].
Qed.

Lemma blind_step allowBans t : good_read t → blind (cluster_step td allowBans t).
Proof.
  unfold good_read, cluster_step. destruct (Reading t) as [guests|]; [intros _|done].
  destruct (Wanted _ _ _) as [aliases problems].
  apply blind_bind.
  { apply blind_have; [by intros st st' (_ & _ & ? & _)|].
    apply blind_bind; [auto|]. intros es. apply blind_bind; [|auto]. by intros st st' n (? & ? & ? & ?) ?. }
  intros es. apply blind_bind; [auto|]. intros _. destruct (Diff _ _ _ _) as [create del].
  apply blind_bind; [unfold apply_changes; cbn zeta; auto 10|]. intros _. apply blind_when.
  apply blind_bind.
  { apply blind_have; [by intros st st' (_ & _ & _ & ?)|].
    apply blind_bind; [auto|]. intros l. apply blind_bind; [|auto]. by intros st st' n (? & ? & ? & ?) ?. }
  intros l. apply blind_bind; [|auto].
  intros st st' n (? & Ht & ? & ?) ?. unfold observe. rewrite Ht. destruct (Observe _ _ _ _). done.
Qed.

Lemma doubtful_run allowBans targets st st' n :
  same_but_skips st st' → skipped st = skipped st' + n →
  ∃ k, skips_added (n + k) (each (cluster_step td allowBans) targets st)
    (each (cluster_step td allowBans) (filter good_read targets) st') ∧
    ((each (cluster_step td allowBans) targets st).2 = Ok () →
     k = length (filter (λ t, ¬ good_read t) targets)).
Proof.
  revert st st' n. induction targets as [|t ts IH]; intros st st' n Hs Hn.
  { exists 0. rewrite Nat.add_0_r. done. }
  rewrite !(filter_cons _ t). destruct (decide (good_read t)) as [Hg|Hb].
  - rewrite decide_False by tauto. cbn [each]. unfold mbind, fallible_bind.
    destruct (blind_step allowBans t Hg st st' n Hs Hn) as (Hs1 & Hr & Hn1).
    destruct (cluster_step td allowBans t st) as [st1 r], (cluster_step td allowBans t st') as [st1' r'].
    cbn in *. subst r'. destruct r as [[]|e]; [by apply IH|]. exists 0. by rewrite Nat.add_0_r.
  - rewrite decide_True by done. cbn [each length]. unfold mbind, fallible_bind.
    assert (∃ e, Reading t = Err e) as [e He].
    { unfold good_read in Hb. destruct (Reading t); [done|eauto]. }
    set (st1 := mkPass (world st) (tracker st) (entries st) (agents st) (S (skipped st))
      (logs st ++ [LogUnchanged (ClusterName (TargetCluster t)) e])).
    assert (cluster_step td allowBans t st = (st1, Ok ())) as -> by (unfold cluster_step; by rewrite He).
    destruct (IH st1 st' (S n)) as (k & Hk & Hlen).
    + done.
    + unfold st1. cbn. lia.
    + exists (S k). replace (n + S k) with (S n + k) by lia. split; [exact Hk|]. intros Hr. by rewrite Hlen.
Qed.

(** C14: a cluster whose read is doubtful is inert. The pass does to the SPIRE
    server, to the ban counts and as to its error exactly what the pass over
    the other clusters would have done, and its answer counts the clusters left
    out. *)
Theorem doubtful_read_inert allowBans targets b w :
  let r := Pass td targets allowBans b w in
  let r' := Pass td (filter good_read targets) allowBans b w in
  world r.1 = world r'.1 ∧ tracker r.1 = tracker r'.1 ∧ r.2 = r'.2 ∧
  (r.2 = Ok () → skipped r.1 = skipped r'.1 + length (filter (λ t, ¬ good_read t) targets)).
Proof.
  intros r r'. destruct (doubtful_run allowBans targets (mkPass w b None None 0 [])
    (mkPass w b None None 0 []) 0) as (k & ((Hw & Ht & _) & Hr & Hn) & Hlen); [done..|].
  split_and!; [done|done|done|]. intros Hok. by rewrite <-Hlen.
Qed.
End doubtful.
