(* ===== verification/Sessions.v ===== *)
(** * Enrolment sessions (internal/devid/session.go)

    The store is a map from session IDs to sessions under one lock, so [Put] and
    [Take] are atomic steps. [now] is what [time.Now] answers inside the lock
    (once for the purge, once for [Created], which [Put] reads as one), [rnd] the
    16 bytes [rand.Read] yields, [None] when it fails. [A] is the type of the
    signing request a session holds. *)

From S2P Require Import Prelude.
From S2P Require Import Go.

Section sessions.
Context {A : Type}.

Record Session := mkSession {
  SessionID : string;
  Nonce : string;
  Request : A;
  SessVMID : string;
  SessEKFingerprint : string;
  Created : Z;
}.
Record SessionStore := mkSessions { sessions : gmap string Session; sessionTTL : Z }.

Definition NewSessionStore (ttl : Z) : SessionStore :=
  mkSessions ∅ (if (ttl <=? 0)%Z then (5 * Minute)%Z else ttl).

Definition alive (ttl now : Z) (sess : Session) : Prop := (Sub now (Created sess) <= ttl)%Z.
#[export] Instance alive_dec ttl now sess : Decision (alive ttl now sess).
Proof. unfold alive. apply _. Defined.

Definition purgeLocked (now : Z) (s : SessionStore) : SessionStore :=
  mkSessions (filter (λ r, alive (sessionTTL s) now r.2) (sessions s)) (sessionTTL s).

Definition Put (now : Z) (rnd : option string) (nonce : string) (sr : A) (vmid ekFP : string)
    (s : SessionStore) : SessionStore * outcome string string :=
  match rnd with
  | None => (s, Err "rand")
  | Some idBytes =>
      let id := hex_encode idBytes in
      let s := purgeLocked now s in
      (mkSessions (<[id := mkSession id nonce sr vmid ekFP now]> (sessions s)) (sessionTTL s), Ok id)
  end.

Definition Take (now : Z) (id : string) (s : SessionStore) : SessionStore * outcome string Session :=
  let s := purgeLocked now s in
  match sessions s !! id with
  | None => (s, Err "unknown or expired session")
  | Some sess => (mkSessions (delete id (sessions s)) (sessionTTL s), Ok sess)
  end.

(** ** Facts *)

Lemma purge_lookup now s id sess :
  sessions (purgeLocked now s) !! id = Some sess ↔
    sessions s !! id = Some sess ∧ alive (sessionTTL s) now sess.
Proof. apply map_lookup_filter_Some. Qed.

Lemma alive_mono ttl now now' sess : (now ≤ now')%Z → alive ttl now' sess → alive ttl now sess.
Proof. unfold alive, Sub. lia. Qed.

Lemma Put_lookup now b nonce sr vmid ekFP s id sess :
  sessions (Put now (Some b) nonce sr vmid ekFP s).1 !! id = Some sess ↔
    (id = hex_encode b ∧ sess = mkSession id nonce sr vmid ekFP now) ∨
    (id ≠ hex_encode b ∧ sessions s !! id = Some sess ∧ alive (sessionTTL s) now sess).
Proof.
  cbn [Put fst sessions]. rewrite lookup_insert. case_decide; [naive_solver|].
  rewrite purge_lookup. naive_solver.
Qed.

Lemma Take_lookup now id s id' sess :
  sessions (Take now id s).1 !! id' = Some sess ↔
    id' ≠ id ∧ sessions s !! id' = Some sess ∧ alive (sessionTTL s) now sess.
Proof.
  unfold Take. cbn zeta. destruct (sessions (purgeLocked now s) !! id) eqn:E; cbn [fst sessions].
  - rewrite lookup_delete. case_decide; [naive_solver|]. rewrite purge_lookup. naive_solver.
  - rewrite purge_lookup. split; [|tauto]. intros [Hs Ha]. split; [|done]. intros ->.
    assert (sessions (purgeLocked now s) !! id = Some sess) by by apply purge_lookup. congruence.
Qed.

Lemma Take_result now id s sess :
  (Take now id s).2 = Ok sess ↔ sessions s !! id = Some sess ∧ alive (sessionTTL s) now sess.
Proof.
  unfold Take. cbn zeta. rewrite <-purge_lookup.
  destruct (sessions (purgeLocked now s) !! id); cbn; naive_solver.
Qed.

Lemma Put_ttl now rnd nonce sr vmid ekFP s :
  sessionTTL (Put now rnd nonce sr vmid ekFP s).1 = sessionTTL s.
Proof. by destruct rnd. Qed.
Lemma Take_ttl now id s : sessionTTL (Take now id s).1 = sessionTTL s.
Proof. unfold Take. cbn zeta. by case_match. Qed.

(** ** Histories of the store *)

Inductive session_op :=
| OpPut (now : Z) (rnd : option string) (nonce : string) (sr : A) (vmid ekFP : string)
| OpTake (now : Z) (id : string).

Definition op_now (op : session_op) : Z :=
  match op with OpPut now _ _ _ _ _ | OpTake now _ => now end.
Definition run_op (op : session_op) (s : SessionStore) : SessionStore :=
  match op with
  | OpPut now rnd nonce sr vmid ekFP => (Put now rnd nonce sr vmid ekFP s).1
  | OpTake now id => (Take now id s).1
  end.
Definition run_ops (ops : list session_op) (s : SessionStore) : SessionStore :=
  foldl (fun s op => run_op op s) s ops.

(** The operation leaves the session [id] alone: it is no [Take] of it and no
    [Put] that draws its ID again. *)
Definition spares (id : string) (op : session_op) : Prop :=
  match op with
  | OpPut _ (Some b) _ _ _ _ => hex_encode b ≠ id
  | OpPut _ None _ _ _ _ => True
  | OpTake _ id' => id' ≠ id
  end.

Lemma run_op_ttl op s : sessionTTL (run_op op s) = sessionTTL s.
Proof. destruct op; [apply Put_ttl|apply Take_ttl]. Qed.

Lemma run_op_lookup op s id sess :
  spares id op →
  sessions (run_op op s) !! id = Some sess →
  sessions s !! id = Some sess.
Proof.
  destruct op as [now [b|] nonce sr vmid ekFP|now id']; cbn [run_op spares]; intros Hs.
  - rewrite Put_lookup. naive_solver.
  - done.
  - rewrite Take_lookup. naive_solver.
Qed.

Lemma run_op_keeps op s id sess :
  spares id op → alive (sessionTTL s) (op_now op) sess →
  sessions s !! id = Some sess → sessions (run_op op s) !! id = Some sess.
Proof.
  destruct op as [now [b|] nonce sr vmid ekFP|now id']; cbn [run_op spares op_now]; intros Hs Ha Hl.
  - apply Put_lookup. naive_solver.
  - done.
  - apply Take_lookup. naive_solver.
Qed.

Lemma run_ops_ttl ops s : sessionTTL (run_ops ops s) = sessionTTL s.
Proof.
  revert s. induction ops as [|op ops IH]; intros s; [done|]. cbn [run_ops foldl].
  fold (run_ops ops (run_op op s)). by rewrite IH, run_op_ttl.
Qed.

Lemma run_ops_keeps ops s id sess now :
  Forall (spares id) ops → Forall (λ op, (op_now op ≤ now)%Z) ops →
  alive (sessionTTL s) now sess → sessions s !! id = Some sess →
  sessions (run_ops ops s) !! id = Some sess.
Proof.
  revert s. induction ops as [|op ops IH]; intros s Hs Ht Ha Hl; [done|].
  apply Forall_cons in Hs as [Hs0 Hs]. apply Forall_cons in Ht as [Ht0 Ht].
  apply (IH (run_op op s)); [done|done|by rewrite run_op_ttl|].
  apply run_op_keeps; [done|by eapply alive_mono|done].
Qed.

Lemma run_ops_absent ops s id :
  Forall (spares id) ops → sessions s !! id = None → sessions (run_ops ops s) !! id = None.
Proof.
  revert s. induction ops as [|op ops IH]; intros s Hs Hl; [done|].
  apply Forall_cons in Hs as [Hs0 Hs]. apply (IH (run_op op s)); [done|].
  destruct (sessions (run_op op s) !! id) eqn:E; [|done].
  apply run_op_lookup in E; [congruence|done].
Qed.

(** C20: a session is for one use within its lifetime. Whatever other sessions
    come and go in between, taking it answers what was put exactly when no more
    than the lifetime has passed since; and whatever comes after, taking it a
    second time fails. *)
Theorem session_single_use now b nonce sr vmid ekFP s ops now' ops' now'' :
  let id := hex_encode b in
  let s1 := run_ops ops (Put now (Some b) nonce sr vmid ekFP s).1 in
  let s2 := run_ops ops' (Take now' id s1).1 in
  Forall (spares id) ops → Forall (spares id) ops' → Forall (λ op, (op_now op ≤ now')%Z) ops →
  ((now' - now ≤ sessionTTL s)%Z → (sessionTTL s < max_int64)%Z → (now ≤ now')%Z →
    (Take now' id s1).2 = Ok (mkSession id nonce sr vmid ekFP now)) ∧
  ((sessionTTL s < now' - now)%Z → (0 ≤ sessionTTL s < max_int64)%Z →
    is_ok (Take now' id s1).2 = false) ∧
  is_ok (Take now'' id s2).2 = false.
Proof.
  intros id s1 s2 Hops Hops' Ht.
  assert (sessionTTL s1 = sessionTTL s) as Httl by (unfold s1; by rewrite run_ops_ttl, Put_ttl).
  split_and!.
  - intros Hage Hmax Hle. apply Take_result.
    assert (alive (sessionTTL s1) now' (mkSession id nonce sr vmid ekFP now)) as Ha.
    { rewrite Httl. unfold alive, Sub, min_int64. cbn. unfold max_int64 in *. lia. }
    split; [|done]. apply (run_ops_keeps ops _ _ _ now'); [done|done| |].
    + rewrite Put_ttl. by rewrite Httl in Ha.
    + apply Put_lookup. by left.
  - intros Hage Hmax. destruct (Take now' id s1) as [s' [sess|e]] eqn:E; [exfalso|done].
    assert ((Take now' id s1).2 = Ok sess) as [Hl Ha]%Take_result by by rewrite E.
    assert (∀ ops s0, Forall (spares id) ops → sessions (run_ops ops s0) !! id = Some sess →
      sessions s0 !! id = Some sess) as Hback.
    { clear. induction ops as [|op ops IH]; intros s0 Hs Hl; [done|].
      apply Forall_cons in Hs as [Hs0 Hs]. eapply run_op_lookup; [done|]. by apply IH. }
    apply Hback in Hl; [|done]. apply Put_lookup in Hl as [[_ ->]|[? _]]; [|done].
    rewrite Httl in Ha. unfold alive, Sub, min_int64 in Ha. cbn in Ha. unfold max_int64 in *. lia.
  - assert (sessions s2 !! id = None) as Hn.
    { apply run_ops_absent; [done|]. destruct (sessions (Take now' id s1).1 !! id) eqn:E; [|done].
      apply Take_lookup in E. tauto. }
    destruct (Take now'' id s2) as [s' [sess|e]] eqn:E; [|done].
    assert ((Take now'' id s2).2 = Ok sess) as [Hl _]%Take_result by by rewrite E. congruence.
Qed.
End sessions.
Arguments Session : clear implicits.
Arguments SessionStore : clear implicits.

Lemma session_single_use_witness :
  let s := (Put 0 (Some "0123456789abcdef") "nonce" () "350" "fp" (NewSessionStore 0)).1 in
  (Take (4 * Minute) (hex_encode "0123456789abcdef")
     (run_ops [OpTake (2 * Minute) "no such session"] s)).2 =
  Ok (mkSession (hex_encode "0123456789abcdef") "nonce" () "350" "fp" 0).
Proof.
  apply (session_single_use 0 "0123456789abcdef" "nonce" () "350" "fp" (NewSessionStore 0)
    [OpTake (2 * Minute) "no such session"] (4 * Minute) [] 0).
  - repeat constructor; by vm_compute.
  - constructor.
  - repeat constructor; by vm_compute.
  - by vm_compute.
  - by vm_compute.
  - by vm_compute.
Defined.
