(* ===== verification/Crypto.v ===== *)
(** * The cryptography and TPM formats the enrolment uses, and its checks

    Certificates, TPM public areas and the operations of the standard library's
    x509, pem and asn1 packages and of go-tpm are the class [Crypto]: parameters
    with, where a theorem needs one, a law the packages document. On top stand
    the checks of internal/devid: verify.go, challenge.go, templates.go, the
    signature scheme of sign.go, and certificate parsing of csr.go and auth.go. *)

From S2P Require Import Prelude.
From S2P Require Import Go.
From Stdlib Require Import Ascii.

Definition oid := list Z.
Definition oidSubjectAltName : oid := [2; 5; 29; 17]%Z.

Record SigScheme := mkScheme { SchemeAlg : Z; SchemeHash : Z }.
Record RSAParams := mkRSA { RSASign : option SigScheme; Symmetric : option Z (* KeyBits *) }.
Record ECCParams := mkECC { ECCSign : option SigScheme }.

(** [tpm2.Public]; [PubRest] is what the code never looks at (policy, key bits,
    the unique field). *)
Record Public := mkPublic {
  PubType : Z;
  NameAlg : Z;
  Attributes : Z;
  RSAParameters : option RSAParams;
  ECCParameters : option ECCParams;
  PubRest : string;
}.

(** [tpm2.Name]: a digest or a handle. *)
Record Name := mkName { Digest : option string }.

(** [x509.Certificate], the fields the program reads. *)
Record certificate (K : Type) := mkCert {
  Raw : string;
  PublicKey : K;
  UnhandledCriticalExtensions : list oid;
  CertIsCA : bool;
  CommonName : string;
  NotBefore : Z;
  NotAfter : Z;
}.
Arguments mkCert {K}. Arguments Raw {K}. Arguments PublicKey {K}.
Arguments UnhandledCriticalExtensions {K}. Arguments CertIsCA {K}. Arguments CommonName {K}.
Arguments NotBefore {K}. Arguments NotAfter {K}.

Class Crypto := {
  (** Public keys; [Equal] decides equality, [is_rsa] is the assertion to
      [*rsa.PublicKey]. *)
  Key : Type;
  Key_eq_dec :: EqDecision Key;
  is_rsa : Key → bool;
  has_Equal : Key → bool;
  sha256 : string → string;
  (** [pem.Decode]: type and bytes of the next block, and the rest. *)
  pem_Decode : string → option (string * string * string);
  pem_Encode : string → string → string;
  (** [asn1.Unmarshal] into a [RawValue]: its [FullBytes]. *)
  asn1_FullBytes : string → option string;
  ParseCertificate : string → outcome string (certificate Key);
  CertPool : Type;
  (** [cert.Verify] with these roots, any key usage and the current time. *)
  Verify : Z → CertPool → certificate Key → outcome string ();
  (** go-tpm: constants, the key and the name of a public area, the hash of an
      algorithm, [rsa.VerifyPKCS1v15] over the hash of data. *)
  FlagFixedTPM : Z; FlagFixedParent : Z; FlagSensitiveDataOrigin : Z; FlagUserWithAuth : Z;
  FlagRestricted : Z; FlagDecrypt : Z; FlagSign : Z;
  AlgRSA : Z; AlgECC : Z; AlgRSASSA : Z; AlgSHA256 : Z;
  PublicKeyOf : Public → outcome string Key;
  NameOf : Public → outcome string Name;
  Hash : Z → outcome string Z;
  HashSize : Z → nat;
  VerifyPKCS1v15 : Key → Z → string → string → outcome string ();
  (** [tpm2.DecodeAttestationData]: the name in its certify info, [None] when it
      has none; [MatchesPublic]. *)
  AttestedName : string → outcome string (option Name);
  MatchesPublic : Name → Public → outcome string bool;
  (** [credactivation.Generate] with its random choices. *)
  Generate : string → Key → Z → string → outcome string (string * string);
}.

Section crypto.
Context `{Crypto}.
Abbreviation Certificate := (certificate Key).

(** ** Certificates (auth.go, csr.go) *)

Definition EKFingerprint (cert : Certificate) : string := hex_encode (sha256 (Raw cert)).

Definition parseCertificateLoose (asn1Data : string) : outcome string Certificate :=
  match asn1_FullBytes asn1Data with
  | None => ParseCertificate asn1Data
  | Some full => ParseCertificate full
  end.

Definition ParseEKCertHeader (v : string) : outcome string Certificate :=
  let v := TrimSpace v in
  if bool_decide (v = "") then Err "missing EK certificate header"
  else
    match base64_decode v with
    | None => Err "ek cert header: base64: illegal base64 data"
    | Some raw =>
        let raw :=
          match pem_Decode raw with
          | Some (typ, bytes, _) => if bool_decide (typ = "CERTIFICATE") then bytes else raw
          | None => raw
          end in
        match parseCertificateLoose raw with
        | Err e => Err ("ek cert header: " +:+ e)
        | Ok cert => Ok cert
        end
    end.

Definition EncodeEKCertHeader (cert : Certificate) : string := base64_encode (Raw cert).

Definition certsDEREqual (a b : Certificate) : bool := bool_decide (Raw a = Raw b).

(** ** Object attributes (verify.go, templates.go) *)

Definition has_flag (prop flag : Z) : bool := negb (Z.land prop flag =? 0)%Z.

Definition CheckDevIDProp (prop : Z) : outcome string () :=
  if has_flag prop FlagDecrypt then Err "DevID should not be a decryption key"
  else if has_flag prop FlagRestricted then Err "DevID should not be a restricted key"
  else if negb (has_flag prop FlagSign) then Err "DevID should be a signing key"
  else if negb (has_flag prop FlagFixedTPM) then Err "DevID should be fixedTPM"
  else Ok ().

Definition CheckAKProp (prop : Z) : outcome string () :=
  if has_flag prop FlagDecrypt then Err "AK should not be a decryption key"
  else if negb (has_flag prop FlagRestricted) then Err "AK should be a restricted key"
  else if negb (has_flag prop FlagSign) then Err "AK should be a signing key"
  else if negb (has_flag prop FlagFixedTPM) then Err "AK should be fixedTPM"
  else Ok ().

Definition flags (l : list Z) : Z := foldr Z.lor 0%Z l.
Definition AKAttributes : Z :=
  flags [FlagSign; FlagRestricted; FlagFixedTPM; FlagFixedParent; FlagSensitiveDataOrigin; FlagUserWithAuth].
Definition DevIDAttributes : Z :=
  flags [FlagSign; FlagFixedTPM; FlagFixedParent; FlagSensitiveDataOrigin; FlagUserWithAuth].

Definition template_RSA (attributes : Z) : Public :=
  mkPublic AlgRSA AlgSHA256 attributes (Some (mkRSA (Some (mkScheme AlgRSASSA AlgSHA256)) None)) None "".
Definition DefaultAKTemplateRSA : Public := template_RSA AKAttributes.
Definition DefaultDevIDTemplateRSA : Public := template_RSA DevIDAttributes.

(** ** Signatures (sign.go, verify.go) *)

Definition SignatureScheme (pub : Public) : outcome string (option SigScheme) :=
  if negb (has_flag (Attributes pub) FlagSign) then Err "not a signing key"
  else if (PubType pub =? AlgRSA)%Z then
    match RSAParameters pub with None => Err "malformed RSA key" | Some p => Ok (RSASign p) end
  else if (PubType pub =? AlgECC)%Z then
    match ECCParameters pub with None => Err "malformed ECC key" | Some p => Ok (ECCSign p) end
  else Err ("unsupported key type 0x" +:+ hex_04 (PubType pub)).

Definition CheckSignature (pub : option Public) (data sig : string) : outcome string () :=
  match pub with
  | None => Err "missing public key"
  | Some pub =>
      key ← PublicKeyOf pub;
      if negb (is_rsa key) then Err "only RSA keys are supported"
      else
        scheme ← SignatureScheme pub;
        match scheme with
        | None => Err "missing signature scheme"
        | Some s => hash ← Hash (SchemeHash s); VerifyPKCS1v15 key hash data sig
        end
  end.

Definition prefix_error {A} (p : string) (m : outcome string A) : outcome string A :=
  match m with Ok a => Ok a | Err e => Err (p +:+ e) end.

Definition VerifyDevIDResidency (pubAK : option Public) (pubDevID : Public) (attestData attestSig : string)
    : outcome string () :=
  _ ← prefix_error "certify signature: " (CheckSignature pubAK attestData attestSig);
  info ← prefix_error "decode attest data: " (AttestedName attestData);
  match info with
  | None => Err "missing certify info"
  | Some name =>
      ok ← MatchesPublic name pubDevID;
      if (ok : bool) then Ok () else Err "certify name does not match DevID public"
  end.

(** ** The EK certificate (verify.go) *)

Definition ErrEKCertificateKeyMismatch : string :=
  "EK certificate does not match the endorsement key in the signing request".

(** The Go code drops the SAN from the certificate's own list, in place. *)
Definition drop_SAN (cert : Certificate) : Certificate :=
  mkCert (Raw cert) (PublicKey cert)
    (filter (λ o, o ≠ oidSubjectAltName) (UnhandledCriticalExtensions cert))
    (CertIsCA cert) (CommonName cert) (NotBefore cert) (NotAfter cert).

Definition VerifyEKCertificateChain (now : Z) (roots : option CertPool) (cert : option Certificate)
    : outcome string () :=
  match cert, roots with
  | None, _ => Err "missing EK certificate"
  | _, None => Err "missing EK trust roots"
  | Some cert, Some roots =>
      prefix_error "EK certificate verification failed: " (Verify now roots (drop_SAN cert))
  end.

Definition ekCertificateMatchesKey (cert : Certificate) (pub : option Public) : bool :=
  match pub with
  | None => false
  | Some pub =>
      match PublicKeyOf pub with
      | Err _ => false
      | Ok key => has_Equal (PublicKey cert) && bool_decide (PublicKey cert = key)
      end
  end.

Definition VerifyEKCertificateBound (now : Z) (roots : option CertPool) (pub : option Public)
    (cert : Certificate) : outcome string () :=
  _ ← VerifyEKCertificateChain now roots (Some cert);
  if ekCertificateMatchesKey cert pub then Ok () else Err ErrEKCertificateKeyMismatch.

(** ** The challenge (challenge.go): credential blob, secret and nonce *)

Definition CreateChallenge (rnd : nat → option string) (ekPub : option Public) (akName : Name)
    : outcome string (string * string * string) :=
  match ekPub with
  | None => Err "missing EK public"
  | Some ekPub =>
      match Digest akName with
      | None => Err "missing AK name digest"
      | Some digest =>
          hash ← Hash (NameAlg ekPub);
          match rnd (HashSize hash) with
          | None => Err "rand"
          | Some nonce =>
              encKey ← PublicKeyOf ekPub;
              if negb (is_rsa encKey) then Err "only RSA EK is supported"
              else
                match RSAParameters ekPub ≫= Symmetric with
                | None => Err "EK missing symmetric parameters"
                | Some keyBits =>
                    r ← prefix_error "credactivation.Generate: " (Generate digest encKey (keyBits / 8)%Z nonce);
                    if (String.length r.1 <? 2) || (String.length r.2 <? 2)
                    then Err "credential activation blobs too short"
                    else Ok (sdrop 2 r.1, sdrop 2 r.2, nonce)
                end
          end
      end
  end.
End crypto.

(** ** Attributes are sets of bits *)

(** go-tpm's flags are distinct bits of TPMA_OBJECT. *)
Class FlagLaws `{Crypto} := {
  flags_bits : ∀ f, f ∈ [FlagFixedTPM; FlagFixedParent; FlagSensitiveDataOrigin; FlagUserWithAuth;
                         FlagRestricted; FlagDecrypt; FlagSign] → ∃ i, (0 ≤ i)%Z ∧ f = (2 ^ i)%Z;
  flags_distinct : NoDup [FlagFixedTPM; FlagFixedParent; FlagSensitiveDataOrigin; FlagUserWithAuth;
                          FlagRestricted; FlagDecrypt; FlagSign];
}.

Section flags.
Lemma has_flag_testbit prop i : (0 ≤ i)%Z → has_flag prop (2 ^ i) = Z.testbit prop i.
Proof.
  intros Hi. unfold has_flag. apply eq_true_iff_eq. rewrite negb_true_iff, Z.eqb_neq. split.
  - intros Hne. destruct (Z.testbit prop i) eqn:E; [done|]. exfalso. apply Hne, Z.bits_inj'.
    intros j Hj. rewrite Z.land_spec, Z.bits_0, Z.pow2_bits_eqb by done.
    destruct (Z.eqb_spec i j) as [<-|]; [by rewrite E|by rewrite andb_false_r].
  - intros Hb Hz. assert (Z.testbit (Z.land prop (2 ^ i)) i = true) as Hl.
    { by rewrite Z.land_spec, Hb, Z.pow2_bits_true. }
    by rewrite Hz, Z.bits_0 in Hl.
Qed.

(** A set of bits has exactly the bits it is made of. *)
Lemma has_flag_flags (l : list Z) f :
  (∀ g, g ∈ f :: l → ∃ i, (0 ≤ i)%Z ∧ g = (2 ^ i)%Z) → has_flag (flags l) f = bool_decide (f ∈ l).
Proof.
  intros Hl. destruct (Hl f ltac:(by left)) as (i & Hi & ->). rewrite has_flag_testbit by done.
  induction l as [|g l IH]; cbn [flags foldr]; [by rewrite Z.bits_0|].
  fold (flags l). rewrite Z.lor_spec, IH by (intros g' [->|?]%elem_of_cons; apply Hl; [by left|by do 2 right]).
  destruct (Hl g ltac:(by right; left)) as (j & Hj & ->). rewrite Z.pow2_bits_eqb by done.
  apply eq_true_iff_eq. rewrite orb_true_iff, !bool_decide_eq_true, Z.eqb_eq, elem_of_cons. split.
  - intros [->|?]; auto.
  - intros [Heq|?]; [|by right]. left. apply (Z.pow_inj_r 2) in Heq; lia.
Qed.

(** The attribute checks accept exactly what they say: a DevID key signs,
    is fixed to its TPM, and is neither restricted nor a decryption key; an
    attestation key the same but restricted. So no key passes for both, and the
    templates the client creates its keys from pass their own check. *)
Theorem key_attribute_checks `{FlagLaws} prop :
  (CheckDevIDProp prop = Ok () ↔ has_flag prop FlagSign = true ∧ has_flag prop FlagFixedTPM = true ∧
    has_flag prop FlagRestricted = false ∧ has_flag prop FlagDecrypt = false) ∧
  (CheckAKProp prop = Ok () ↔ has_flag prop FlagSign = true ∧ has_flag prop FlagFixedTPM = true ∧
    has_flag prop FlagRestricted = true ∧ has_flag prop FlagDecrypt = false) ∧
  (is_ok (CheckDevIDProp prop) && is_ok (CheckAKProp prop)) = false ∧
  CheckDevIDProp (Attributes DefaultDevIDTemplateRSA) = Ok () ∧
  CheckAKProp (Attributes DefaultAKTemplateRSA) = Ok ().
Proof.
  assert (∀ l f, (∀ g, g ∈ f :: l → g ∈ [FlagFixedTPM; FlagFixedParent; FlagSensitiveDataOrigin;
    FlagUserWithAuth; FlagRestricted; FlagDecrypt; FlagSign]) →
    has_flag (flags l) f = bool_decide (f ∈ l)) as Hf.
  { intros l f Hl. apply has_flag_flags. intros g Hg. by apply flags_bits, Hl. }
  pose proof flags_distinct as Hd. rewrite !NoDup_cons, !not_elem_of_cons in Hd.
  cbn [Attributes DefaultDevIDTemplateRSA DefaultAKTemplateRSA template_RSA].
  unfold CheckDevIDProp, CheckAKProp. split_and!.
  - destruct (has_flag prop FlagDecrypt), (has_flag prop FlagRestricted), (has_flag prop FlagSign),
      (has_flag prop FlagFixedTPM); cbn; intuition congruence.
  - destruct (has_flag prop FlagDecrypt), (has_flag prop FlagRestricted), (has_flag prop FlagSign),
      (has_flag prop FlagFixedTPM); cbn; intuition congruence.
  - by destruct (has_flag prop FlagDecrypt), (has_flag prop FlagRestricted), (has_flag prop FlagSign),
      (has_flag prop FlagFixedTPM).
  - unfold DevIDAttributes. rewrite !Hf by (intros g; rewrite !elem_of_cons; tauto).
    rewrite (bool_decide_eq_false_2 (FlagDecrypt ∈ _)), (bool_decide_eq_false_2 (FlagRestricted ∈ _)),
      !bool_decide_eq_true_2 by (rewrite !elem_of_cons, ?elem_of_nil; intuition congruence). done.
  - unfold AKAttributes. rewrite !Hf by (intros g; rewrite !elem_of_cons; tauto).
    rewrite (bool_decide_eq_false_2 (FlagDecrypt ∈ _)), !bool_decide_eq_true_2
      by (rewrite !elem_of_cons, ?elem_of_nil; intuition congruence). done.
Qed.
End flags.

(** ** A toy instance

    Enough of the parameters to evaluate the program on an example: a certificate
    is the text CERT|name|key, with its times when it has any, trusted when its name is in the pool; a signature
    names its key and data; a credential blob is the nonce behind two bytes. *)

Fixpoint take_pad (n : nat) (s : string) : string :=
  match n, s with
  | O, _ => ""
  | S n, "" => String "0" (take_pad n "")
  | S n, String c s => String c (take_pad n s)
  end.

Fixpoint decimal (s : string) (acc : Z) : Z :=
  match s with "" => acc | String c s => decimal s (acc * 10 + (byte c - 48))%Z end.

Definition toy_parse (der : string) : outcome string (certificate string) :=
  match Split der "|" with
  | ["CERT"; cn; key] => Ok (mkCert der key [] (bool_decide (cn = "ca")) cn 0 0)
  | ["CERT"; cn; key; from; to] => Ok (mkCert der key [] false cn (decimal from 0) (decimal to 0))
  | _ => Err "malformed certificate"
  end.

Definition toy_pem (s : string) : option (string * string * string) :=
  let '(typ, r, ok) := Cut s ":" in
  if ok then
    let '(bytes, r, ok) := Cut r lf in
    if ok then Some (typ, bytes, r) else None
  else None.

#[export] Instance toy_crypto : Crypto := {|
  Key := string;
  is_rsa _ := true;
  has_Equal _ := true;
  sha256 s := take_pad 32 s;
  pem_Decode := toy_pem;
  pem_Encode typ bytes := typ +:+ ":" +:+ bytes +:+ lf_string;
  asn1_FullBytes s := Some s;
  ParseCertificate := toy_parse;
  CertPool := list string;
  Verify _ roots cert :=
    if bool_decide (CommonName cert ∈ roots) then Ok () else Err "unknown authority";
  FlagFixedTPM := 2; FlagFixedParent := 16; FlagSensitiveDataOrigin := 32; FlagUserWithAuth := 64;
  FlagRestricted := 65536; FlagDecrypt := 131072; FlagSign := 262144;
  AlgRSA := 1; AlgECC := 35; AlgRSASSA := 20; AlgSHA256 := 11;
  PublicKeyOf p := Ok (PubRest p);
  NameOf p := Ok (mkName (Some (PubRest p)));
  Hash alg := Ok alg;
  HashSize _ := 16;
  VerifyPKCS1v15 key _ data sig :=
    if bool_decide (sig = key +:+ "#" +:+ data) then Ok () else Err "verification error";
  AttestedName s := Ok (Some (mkName (Some s)));
  MatchesPublic n p := Ok (bool_decide (Digest n = Some (PubRest p)));
  Generate digest key bits nonce := Ok ("xx" +:+ nonce, "yy" +:+ digest);
|}.

#[export] Instance toy_flags : FlagLaws.
Proof.
  split.
  - intros f Hf. repeat (apply elem_of_cons in Hf as [->|Hf];
      [first [by exists 1%Z|by exists 4%Z|by exists 5%Z|by exists 6%Z|by exists 16%Z|by exists 17%Z|by exists 18%Z]|]).
    by apply not_elem_of_nil in Hf.
  - by apply (bool_decide_unpack _).
Qed.

Lemma key_attribute_checks_witness :
  CheckDevIDProp (H := toy_crypto) 262258 = Ok () ↔
    has_flag 262258 262144 = true ∧ has_flag 262258 2 = true ∧
    has_flag 262258 65536 = false ∧ has_flag 262258 131072 = false.
Proof. exact (proj1 (key_attribute_checks (H := toy_crypto) (H0 := toy_flags) 262258)). Defined.
