(* ===== verification/Pins.v ===== *)
(** * EK pins (internal/devid/pin.go, clusterpin.go)

    A pin directory is a [dirstate]: missing, unusable, or a map from names to
    files. [os.ReadDir] lists it by name. Under [pinCreateMu] one process runs
    [ensurePinBeforeIssue] at a time; [between] is whatever else (an operator,
    the test hook) does to the directory between the scan and the create, and
    [create_faults] which system calls of a create fail. Log lines are left out,
    and the receiver is never nil. *)

From S2P Require Import Prelude.
From S2P Require Import Go.
From Stdlib Require Import Ascii.

(** ** Errors *)

Inductive enroll_error :=
| PinStoreError (msg : string)               (* wraps ErrPinStore *)
| AlreadyPinned                              (* errAlreadyPinned *)
| Unauthorized (msg detail : string)         (* unauthorizedError *)
| OtherError (msg : string).

#[export] Instance enroll_error_eq_dec : EqDecision enroll_error.
Proof. solve_decision. Defined.

Definition errUnauthorized (msg : string) : enroll_error := Unauthorized msg "".

Definition errStoredPinMismatch : string := "EK certificate does not match stored pin".
Definition errInventoryPinMismatch : string := "EK certificate does not match inventory pin".
Definition errPinStoreUnavailable : string := "pin store unavailable".
Definition errPinnedElsewhere : string := "EK certificate is pinned to another VM".
Definition errClusterPinMismatch : string := "EK certificate does not match cluster pin".
Definition errNoClusterPin : string := "no cluster pin for this VM".

Definition errPinnedToAnotherVM (vmid other : string) : enroll_error :=
  Unauthorized errPinnedElsewhere ("vm=" +:+ vmid +:+ " pinned=" +:+ other).

(** ** Directories *)

Inductive node := File (content : string) | Directory | Unreadable.
Inductive dirstate := NoDir | BadDir | Listing (entries : gmap string node).

Inductive read_result := Data (b : string) | NotExist | IsDir | ReadError.
Definition ReadFile (d : dirstate) (name : string) : read_result :=
  match d with
  | NoDir => NotExist
  | BadDir => ReadError
  | Listing m =>
      match m !! name with
      | None => NotExist
      | Some (File c) => Data c
      | Some Directory => IsDir
      | Some Unreadable => ReadError
      end
  end.

(** The names in order with [ent.IsDir()]. *)
Definition list_names (m : gmap string node) : list string := SortStrings (map_to_list m).*1.
Definition is_dir (m : gmap string node) (name : string) : bool :=
  match m !! name with Some Directory => true | _ => false end.

(** ** VM IDs and pin files *)

Fixpoint strip_slashes (s : string) : string :=
  match s with
  | "" => ""
  | String c s' =>
      match strip_slashes s' with
      | "" => if bool_decide (c = "/"%char) then "" else String c ""
      | r => String c r
      end
  end.
Fixpoint after_last_slash (s : string) : string :=
  match s with
  | "" => ""
  | String c s' =>
      if ContainsByte "/" s' then after_last_slash s'
      else if bool_decide (c = "/"%char) then s' else s
  end.
(** [filepath.Base]. *)
Definition Base (path : string) : string :=
  if bool_decide (path = "") then "."
  else
    let p := strip_slashes path in
    if bool_decide (p = "") then "/" else after_last_slash p.

Definition validateVMID (vmid : string) : outcome enroll_error () :=
  if bool_decide (vmid = "") then Err (PinStoreError "empty vmid")
  else if (ContainsByte "/" vmid || ContainsByte "\" vmid) || Contains vmid ".." || HasPrefix vmid "."
  then Err (PinStoreError "invalid vmid")
  else if negb (bool_decide (Base vmid = vmid)) then Err (PinStoreError "invalid vmid")
  else Ok ().

Definition isVMIDName (name : string) : bool :=
  negb (bool_decide (name = "")) && sforall is_digit name.

Definition parseClusterPin (b : string) : option string :=
  let b := if (String.length b =? 65) && bool_decide (String.get 64 b = Some lf)
           then String.substring 0 64 b else b in
  if negb (String.length b =? 64) then None
  else if hex_string b then Some b else None.

(** ** Guests *)

Inductive stat_result := StatExists | StatNotExist | StatError.
(** [/etc/pve/nodes]: its entries with [IsDir], [None] when it cannot be listed,
    and what [os.Stat] says of a node's config of a kind. *)
Record guest_root := mkRoot {
  root_nodes : option (list (string * bool));
  root_stat : string → string → string → stat_result;
}.

Definition guestConfigFound (r : guest_root) (vmid : string) : bool :=
  match root_nodes r with
  | None => true
  | Some nodes =>
      existsb (fun n => n.2 && existsb (fun kind =>
        match root_stat r n.1 kind vmid with StatNotExist => false | _ => true end)
        ["qemu-server"; "lxc"]) nodes
  end.

(** ** The enroller's pins *)

Record pin_config := mkPinConfig {
  PinDir : string;
  ClusterPinDir : string;
  RequireClusterPin : bool;
  GuestConfigRoot : string;
  (** [InventoryPins]: VM ID to ek_sha256, [None] for a nil function. *)
  InventoryPins : option (gmap string string);
}.

(** What a leg reads: the cluster pins, and the guests at the first look and at
    the look after [guestConfigRecheck]. *)
Record surroundings := mkSurroundings {
  cluster_pins : dirstate;
  guests_now : guest_root;
  guests_later : guest_root;
}.

Record create_faults := mkFaults {
  mkdir_fails : bool;
  nonce : option string;
  open_fails : bool;
  write_fails : bool;
  close_fails : bool;
  link_fails : bool;
  remove_fails : bool;
}.
Definition no_faults (n : string) : create_faults := mkFaults false (Some n) false false false false false.

Section pins.
Context `{GoUnicode} (e : pin_config) (env : surroundings).

Definition guestExists (vmid : string) : bool :=
  if bool_decide (GuestConfigRoot e = "") then true
  else guestConfigFound (guests_now env) vmid || guestConfigFound (guests_later env) vmid.

Definition readStoredPin (dir : string) (d : dirstate) (vmid : string) : outcome enroll_error string :=
  if bool_decide (dir = "") then Ok ""
  else
    _ ← validateVMID vmid;
    match ReadFile d vmid with
    | Data b => Ok (ToLower (TrimSpace b))
    | NotExist => Ok ""
    | IsDir | ReadError => Err (PinStoreError "read")
    end.

(** [readClusterPin]: the pin, "" when there is none, and whether the directory exists. *)
Definition readClusterPin (vmid : string) : outcome enroll_error (string * bool) :=
  if bool_decide (ClusterPinDir e = "") then Ok ("", false)
  else
    _ ← validateVMID vmid;
    match cluster_pins env with
    | NoDir => Ok ("", false)
    | BadDir => Err (PinStoreError "cluster pin dir")
    | Listing _ =>
        match ReadFile (cluster_pins env) vmid with
        | NotExist => Ok ("", true)
        | ReadError => Err (PinStoreError "cluster pin")
        | IsDir => Ok ("", true)
        | Data b => match parseClusterPin b with Some pin => Ok (pin, true) | None => Ok ("", true) end
        end
    end.

(** The names a scan looks at. *)
Definition scanned (m : gmap string node) (vmid name : string) : bool :=
  negb (bool_decide (name = vmid) || is_dir m name || negb (isVMIDName name)).

Fixpoint matching (m : gmap string node) (vmid fp : string) (names : list string)
    : outcome enroll_error (list string) :=
  match names with
  | [] => Ok []
  | name :: names =>
      if negb (scanned m vmid name) then matching m vmid fp names
      else
        match ReadFile (Listing m) name with
        | NotExist => matching m vmid fp names
        | IsDir | ReadError => Err (PinStoreError "cluster pin")
        | Data b =>
            ids ← matching m vmid fp names;
            Ok (if bool_decide (parseClusterPin b = Some fp) then name :: ids else ids)
        end
  end.

Definition clusterPinsMatching (vmid fp : string) : outcome enroll_error (list string) :=
  if bool_decide (ClusterPinDir e = "") then Ok []
  else
    match cluster_pins env with
    | NoDir => Ok []
    | BadDir => Err (PinStoreError "list cluster pins")
    | Listing m => matching m vmid fp (list_names m)
    end.

(** The loop over [PinDir]: the first other VM the EK is pinned to, if any. *)
Fixpoint scan_store (m : gmap string node) (vmid fp : string) (names : list string)
    : outcome enroll_error (option string) :=
  match names with
  | [] => Ok None
  | name :: names =>
      if negb (scanned m vmid name) then scan_store m vmid fp names
      else
        stored ← readStoredPin (PinDir e) (Listing m) name;
        if negb (bool_decide (stored = "")) && EqualFold stored fp && guestExists name
        then Ok (Some name)
        else scan_store m vmid fp names
  end.

Fixpoint scan_inventory (pins : gmap string string) (vmid fp : string) (ids : list string) : string :=
  match ids with
  | [] => ""
  | id :: ids =>
      if bool_decide (id = vmid) then scan_inventory pins vmid fp ids
      else
        let pin := TrimSpace (default "" (pins !! id)) in
        if negb (bool_decide (pin = "")) && EqualFold pin fp then id
        else scan_inventory pins vmid fp ids
  end.

Definition pinnedToAnotherVM (store : dirstate) (vmid fp : string) : outcome enroll_error string :=
  if bool_decide (fp = "") then Ok ""
  else
    found ← (if bool_decide (PinDir e = "") then Ok None
             else
               match store with
               | NoDir => Ok None
               | BadDir => Err (PinStoreError "list")
               | Listing m => scan_store m vmid fp (list_names m)
               end);
    match found with
    | Some name => Ok name
    | None =>
        cluster ← clusterPinsMatching vmid (ToLower fp);
        match List.find guestExists cluster with
        | Some id => Ok id
        | None =>
            match InventoryPins e with
            | None => Ok ""
            | Some pins => Ok (scan_inventory pins vmid fp (SortStrings (map_to_list pins).*1))
            end
        end
    end.

(** ** Creating a pin *)

Definition tmp_name (vmid nonce : string) : string := "." +:+ vmid +:+ ".tmp-" +:+ hex_encode nonce.

Definition createStoredPinExclusive (vmid fp : string) (f : create_faults) (store : dirstate)
    : dirstate * outcome enroll_error () :=
  if bool_decide (PinDir e = "") || bool_decide (fp = "")
  then (store, Err (PinStoreError "missing dir or fingerprint"))
  else
    match validateVMID vmid with
    | Err err => (store, Err err)
    | Ok _ =>
        if mkdir_fails f then (store, Err (PinStoreError "mkdir"))
        else
          let store := match store with NoDir => Listing ∅ | _ => store end in
          match nonce f with
          | None => (store, Err (PinStoreError "rand"))
          | Some n =>
              let tmp := tmp_name vmid n in
              match store with
              | Listing m =>
                  if open_fails f || bool_decide (is_Some (m !! tmp))
                  then (store, Err (PinStoreError "create tmp"))
                  else
                    let m := <[tmp := File (ToLower fp +:+ lf_string)]> m in
                    let removed m := if remove_fails f then m else delete tmp m in
                    if write_fails f then (Listing (removed m), Err (PinStoreError "write"))
                    else if close_fails f then (Listing (removed m), Err (PinStoreError "close"))
                    else if link_fails f then (Listing (removed m), Err (PinStoreError "link"))
                    else if bool_decide (is_Some (m !! vmid)) then (Listing (removed m), Err AlreadyPinned)
                    else (Listing (removed (<[vmid := File (ToLower fp +:+ lf_string)]> m)), Ok ())
              | _ => (store, Err (PinStoreError "create tmp"))
              end
          end
    end.

(** [os.Remove] of a pin file, its error ignored. *)
Definition remove_pin (vmid : string) (fails : bool) (store : dirstate) : dirstate :=
  match store with
  | Listing m => if fails then store else Listing (delete vmid m)
  | _ => store
  end.

Definition ensurePinBeforeIssue (vmid fp : string) (between : dirstate → dirstate)
    (f1 f2 : create_faults) (store : dirstate) : dirstate * outcome enroll_error () :=
  match readClusterPin vmid with
  | Err err => (store, Err err)
  | Ok (cpin, _) =>
      if negb (bool_decide (cpin = "")) then
        (store, if EqualFold cpin fp then Ok () else Err (errUnauthorized errClusterPinMismatch))
      else if RequireClusterPin e then (store, Err (errUnauthorized errNoClusterPin))
      else if bool_decide (PinDir e = "") then (store, Ok ())
      else
        match readStoredPin (PinDir e) store vmid with
        | Err err => (store, Err err)
        | Ok existing =>
            if negb (bool_decide (existing = "")) && negb (EqualFold existing fp)
            then (store, Err (errUnauthorized errStoredPinMismatch))
            else
              match pinnedToAnotherVM store vmid fp with
              | Err err => (store, Err err)
              | Ok other =>
                  if negb (bool_decide (other = "")) then (store, Err (errPinnedToAnotherVM vmid other))
                  else if negb (bool_decide (existing = "")) then (store, Ok ())
                  else
                    match createStoredPinExclusive vmid fp f1 (between store) with
                    | (store, Err AlreadyPinned) =>
                        match readStoredPin (PinDir e) store vmid with
                        | Err err => (store, Err err)
                        | Ok existing =>
                            if bool_decide (existing = "")
                            then createStoredPinExclusive vmid fp f2 (remove_pin vmid (remove_fails f2) store)
                            else if negb (EqualFold existing fp)
                            then (store, Err (errUnauthorized errStoredPinMismatch))
                            else (store, Ok ())
                        end
                    | r => r
                    end
              end
        end
  end.

(** [enforceOwnPin] (auth.go). *)
Definition enforceOwnPin (store : dirstate) (vmid fp : string) : outcome enroll_error () :=
  c ← readClusterPin vmid;
  stored ← (if bool_decide (PinDir e = "") then Ok "" else readStoredPin (PinDir e) store vmid);
  if negb (bool_decide (c.1 = "")) then
    if negb (EqualFold c.1 fp) then Err (errUnauthorized errClusterPinMismatch) else Ok ()
  else if RequireClusterPin e then Err (errUnauthorized errNoClusterPin)
  else if negb (bool_decide (stored = "")) && negb (EqualFold stored fp)
  then Err (errUnauthorized errStoredPinMismatch)
  else Ok ().
End pins.

(** ** Names *)

Lemma strip_slashes_id s : ContainsByte "/" s = false → strip_slashes s = s.
Proof.
  induction s as [|c s IH]; cbn; [done|]. intros [Hc Hs]%orb_false_iff. rewrite (IH Hs).
  apply bool_decide_eq_false in Hc. destruct s; [|done]. by rewrite bool_decide_eq_false_2.
Qed.

Lemma after_last_slash_id s : ContainsByte "/" s = false → after_last_slash s = s.
Proof.
  destruct s as [|c s]; cbn; [done|]. intros [Hc Hs]%orb_false_iff. rewrite Hs.
  apply bool_decide_eq_false in Hc. by rewrite bool_decide_eq_false_2.
Qed.

Lemma Base_id s : s ≠ "" → ContainsByte "/" s = false → Base s = s.
Proof.
  intros Hne Hs. unfold Base. rewrite bool_decide_eq_false_2 by done. cbn zeta.
  rewrite strip_slashes_id by done. rewrite bool_decide_eq_false_2 by done. by apply after_last_slash_id.
Qed.

Lemma validateVMID_Ok v :
  validateVMID v = Ok () ↔ v ≠ "" ∧ ContainsByte "/" v = false ∧ ContainsByte "\" v = false ∧
    Contains v ".." = false ∧ HasPrefix v "." = false.
Proof.
  unfold validateVMID. case_bool_decide as Hv; [naive_solver|].
  destruct (ContainsByte "/" v) eqn:Hs; cbn [orb]; [naive_solver|].
  destruct (ContainsByte "\" v), (Contains v ".."), (HasPrefix v "."); cbn [orb]; try naive_solver.
  rewrite Base_id, bool_decide_eq_true_2; naive_solver.
Qed.

Lemma digits_no c s : sforall is_digit s = true → is_digit c = false → ContainsByte c s = false.
Proof. apply sforall_no. Qed.

Lemma digits_no_prefix s p c :
  sforall is_digit s = true → is_digit c = false → HasPrefix s (String c p) = false.
Proof.
  destruct s as [|d s]; cbn; [done|]. intros [Hd _]%andb_true_iff Hc.
  rewrite bool_decide_eq_false_2; [done|]. intros ->. congruence.
Qed.

Lemma digits_not_contains s c p :
  sforall is_digit s = true → is_digit c = false → Contains s (String c p) = false.
Proof.
  intros Hs Hc. induction s as [|d s IH]; [done|]. cbn [Contains].
  rewrite digits_no_prefix by done. cbn in Hs. apply andb_true_iff in Hs as [_ Hs]. by apply IH.
Qed.

(** A VM ID of digits is a valid pin name. *)
Lemma isVMIDName_valid v : isVMIDName v = true → validateVMID v = Ok ().
Proof.
  intros [Hne Hd]%andb_true_iff. bool_to_prop. apply validateVMID_Ok.
  split_and!; [done|by apply digits_no|by apply digits_no|by apply digits_not_contains|by apply digits_no_prefix].
Qed.

(** The path [filepath.Join] makes of a directory and one element of it. *)
Definition direct_child (dir name : string) : string := dir +:+ "/" +:+ name.

(** ** The store, file by file *)

Definition lookup_node (d : dirstate) (name : string) : option node :=
  match d with Listing m => m !! name | _ => None end.

Lemma HasPrefix_tmp vmid n : HasPrefix (tmp_name vmid n) "." = true.
Proof. done. Qed.
Lemma tmp_ne vmid n name : HasPrefix name "." = false → tmp_name vmid n ≠ name.
Proof. intros Hn <-. by rewrite HasPrefix_tmp in Hn. Qed.

Section store.
Context `{GoUnicode} (e : pin_config) (env : surroundings).

(** The fingerprint a file pins, "" for none. *)
Definition pin_of_node (n : option node) : string :=
  match n with Some (File b) => ToLower (TrimSpace b) | _ => "" end.
Definition pin_of (d : dirstate) (name : string) : string := pin_of_node (lookup_node d name).

Lemma readStoredPin_Ok d vmid p :
  PinDir e ≠ "" → readStoredPin (PinDir e) d vmid = Ok p → pin_of d vmid = p.
Proof.
  intros Hd. unfold readStoredPin. rewrite bool_decide_eq_false_2 by done.
  destruct (validateVMID vmid); [|done]. cbn. unfold ReadFile, pin_of, lookup_node.
  destruct d as [| |m]; cbn; [congruence|done|]. destruct (m !! vmid) as [[]|]; cbn; congruence.
Qed.

(** What a create does: on success the pin file is new and holds the
    fingerprint; otherwise it is untouched, unless that file was there already.
    No file whose name does not start with a dot is touched besides. *)
Lemma create_spec vmid fp f d :
  let r := createStoredPinExclusive e vmid fp f d in
  (∀ name, HasPrefix name "." = false → name ≠ vmid → lookup_node r.1 name = lookup_node d name) ∧
  (r.2 = Ok () → lookup_node d vmid = None ∧
    lookup_node r.1 vmid = Some (File (ToLower fp +:+ lf_string))) ∧
  (r.2 ≠ Ok () → lookup_node r.1 vmid = lookup_node d vmid) ∧
  (r.2 = Err AlreadyPinned → is_Some (lookup_node d vmid)).
Proof.
  unfold createStoredPinExclusive. destruct (_ || _); [done|].
  destruct (validateVMID vmid) as [[]|err] eqn:Hv.
  2:{ split_and!; try done. intros [= ->]. unfold validateVMID in Hv. by repeat case_match. }
  apply validateVMID_Ok in Hv as (_ & _ & _ & _ & Hdot).
  destruct (mkdir_fails f); [done|]. cbn zeta.
  set (d' := match d with NoDir => Listing ∅ | _ => d end).
  assert (∀ name, lookup_node d' name = lookup_node d name) as Hmk.
  { intros name. unfold d'. destruct d; cbn; [by rewrite lookup_empty|done..]. }
  clearbody d'. destruct (nonce f) as [n|]; cbn [fst snd]; [|split_and!; intros; try done; by rewrite Hmk].
  destruct d' as [| |m]; cbn [fst snd lookup_node] in Hmk |- *; [split_and!; intros; try done; apply Hmk..|].
  destruct (open_fails f || _) eqn:Eo; cbn [fst snd lookup_node]; [split_and!; intros; try done; apply Hmk|]. clear Eo.
  pose proof (tmp_ne vmid n) as Htmp. set (m1 := <[tmp_name vmid n := _]> m).
  assert (∀ (m2 : gmap string node) name, HasPrefix name "." = false →
    (if remove_fails f then m2 else delete (tmp_name vmid n) m2) !! name = m2 !! name) as Hrm.
  { intros m2 name Hn. destruct (remove_fails f); [done|]. by rewrite lookup_delete_ne by auto. }
  assert (∀ name, HasPrefix name "." = false → m1 !! name = lookup_node d name) as Hm1.
  { intros name Hn. unfold m1. rewrite lookup_insert_ne by auto. apply Hmk. }
  destruct (write_fails f); cbn [fst snd lookup_node]; [split_and!; intros; try done; by rewrite Hrm, Hm1|].
  destruct (close_fails f); cbn [fst snd lookup_node]; [split_and!; intros; try done; by rewrite Hrm, Hm1|].
  destruct (link_fails f); cbn [fst snd lookup_node]; [split_and!; intros; try done; by rewrite Hrm, Hm1|].
  case_bool_decide as Hex; cbn [fst snd lookup_node].
  - split_and!; intros; try done; first [by rewrite Hrm, Hm1|by rewrite <-Hm1].
  - split_and!; intros; try done.
    + rewrite Hrm, lookup_insert_ne, Hm1 by done. done.
    + rewrite Hrm, lookup_insert_eq by done. split; [|done].
      rewrite <-Hm1 by done. destruct (m1 !! vmid) eqn:E; [|done]. by destruct Hex.
Qed.

(** ** The cross-VM scan *)

Lemma elem_of_keys {A} (m : gmap string A) name :
  name ∈ SortStrings (map_to_list m).*1 ↔ is_Some (m !! name).
Proof.
  rewrite elem_of_SortStrings, list_elem_of_fmap. split.
  - intros ([k x] & -> & Hk). apply elem_of_map_to_list in Hk. by eexists.
  - intros [x Hx]. exists (name, x). split; [done|]. by apply elem_of_map_to_list.
Qed.

(** The store, the cluster pins or the inventory pin [fp] to the VM [other],
    which is not the caller and, for a pin file, has a guest. *)
Definition store_holds (store : dirstate) (fp other : string) : Prop :=
  PinDir e ≠ "" ∧ isVMIDName other = true ∧ pin_of store other ≠ "" ∧
  EqualFold (pin_of store other) fp = true ∧ guestExists e env other = true.
Definition cluster_holds (fp other : string) : Prop :=
  ClusterPinDir e ≠ "" ∧ isVMIDName other = true ∧ guestExists e env other = true ∧
  ∃ b, lookup_node (cluster_pins env) other = Some (File b) ∧ parseClusterPin b = Some (ToLower fp).
Definition inventory_holds (fp other : string) : Prop :=
  ∃ pins pin, InventoryPins e = Some pins ∧ pins !! other = Some pin ∧ TrimSpace pin ≠ "" ∧
    EqualFold (TrimSpace pin) fp = true.
Definition holds (store : dirstate) (fp other : string) : Prop :=
  store_holds store fp other ∨ cluster_holds fp other ∨ inventory_holds fp other.

Lemma scanned_true m vmid name :
  scanned m vmid name = true ↔ name ≠ vmid ∧ is_dir m name = false ∧ isVMIDName name = true.
Proof.
  unfold scanned. rewrite negb_true_iff, !orb_false_iff, bool_decide_eq_false, negb_false_iff. tauto.
Qed.

Definition store_hit (m : gmap string node) (vmid fp name : string) : Prop :=
  scanned m vmid name = true ∧ pin_of (Listing m) name ≠ "" ∧
  EqualFold (pin_of (Listing m) name) fp = true ∧ guestExists e env name = true.

Lemma scan_store_spec m vmid fp names r :
  PinDir e ≠ "" → scan_store e env m vmid fp names = Ok r →
  match r with
  | Some name => name ∈ names ∧ store_hit m vmid fp name
  | None => ∀ name, name ∈ names → ¬ store_hit m vmid fp name
  end.
Proof.
  intros Hd. induction names as [|n names IH]; cbn [scan_store].
  { intros [= <-] name Hn. by apply not_elem_of_nil in Hn. }
  destruct (scanned m vmid n) eqn:Hs; cbn [negb].
  - destruct (readStoredPin (PinDir e) (Listing m) n) as [p|] eqn:Hr; [|done].
    apply readStoredPin_Ok in Hr; [|done]. cbn.
    destruct (negb (bool_decide (p = "")) && EqualFold p fp && guestExists e env n) eqn:Hhit.
    + intros [= <-]. bool_to_prop. subst p. split; [by left|done].
    + intros Hr'. specialize (IH Hr'). destruct r as [name|].
      * destruct IH. split; [by right|done].
      * intros name [->|Hn]%elem_of_cons; [|by apply IH]. intros (_ & Hp & He & Hg).
        rewrite Hr in *. by rewrite He, Hg, bool_decide_eq_false_2 in Hhit.
  - intros Hr'. specialize (IH Hr'). destruct r as [name|].
    + destruct IH. split; [by right|done].
    + intros name [->|Hn]%elem_of_cons; [|by apply IH]. intros (Hs' & _). congruence.
Qed.

Lemma matching_spec m vmid fp names ids :
  matching m vmid fp names = Ok ids →
  ∀ id, id ∈ ids ↔ id ∈ names ∧ scanned m vmid id = true ∧
    ∃ b, m !! id = Some (File b) ∧ parseClusterPin b = Some fp.
Proof.
  revert ids. induction names as [|n names IH]; intros ids; cbn [matching].
  { intros [= <-] id. split; [by intros ?%not_elem_of_nil|by intros [?%not_elem_of_nil _]]. }
  destruct (scanned m vmid n) eqn:Hs; cbn [negb].
  - unfold ReadFile. destruct (m !! n) as [[b| |]|] eqn:Hn; try done.
    + destruct (matching m vmid fp names) as [ids'|]; [|done]. cbn. intros [= <-] id.
      specialize (IH ids' eq_refl id). case_bool_decide as Hb; rewrite !elem_of_cons, IH.
      * split; [|tauto]. intros [->|?]; [|tauto]. split_and!; [by left|done|by exists b].
      * split; [tauto|]. intros [[->|?] (? & b' & Hb' & Hp)]; [|by eauto]. naive_solver.
    + intros Hm id. rewrite (IH ids Hm id), elem_of_cons. split; [tauto|].
      intros [[->|?] (? & b & Hb & Hp)]; [congruence|by eauto 10].
  - intros Hm id. rewrite (IH ids Hm id), elem_of_cons. split; [tauto|].
    intros [[->|?] (? & ?)]; [congruence|tauto].
Qed.

Lemma scan_inventory_spec pins vmid fp ids :
  "" ∉ ids →
  let r := scan_inventory pins vmid fp ids in
  let hit id := id ≠ vmid ∧ TrimSpace (default "" (pins !! id)) ≠ "" ∧
    EqualFold (TrimSpace (default "" (pins !! id))) fp = true in
  (r ≠ "" → r ∈ ids ∧ hit r) ∧ (r = "" → ∀ id, id ∈ ids → ¬ hit id).
Proof.
  induction ids as [|i ids IH]; cbn [scan_inventory]; intros Hne.
  { split; [done|]. by intros _ id ?%not_elem_of_nil. }
  apply not_elem_of_cons in Hne as [Hi Hne]. destruct (IH Hne) as [IH1 IH2].
  case_bool_decide as Hv; [subst|cbn zeta; destruct (_ && _) eqn:Hhit].
  - split.
    + intros Hr. destruct (IH1 Hr). split; [by right|done].
    + intros Hr id [->|Hid]%elem_of_cons; [tauto|by apply IH2].
  - bool_to_prop. split; [intros _; split; [by left|done]|congruence].
  - split.
    + intros Hr. destruct (IH1 Hr). split; [by right|done].
    + intros Hr id [->|Hid]%elem_of_cons; [|by apply IH2]. intros (_ & Hp & He).
      by rewrite He, bool_decide_eq_false_2 in Hhit.
Qed.

Lemma pin_of_Listing m name : pin_of (Listing m) name ≠ "" → ∃ b, m !! name = Some (File b).
Proof. unfold pin_of. cbn. destruct (m !! name) as [[b| |]|]; cbn; [eauto|done..]. Qed.

Definition store_part (store : dirstate) (vmid fp : string) : outcome enroll_error (option string) :=
  if bool_decide (PinDir e = "") then Ok None
  else
    match store with
    | NoDir => Ok None
    | BadDir => Err (PinStoreError "list")
    | Listing m => scan_store e env m vmid fp (list_names m)
    end.

Lemma store_part_spec store vmid fp found :
  store_part store vmid fp = Ok found →
  match found with
  | Some name => name ≠ "" ∧ name ≠ vmid ∧ store_holds store fp name
  | None => ∀ o, o ≠ vmid → ¬ store_holds store fp o
  end.
Proof.
  unfold store_part. intros Hfound. case_bool_decide as Hd; [simplify_eq; by intros o _ [? _]|].
  destruct store as [| |m]; simplify_eq; [intros o _ (_ & _ & Hp & _); done|].
  apply scan_store_spec in Hfound; [|done]. destruct found as [name|].
  - destruct Hfound as [_ ((? & ? & Hn)%scanned_true & ? & ? & ?)]. split_and!; [|done..].
    intros ->. done.
  - intros o Ho (_ & Hn & Hp & He & Hg). apply (Hfound o).
    + apply elem_of_keys. destruct (pin_of_Listing _ _ Hp) as [b ->]. by eexists.
    + split_and!; try done. apply scanned_true. split_and!; [done| |done].
      unfold is_dir. by destruct (pin_of_Listing _ _ Hp) as [b ->].
Qed.

(** A scan that finds nobody leaves no other holder in the store. *)
Lemma pinned_store store vmid fp :
  fp ≠ "" → pinnedToAnotherVM e env store vmid fp = Ok "" →
  ∀ o, o ≠ vmid → ¬ store_holds store fp o.
Proof.
  intros Hfp. unfold pinnedToAnotherVM. rewrite bool_decide_eq_false_2 by done.
  fold (store_part store vmid fp). intros (found & Hfound & Hres)%bind_Ok.
  apply store_part_spec in Hfound. destruct found; [|done]. simplify_eq/=. by destruct Hfound.
Qed.

(** The scan finds a holder when there is one, and only then. *)
Lemma pinned_spec store vmid fp other :
  fp ≠ "" → (∀ pins, InventoryPins e = Some pins → pins !! "" = None) →
  pinnedToAnotherVM e env store vmid fp = Ok other →
  (other ≠ "" → other ≠ vmid ∧ holds store fp other) ∧
  (other = "" → ∀ o, o ≠ vmid → ¬ holds store fp o).
Proof.
  intros Hfp Hinv. unfold pinnedToAnotherVM. rewrite bool_decide_eq_false_2 by done.
  fold (store_part store vmid fp).
  intros Hres. apply bind_Ok in Hres as (found & Hfound & Hres).
  apply store_part_spec in Hfound as Hstore.
  destruct found as [name|].
  { simplify_eq/=. destruct Hstore as (? & ? & ?). split; [intros _; split; [done|by left]|done]. }
  apply bind_Ok in Hres as (ids & Hids & Hres).
  assert (∀ o, o ≠ vmid → cluster_holds fp o ↔ o ∈ ids ∧ guestExists e env o = true) as Hcl.
  { intros o Ho. unfold clusterPinsMatching in Hids. unfold cluster_holds.
    case_bool_decide as Hd; simplify_eq.
    { split; [by intros [? _]|by intros [?%not_elem_of_nil _]]. }
    destruct (cluster_pins env) as [| |m]; simplify_eq.
    { cbn. split; [by intros (_ & _ & _ & b & ? & _)|by intros [?%not_elem_of_nil _]]. }
    rewrite (matching_spec _ _ _ _ _ Hids), scanned_true. cbn. split.
    - intros (_ & Hn & Hg & b & Hb & Hp). split; [|done].
      split_and!; [apply elem_of_keys; by eexists|done| |done|by exists b]. unfold is_dir. by rewrite Hb.
    - intros [(_ & (_ & _ & ?) & b & ? & ?) ?]. split_and!; [done..|]. by exists b. }
  assert (∀ o, o ∈ ids → o ≠ vmid ∧ o ≠ "") as Hids'.
  { intros o Ho. unfold clusterPinsMatching in Hids. case_bool_decide; simplify_eq; [by apply not_elem_of_nil in Ho|].
    destruct (cluster_pins env) as [| |m]; simplify_eq; [by apply not_elem_of_nil in Ho|].
    apply (matching_spec _ _ _ _ _ Hids) in Ho as (_ & (? & _ & Hn)%scanned_true & _).
    split; [done|]. by intros ->. }
  destruct (List.find (guestExists e env) ids) as [id|] eqn:Hfind.
  { apply List.find_some in Hfind as [Hin%list_elem_of_In Hg]. simplify_eq/=.
    destruct (Hids' other Hin). split; [|done]. intros _. split; [done|]. right; left. by apply Hcl. }
  assert (∀ o, o ≠ vmid → ¬ cluster_holds fp o) as Hnocl.
  { intros o Ho [Hin%list_elem_of_In Hg]%Hcl; [|done]. by rewrite (List.find_none _ _ Hfind o Hin) in Hg. }
  destruct (InventoryPins e) as [pins|] eqn:Hp; simplify_eq/=.
  - destruct (scan_inventory_spec pins vmid fp (SortStrings (map_to_list pins).*1)) as [Hhit Hno].
    { intros [x Hx]%elem_of_keys. by rewrite (Hinv pins eq_refl) in Hx. }
    split.
    + intros Hne. destruct (Hhit Hne) as ([pin Hpin]%elem_of_keys & Hv & Ht & He). split; [done|].
      right; right. rewrite Hpin in *. by exists pins, pin.
    + intros Heq o Ho [?|[?|(pins' & pin & ? & Hpin & ? & ?)]]; [by eapply Hstore|by eapply Hnocl|].
      simplify_eq. apply (Hno Heq o); [apply elem_of_keys; by eexists|]. by rewrite Hpin.
  - split; [done|]. intros _ o Ho [?|[?|(pins' & pin & ? & _)]]; [by eapply Hstore|by eapply Hnocl|congruence].
Qed.

(** ** Recording a pin *)

Definition own_pin (d : dirstate) (vmid fp : string) : Prop :=
  lookup_node d vmid = Some (File (ToLower fp +:+ lf_string)).

Lemma own_pin_of d vmid fp : hex_string fp = true → own_pin d vmid fp → pin_of d vmid = fp.
Proof.
  intros Hf Hp. unfold pin_of. rewrite Hp. cbn.
  by rewrite (ToLower_hex fp), TrimSpace_line, (ToLower_hex fp) by auto using hex_string_graph.
Qed.

Lemma remove_pin_lookup vmid b d name :
  name ≠ vmid → lookup_node (remove_pin vmid b d) name = lookup_node d name.
Proof. intros Hn. destruct d as [| |m], b; cbn; try done. by rewrite lookup_delete_ne. Qed.
Lemma remove_pin_pin vmid b d : pin_of d vmid = "" → pin_of (remove_pin vmid b d) vmid = "".
Proof. destruct d as [| |m], b; unfold pin_of; cbn; try done. by rewrite lookup_delete_eq. Qed.

Lemma create_pin vmid fp f d :
  hex_string fp = true → fp ≠ "" → pin_of d vmid = "" →
  let r := createStoredPinExclusive e vmid fp f d in
  (r.2 = Ok () ∧ pin_of r.1 vmid = fp) ∨ (r.2 ≠ Ok () ∧ pin_of r.1 vmid = "").
Proof.
  intros Hf Hne Hp. destruct (create_spec vmid fp f d) as (_ & Hok & Herr & _). cbn zeta.
  destruct (decide ((createStoredPinExclusive e vmid fp f d).2 = Ok ())) as [Hr|Hr].
  - left. split; [done|]. apply own_pin_of; [done|]. by apply Hok.
  - right. split; [done|]. unfold pin_of. by rewrite Herr.
Qed.

(** What [ensurePinBeforeIssue] does to the store, whatever its outcome: files
    of others are untouched, a recorded pin stays, and a new one is the
    caller's fingerprint. *)
Lemma ensure_spec vmid fp f1 f2 d :
  hex_string fp = true → fp ≠ "" →
  let r := ensurePinBeforeIssue e env vmid fp id f1 f2 d in
  (∀ name, HasPrefix name "." = false → name ≠ vmid → lookup_node r.1 name = lookup_node d name) ∧
  (pin_of r.1 vmid = pin_of d vmid ∨
    pin_of d vmid = "" ∧ pin_of r.1 vmid = fp ∧ pinnedToAnotherVM e env d vmid fp = Ok "") ∧
  (r.2 = Ok () → PinDir e ≠ "" → (∃ b, readClusterPin e env vmid = Ok ("", b)) →
    RequireClusterPin e = false ∧ EqualFold (pin_of r.1 vmid) fp = true ∧
    pinnedToAnotherVM e env d vmid fp = Ok "").
Proof.
  intros Hf Hne. unfold ensurePinBeforeIssue. 
  assert (EqualFold fp fp = true) as Href.
  { rewrite EqualFold_hex by done. by apply bool_decide_eq_true. }
  destruct (readClusterPin e env vmid) as [[cpin dirExists]|err]; [|cbn; naive_solver].
  case_bool_decide as Hc; cbn [negb]; [subst cpin|cbn; naive_solver].
  destruct (RequireClusterPin e); [cbn; naive_solver|].
  case_bool_decide as Hd; [cbn; naive_solver|].
  destruct (readStoredPin (PinDir e) d vmid) as [existing|err] eqn:Hr; [|cbn; naive_solver].
  apply readStoredPin_Ok in Hr; [|done]. subst existing.
  destruct (negb (bool_decide (pin_of d vmid = "")) && negb (EqualFold (pin_of d vmid) fp)) eqn:Hm;
    [cbn; naive_solver|].
  assert (pin_of d vmid ≠ "" → EqualFold (pin_of d vmid) fp = true) as Hsame.
  { intros Hp. rewrite bool_decide_eq_false_2 in Hm by done. by apply negb_false_iff in Hm. }
  clear Hm. destruct (pinnedToAnotherVM e env d vmid fp) as [other|err] eqn:Hs; [|cbn; naive_solver].
  case_bool_decide as Ho; cbn [negb]; [subst other|cbn; naive_solver].
  case_bool_decide as Hp; cbn [negb].
  2:{ cbn. split_and!; [done|by left|]. intros _ _ _. split_and!; [done|by apply Hsame|done]. }
  destruct (create_spec vmid fp f1 d) as (Hother1 & _).
  pose proof (create_pin vmid fp f1 d Hf Hne Hp) as Hc1. cbn [id] in *.
  destruct (createStoredPinExclusive e vmid fp f1 d) as [d1 r1]; cbn [fst snd] in *.
  assert (∀ d2 (r2 : outcome enroll_error ()), (r2 = Ok () ∧ pin_of d2 vmid = fp ∨ r2 ≠ Ok () ∧ pin_of d2 vmid = "") →
    (pin_of d2 vmid = pin_of d vmid ∨ pin_of d vmid = "" ∧ pin_of d2 vmid = fp ∧ Ok (E := enroll_error) "" = Ok "") ∧
    (r2 = Ok () → PinDir e ≠ "" → (∃ b, Ok (E := enroll_error) ("", dirExists) = Ok ("", b)) →
      false = false ∧ EqualFold (pin_of d2 vmid) fp = true ∧ Ok (E := enroll_error) "" = Ok "")) as Hfin.
  { intros d2 r2 [[-> ->]|[Hr2 ->]]; (split; [|done]); [right; by split_and!|left; by rewrite Hp]. }
  destruct r1 as [[]|[| | |]]; try (split; [done|by apply Hfin]).
  destruct Hc1 as [[? _]|[_ Hp1]]; [done|].
  destruct (readStoredPin (PinDir e) d1 vmid) as [existing|err] eqn:Hr1; cbn [fst snd].
  - apply readStoredPin_Ok in Hr1; [|done]. rewrite Hp1 in Hr1. subst existing.
    rewrite bool_decide_eq_true_2 by done.
    destruct (create_spec vmid fp f2 (remove_pin vmid (remove_fails f2) d1)) as (Hother2 & _).
    pose proof (create_pin vmid fp f2 (remove_pin vmid (remove_fails f2) d1) Hf Hne
      (remove_pin_pin vmid _ d1 Hp1)) as Hc2.
    destruct (createStoredPinExclusive e vmid fp f2 _) as [d2 r2]; cbn [fst snd] in *.
    split; [|by apply Hfin]. intros name Hn Hne'. by rewrite Hother2, remove_pin_lookup, Hother1.
  - split; [done|]. apply Hfin. by right.
Qed.
End store.

(** ** Cluster pin files *)

Lemma get_64 b p c : String.length p = 64 → b = p +:+ String c "" → String.get 64 b = Some c.
Proof.
  intros Hp ->. revert Hp. generalize 64 as n. intros n <-. induction p as [|d p IH]; [done|]. apply IH.
Qed.
Lemma substring_app p s : String.substring 0 (String.length p) (p +:+ s) = p.
Proof. induction p as [|c p IH]; cbn; [by destruct s|]. by rewrite IH. Qed.
Lemma substring_64 p s : String.length p = 64 → String.substring 0 64 (p +:+ s) = p.
Proof. intros <-. apply substring_app. Qed.
Lemma split_last b : ∀ n, String.length b = S n → ∃ p c, b = p +:+ String c "" ∧ String.length p = n.
Proof.
  induction b as [|c b IH]; intros n Hn; [done|]. injection Hn as Hn.
  destruct b as [|d b]; [exists "", c; by rewrite <-Hn|].
  destruct (IH (String.length b) eq_refl) as (p & c' & Hb & Hp).
  exists (String c p), c'. split; [by rewrite Hb|]. rewrite <-Hn. cbn. by rewrite Hp.
Qed.
Lemma length_app_string a b : String.length (a +:+ b) = String.length a + String.length b.
Proof. induction a as [|c a IH]; [done|]. cbn. by rewrite IH. Qed.

(** A cluster pin file is read as a pin exactly when it is 64 lowercase hex
    digits, alone or followed by one line end; nothing is trimmed or folded. *)
Theorem cluster_pin_exact b p :
  parseClusterPin b = Some p ↔
    String.length p = 64 ∧ hex_string p = true ∧ (b = p ∨ b = p +:+ lf_string).
Proof.
  unfold parseClusterPin. split.
  - destruct ((String.length b =? 65) && bool_decide (String.get 64 b = Some lf)) eqn:E.
    + apply andb_true_iff in E as [Hl%Nat.eqb_eq Hg%bool_decide_eq_true].
      destruct (split_last b 64 Hl) as (q & c & -> & Hq).
      rewrite (get_64 _ q c Hq eq_refl) in Hg. injection Hg as ->.
      rewrite (substring_64 q) by done. rewrite Hq. cbn [Nat.eqb negb].
      destruct (hex_string q) eqn:Hh; [|done]. intros [= <-]. split_and!; [done|done|by right].
    + destruct (String.length b =? 64) eqn:Hl; cbn [negb]; [|done]. apply Nat.eqb_eq in Hl.
      destruct (hex_string b) eqn:Hh; [|done]. intros [= <-]. split_and!; [done|done|by left].
  - intros (Hl & Hh & [->| ->]).
    + rewrite Hl. cbn [Nat.eqb andb negb]. by rewrite Hl, Hh.
    + rewrite length_app_string, Hl. rewrite (get_64 (p +:+ lf_string) p lf Hl eq_refl).
      rewrite bool_decide_eq_true_2 by done. cbn [Nat.eqb andb Nat.add String.length lf_string].
      rewrite (substring_64 p), Hl, Hh by done. done.
Qed.

(** ** The scan, as a property *)

Section pin_theorems.
Context `{GoUnicode} (e : pin_config).

(** The cross-VM scan refuses exactly when it should: it names a VM only if
    that VM is another one to which the pin store, the cluster pins or the
    inventory pins this EK, the first two counting only while the VM has a
    guest configuration; and when it names none there is no such VM. *)
Theorem pinned_elsewhere_exact env store vmid fp other :
  fp ≠ "" → (∀ pins, InventoryPins e = Some pins → pins !! "" = None) →
  pinnedToAnotherVM e env store vmid fp = Ok other →
  (other ≠ "" → other ≠ vmid ∧ holds e env store fp other) ∧
  (other = "" → ∀ o, o ≠ vmid → ¬ holds e env store fp o).
Proof. apply pinned_spec. Qed.

(** ** The pin store over time *)

(** One leg reaching the pin step, for whichever VM with a VM ID of digits, with
    whatever cluster pins and faults; the pinned VMs still have their guests. *)
Inductive pin_step (d : dirstate) : dirstate → Prop :=
| pin_leg env vmid fp f1 f2 :
    isVMIDName vmid = true → hex_string fp = true → fp ≠ "" →
    (∀ v, pin_of d v ≠ "" → guestExists e env v = true) →
    pin_step d (ensurePinBeforeIssue e env vmid fp id f1 f2 d).1.

(** The pins of VM IDs are hexadecimal, and no two VMs have the same. *)
Definition hex_pins (d : dirstate) : Prop :=
  ∀ v, isVMIDName v = true → hex_string (pin_of d v) = true.
Definition pins_exclusive (d : dirstate) : Prop :=
  ∀ v w, isVMIDName v = true → isVMIDName w = true → pin_of d v ≠ "" → pin_of d v = pin_of d w → v = w.

Lemma isVMIDName_nodot v : isVMIDName v = true → HasPrefix v "." = false.
Proof. by intros (_ & _ & _ & _ & ?)%isVMIDName_valid%validateVMID_Ok. Qed.

Lemma pin_step_spec d d' :
  PinDir e ≠ "" → hex_pins d → pins_exclusive d → pin_step d d' →
  hex_pins d' ∧ pins_exclusive d' ∧
  ∀ v, isVMIDName v = true → pin_of d v ≠ "" → pin_of d' v = pin_of d v.
Proof.
  intros Hd Hhex Hex [env vmid fp f1 f2 Hv Hf Hne Hg].
  destruct (ensure_spec e env vmid fp f1 f2 d Hf Hne) as (Hother & Hown & _).
  set (d1 := (ensurePinBeforeIssue e env vmid fp id f1 f2 d).1) in *.
  assert (∀ w, isVMIDName w = true → w ≠ vmid → pin_of d1 w = pin_of d w) as Hw.
  { intros w Hwn Hwv. unfold pin_of. rewrite Hother; [done|by apply isVMIDName_nodot|done]. }
  assert (∀ o, pin_of d vmid = "" → pin_of d1 vmid = fp → pinnedToAnotherVM e env d vmid fp = Ok "" →
    isVMIDName o = true → o ≠ vmid → pin_of d o ≠ fp) as Hfresh.
  { intros o _ _ Hp Ho Hov Heq. apply (pinned_store e env d vmid fp Hne Hp o Hov).
    split_and!; [done|done|congruence| |].
    - rewrite Heq, EqualFold_hex by done. by apply bool_decide_eq_true.
    - apply Hg. congruence. }
  split_and!.
  - intros v Hvn. destruct (decide (v = vmid)) as [->|Hvv]; [|by rewrite Hw; auto].
    destruct Hown as [->|(_ & -> & _)]; auto.
  - intros v w Hvn Hwn Hp Heq.
    destruct (decide (v = vmid)) as [->|Hvv], (decide (w = vmid)) as [->|Hwv]; [done|..].
    + rewrite (Hw w) in Heq by done. destruct Hown as [Ho|(Ho & Hfp & Hpin)].
      * rewrite Ho in Hp, Heq. by apply Hex.
      * destruct (Hfresh w Ho Hfp Hpin Hwn Hwv). congruence.
    + rewrite (Hw v) in Heq, Hp by done. destruct Hown as [Ho|(Ho & Hfp & Hpin)].
      * rewrite Ho in Heq. by apply Hex.
      * destruct (Hfresh v Ho Hfp Hpin Hvn Hvv). congruence.
    + rewrite !Hw in * by done. by apply Hex.
  - intros v Hvn Hp. destruct (decide (v = vmid)) as [->|Hvv]; [|by apply Hw].
    by destruct Hown as [?|[? _]].
Qed.


End pin_theorems.

(** ** Examples *)

Definition demo_root : guest_root := mkRoot (Some [("pve1", true)]) (λ _ _ _, StatNotExist).
Definition demo_env : surroundings := mkSurroundings NoDir demo_root demo_root.
Definition demo_config : pin_config := mkPinConfig "/var/lib/vtpm-mds/ek-pins" "" false "" None.
Definition demo_store : dirstate :=
  Listing (<["101" := File ("ab12" +:+ lf_string)]> (<["101.old" := File "00ff"]> ∅)).

Definition demo_leg (vmid fp : string) (d : dirstate) : dirstate * outcome enroll_error () :=
  ensurePinBeforeIssue (H := caseless) demo_config demo_env vmid fp id (no_faults "r") (no_faults "r") d.

(** VM 102 presenting the EK of VM 101 is refused, its own is recorded. *)
Example demo_pins :
  (demo_leg "102" "ab12" demo_store).2 = Err (errPinnedToAnotherVM "102" "101") ∧
  (demo_leg "102" "00ff" demo_store).2 = Ok () ∧
  pin_of (H := caseless) (demo_leg "102" "00ff" demo_store).1 "102" = "00ff".
Proof. by vm_compute. Qed.

Lemma demo_store_pins v :
  isVMIDName v = true → pin_of (H := caseless) demo_store v = if decide (v = "101") then "ab12" else "".
Proof.
  intros Hv. unfold pin_of, demo_store, lookup_node. case_decide as Hd; [by subst|].
  rewrite !lookup_insert_ne; [done|by intros <-|done].
Qed.

Lemma pinned_elsewhere_exact_witness :
  pinnedToAnotherVM (H := caseless) demo_config demo_env demo_store "102" "ab12" = Ok "101" ∧
  ("101" ≠ "" → "101" ≠ "102" ∧ holds (H := caseless) demo_config demo_env demo_store "ab12" "101").
Proof.
  assert (pinnedToAnotherVM (H := caseless) demo_config demo_env demo_store "102" "ab12" = Ok "101") as Hr
    by by vm_compute.
  split; [exact Hr|].
  refine (proj1 (pinned_elsewhere_exact (H := caseless) demo_config demo_env demo_store "102" "ab12" "101"
    _ _ Hr)); [done|]. by intros pins.
Defined.



(** A VM ID that is not of digits, which only the YAML inventory can have, is
    outside the scan: two such VMs are pinned to one EK. *)
Example yaml_names_escape_the_scan :
  let d1 := (demo_leg "web1" "ab12" (Listing ∅)).1 in
  (demo_leg "web2" "ab12" d1).2 = Ok () ∧
  pin_of (H := caseless) (demo_leg "web2" "ab12" d1).1 "web1" = "ab12" ∧
  pin_of (H := caseless) (demo_leg "web2" "ab12" d1).1 "web2" = "ab12".
Proof. by vm_compute. Qed.
