(* ===== verification/CA.v ===== *)
(** * The certificate authority (internal/devid/ca.go, san.go)

    Key parsing, ASN.1 and the signing of a certificate are parameters
    ([CACrypto]); [CALaws] is what crypto/x509 documents of a certificate it
    creates. A [time.Time] that is zero is [None]. *)

From stdpp Require Import pretty.
From S2P Require Import Prelude.
From S2P Require Import Go.
From S2P Require Import Crypto.
From Stdlib Require Import Ascii.

Definition OIDVerifiedTPMFixed : oid := [2; 23; 133; 11; 1; 2]%Z.
Definition DefaultDevIDLifetime : Z := (2160 * Hour)%Z.

Definition oidOnHardwareModuleName : oid := [1; 3; 6; 1; 5; 5; 7; 8; 4]%Z.
Definition oidOnPermanentIdentifier : oid := [1; 3; 6; 1; 5; 5; 7; 8; 3]%Z.
Definition oidTCGHardwareTypeTPM2 : oid := [2; 23; 133; 1; 2]%Z.
Definition oidTCGOnEKPermIDSha256 : oid := [2; 23; 133; 12; 1]%Z.

(** The SAN's names, before encoding. *)
Inductive other_value :=
| hardwareModuleName (Type_ : oid) (SerialNumber : string)
| permanentIdentifier (IdentifierValue : string) (Assigner : oid).
Record otherName := mkOther { TypeID : oid; Value : other_value }.

Record Extension := mkExt { ExtId : oid; Critical : bool; ExtValue : string }.

(** What the code sets of the [x509.Certificate] template. *)
Record template (K : Type) := mkTemplate {
  TPublicKey : option K;
  TCommonName : string;
  TNotBefore : Z;
  TNotAfter : Z;
  TDigitalSignature : bool;
  TBasicConstraintsValid : bool;
  TIsCA : bool;
  TUnknownExtKeyUsage : list oid;
  TExtraExtensions : list Extension;
  TSerialNumber : option Z;
}.
Arguments mkTemplate {K}. Arguments TPublicKey {K}. Arguments TCommonName {K}. Arguments TNotBefore {K}.
Arguments TNotAfter {K}. Arguments TIsCA {K}. Arguments TSerialNumber {K}. Arguments TExtraExtensions {K}.
Arguments TDigitalSignature {K}. Arguments TBasicConstraintsValid {K}. Arguments TUnknownExtKeyUsage {K}.

Class CACrypto `{Crypto} := {
  PrivateKey : Type;
  ParsePKCS8 : string → outcome string PrivateKey;
  ParsePKCS1 : string → outcome string PrivateKey;
  (** [crypto.Signer]'s public key; [None] when the key is no signer. *)
  signer_public : PrivateKey → option Key;
  MarshalPKIX : Key → outcome string string;
  MarshalNames : list otherName → outcome string string;
  (** [asn1.Marshal] of the subject's RDN sequence. *)
  MarshalSubject : string → outcome string string;
  sha1 : string → string;
  FormatRFC3339 : Z → string;
  (** [x509.CreateCertificate]: template, parent, key and signing key. *)
  CreateCertificate : template Key → certificate Key → Key → PrivateKey → outcome string string;
}.

Section ca.
Context `{CACrypto}.
Abbreviation Certificate := (certificate Key).

Record CA := mkCA { ca_cert : Certificate; ca_key : PrivateKey; Lifetime : Z }.

(** ** Loading *)

(** The first CERTIFICATE block. [pem.Decode] always consumes input, so the
    length of the text bounds the loop. *)
Fixpoint first_cert (fuel : nat) (rest : string) : outcome string (option Certificate) :=
  match fuel with
  | O => Ok None
  | S fuel =>
      match pem_Decode rest with
      | None => Ok None
      | Some (typ, bytes, rest) =>
          if bool_decide (typ = "CERTIFICATE") then c ← ParseCertificate bytes; Ok (Some c)
          else first_cert fuel rest
      end
  end.

(** The last key block. *)
Fixpoint last_key (fuel : nat) (rest : string) (key : option PrivateKey)
    : outcome string (option PrivateKey) :=
  match fuel with
  | O => Ok key
  | S fuel =>
      match pem_Decode rest with
      | None => Ok key
      | Some (typ, bytes, rest) =>
          if bool_decide (typ = "PRIVATE KEY") then
            k ← ParsePKCS8 bytes; last_key fuel rest (Some k)
          else if bool_decide (typ = "RSA PRIVATE KEY") then
            k ← ParsePKCS1 bytes; last_key fuel rest (Some k)
          else last_key fuel rest key
      end
  end.

Definition publicKeysEqual (pub : Key) (priv : PrivateKey) : outcome string () :=
  match signer_public priv with
  | None => Err "DevID CA key is not a signer"
  | Some spub =>
      want ← prefix_error "marshal cert public key: " (MarshalPKIX pub);
      got ← prefix_error "marshal CA private key's public key: " (MarshalPKIX spub);
      if bool_decide (want = got) then Ok () else Err "DevID CA key does not match certificate"
  end.

Definition ParseCA (certPEM keyPEM : string) : outcome string CA :=
  cert ← first_cert (S (String.length certPEM)) certPEM;
  match cert with
  | None => Err "no certificate in CA PEM"
  | Some cert =>
      if negb (CertIsCA cert) then Err "DevID CA certificate is not a CA"
      else
        key ← last_key (S (String.length keyPEM)) keyPEM None;
        match key with
        | None => Err "no private key in CA PEM"
        | Some key =>
            _ ← publicKeysEqual (PublicKey cert) key;
            Ok (mkCA cert key 0)
        end
  end.

(** [LoadCA], of what reading the two files gives. *)
Definition LoadCA (certFile keyFile : outcome string string) : outcome string CA :=
  certPEM ← prefix_error "read DevID CA cert: " certFile;
  keyPEM ← prefix_error "read DevID CA key: " keyFile;
  ParseCA certPEM keyPEM.

(** ** The subject alternative name *)

(** [%X] of a hash. *)
Definition upper_byte (c : ascii) : ascii := if is_lower c then chr (byte c - 32) else c.
Definition hex_upper (s : string) : string := smap upper_byte (hex_encode s).

Definition buildSAN (subjectIsEmpty : bool) (hwSerialNum permanentID : string) : outcome string Extension :=
  data ← MarshalNames
    [mkOther oidOnHardwareModuleName (hardwareModuleName oidTCGHardwareTypeTPM2 hwSerialNum);
     mkOther oidOnPermanentIdentifier (permanentIdentifier permanentID oidTCGOnEKPermIDSha256)];
  Ok (mkExt oidSubjectAltName subjectIsEmpty data).

Definition DevIDSANFromEKPublicKey (subjectIsEmpty : bool) (pub : Key) : outcome string Extension :=
  keyBytes ← MarshalPKIX pub;
  buildSAN subjectIsEmpty (sha256 keyBytes) (hex_upper (sha256 ("EkPubkey" +:+ keyBytes))).

Definition DevIDSANFromEKCertificate (subjectIsEmpty : bool) (cert : Certificate)
    : outcome string Extension :=
  buildSAN subjectIsEmpty (sha256 (Raw cert)) (hex_upper (sha256 (Raw cert))).

Definition buildDevIDSAN (subjectIsEmpty : bool) (ek : option Public) (ekCert : option Certificate)
    : outcome string Extension :=
  let from_key :=
    match ek with
    | None => Err ""
    | Some ek => ekPub ← PublicKeyOf ek; DevIDSANFromEKPublicKey subjectIsEmpty ekPub
    end in
  match from_key with
  | Ok ext => Ok ext
  | Err _ =>
      match ekCert with
      | Some cert => DevIDSANFromEKCertificate subjectIsEmpty cert
      | None => Err "unable to build DevID SAN"
      end
  end.

(** ** Signing *)

(** [new(big.Int).SetBytes]. *)
Fixpoint bytes_to_Z (s : string) (acc : Z) : Z :=
  match s with "" => acc | String c s => bytes_to_Z s (acc * 256 + byte c)%Z end.

Definition uniqueSerial (ca : CA) (t : template Key) (pub : Key) : outcome string Z :=
  pubBytes ← MarshalPKIX pub;
  subjData ← MarshalSubject (TCommonName t);
  Ok (bytes_to_Z (sha1 (Raw (ca_cert ca) +:+ subjData +:+ pubBytes
                        +:+ FormatRFC3339 (TNotBefore t) +:+ FormatRFC3339 (TNotAfter t))) 0).

Definition set_serial (t : template Key) (sn : Z) : template Key :=
  mkTemplate (TPublicKey t) (TCommonName t) (TNotBefore t) (TNotAfter t) (TDigitalSignature t)
    (TBasicConstraintsValid t) (TIsCA t) (TUnknownExtKeyUsage t) (TExtraExtensions t) (Some sn).

(** [IssueDevID] leaves the template's serial number unset. *)
Definition Sign (ca : CA) (t : template Key) : outcome string string :=
  match TPublicKey t with
  | None => Err "missing public key"
  | Some pub =>
      sn ← uniqueSerial ca t pub;
      CreateCertificate (set_serial t sn) (ca_cert ca) pub (ca_key ca)
  end.

(** [t.Truncate(time.Second)]. *)
Definition truncate_second (t : Z) : Z := (t - t mod Second)%Z.

Definition devid_template (pub : Key) (subjectCN : string) (notBefore lifetime : Z) (san : Extension)
    : template Key :=
  mkTemplate (Some pub) subjectCN notBefore (Add notBefore lifetime) true true false
    [OIDVerifiedTPMFixed] [san] None.

(** The signing request's DevID key, EK and EK certificate; [now] is for a zero
    [notBefore]. An empty name makes an empty RDN sequence. *)
Definition IssueDevID (ca : CA) (devid ek : option Public) (ekCert : option Certificate)
    (subjectCN : string) (notBefore : option Z) (now : Z) : outcome string Certificate :=
  match devid with
  | None => Err "missing DevID key"
  | Some devid =>
      pub ← PublicKeyOf devid;
      san ← buildDevIDSAN (bool_decide (subjectCN = "")) ek ekCert;
      let notBefore := truncate_second (default now notBefore) in
      let lifetime := if (Lifetime ca <=? 0)%Z then DefaultDevIDLifetime else Lifetime ca in
      der ← Sign ca (devid_template pub subjectCN notBefore lifetime san);
      ParseCertificate der
  end.

(** ** Laws and theorems *)

(** A created certificate parses back with the template's contents. *)
Class CALaws := {
  CreateCertificate_law t parent pub key der cert :
    CreateCertificate t parent pub key = Ok der → ParseCertificate der = Ok cert →
    CommonName cert = TCommonName t ∧ PublicKey cert = pub ∧ CertIsCA cert = TIsCA t ∧
    NotBefore cert = TNotBefore t ∧ NotAfter cert = TNotAfter t;
  sha1_length s : String.length (sha1 s) = 20;
  pem_Decode_shorter s typ bytes rest :
    pem_Decode s = Some (typ, bytes, rest) → String.length rest < String.length s;
}.

(** The fuel of the two PEM loops is enough: more changes nothing. *)
Lemma pem_fuel_enough `{!CALaws} s key n :
  String.length s < n →
  first_cert n s = first_cert (S (String.length s)) s ∧
  last_key n s key = last_key (S (String.length s)) s key.
Proof.
  assert (∀ n m s key, String.length s < n → String.length s < m →
    first_cert n s = first_cert m s ∧ last_key n s key = last_key m s key) as Hgen; [|intros; apply Hgen; lia].
  clear s key n. induction n as [|n IH]; intros m s key Hn Hm; [lia|]. destruct m as [|m]; [lia|].
  cbn [first_cert last_key]. destruct (pem_Decode s) as [[[typ bytes] rest]|] eqn:Hd; [|done].
  apply pem_Decode_shorter in Hd. split.
  - case_bool_decide; [done|]. apply (IH m rest None); lia.
  - repeat case_bool_decide.
    + destruct (ParsePKCS8 bytes) as [k|]; [|done]. apply (IH m rest (Some k)); lia.
    + destruct (ParsePKCS1 bytes) as [k|]; [|done]. apply (IH m rest (Some k)); lia.
    + apply (IH m rest key); lia.
Qed.

(** The blocks of a text, in order. *)
Inductive pem_blocks : string → list (string * string) → Prop :=
| pem_end s : pem_Decode s = None → pem_blocks s []
| pem_next s typ bytes rest l :
    pem_Decode s = Some (typ, bytes, rest) → pem_blocks rest l → pem_blocks s ((typ, bytes) :: l).

Lemma pem_blocks_fun s l l' : pem_blocks s l → pem_blocks s l' → l = l'.
Proof.
  intros Hl. revert l'. induction Hl as [s Hn|s typ bytes rest l Hs _ IH]; inversion 1; simplify_eq; [done|].
  f_equal. by apply IH.
Qed.
Lemma pem_blocks_total `{!CALaws} s : ∃ l, pem_blocks s l.
Proof.
  remember (String.length s) as n eqn:Hn. revert s Hn. induction (lt_wf n) as [n _ IH]. intros s ->.
  destruct (pem_Decode s) as [[[typ bytes] rest]|] eqn:Hd; [|exists []; by constructor].
  destruct (IH (String.length rest) (pem_Decode_shorter _ _ _ _ Hd) rest eq_refl) as [l Hl].
  exists ((typ, bytes) :: l). by econstructor.
Qed.

(** The key a list of blocks leaves: the last one, when every key parses. *)
Definition parse_key (block : string * string) : option (outcome string PrivateKey) :=
  if bool_decide (block.1 = "PRIVATE KEY") then Some (ParsePKCS8 block.2)
  else if bool_decide (block.1 = "RSA PRIVATE KEY") then Some (ParsePKCS1 block.2) else None.
Fixpoint all_keys (l : list (outcome string PrivateKey)) : outcome string (list PrivateKey) :=
  match l with [] => Ok [] | k :: l => k ← k; ks ← all_keys l; Ok (k :: ks) end.

Lemma first_cert_blocks s l n :
  pem_blocks s l → length l < n →
  first_cert n s = match List.find (λ b, bool_decide (b.1 = "CERTIFICATE")) l with
                   | None => Ok None | Some b => Some <$> ParseCertificate b.2 end.
Proof.
  intros Hl. revert n. induction Hl as [s Hn|s typ bytes rest l Hs _ IH]; intros [|n] Hlen; cbn in Hlen; try lia; cbn [first_cert].
  - by rewrite Hn.
  - rewrite Hs. cbn [List.find fst]. case_bool_decide; cbn [snd]; [by destruct (ParseCertificate bytes)|]. apply IH. lia.
Qed.

Lemma last_key_blocks s l n key :
  pem_blocks s l → length l < n →
  last_key n s key = (ks ← all_keys (omap parse_key l); Ok (match last ks with Some k => Some k | None => key end)).
Proof.
  intros Hl. revert n key. induction Hl as [s Hn|s typ bytes rest l Hs _ IH]; intros [|n] key Hlen; cbn in Hlen; try lia; cbn [last_key].
  - by rewrite Hn.
  - rewrite Hs. change (omap parse_key ((typ, bytes) :: l)) with
      (match parse_key (typ, bytes) with Some k => k :: omap parse_key l | None => omap parse_key l end).
    unfold parse_key at 1. cbn [fst snd].
    assert (∀ parsed : outcome string PrivateKey, (k ← parsed; last_key n rest (Some k)) =
      (ks ← all_keys (parsed :: omap parse_key l); Ok (match last ks with Some k => Some k | None => key end))) as Hk.
    { intros [k|e]; [|done]. cbn [all_keys mbind outcome_bind]. rewrite IH by lia.
      destruct (all_keys (omap parse_key l)) as [ks|]; [|done]. cbn [mbind outcome_bind]. rewrite last_cons.
      by destruct (last ks). }
    repeat case_bool_decide; [apply Hk|apply Hk|]. apply IH. lia.
Qed.

Lemma pem_blocks_length `{!CALaws} s l : pem_blocks s l → length l ≤ String.length s.
Proof. induction 1 as [|s typ bytes rest l Hs _ IH]; cbn; [lia|]. apply pem_Decode_shorter in Hs. lia. Qed.

(** C40: the loops that read the CA's files end, and read each file's blocks once:
    the certificate is the file's first CERTIFICATE block, the key the last key
    block of its file, where every key block must parse; the certificate must be a
    CA's and hold the key's public key. How far the loops may go past the text makes
    no difference. *)
Theorem ca_files_read_once `{!CALaws} certPEM keyPEM :
  ∃ cs ks, pem_blocks certPEM cs ∧ pem_blocks keyPEM ks ∧
    (∀ n, String.length certPEM < n → first_cert n certPEM = first_cert (S (String.length certPEM)) certPEM) ∧
    (∀ n key, String.length keyPEM < n → last_key n keyPEM key = last_key (S (String.length keyPEM)) keyPEM key) ∧
    ∀ ca, ParseCA certPEM keyPEM = Ok ca ↔
      ∃ b cert keys key, List.find (λ b, bool_decide (b.1 = "CERTIFICATE")) cs = Some b ∧ ParseCertificate b.2 = Ok cert ∧
        CertIsCA cert = true ∧ all_keys (omap parse_key ks) = Ok keys ∧ last keys = Some key ∧
        publicKeysEqual (PublicKey cert) key = Ok () ∧ ca = mkCA cert key 0.
Proof.
  destruct (pem_blocks_total certPEM) as [cs Hcs], (pem_blocks_total keyPEM) as [ks Hks].
  pose proof (pem_blocks_length _ _ Hcs) as Hlc. pose proof (pem_blocks_length _ _ Hks) as Hlk.
  exists cs, ks. split_and!; [done|done| | |].
  - intros n Hn. rewrite !(first_cert_blocks _ _ _ Hcs) by lia. done.
  - intros n key Hn. rewrite !(last_key_blocks _ _ _ _ Hks) by lia. done.
  - intros ca. unfold ParseCA. rewrite (first_cert_blocks _ _ _ Hcs), (last_key_blocks _ _ _ _ Hks) by lia.
    split.
    + destruct (List.find _ cs) as [b|]; [|done]. destruct (ParseCertificate b.2) as [cert|] eqn:Ec; [|done].
      cbn [fmap outcome_fmap mbind outcome_bind]. destruct (CertIsCA cert) eqn:Hca; [|done]. cbn [negb].
      destruct (all_keys _) as [keys|]; [|done]. cbn [mbind outcome_bind]. destruct (last keys) as [key|] eqn:El; [|done].
      destruct (publicKeysEqual _ key) as [[]|] eqn:Ep; [|done]. cbn [mbind outcome_bind]. intros [= <-].
      by exists b, cert, keys, key.
    + intros (b & cert & keys & key & -> & Hc & Hca & -> & Hl & Hp & ->). rewrite Hc. cbn [fmap outcome_fmap mbind outcome_bind].
      rewrite Hca. cbn [negb mbind outcome_bind]. rewrite Hl. by rewrite Hp.
Qed.

Lemma truncate_second_spec t : (truncate_second t ≤ t < truncate_second t + Second)%Z.
Proof.
  unfold truncate_second, Second. pose proof (Z.mod_pos_bound t 1000000000). lia.
Qed.

Lemma bytes_to_Z_range s acc :
  (0 ≤ acc)%Z → (0 ≤ bytes_to_Z s acc < (acc + 1) * 256 ^ Z.of_nat (String.length s))%Z.
Proof.
  revert acc. induction s as [|c s IH]; intros acc Hacc; cbn [bytes_to_Z String.length]; [lia|].
  pose proof (byte_range c). specialize (IH (acc * 256 + byte c)%Z ltac:(lia)).
  rewrite Nat2Z.inj_succ, Z.pow_succ_r by lia.
  pose proof (Z.pow_pos_nonneg 256 (Z.of_nat (String.length s)) ltac:(lia) ltac:(lia)). nia.
Qed.

Lemma IssueDevID_Ok ca devid ek ekCert cn notBefore now cert :
  IssueDevID ca devid ek ekCert cn notBefore now = Ok cert →
  ∃ d pub san der t, devid = Some d ∧ PublicKeyOf d = Ok pub ∧
    t = devid_template pub cn (truncate_second (default now notBefore))
          (if (Lifetime ca <=? 0)%Z then DefaultDevIDLifetime else Lifetime ca) san ∧
    Sign ca t = Ok der ∧ ParseCertificate der = Ok cert.
Proof.
  unfold IssueDevID. destruct devid as [d|]; [|done]. intros (pub & Hp & Hr)%bind_Ok.
  apply bind_Ok in Hr as (san & _ & Hr). apply bind_Ok in Hr as (der & Hs & Hc). by eexists d, pub, san, der, _.
Qed.

(** What the issued certificate holds is what the template says. *)
Lemma IssueDevID_facts `{!CALaws} ca devid ek ekCert cn notBefore now cert :
  IssueDevID ca devid ek ekCert cn notBefore now = Ok cert →
  CommonName cert = cn ∧ (PublicKeyOf <$> devid) = Some (Ok (PublicKey cert)) ∧ CertIsCA cert = false ∧
  NotBefore cert = truncate_second (default now notBefore) ∧
  NotAfter cert = Add (NotBefore cert) (if (Lifetime ca <=? 0)%Z then DefaultDevIDLifetime else Lifetime ca) ∧
  ∃ sn t, uniqueSerial ca t (PublicKey cert) = Ok sn ∧
    Sign ca t = CreateCertificate (set_serial t sn) (ca_cert ca) (PublicKey cert) (ca_key ca).
Proof.
  intros (d & pub & san & der & t & -> & Hp & Ht & Hs & Hc)%IssueDevID_Ok.
  pose proof Hs as Hs'. unfold Sign in Hs'. rewrite Ht in Hs'. cbn [TPublicKey devid_template] in Hs'.
  apply bind_Ok in Hs' as (sn & Hsn & Hcreate).
  destruct (CreateCertificate_law _ _ _ _ _ _ Hcreate Hc) as (-> & Hpk & -> & -> & ->).
  cbn [TCommonName TIsCA TNotBefore TNotAfter set_serial devid_template]. rewrite Hpk.
  split_and!; [done|cbn; by rewrite Hp|done|done|done|]. exists sn, t. rewrite Ht. split; [done|].
  unfold Sign. cbn [TPublicKey devid_template]. by rewrite Hsn.
Qed.

End ca.

(** ** The toy instance *)

Definition toy_time (t : Z) : string := pretty (Z.to_N t).
(** The text of the certificate, when it says what the template says. *)
Definition toy_create (t : template string) (parent : certificate string) (pub key : string)
    : outcome string string :=
  let der := "CERT|" +:+ TCommonName t +:+ "|" +:+ pub +:+ "|" +:+ toy_time (TNotBefore t)
             +:+ "|" +:+ toy_time (TNotAfter t) in
  match toy_parse der with
  | Ok c =>
      if bool_decide (CommonName c = TCommonName t ∧ PublicKey c = pub ∧ CertIsCA c = TIsCA t ∧
                      NotBefore c = TNotBefore t ∧ NotAfter c = TNotAfter t)
      then Ok der else Err "cannot encode"
  | Err e => Err e
  end.

#[export] Instance toy_ca_crypto : CACrypto (H := toy_crypto) := {|
  PrivateKey := string;
  ParsePKCS8 k := Ok k;
  ParsePKCS1 k := Ok k;
  signer_public k := Some k;
  MarshalPKIX k := Ok k;
  MarshalNames _ := Ok "names";
  MarshalSubject s := Ok s;
  sha1 s := take_pad 20 s;
  FormatRFC3339 := toy_time;
  CreateCertificate := toy_create;
|}.

Lemma take_pad_length n s : String.length (take_pad n s) = n.
Proof. revert s. induction n as [|n IH]; intros [|c s]; cbn; [done..|by rewrite IH|by rewrite IH]. Qed.

Lemma Cut_shorter s c b a : Cut s c = (b, a, true) → String.length a < String.length s.
Proof.
  intros [-> _]%Cut_spec. induction b as [|d b IH]; cbn; lia.
Qed.

#[export] Instance toy_ca_laws : CALaws (H0 := toy_ca_crypto).
Proof.
  split.
  - intros t parent pub key der cert. cbn [CreateCertificate toy_ca_crypto ParseCertificate toy_crypto].
    unfold toy_create. cbv zeta. destruct (toy_parse _) as [c|e] eqn:E; [|done].
    case_bool_decide as Hc; [|done]. intros [= <-] Hp.
    pose proof (eq_trans (eq_sym E) Hp) as Heq. injection Heq as <-. exact Hc.
  - intros s. apply take_pad_length.
  - intros s typ bytes rest. cbn. unfold toy_pem.
    destruct (Cut s ":") as [[t r] ok] eqn:E1. destruct ok; [|done].
    destruct (Cut r lf) as [[b r'] ok] eqn:E2. destruct ok; [|done]. intros [= <- <- <-].
    apply Cut_shorter in E1, E2. lia.
Qed.

Definition toy_devid : Public :=
  mkPublic 1 11 262258 (Some (mkRSA (Some (mkScheme 20 11)) None)) None "devidkey".
Definition toy_ca : CA (H := toy_crypto) (H0 := toy_ca_crypto) :=
  mkCA (H := toy_crypto) (H0 := toy_ca_crypto) (mkCert "CERT|ca|cakey" "cakey" [] true "ca" 0 0) "cakey" 0.


(** The second key block counts, the first certificate does. *)
Definition toy_pems : string * string :=
  ("CERTIFICATE:CERT|ca|k2" +:+ lf_string +:+ "CERTIFICATE:CERT|other|k" +:+ lf_string,
   "PRIVATE KEY:k1" +:+ lf_string +:+ "RSA PRIVATE KEY:k2" +:+ lf_string).
Lemma toy_pems_parse : is_ok (ParseCA (H0 := toy_ca_crypto) toy_pems.1 toy_pems.2) = true.
Proof. vm_compute. exact eq_refl. Qed.
Lemma ca_files_read_once_witness :
  ∃ cs b, pem_blocks toy_pems.1 cs ∧ List.find (λ b, bool_decide (b.1 = "CERTIFICATE")) cs = Some b.
Proof.
  destruct (ca_files_read_once (H0 := toy_ca_crypto) toy_pems.1 toy_pems.2) as (cs & ks & Hcs & _ & _ & _ & Hiff).
  pose proof toy_pems_parse as E. revert E Hiff. generalize (ParseCA (H0 := toy_ca_crypto) toy_pems.1 toy_pems.2).
  intros [ca|] E Hiff; [|discriminate E].
  destruct (proj1 (Hiff ca) eq_refl) as (b & _ & _ & _ & Hb & _). exists cs, b. exact (conj Hcs Hb).
Defined.
