(* ===== verification/Csr.v ===== *)
(** * The signing request and its wire form (internal/devid/csr.go)

    JSON, ASN.1 and the TPM's public-area encoding are parameters ([Wire]); the
    field-by-field code around them, base64 included, is modelled. The TPM side
    of csr.go, which builds a request, is not part of this file. *)

From S2P Require Import Prelude.
From S2P Require Import Go.
From S2P Require Import Crypto.
From Stdlib Require Import Ascii.

Record signingRequestWire := mkWire {
  PlatformIdentityB64 : string;
  EndorsementCertificateB64 : string;
  EndorsementKeyB64 : string;
  AttestationKeyB64 : string;
  DevIDKeyB64 : string;
  CertifyDataB64 : string;
  CertifySignatureB64 : string;
}.

Class Wire `{Crypto} := {
  (** A relative distinguished name; [pkix.RDNSequence] is a list of them. *)
  RDN : Type;
  MarshalRDNs : list RDN → outcome string string;
  (** [asn1.Unmarshal]: the sequence and the bytes after it. *)
  UnmarshalRDNs : string → outcome string (list RDN * string);
  EncodePublic : Public → outcome string string;
  DecodePublic : string → outcome string Public;
  MarshalWire : signingRequestWire → outcome string string;
  UnmarshalWire : string → outcome string signingRequestWire;
}.

Section csr.
Context `{Wire}.

Record SigningRequest := mkSR {
  PlatformIdentity : list RDN;
  EndorsementCertificate : option (certificate Key);
  EndorsementKey : option Public;
  AttestationKey : option Public;
  DevIDKey : option Public;
  CertifyData : string;
  CertifySignature : string;
}.

(** ** Encoding *)

Definition encode_key (k : option Public) : outcome string string :=
  match k with None => Ok "" | Some k => b ← EncodePublic k; Ok (base64_encode b) end.
Definition encode_bytes (b : string) : string := if bool_decide (b = "") then "" else base64_encode b.

Definition MarshalBinary (sr : SigningRequest) : outcome string string :=
  pid ← (match PlatformIdentity sr with
         | [] => Ok ""
         | rdns => b ← MarshalRDNs rdns; Ok (base64_encode b)
         end);
  let ekcert := match EndorsementCertificate sr with
                | None => "" | Some cert => base64_encode (Raw cert) end in
  ek ← encode_key (EndorsementKey sr);
  ak ← encode_key (AttestationKey sr);
  devid ← encode_key (DevIDKey sr);
  MarshalWire (mkWire pid ekcert ek ak devid
                 (encode_bytes (CertifyData sr)) (encode_bytes (CertifySignature sr))).

(** ** Decoding *)

(** A field that is absent is left at its zero value, another is decoded. *)
Definition field {A} (b64 : string) (zero : A) (dec : string → outcome string A) : outcome string A :=
  if bool_decide (b64 = "") then Ok zero
  else match base64_decode b64 with None => Err "illegal base64 data" | Some b => dec b end.

Definition decode_key (what : string) (b : string) : outcome string (option Public) :=
  prefix_error ("decode " +:+ what +:+ ": ") (Some <$> DecodePublic b).

Definition UnmarshalBinary (data : string) : outcome string SigningRequest :=
  w ← UnmarshalWire data;
  pid ← field (PlatformIdentityB64 w) [] (fun b =>
    r ← UnmarshalRDNs b;
    if bool_decide (r.2 = "") then Ok r.1 else Err "trailing data in platform identity");
  ekcert ← field (EndorsementCertificateB64 w) None (fun b =>
    prefix_error "parse EK certificate: " (Some <$> parseCertificateLoose b));
  ek ← field (EndorsementKeyB64 w) None (decode_key "EK");
  ak ← field (AttestationKeyB64 w) None (decode_key "AK");
  devid ← field (DevIDKeyB64 w) None (decode_key "DevID");
  data ← field (CertifyDataB64 w) "" Ok;
  sig ← field (CertifySignatureB64 w) "" Ok;
  Ok (mkSR pid ekcert ek ak devid data sig).

(** ** Round trip *)

(** Each encoder is undone by its decoder, and encodes nothing as no bytes. *)
Class WireLaws := {
  wire_law w data : MarshalWire w = Ok data → UnmarshalWire data = Ok w;
  public_law k b : EncodePublic k = Ok b → DecodePublic b = Ok k ∧ b ≠ "";
  rdn_law rdns b : MarshalRDNs rdns = Ok b → UnmarshalRDNs b = Ok (rdns, "") ∧ b ≠ "";
}.

(** The certificate is what its bytes parse to. *)
Definition parsed (cert : certificate Key) : Prop :=
  Raw cert ≠ "" ∧ parseCertificateLoose (Raw cert) = Ok cert.

Lemma field_encoded {A} b (zero : A) dec : b ≠ "" → field (base64_encode b) zero dec = dec b.
Proof.
  intros Hb. unfold field. rewrite bool_decide_eq_false_2 by (by rewrite base64_encode_empty).
  by rewrite base64_roundtrip.
Qed.
Lemma field_empty {A} (zero : A) dec : field "" zero dec = Ok zero.
Proof. done. Qed.

Lemma field_key `{!WireLaws} k b what : encode_key k = Ok b → field b None (decode_key what) = Ok k.
Proof.
  destruct k as [k|]; cbn [encode_key]; [|by intros [= <-]]. intros (e & He & [= <-])%bind_Ok.
  apply public_law in He as [Hd Hne]. rewrite field_encoded by done. unfold decode_key. by rewrite Hd.
Qed.

Lemma field_bytes b : field (encode_bytes b) "" Ok = Ok b.
Proof. unfold encode_bytes. case_bool_decide; [by subst|]. by apply field_encoded. Qed.

Lemma unmarshal_marshal `{!WireLaws} sr data :
  (∀ cert, EndorsementCertificate sr = Some cert → parsed cert) →
  MarshalBinary sr = Ok data → UnmarshalBinary data = Ok sr.
Proof.
  intros Hcert (pid & Hpid & Hr)%bind_Ok. apply bind_Ok in Hr as (ek & Hek & Hr).
  apply bind_Ok in Hr as (ak & Hak & Hr). apply bind_Ok in Hr as (devid & Hdevid & Hr).
  unfold UnmarshalBinary. rewrite (wire_law _ _ Hr). cbn [mbind outcome_bind].
  cbn [PlatformIdentityB64 EndorsementCertificateB64 EndorsementKeyB64 AttestationKeyB64 DevIDKeyB64
       CertifyDataB64 CertifySignatureB64].
  rewrite (field_key _ _ "EK" Hek), (field_key _ _ "AK" Hak), (field_key _ _ "DevID" Hdevid), !field_bytes.
  destruct sr as [rdns ekcert ek' ak' devid' cd cs]; cbn in *.
  assert (field pid [] (fun b => r ← UnmarshalRDNs b;
    if bool_decide (r.2 = "") then Ok r.1 else Err "trailing data in platform identity") = Ok rdns) as ->.
  { destruct rdns as [|rdn rdns]; [by injection Hpid as <-|].
    apply bind_Ok in Hpid as (b & Hb & [= <-]). apply rdn_law in Hb as [Hb Hne].
    rewrite field_encoded by done. by rewrite Hb. }
  destruct ekcert as [cert|]; [|done]. destruct (Hcert cert eq_refl) as [Hne Hparse].
  cbn [mbind outcome_bind]. rewrite field_encoded by done. by rewrite Hparse.
Qed.

(** C24: a signing request survives the wire: what [MarshalBinary] encodes,
    [UnmarshalBinary] decodes to the same request, absent parts and empty byte
    strings included. *)
Theorem signing_request_roundtrip `{!WireLaws} sr data :
  (∀ cert, EndorsementCertificate sr = Some cert → parsed cert) →
  MarshalBinary sr = Ok data → UnmarshalBinary data = Ok sr.
Proof. apply unmarshal_marshal. Qed.
End csr.
Arguments SigningRequest {_ _}.

Lemma CutPrefix_app p s : CutPrefix (p +:+ s) p = (s, true).
Proof. unfold CutPrefix. by rewrite HasPrefix_app, sdrop_app. Qed.

(** ** The toy instance: fields behind their lengths are overkill, a separator does *)

Definition toy_public (p : Public) : string := PubRest p.
Definition toy_decode_public (b : string) : outcome string Public :=
  if bool_decide (b = "") then Err "short public area"
  else if HasPrefix b "ak" then
    Ok (mkPublic 1 11 327794 (Some (mkRSA (Some (mkScheme 20 11)) (Some 128%Z))) None b)
  else Ok (mkPublic 1 11 262258 (Some (mkRSA (Some (mkScheme 20 11)) (Some 128%Z))) None b).
Definition toy_wire_text (w : signingRequestWire) : string :=
  Join [PlatformIdentityB64 w; EndorsementCertificateB64 w; EndorsementKeyB64 w; AttestationKeyB64 w;
        DevIDKeyB64 w; CertifyDataB64 w; CertifySignatureB64 w] ",".
Definition toy_wire_parse (s : string) : outcome string signingRequestWire :=
  match Split s "," with
  | [a; b; c; d; e; f; g] => Ok (mkWire a b c d e f g)
  | _ => Err "unexpected end of JSON input"
  end.
(** Encoders that answer only what decodes back. *)
Definition checked {A B} `{EqDecision A} (enc : A → B) (dec : B → outcome string A) (a : A)
    : outcome string B :=
  if bool_decide (dec (enc a) = Ok a) then Ok (enc a) else Err "cannot encode".

#[export] Instance signingRequestWire_eq_dec : EqDecision signingRequestWire.
Proof. solve_decision. Defined.
#[export] Instance SigScheme_eq_dec : EqDecision SigScheme.
Proof. solve_decision. Defined.
#[export] Instance RSAParams_eq_dec : EqDecision RSAParams.
Proof. solve_decision. Defined.
#[export] Instance ECCParams_eq_dec : EqDecision ECCParams.
Proof. solve_decision. Defined.
#[export] Instance Public_eq_dec : EqDecision Public.
Proof. solve_decision. Defined.

#[export] Instance toy_wire : Wire (H := toy_crypto) := {|
  RDN := string;
  MarshalRDNs := checked (λ l, "rdn" +:+ Join l "+")
    (λ s, let '(r, _) := CutPrefix s "rdn" in Ok (Split r "+"));
  UnmarshalRDNs s := let '(r, ok) := CutPrefix s "rdn" in
    if (ok : bool) then Ok (Split r "+", "") else Err "asn1: syntax error";
  EncodePublic := checked toy_public toy_decode_public;
  DecodePublic := toy_decode_public;
  MarshalWire := checked toy_wire_text toy_wire_parse;
  UnmarshalWire := toy_wire_parse;
|}.

Lemma checked_Ok {A B} `{EqDecision A} (enc : A → B) dec a b :
  checked enc dec a = Ok b → dec b = Ok a ∧ b = enc a.
Proof. unfold checked. case_bool_decide; [|done]. by intros [= <-]. Qed.

#[export] Instance toy_wire_laws : WireLaws (H0 := toy_wire).
Proof.
  split.
  - by intros w data [? _]%checked_Ok.
  - intros k b [Hd Hb]%checked_Ok. split; [done|]. intros ->. done.
  - intros rdns b [Hd ->]%checked_Ok. split; [|done]. cbn [UnmarshalRDNs toy_wire].
    rewrite CutPrefix_app in *. by injection Hd as ->.
Qed.

Definition toy_request : SigningRequest (H := toy_crypto) (H0 := toy_wire) :=
  mkSR (H := toy_crypto) (H0 := toy_wire) ["CN=guest"] (Some (mkCert "CERT|ekca|ek1" "ek1" [] false "ekca" 0 0))
    (Some (mkPublic 1 11 262258 (Some (mkRSA (Some (mkScheme 20 11)) (Some 128%Z))) None "ek1"))
    (Some (mkPublic 1 11 327794 (Some (mkRSA (Some (mkScheme 20 11)) (Some 128%Z))) None "ak1"))
    (Some (mkPublic 1 11 262258 (Some (mkRSA (Some (mkScheme 20 11)) (Some 128%Z))) None "devid1"))
    "devid1" "ak1#devid1".

Definition toy_data : string :=
  match MarshalBinary (H0 := toy_wire) toy_request with Ok d => d | Err _ => "" end.

Lemma signing_request_roundtrip_witness : UnmarshalBinary (H0 := toy_wire) toy_data = Ok toy_request.
Proof.
  apply (signing_request_roundtrip (H0 := toy_wire)); [|by vm_compute].
  intros cert [= <-]. by vm_compute.
Defined.
