(* ===== verification/Net.v ===== *)
(** * Package net: addresses as text

    [net.ParseIP], [IP.To4], [IP.String] and [net.SplitHostPort], with [strconv.Itoa]
    and [time.Duration.String], written after Go 1.24's standard library. An [IP] is its bytes: sixteen, an IPv4 address
    behind the prefix of an IPv4-mapped one, as [ParseIP] returns it. *)

From stdpp Require Import pretty.
From S2P Require Import Prelude.
From S2P Require Import Go.
From Stdlib Require Import Ascii.

(** [strconv.Itoa]. *)
Definition Itoa (z : Z) : string := pretty z.

(** ** IPv4 *)

Definition digit_value (c : ascii) : Z := (byte c - 48)%Z.
(** A decimal field: digits, no leading zero, at most 255. *)
Fixpoint octet_digits (s : string) (val : Z) : option Z :=
  match s with
  | "" => Some val
  | String c s =>
      if negb (is_digit c) then None
      else
        let val := (val * 10 + digit_value c)%Z in
        if (255 <? val)%Z then None else octet_digits s val
  end.
Definition parse_octet (s : string) : option Z :=
  match s with
  | "" => None
  | String c "" => octet_digits s 0
  | String c _ => if bool_decide (c = "0"%char) then None else octet_digits s 0
  end.
Definition parseIPv4Fields (s : string) : option (list Z) :=
  match Split s "." with
  | [a; b; c; d] =>
      a ← parse_octet a; b ← parse_octet b; c ← parse_octet c; d ← parse_octet d; Some [a; b; c; d]
  | _ => None
  end.

(** ** IPv6 *)

Definition hex_value (c : ascii) : option Z :=
  if is_digit c then Some (byte c - 48)%Z
  else if in_range 97 102 c then Some (byte c - 87)%Z
  else if in_range 65 70 c then Some (byte c - 55)%Z
  else None.

(** The hexadecimal digits at the start of [s]: how many, their value, the rest;
    [None] for more than four. *)
Fixpoint hex_group (s : string) (off : nat) (acc : Z) : option (nat * Z * string) :=
  match s with
  | "" => Some (off, acc, "")
  | String c s' =>
      match hex_value c with
      | None => Some (off, acc, s)
      | Some v => if 3 <? off then None else hex_group s' (S off) (acc * 16 + v)
      end
  end.

(** The loop over groups: the bytes so far, where the [::] was and what is left.
    Every turn adds two bytes and the loop stops at sixteen. *)
Fixpoint ipv6_groups (fuel : nat) (s : string) (ip : list Z) (ellipsis : option nat)
    : option (list Z * option nat * string) :=
  match fuel with
  | O => Some (ip, ellipsis, s)
  | S fuel =>
      '(off, acc, r) ← hex_group s 0 0;
      if off =? 0 then None
      else if HasPrefix r "." then
        if bool_decide (ellipsis = None) && negb (length ip =? 12) then None
        else if 16 <? length ip + 4 then None
        else v4 ← parseIPv4Fields s; Some (ip ++ v4, ellipsis, "")
      else
        let ip := ip ++ [acc / 256; acc mod 256]%Z in
        match r with
        | "" => Some (ip, ellipsis, "")
        | String c r =>
            if negb (bool_decide (c = ":"%char)) || bool_decide (r = "") then None
            else
              match r with
              | String ":" r' =>
                  if bool_decide (is_Some ellipsis) then None
                  else if bool_decide (r' = "") then Some (ip, Some (length ip), "")
                  else ipv6_groups fuel r' ip (Some (length ip))
              | _ => ipv6_groups fuel r ip ellipsis
              end
        end
  end.

Definition parseIPv6 (s : string) : option (list Z) :=
  let '(s, ellipsis) :=
    if HasPrefix s "::" then (sdrop 2 s, Some 0) else (s, None) in
  if bool_decide (s = "") && bool_decide (is_Some ellipsis) then Some (replicate 16 0%Z)
  else
    '(ip, ellipsis, rest) ← ipv6_groups 8 s [] ellipsis;
    if negb (bool_decide (rest = "")) then None
    else if length ip <? 16 then
      e ← ellipsis; Some (take e ip ++ replicate (16 - length ip) 0%Z ++ drop e ip)
    else if bool_decide (is_Some ellipsis) then None
    else Some ip.

(** ** Addresses *)

Definition v4_prefix : list Z := replicate 10 0%Z ++ [255; 255]%Z.

(** The first of '.', ':' and '%' decides; a zone makes [ParseIP] fail. *)
Fixpoint first_mark (s : string) : option ascii :=
  match s with
  | "" => None
  | String c s =>
      if bool_decide (c = "."%char) || bool_decide (c = ":"%char) || bool_decide (c = "%"%char)
      then Some c else first_mark s
  end.

Definition ParseIP (s : string) : option (list Z) :=
  match first_mark s with
  | Some "."%char => (app v4_prefix) <$> parseIPv4Fields s
  | Some ":"%char => if ContainsByte "%" s then None else parseIPv6 s
  | _ => None
  end.

Definition To4 (ip : list Z) : option (list Z) :=
  if length ip =? 4 then Some ip
  else if bool_decide (take 12 ip = v4_prefix) && (length ip =? 16) then Some (drop 12 ip) else None.

(** [IP.String] of four or sixteen bytes. *)
Definition hex4 (z : Z) : string :=
  let d k := hex_digit (z / k mod 16)%Z in
  if (z <? 16)%Z then String (d 1%Z) ""
  else if (z <? 256)%Z then String (d 16%Z) (String (d 1%Z) "")
  else if (z <? 4096)%Z then String (d 256%Z) (String (d 16%Z) (String (d 1%Z) ""))
  else String (d 4096%Z) (String (d 256%Z) (String (d 16%Z) (String (d 1%Z) ""))).
Fixpoint groups_of (ip : list Z) : list Z :=
  match ip with a :: b :: ip => (a * 256 + b)%Z :: groups_of ip | _ => [] end.
Fixpoint zero_run (l : list Z) : nat :=
  match l with 0%Z :: l => S (zero_run l) | _ => 0 end.
(** Start and end of the first longest run of two or more zero groups. *)
Fixpoint best_run (i : nat) (l : list Z) (best : nat * nat) : nat * nat :=
  match l with
  | [] => best
  | _ :: l' =>
      let n := zero_run l in
      best_run (S i) l' (if (2 <=? n) && (best.2 - best.1 <? n) then (i, i + n) else best)
  end.
Definition ip6_string (ip : list Z) : string :=
  let g := groups_of ip in
  let '(zs, ze) := best_run 0 g (8, 8) in
  Join (hex4 <$> take zs g) ":" +:+
  (if zs <? 8 then "::" +:+ Join (hex4 <$> drop ze g) ":" else "").

Definition ip4_string (v4 : list Z) : string := Join (Itoa <$> v4) ".".
Definition IPString (ip : list Z) : string :=
  match To4 ip with Some v4 => ip4_string v4 | None => ip6_string ip end.

(** ** Hosts and ports *)

(** What stands before the last [c] and after it. *)
Fixpoint cut_last (s : string) (c : ascii) : option (string * string) :=
  match s with
  | "" => None
  | String d s' =>
      match cut_last s' c with
      | Some (b, a) => Some (String d b, a)
      | None => if bool_decide (d = c) then Some ("", s') else None
      end
  end.

(** [net.SplitHostPort]: the host, [None] for any error. *)
Definition SplitHost (hostport : string) : option string :=
  '(before, port) ← cut_last hostport ":";
  match hostport with
  | String "[" r =>
      let '(host, r', ok) := Cut r "]" in
      if negb ok then None
      (* the first ']' stands just before the last ':' *)
      else if negb (bool_decide (r' = ":" +:+ port) && negb (ContainsByte ":" port)) then None
      else if ContainsByte "[" r || ContainsByte "]" r' then None
      else Some host
  | _ =>
      if ContainsByte ":" before then None
      else if ContainsByte "[" hostport || ContainsByte "]" hostport then None
      else Some before
  end.

Example ips :
  ParseIP "192.168.1.20" = Some (v4_prefix ++ [192; 168; 1; 20]%Z) ∧
  ParseIP "::ffff:10.0.0.1" = Some (v4_prefix ++ [10; 0; 0; 1]%Z) ∧
  (IPString <$> ParseIP "2001:DB8:0:0:1::2") = Some "2001:db8::1:0:0:2" ∧
  (IPString <$> ParseIP "::") = Some "::" ∧ (IPString <$> ParseIP "1::") = Some "1::" ∧
  (IPString <$> ParseIP "fe80::1%eth0") = None ∧ ParseIP "1.2.3.04" = None ∧ ParseIP "1.2.3" = None ∧
  ParseIP "1.2.3.256" = None ∧ ParseIP "1:2:3:4:5:6:7:8:9" = None ∧ ParseIP ":1::" = None ∧
  SplitHost "[::1]:80" = Some "::1" ∧ SplitHost "10.0.0.1:80" = Some "10.0.0.1" ∧
  SplitHost "::1:80" = None ∧ SplitHost "10.0.0.1" = None.
Proof. by vm_compute. Qed.

(** ** Round trip *)

Lemma Split_none s c : ContainsByte c s = false → Split s c = [s].
Proof.
  induction s as [|d s IH]; cbn [ContainsByte Split]; [done|]. intros [Hd Hs]%orb_false_iff.
  rewrite bool_decide_eq_false_2, IH by (bool_to_prop; congruence). done.
Qed.
Lemma Split_app a c b : ContainsByte c a = false → Split (a +:+ String c b) c = a :: Split b c.
Proof.
  induction a as [|d a IH]; cbn [ContainsByte Split String.append].
  - by rewrite bool_decide_eq_true_2.
  - intros [Hd Ha]%orb_false_iff. rewrite bool_decide_eq_false_2, IH by (bool_to_prop; congruence). done.
Qed.

Lemma octets (P : Z → Prop) `{∀ v, Decision (P v)} :
  forallb (λ n, bool_decide (P (Z.of_nat n))) (seq 0 256) = true → ∀ v, (0 ≤ v < 256)%Z → P v.
Proof.
  intros Hall v Hv. rewrite forallb_forall in Hall. specialize (Hall (Z.to_nat v)).
  rewrite Z2Nat.id in Hall by lia. apply (bool_decide_eq_true (P v)), Hall, in_seq. lia.
Qed.
Lemma parse_octet_Itoa v : (0 ≤ v < 256)%Z → parse_octet (Itoa v) = Some v.
Proof. revert v. apply (octets (λ v, parse_octet (Itoa v) = Some v)). by vm_compute. Qed.
Lemma Itoa_octet v : (0 ≤ v < 256)%Z →
  ContainsByte "." (Itoa v) = false ∧ first_mark (Itoa v) = None ∧ graph_string (Itoa v) = true.
Proof.
  revert v. apply (octets (λ v, ContainsByte "." (Itoa v) = false ∧ first_mark (Itoa v) = None ∧
    graph_string (Itoa v) = true)). by vm_compute.
Qed.

Definition bytes (l : list Z) : Prop := Forall (λ v, (0 ≤ v < 256)%Z) l.

Lemma first_mark_app a b : first_mark a = None → first_mark (a +:+ b) = first_mark b.
Proof. induction a as [|c a IH]; cbn; [done|]. by case_match. Qed.

(** An IPv4 address parses back from its text. *)
Lemma parse_ip4_string a b c d :
  bytes [a; b; c; d] → ParseIP (ip4_string [a; b; c; d]) = Some (v4_prefix ++ [a; b; c; d]).
Proof.
  unfold bytes. rewrite !Forall_cons. intros (Ha & Hb & Hc & Hd & _).
  change (ip4_string [a; b; c; d]) with
    (Itoa a +:+ String "." (Itoa b +:+ String "." (Itoa c +:+ String "." (Itoa d)))).
  destruct (Itoa_octet a Ha) as (Da & Ma & _), (Itoa_octet b Hb) as (Db & _ & _),
    (Itoa_octet c Hc) as (Dc & _ & _), (Itoa_octet d Hd) as (Dd & _ & _).
  unfold ParseIP. rewrite first_mark_app by done. cbn [first_mark].
  rewrite bool_decide_eq_true_2 by done. cbn [orb]. unfold parseIPv4Fields.
  rewrite !Split_app, Split_none by done. rewrite !parse_octet_Itoa by done. done.
Qed.

Lemma octet_digits_byte s acc v : (0 ≤ acc < 256)%Z → octet_digits s acc = Some v → (0 ≤ v < 256)%Z.
Proof.
  revert acc. induction s as [|c s IH]; intros acc Hacc; cbn [octet_digits]; [by intros [= <-]|].
  destruct (is_digit c) eqn:Hc; cbn [negb]; [|done]. apply in_range_spec in Hc.
  unfold digit_value. destruct (Z.ltb_spec 255 (acc * 10 + (byte c - 48))); [done|]. apply IH. lia.
Qed.
Lemma parse_octet_byte s v : parse_octet s = Some v → (0 ≤ v < 256)%Z.
Proof.
  destruct s as [|c s]; [done|]. unfold parse_octet. destruct s as [|d s].
  - apply octet_digits_byte. lia.
  - case_bool_decide; [done|]. apply octet_digits_byte. lia.
Qed.

Lemma parseIPv4_bytes s v4 : parseIPv4Fields s = Some v4 → bytes v4 ∧ length v4 = 4.
Proof.
  unfold parseIPv4Fields. destruct (Split s ".") as [|a [|b [|c [|d [|]]]]]; try done.
  intros (x & Hx & (y & Hy & (z & Hz & (t & Ht & [= <-])%bind_Some)%bind_Some)%bind_Some)%bind_Some.
  split; [|done]. unfold bytes. repeat apply Forall_cons_2; [by eapply parse_octet_byte..|constructor].
Qed.

Lemma hex_value_range c v : hex_value c = Some v → (0 ≤ v < 16)%Z.
Proof.
  unfold hex_value, is_digit. repeat case_match; intros [= <-];
    match goal with H : in_range _ _ _ = true |- _ => apply in_range_spec in H end; lia.
Qed.
Lemma hex_group_range s off acc off' v r :
  off ≤ 4 → (0 ≤ acc < 16 ^ Z.of_nat off)%Z → hex_group s off acc = Some (off', v, r) →
  (0 ≤ v < 65536)%Z.
Proof.
  assert (∀ off, off ≤ 4 → (16 ^ Z.of_nat off ≤ 65536)%Z) as Hpow.
  { intros k Hk. change 65536%Z with (16 ^ 4)%Z. apply Z.pow_le_mono_r; lia. }
  revert off acc. induction s as [|c s IH]; intros off acc Hoff Hacc; cbn [hex_group].
  { intros [= <- <- <-]. specialize (Hpow off Hoff). lia. }
  destruct (hex_value c) as [d|] eqn:Hd; [|intros [= <- <- <-]; specialize (Hpow off Hoff); lia].
  apply hex_value_range in Hd. destruct (3 <? off) eqn:Ho; [done|]. apply Nat.ltb_ge in Ho.
  apply IH; [lia|]. rewrite Nat2Z.inj_succ, Z.pow_succ_r by lia. nia.
Qed.

Lemma ipv6_groups_bytes fuel s ip e ip' e' r :
  length ip + 2 * fuel = 16 → bytes ip → ipv6_groups fuel s ip e = Some (ip', e', r) →
  bytes ip' ∧ length ip' ≤ 16.
Proof.
  revert s ip e. induction fuel as [|fuel IH]; intros s ip e Hl Hb; cbn [ipv6_groups].
  { intros [= <- <- <-]. split; [done|lia]. }
  destruct (hex_group s 0 0) as [[[off acc] t]|] eqn:Hg; [|done]. cbn [mbind option_bind].
  apply hex_group_range in Hg; [|lia|cbn; lia].
  destruct (off =? 0); [done|]. destruct (HasPrefix t ".").
  - destruct (_ && _); [done|]. destruct (16 <? length ip + 4) eqn:Hlen; [done|].
    apply Nat.ltb_ge in Hlen. intros (v4 & [Hv Hv4]%parseIPv4_bytes & [= <- <- <-])%bind_Some.
    rewrite length_app. split; [by apply Forall_app|lia].
  - assert (bytes (ip ++ [acc / 256; acc mod 256]%Z)) as Hb'.
    { apply Forall_app. split; [done|]. repeat apply Forall_cons_2; [..|constructor];
        Z.to_euclidean_division_equations; lia. }
    assert (length (ip ++ [acc / 256; acc mod 256]%Z) + 2 * fuel = 16) as Hl'
      by (rewrite length_app; cbn; lia).
    cbn zeta. destruct t as [|c t]; [intros [= <- <- <-]; split; [done|lia]|].
    destruct (_ || _); [done|].
    assert (∀ t e, ipv6_groups fuel t (ip ++ [acc / 256; acc mod 256]%Z) e = Some (ip', e', r) →
      bytes ip' ∧ length ip' ≤ 16) as Hrec by (intros; by eapply IH).
    destruct t as [|d t']; [by apply Hrec|].
    destruct d as [[] [] [] [] [] [] [] []]; try by apply Hrec.
    destruct (bool_decide (is_Some e)); [done|].
    case_bool_decide; [intros [= <- <- <-]; split; [done|lia]|by apply Hrec].
Qed.

(** Whatever [ParseIP] returns is sixteen bytes, and [To4] four of them. *)
Lemma ParseIP_bytes s ip : ParseIP s = Some ip → bytes ip ∧ length ip = 16.
Proof.
  assert (bytes v4_prefix) as Hp by by apply (bool_decide_unpack _).
  assert (∀ n, bytes (replicate n 0%Z)) as Hz by (intros n; apply Forall_replicate; lia).
  unfold ParseIP. destruct (first_mark s) as [m|]; [|done].
  assert (((app v4_prefix) <$> parseIPv4Fields s = Some ip) → bytes ip ∧ length ip = 16) as H4.
  { intros (v4 & [Hb Hl]%parseIPv4_bytes & ->)%fmap_Some.
    rewrite length_app, Hl. split; [by apply Forall_app|done]. }
  assert ((if ContainsByte "%" s then None else parseIPv6 s) = Some ip → bytes ip ∧ length ip = 16) as H6.
  { destruct (ContainsByte "%" s); [done|]. unfold parseIPv6.
    destruct (if HasPrefix s "::" then _ else _) as [t e].
    destruct (_ && _); [intros [= <-]; split; [apply (Hz 16)|done]|].
    destruct (ipv6_groups 8 t [] e) as [[[g e'] rest]|] eqn:Hg; [|done]. cbn [mbind option_bind].
    apply ipv6_groups_bytes in Hg as [Hb Hl]; [|done|constructor].
    destruct (bool_decide (rest = "")); cbn [negb]; [|done].
    destruct (length g <? 16) eqn:Hlt.
    - apply Nat.ltb_lt in Hlt. intros (k & _ & [= <-])%bind_Some.
      rewrite !length_app, length_replicate, length_take, length_drop. split; [|lia].
      repeat (apply Forall_app; split); [by apply Forall_take|apply Hz|by apply Forall_drop].
    - apply Nat.ltb_ge in Hlt. case_bool_decide; [done|]. intros [= <-]. split; [done|lia]. }
  destruct m as [[] [] [] [] [] [] [] []]; done || by (apply H4) || by (apply H6).
Qed.

Lemma To4_bytes s ip v4 : ParseIP s = Some ip → To4 ip = Some v4 →
  ∃ a b c d, v4 = [a; b; c; d] ∧ bytes v4.
Proof.
  intros [Hb Hl]%ParseIP_bytes. unfold To4. rewrite Hl. cbn [Nat.eqb]. case_bool_decide; [|done]. cbn [andb].
  intros [= <-]. assert (length (drop 12 ip) = 4) as Hd by (rewrite length_drop; lia).
  assert (bytes (drop 12 ip)) as Hbd by by apply Forall_drop.
  destruct (drop 12 ip) as [|a [|b [|c [|d [|]]]]]; try done. eauto 10.
Qed.

Lemma To4_prefix a b c d : To4 (v4_prefix ++ [a; b; c; d]) = Some [a; b; c; d].
Proof. done. Qed.

(** ** Decimal text *)

Lemma pretty_N_go_chars (p : ascii → bool) x s :
  (∀ y, p (pretty_N_char y) = true) → sforall p s = true → sforall p (pretty_N_go x s) = true.
Proof.
  intros Hp. revert s. induction (N.lt_wf_0 x) as [x _ IH]. intros s Hs.
  destruct (decide (0 < x)%N) as [Hx|Hx].
  - rewrite pretty_N_go_step by done. apply IH; [by apply N.div_lt|]. cbn. by rewrite Hp, Hs.
  - by replace x with 0%N by lia.
Qed.
Lemma Itoa_chars (p : ascii → bool) z :
  (∀ y, p (pretty_N_char y) = true) → p "-"%char = true → sforall p (Itoa z) = true.
Proof.
  intros Hp Hm. assert (∀ x : positive, sforall p (pretty_N_go (N.pos x) "") = true) as Hx
    by (intros x; by apply pretty_N_go_chars).
  unfold Itoa. destruct z as [|x|x]; cbn.
  - by rewrite (Hp 0%N : p "0"%char = true).
  - apply Hx.
  - rewrite Hm. apply Hx.
Qed.
Lemma Itoa_no c z : is_digit c = false → c ≠ "-"%char → ContainsByte c (Itoa z) = false.
Proof.
  intros Hc Hm. apply (sforall_no (λ x, negb (bool_decide (c = x)))); [|by rewrite bool_decide_eq_true_2].
  apply Itoa_chars; [|by rewrite bool_decide_eq_false_2].
  intros y. rewrite bool_decide_eq_false_2; [done|]. intros ->. revert Hc.
  unfold pretty_N_char. by repeat case_match.
Qed.

(** ** time.Duration.String *)

(** The digits of a fraction of [prec] digits, without trailing zeros; [print] once
    a digit has been written. *)
Fixpoint fmt_frac (prec : nat) (v : Z) (print : bool) (acc : string) : string * Z :=
  match prec with
  | O => (if print then String "." acc else acc, v)
  | S prec =>
      let digit := (v mod 10)%Z in
      let print := print || negb (digit =? 0)%Z in
      fmt_frac prec (v / 10) print (if print then String (chr (digit + 48)) acc else acc)
  end.
Definition DurationString (d : Z) : string :=
  let u := Z.abs d in
  let sign := if (d <? 0)%Z then "-" else "" in
  if (u =? 0)%Z then "0s"
  else sign +:+
    if (u <? Second)%Z then
      let '(prec, unit) :=
        if (u <? 1000)%Z then (0, "ns")
        else if (u <? Millisecond)%Z then (3, String (chr 194) (String (chr 181) "s")) else (6, "ms") in
      let '(frac, whole) := fmt_frac prec u false "" in Itoa whole +:+ frac +:+ unit
    else
      let '(frac, secs) := fmt_frac 9 u false "" in
      let text := Itoa (secs mod 60) +:+ frac +:+ "s" in
      let mins := (secs / 60)%Z in
      if (0 <? mins)%Z then
        let text := Itoa (mins mod 60) +:+ "m" +:+ text in
        let hours := (mins / 60)%Z in
        if (0 <? hours)%Z then Itoa hours +:+ "h" +:+ text else text
      else text.
Example duration_texts :
  DurationString <$> [10 * Second; 90 * Minute + Millisecond; 1500; -2 * Millisecond; 8760 * Hour; 0; 500100]%Z =
    ["10s"; "1h30m0.001s"; "1.5" +:+ String (chr 194) (String (chr 181) "s"); "-2ms"; "8760h0m0s"; "0s";
     "500.1" +:+ String (chr 194) (String (chr 181) "s")].
Proof. by vm_compute. Qed.

Lemma fmt_frac_no c prec v print acc :
  is_digit c = false → c ≠ "."%char → ContainsByte c acc = false → ContainsByte c (fmt_frac prec v print acc).1 = false.
Proof.
  intros Hc Hdot. revert v print acc. induction prec as [|prec IH]; intros v print acc Ha; cbn [fmt_frac].
  { destruct print; cbn [fst]; [|done]. cbn [ContainsByte]. by rewrite bool_decide_eq_false_2. }
  apply IH. destruct (print || _); [|done]. cbn [ContainsByte]. rewrite Ha, orb_false_r.
  apply bool_decide_eq_false_2. intros ->. revert Hc.
  assert ((v mod 10)%Z ∈ seqZ 0 10) as Hin by (apply elem_of_seqZ; pose proof (Z.mod_pos_bound v 10); lia).
  revert Hin. generalize (v mod 10)%Z. clear. intros d.
  change (seqZ 0 10) with [0; 1; 2; 3; 4; 5; 6; 7; 8; 9]%Z.
  repeat (intros [->|Hin]%elem_of_cons; [done|]; revert Hin). by intros ?%not_elem_of_nil.
Qed.
(** The characters of a duration. *)
Lemma DurationString_no c d :
  is_digit c = false → ContainsByte c (String (chr 194) (String (chr 181) "-.hmns")) = false →
  ContainsByte c (DurationString d) = false.
Proof.
  intros Hc Hs. cbn [ContainsByte] in Hs.
  assert (∀ x, In x [chr 194; chr 181; "-"%char; "."%char; "h"%char; "m"%char; "n"%char; "s"%char] → bool_decide (c = x) = false) as Hx.
  { intros x. rewrite !orb_false_iff in Hs. cbn [In]. intuition (subst; done). }
  assert (∀ x, In x [chr 194; chr 181; "-"%char; "."%char; "h"%char; "m"%char; "n"%char; "s"%char] → c ≠ x) as Hne.
  { intros x Hin. by apply (bool_decide_eq_false (c = x)), Hx. }
  assert (bool_decide (c = "0"%char) = false) as H0 by (apply bool_decide_eq_false_2; by intros ->).
  assert (∀ z, ContainsByte c (Itoa z) = false) as Hi by (intros; apply Itoa_no; [done|apply Hne; cbn; tauto]).
  assert (∀ prec v, ContainsByte c (fmt_frac prec v false "").1 = false) as Hf
    by (intros; apply fmt_frac_no; [done|apply Hne; cbn; tauto|done]).
  unfold DurationString. cbn zeta. destruct (_ =? 0)%Z.
  { cbn [ContainsByte]. rewrite H0, (Hx "s"%char) by (cbn; tauto). done. }
  rewrite ContainsByte_app. apply orb_false_iff. split.
  { destruct (_ <? 0)%Z; [|done]. cbn [ContainsByte]. by rewrite (Hx "-"%char) by (cbn; tauto). }
  destruct (_ <? Second)%Z.
  - repeat case_match; simplify_eq; (match goal with H : fmt_frac ?p _ _ _ = _ |- _ =>
      specialize (Hf p (Z.abs d)); rewrite H in Hf end); cbn [fst] in Hf; rewrite !ContainsByte_app, Hi, Hf; cbn [ContainsByte];
      rewrite !Hx by (cbn; tauto); done.
  - specialize (Hf 9 (Z.abs d)). destruct (fmt_frac _ _ _ _) as [frac secs]. cbn [fst] in Hf.
    repeat case_match; rewrite ?ContainsByte_app, ?Hi, ?Hf; cbn [ContainsByte]; rewrite ?Hx by (cbn; tauto); done.
Qed.
