(* ===== verification/Inventory.v ===== *)
(** * The inventory (internal/inventory)

    The VM records, the YAML backend, the host's topology and the fingerprint
    that says whether a source changed. Decoding YAML is a parameter, as is the
    order in which Go ranges over a map, which is any order of its pairs. The
    topology under its lock is a value that [SetHostTopology] replaces; copies
    need no model, since a [gmap] is never shared. *)

From S2P Require Import Prelude.
From S2P Require Import Go.
From S2P Require Import Net.
From Stdlib Require Import Ascii.

(** ** Records *)

Record VMConfig := mkVM {
  VMID : string;
  VMName : string;
  RawConfig : gmap string string;
  Tags : gmap string string;    (* empty for nil *)
  MACs : list string;
  EKSHA256 : string;
}.
Abbreviation VMConfigMap := (gmap string VMConfig).

#[export] Instance VMConfig_eq_dec : EqDecision VMConfig.
Proof. solve_decision. Defined.

(** ** Instance tags (tags.go) and topology values (placement.go) *)

Definition is_alnum (c : ascii) : bool := is_digit c || is_upper c || is_lower c.
Definition one_of (s : string) (c : ascii) : bool := ContainsByte c s.
Definition length_between (lo hi : nat) (s : string) : bool :=
  (lo <=? String.length s) && (String.length s <=? hi).

Definition ValidTagKey (s : string) : bool :=
  length_between 1 63 s && sforall (fun c => is_alnum c || one_of "_+-" c) s.
Definition ValidTagValue (s : string) : bool :=
  length_between 1 255 s && sforall (fun c => is_alnum c || one_of "_.+-" c) s.

Definition ValidPlacementName (s : string) : bool :=
  match s with
  | "" => false
  | String c s => is_alnum c && (String.length s <=? 62) && sforall (fun c => is_alnum c || one_of "_.+-" c) s
  end.
Definition ValidTopologyKey (s : string) : bool := ValidTagKey s.

Abbreviation Topology := (gmap string string).
Definition DefaultTopology : Topology := {[ "availability-zone" := "proxmox"; "region" := "local" ]}.

(** [hostTopology] under its lock. *)
Definition SetHostTopology (t _old : Topology) : Topology := t.
Definition HostTopologyValue (cur : Topology) : Topology := cur.

(** ** The YAML inventory *)

Record yamlVM := mkYaml {
  YID : string;
  YName : string;
  YMACs : list string;
  YEKSHA256 : string;
  YPublicIPv4 : string;
  YZone : string;
  YRegion : string;
  YTags : gmap string string;
}.

Section yaml.
Context `{GoUnicode}.
(** [yaml.Decode] with [KnownFields], and the order a map is ranged over in. *)
Context (decode : string → outcome string (list yamlVM)).
Context (range : gmap string string → list (string * string)).

Definition clean_mac (mac : string) : string := ToLower (TrimSpace mac).
Definition load_macs (macs : list string) : list string :=
  filter (λ mac, mac ≠ "") (clean_mac <$> macs).

Definition load_tag (tags : gmap string string) (kv : string * string) : gmap string string :=
  let key := TrimSpace kv.1 in
  let value := TrimSpace kv.2 in
  if negb (ValidTagKey key) || negb (ValidTagValue value) then tags else <[key := value]> tags.
Definition load_tags (tags : gmap string string) : gmap string string := foldl load_tag ∅ (range tags).

Definition load_raw (vm : yamlVM) : outcome string (gmap string string) :=
  let raw := {[ "name" := YName vm ]} in
  let declared := TrimSpace (YPublicIPv4 vm) in
  if bool_decide (declared = "") then Ok raw
  else
    match ParseIP declared ≫= To4 with
    | None => Err ("inventory entry " +:+ Quote (YID vm) +:+ ": public_ipv4 " +:+ Quote declared +:+ " is not an IPv4 address")
    | Some v4 => Ok (<["public-ipv4" := ip4_string v4]> raw)
    end.

Definition load_vm (vm : yamlVM) : outcome string VMConfig :=
  raw ← load_raw vm;
  Ok (mkVM (YID vm) (YName vm) raw (load_tags (YTags vm)) (load_macs (YMACs vm))
        (ToLower (TrimSpace (YEKSHA256 vm)))).

Fixpoint load_vms (vms : list yamlVM) (out : VMConfigMap) : outcome string VMConfigMap :=
  match vms with
  | [] => Ok out
  | vm :: vms =>
      if bool_decide (YID vm = "") then load_vms vms out
      else c ← load_vm vm; load_vms vms (<[YID vm := c]> out)
  end.

(** [file] is what [os.ReadFile] returns. *)
Definition LoadYAML (file : outcome string string) : outcome string VMConfigMap :=
  match file with
  | Err e => Err ("failed to read inventory file: " +:+ e)
  | Ok data =>
      match decode data with
      | Err e => Err ("failed to parse inventory YAML: " +:+ e)
      | Ok vms => load_vms vms ∅
      end
  end.

(** ** Finding a VM *)

(** [order] is the order the map is ranged over in. *)
Definition GetVMIDByMAC (order : list (string * VMConfig)) (mac : string) : string :=
  let mac := clean_mac mac in
  match List.find (fun r => existsb (fun m => bool_decide (ToLower m = mac)) (MACs r.2)) order with
  | Some r => r.1
  | None => ""
  end.
End yaml.

Definition IsBound (vm : option VMConfig) : bool :=
  match vm with Some vm => negb (bool_decide (VMID vm = "")) | None => false end.
(** [BoundVMFromRequest]; [vm] is [GetVMConfigFromRequest r]. *)
Definition BoundVM (vm : option VMConfig) : option VMConfig := if IsBound vm then vm else None.

(** ** Fingerprints (fingerprint.go)

    The builder is the bytes written to the hash; the digest is [sha256] of them. *)

(** What a file is when it is read: its content, absent, or an error. *)
Inductive file_state := Content (data : string) | Missing | Failed (msg : string).

Fixpoint be_bytes (n : nat) (z : Z) : string :=
  match n with
  | O => ""
  | S n => be_bytes n (z / 256) +:+ String (chr (z mod 256)) ""
  end.
Definition field_bytes (kind : ascii) (data : string) : string :=
  String kind (be_bytes 8 (Z.of_nat (String.length data)) +:+ data).

(** The calls of a builder; a sequence of them is the builder. *)
Inductive fp_input := AddString (s : string) | AddFile (path : string) (f : file_state).
Definition input_bytes (i : fp_input) : string :=
  match i with
  | AddString s => field_bytes "s" s
  | AddFile path f =>
      field_bytes "p" path +:+
      match f with
      | Content data => field_bytes "c" data
      | Missing => field_bytes "m" ""
      | Failed msg => field_bytes "e" msg
      end
  end.
Fixpoint builder_bytes (l : list fp_input) : string :=
  match l with [] => "" | i :: l => input_bytes i +:+ builder_bytes l end.
Definition Sum (sha256 : string → string) (l : list fp_input) : string := sha256 (builder_bytes l).

Definition YAMLFingerprint (path : string) (f : file_state) : list fp_input := [AddFile path f].

(** *** No two sequences of inputs write the same bytes *)

Lemma be_bytes_length n z : String.length (be_bytes n z) = n.
Proof.
  revert z. induction n as [|n IH]; intros z; cbn [be_bytes]; [done|].
  assert (∀ a b, String.length (a +:+ b) = String.length a + String.length b) as Happ.
  { intros a b. induction a as [|c a IHa]; cbn; [done|]. by rewrite IHa. }
  rewrite Happ, IH. cbn. lia.
Qed.

Lemma string_app_inj_len (a b x y : string) :
  String.length a = String.length b → a +:+ x = b +:+ y → a = b ∧ x = y.
Proof.
  revert b. induction a as [|c a IH]; intros [|d b]; cbn; try done.
  intros [= Hl] [= -> Heq]. by destruct (IH b Hl Heq) as [-> ->].
Qed.

Lemma be_bytes_inj n z z' :
  (0 ≤ z < 256 ^ Z.of_nat n)%Z → (0 ≤ z' < 256 ^ Z.of_nat n)%Z → be_bytes n z = be_bytes n z' → z = z'.
Proof.
  revert z z'. induction n as [|n IH]; intros z z' Hz Hz'; cbn [be_bytes].
  { cbn in *. intros _. lia. }
  rewrite Nat2Z.inj_succ, Z.pow_succ_r in * by lia. intros Heq.
  apply string_app_inj_len in Heq as [Hhi Hlo]; [|by rewrite !be_bytes_length].
  apply IH in Hhi; [|Z.to_euclidean_division_equations; nia..].
  injection Hlo as Hlo. apply (f_equal byte) in Hlo.
  rewrite !byte_chr in Hlo by (apply Z.mod_pos_bound; lia).
  rewrite (Z.div_mod z 256), (Z.div_mod z' 256) by lia. lia.
Qed.

(** Data a Go slice can hold. *)
Definition sized (s : string) : Prop := (Z.of_nat (String.length s) < 2 ^ 63)%Z.

Lemma field_bytes_inj k k' d d' x y :
  sized d → sized d' → field_bytes k d +:+ x = field_bytes k' d' +:+ y → k = k' ∧ d = d' ∧ x = y.
Proof.
  unfold sized, field_bytes. intros Hd Hd'. rewrite !string_app_cons, !string_app_assoc.
  pose proof (be_bytes_length 8 (Z.of_nat (String.length d))) as Hl.
  pose proof (be_bytes_length 8 (Z.of_nat (String.length d'))) as Hl'.
  pose proof (be_bytes_inj 8 (Z.of_nat (String.length d)) (Z.of_nat (String.length d'))) as Hinj.
  revert Hl Hl' Hinj. generalize (be_bytes 8 (Z.of_nat (String.length d))).
  generalize (be_bytes 8 (Z.of_nat (String.length d'))). intros b' b Hl Hl' Hinj [= -> Heq].
  apply string_app_inj_len in Heq as [Hn Heq]; [|congruence].
  apply Hinj in Hn; [|cbn; lia..]. apply string_app_inj_len in Heq as [-> ->]; [done|lia].
Qed.

Definition sized_input (i : fp_input) : Prop :=
  match i with
  | AddString s => sized s
  | AddFile p (Content d) => sized p ∧ sized d
  | AddFile p Missing => sized p
  | AddFile p (Failed m) => sized p ∧ sized m
  end.

(** The bytes a builder hashes determine its inputs. *)
Lemma builder_bytes_inj l l' :
  Forall sized_input l → Forall sized_input l' → builder_bytes l = builder_bytes l' → l = l'.
Proof.
  assert (∀ k d x, "" = field_bytes k d +:+ x → False) as Hne by done.
  assert (sized "") as H0 by done.
  revert l'. induction l as [|i l IH]; intros [|i' l'] Hl Hl'; cbn [builder_bytes]; [done|..].
  - destruct i' as [|? []]; cbn [input_bytes]; rewrite ?string_app_assoc; by intros ?%Hne.
  - destruct i as [|? []]; cbn [input_bytes]; rewrite ?string_app_assoc; by intros ?%eq_sym%Hne.
  - apply Forall_cons in Hl as [Hi Hl]. apply Forall_cons in Hl' as [Hi' Hl'].
    destruct i as [s|p f], i' as [s'|p' f']; cbn [input_bytes sized_input] in *; rewrite ?string_app_assoc.
    + intros (_ & -> & Heq)%field_bytes_inj; [|done..]. f_equal. by apply IH.
    + intros ([=] & _)%field_bytes_inj; [done|]. by destruct f'; destruct_and?.
    + intros ([=] & _)%field_bytes_inj; [|done]. by destruct f; destruct_and?.
    + intros (_ & -> & Heq)%field_bytes_inj; [|by destruct f; destruct_and?|by destruct f'; destruct_and?].
      destruct f, f'; destruct_and?; apply field_bytes_inj in Heq as (Hk & Hd & Heq); try done;
        subst; f_equal; by apply IH.
Qed.

(** ** What a load yields *)

Section load.
Context `{GoUnicode}.
Context (decode : string → outcome string (list yamlVM)).
Context (range : gmap string string → list (string * string)).
Context (range_perm : ∀ m, range m ≡ₚ map_to_list m).

(** The address an entry declares, if any, is IPv4. *)
Definition address_ok (vm : yamlVM) : Prop :=
  TrimSpace (YPublicIPv4 vm) ≠ "" → is_Some (ParseIP (TrimSpace (YPublicIPv4 vm)) ≫= To4).
(** The entry that counts for a VM ID: the last. *)
Definition entry_of (vms : list yamlVM) (id : string) : option yamlVM :=
  if decide (id = "") then None else last (filter (λ vm, YID vm = id) vms).

(** An entry declares a tag. *)
Definition declares (vm : yamlVM) (k v : string) : Prop :=
  ∃ k0 v0, YTags vm !! k0 = Some v0 ∧ TrimSpace k0 = k ∧ TrimSpace v0 = v ∧
    ValidTagKey k = true ∧ ValidTagValue v = true.

Lemma load_raw_Ok vm : is_ok (load_raw vm) = true ↔ address_ok vm.
Proof.
  unfold load_raw, address_ok. cbn zeta. case_bool_decide as Hd; [cbn; naive_solver|].
  destruct (ParseIP _ ≫= To4) as [v4|]; cbn; split; [by eexists|done|done|].
  intros Hs. by destruct (Hs Hd).
Qed.

Lemma load_raw_address vm raw : load_raw vm = Ok raw →
  (raw !! "name" = Some (YName vm)) ∧
  ∀ a, raw !! "public-ipv4" = Some a → ∃ v4, ParseIP (TrimSpace (YPublicIPv4 vm)) ≫= To4 = Some v4 ∧
    a = ip4_string v4 ∧ ParseIP a ≫= To4 = Some v4.
Proof.
  unfold load_raw. cbn zeta. case_bool_decide.
  - intros [= <-]. rewrite lookup_singleton_eq. split; [done|]. by rewrite lookup_singleton_ne.
  - destruct (ParseIP _ ≫= To4) as [v4|] eqn:Hp; [|done]. intros [= <-].
    rewrite lookup_insert_ne, lookup_singleton_eq by done. split; [done|].
    intros a. rewrite lookup_insert_eq. intros [= <-]. exists v4. split_and!; [done..|].
    apply bind_Some in Hp as (ip & Hip & H4). destruct (To4_bytes _ _ _ Hip H4) as (a & b & c & d & -> & Hb).
    rewrite parse_ip4_string by done. apply To4_prefix.
Qed.

Lemma load_tags_sound vm k v : load_tags range (YTags vm) !! k = Some v → declares vm k v.
Proof.
  unfold load_tags. assert (∀ kv, kv ∈ range (YTags vm) → YTags vm !! kv.1 = Some kv.2) as Hin.
  { intros [k0 v0]. rewrite range_perm. apply elem_of_map_to_list. }
  revert Hin. generalize (range (YTags vm)) as l. intros l Hin.
  assert (∀ t, foldl load_tag t l !! k = Some v → t !! k = Some v ∨ declares vm k v) as Hgen.
  { revert Hin. induction l as [|[k0 v0] l IH]; intros Hin t; cbn [foldl]; [by left|]. intros Hl.
    apply IH in Hl as [Hl|]; [|by right|intros; apply Hin; by right]. revert Hl. unfold load_tag.
    cbn zeta. cbn [fst snd]. destruct (_ || _) eqn:Hv; [by left|]. bool_to_prop.
    rewrite lookup_insert. case_decide; [|by left]. intros [= <-]. right. subst k.
    exists k0, v0. split_and!; [apply (Hin (k0, v0)); by left|done..]. }
  intros Hl. by apply Hgen in Hl as [Hl|].
Qed.

Lemma load_tags_complete vm k v :
  declares vm k v → (∀ v', declares vm k v' → v' = v) → load_tags range (YTags vm) !! k = Some v.
Proof.
  intros (k0 & v0 & Hl & Hk & Hv & Vk & Vv) Huniq.
  assert (∃ v', load_tags range (YTags vm) !! k = Some v') as [v' Hv'].
  2:{ rewrite Hv'. f_equal. by eapply Huniq, load_tags_sound. }
  unfold load_tags. assert ((k0, v0) ∈ range (YTags vm)) as Hin.
  { rewrite range_perm. by apply elem_of_map_to_list. }
  revert Hin. generalize (range (YTags vm)) as l. intros l.
  assert (∀ t, is_Some (t !! k) ∨ (k0, v0) ∈ l → is_Some (foldl load_tag t l !! k)) as Hgen.
  { induction l as [|[k1 v1] l IH]; intros t; cbn [foldl].
    - intros [?|?%not_elem_of_nil]; done.
    - intros Hcase. apply IH. rewrite elem_of_cons in Hcase.
      destruct Hcase as [Ht|[[= <- <-]|?]]; [left|left|by right].
      + unfold load_tag. cbn zeta. destruct (_ || _); [done|]. apply lookup_insert_is_Some'. by right.
      + unfold load_tag. cbn zeta. cbn [fst snd]. rewrite Hk, Hv, Vk, Vv. apply lookup_insert_is_Some'. by left. }
  intros Hin. apply Hgen. by right.
Qed.

Lemma load_vms_spec vms out :
  match load_vms range vms out with
  | Ok m => (∀ vm, vm ∈ vms → YID vm ≠ "" → address_ok vm) ∧
      ∀ id, match entry_of vms id with
            | None => m !! id = out !! id
            | Some vm => ∃ c, load_vm range vm = Ok c ∧ m !! id = Some c
            end
  | Err _ => ∃ vm, vm ∈ vms ∧ YID vm ≠ "" ∧ ¬ address_ok vm
  end.
Proof.
  revert out. induction vms as [|vm vms IH]; intros out; cbn [load_vms].
  { split; [by intros ? ?%not_elem_of_nil|]. intros id. unfold entry_of. by case_decide. }
  assert (∀ id, entry_of (vm :: vms) id = if decide (id = "" ∨ YID vm ≠ id) then entry_of vms id
    else Some (default vm (entry_of vms id))) as He.
  { intros id. unfold entry_of. rewrite filter_cons. repeat case_decide; try done; try tauto.
    rewrite last_cons. by case_match. }
  case_bool_decide as Hid.
  { specialize (IH out). destruct (load_vms range vms out) as [m|].
    - destruct IH as [Ha Hm]. split; [intros vm' [->|?]%elem_of_cons; [done|by apply Ha]|].
      intros id. rewrite He. case_decide as Hd; [apply Hm|]. exfalso. apply Hd.
      destruct (decide (id = "")); [by left|right; congruence].
    - destruct IH as (vm' & ? & ?). exists vm'. split; [by right|done]. }
  unfold load_vm at 1. pose proof (load_raw_Ok vm) as Hok.
  destruct (load_raw vm) as [raw|] eqn:Hraw; cbn in Hok |- *.
  2:{ exists vm. split_and!; [by left|done|]. intros Ha%Hok. done. }
  set (c := mkVM _ _ _ _ _ _). specialize (IH (<[YID vm := c]> out)).
  destruct (load_vms range vms _) as [m|].
  - destruct IH as [Ha Hm]. split; [intros vm' [->|?]%elem_of_cons; [intros _; by apply Hok|by apply Ha]|].
    intros id. specialize (Hm id). rewrite He. case_decide as Hd.
    + destruct (entry_of vms id); [done|]. rewrite Hm, lookup_insert_ne; [done|].
      intros <-. by destruct Hd.
    + destruct (entry_of vms id); [done|]. cbn [default]. exists c. split.
      * unfold load_vm. by rewrite Hraw.
      * rewrite Hm, lookup_insert, decide_True; [done|]. apply dec_stable. tauto.
  - destruct IH as (vm' & ? & ?). exists vm'. split; [by right|done].
Qed.

End load.

(** ** Example *)

Definition demo_yaml : list yamlVM :=
  [mkYaml "101" "old" [] "" "" "" "" ∅;
   mkYaml "" "nameless" [] "" "not an address" "" "" ∅;
   mkYaml "101" "web" [" BC:24:11:00:00:01"; ""] "AB12" " ::ffff:203.0.113.7 " "z1" ""
     {[ " role " := "front"; "bad.key" := "x" ]}].
Definition demo_decode (data : string) : outcome string (list yamlVM) := Ok demo_yaml.

Example demo_load :
  LoadYAML (H := caseless) demo_decode map_to_list (Ok "") = Ok {[ "101" :=
    mkVM "101" "web" {[ "public-ipv4" := "203.0.113.7"; "name" := "web" ]} {[ "role" := "front" ]}
      ["bc:24:11:00:00:01"] "ab12" ]}.
Proof. apply (bool_decide_unpack _). by vm_compute. Qed.

