(* ===== verification/Proxmox.v ===== *)
(** * The Proxmox inventory (internal/proxmox/vmconfig.go, fingerprint.go)

    [/etc/pve] is a snapshot of what the service reads of it ([pve]): the target of
    the local link, the guest configs that [filepath.Glob] lists, the node's own
    config and corosync.conf. The regular expressions are written out as the
    functions they are; log lines are left out. *)

From S2P Require Import Prelude.
From S2P Require Import Go.
From S2P Require Import Net.
From S2P Require Import Inventory.
From S2P Require Import Pins.
From Stdlib Require Import Ascii.

(** ** Paths and text *)

Definition HasSuffix (s p : string) : bool := HasPrefix (srev s) (srev p).
Definition TrimSuffix (s p : string) : string :=
  if HasSuffix s p then srev (sdrop (String.length p) (srev s)) else s.

(** [filepath.Clean]: the elements kept so far, last first. *)
Definition clean_step (rooted : bool) (acc : list string) (e : string) : list string :=
  if bool_decide (e = "") || bool_decide (e = ".") then acc
  else if bool_decide (e = "..") then
    match acc with
    | [] => if rooted then [] else [".."]
    | top :: acc' => if bool_decide (top = "..") then ".." :: acc else acc'
    end
  else e :: acc.
Definition Clean (path : string) : string :=
  let rooted := HasPrefix path "/" in
  let body := Join (rev (foldl (clean_step rooted) [] (Split path "/"))) "/" in
  if rooted then "/" +:+ body else if bool_decide (body = "") then "." else body.
Definition JoinPath (elems : list string) : string :=
  match filter (λ e, e ≠ "") elems with [] => "" | l => Clean (Join l "/") end.

(** [\s] of a regular expression, which has no vertical tab. *)
Definition re_space (c : ascii) : bool :=
  (byte c =? 9)%Z || (byte c =? 10)%Z || (byte c =? 12)%Z || (byte c =? 13)%Z || (byte c =? 32)%Z.
Fixpoint skip (p : ascii → bool) (s : string) : string :=
  match s with "" => "" | String c s' => if p c then skip p s' else s end.
Fixpoint run (p : ascii → bool) (s : string) : string :=
  match s with "" => "" | String c s' => if p c then String c (run p s') else "" end.

(** ** Guest configs *)

(** [netPattern]: the MAC of a virtio NIC line. *)
Definition mac_char (c : ascii) : bool := is_hex c || in_range 65 70 c || bool_decide (c = ":"%char).
Definition net_mac (line : string) : option string :=
  let '(r, ok) := CutPrefix line "net" in
  if negb ok || bool_decide (run is_digit r = "") then None
  else
    match skip is_digit r with
    | "" => None
    | String c r =>
        if negb (bool_decide (c = ":"%char) || bool_decide (c = "="%char)) then None
        else
          let '(r, ok) := CutPrefix (skip re_space r) "virtio=" in
          let mac := String.substring 0 17 r in
          if ok && (String.length mac =? 17) && sforall mac_char mac then Some mac else None
    end.

Definition SplitKV (line : string) : option (string * string) :=
  let '(k, v, ok) := Cut line ":" in
  if ok then Some (k, v)
  else let '(k, v, ok) := Cut line "=" in if ok then Some (k, v) else None.

Section conf.
Context `{GoUnicode}.

(** One line of the live section. *)
Definition conf_line (line : string) (st : gmap string string * list string)
    : gmap string string * list string :=
  let raw :=
    match SplitKV line with
    | Some (k, v) =>
        let key := TrimSpace k in
        if bool_decide (key = "public-ipv4") then st.1 else <[key := TrimSpace v]> st.1
    | None => st.1
    end in
  (raw, match net_mac line with Some mac => st.2 ++ [ToLower mac] | None => st.2 end).

Fixpoint conf_lines (lines : list string) (st : gmap string string * list string)
    : gmap string string * list string :=
  match lines with
  | [] => st
  | line :: lines =>
      let line := TrimSpace line in
      if HasPrefix line "[" then st
      else if bool_decide (line = "") || HasPrefix line "#" then conf_lines lines st
      else conf_lines lines (conf_line line st)
  end.

(** *** Instance tags *)

Definition tagPrefix : string := "vtpm_mds.io.".
Record tagEntry := mkTag { tag_value : string; tag_ok : bool }.

(** What a tag with the prefix declares: its key and entry. *)
Definition tag_entry (tag : string) : option (string * tagEntry) :=
  if negb (HasPrefix (ToLower tag) tagPrefix) then None
  else
    let '(key, value, hasValue) := Cut (sdrop (String.length tagPrefix) tag) "." in
    Some (key, mkTag value (hasValue && ValidTagKey key && ValidTagValue value)).

Definition tag_step (st : gmap string (list tagEntry) * list string) (tag : string)
    : gmap string (list tagEntry) * list string :=
  match tag_entry tag with
  | None => st
  | Some (key, e) =>
      (<[key := default [] (st.1 !! key) ++ [e]]> st.1,
       if bool_decide (is_Some (st.1 !! key)) then st.2 else st.2 ++ [key])
  end.

Definition tag_use (entries : gmap string (list tagEntry)) (out : gmap string string) (key : string)
    : gmap string string :=
  match entries !! key with
  | Some [e] => if tag_ok e then <[key := tag_value e]> out else out
  | _ => out
  end.

Definition instanceTags (tags : string) : gmap string string :=
  let st := foldl tag_step (∅, []) (TagFields tags) in
  foldl (tag_use st.1) ∅ st.2.

Definition parseVMConfig (vmid data : string) : VMConfig :=
  let st := conf_lines (Split data lf) (∅, []) in
  mkVM vmid (default "" (st.1 !! "name")) st.1 (instanceTags (default "" (st.1 !! "tags"))) st.2 "".
End conf.

(** ** The directory *)

Record pve := mkPve {
  local_link : outcome string string;
  conf_dir : outcome string ();
  conf_glob : outcome string (list (string * file_state));   (* paths, sorted *)
  node_config : file_state;
  corosync : file_state;
}.

Definition DefaultRoot : string := "/etc/pve".
Definition root_of (pveRoot : string) : string := if bool_decide (pveRoot = "") then DefaultRoot else pveRoot.
Definition vmid_of (configFile : string) : string := TrimSuffix (Base configFile) ".conf".

Section backend.
Context `{GoUnicode}.

Definition add_conf (m : VMConfigMap) (f : string * file_state) : VMConfigMap :=
  match f.2 with
  | Content data => <[vmid_of f.1 := parseVMConfig (vmid_of f.1) data]> m
  | _ => m
  end.

Definition ParseVMConfigs (pveRoot : string) (p : pve) : outcome string VMConfigMap :=
  let configDir := JoinPath [root_of pveRoot; "local"; "qemu-server"] in
  match conf_dir p with
  | Err e => Err ("failed to read " +:+ configDir +:+ ": " +:+ e)
  | Ok _ =>
      match conf_glob p with
      | Err e => Err ("failed to list VM config files: " +:+ e)
      | Ok files => Ok (foldl add_conf ∅ files)
      end
  end.

(** ** Topology *)

(** [clusterNamePattern]: at each start of a line, white space (line ends
    included), the keyword, white space, a word. *)
Definition cluster_at (s : string) : option string :=
  let '(r, ok) := CutPrefix (skip re_space s) "cluster_name:" in
  let word := run (fun c => negb (re_space c)) (skip re_space r) in
  if ok && negb (bool_decide (word = "")) then Some word else None.
Fixpoint cluster_find (at_start : bool) (s : string) : option string :=
  match (if at_start then cluster_at s else None) with
  | Some w => Some w
  | None =>
      match s with
      | "" => None
      | String c s => cluster_find (bool_decide (c = lf)) s
      end
  end.

(** [url.PathUnescape], [None] for a malformed escape. *)
Fixpoint PathUnescape (s : string) : option string :=
  match s with
  | "" => Some ""
  | String c r =>
      if bool_decide (c = "%"%char) then
        match r with
        | String a (String b r) =>
            x ← hex_value a; y ← hex_value b; r ← PathUnescape r;
            Some (String (chr (x * 16 + y)) r)
        | _ => None
        end
      else r ← PathUnescape r; Some (String c r)
  end.

Definition topologyPrefix : string := "topology.vtpm_mds.io/".
Definition trim_right_re (s : string) : string := srev (skip re_space (srev s)).
(** [descriptionLine]: key and value. A value has no line break. *)
Definition description_line (decoded : string) : option (string * string) :=
  let '(r, ok) := CutPrefix (skip re_space decoded) topologyPrefix in
  let '(key, r, colon) := Cut r ":" in
  let value := trim_right_re (skip re_space r) in
  if ok && colon && negb (ContainsByte lf value) then Some (key, value) else None.

(** What a line of the node's config declares. *)
Definition declared_line (line : string) : option (string * string) :=
  let line := TrimSpace line in
  if negb (HasPrefix line "#") then None
  else
    '(key, value) ← PathUnescape (TrimPrefix line "#") ≫= description_line;
    let key := if bool_decide (key = "zone") then "availability-zone" else key in
    if ValidTopologyKey key then Some (key, value) else None.

Definition maxTopologyKeys : nat := 64.

Definition add_found (found : gmap string (list string)) (kv : string * string)
    : gmap string (list string) :=
  <[kv.1 := default [] (found !! kv.1) ++ [kv.2]]> found.
Definition use_found (found : gmap string (list string)) (out : gmap string string) (key : string)
    : gmap string string :=
  match found !! key with
  | Some [v] =>
      if negb (ValidPlacementName v) then out
      else if maxTopologyKeys <=? size out then out
      else <[key := v]> out
  | _ => out
  end.

Definition descriptionTopology (f : file_state) : gmap string string :=
  match f with
  | Content data =>
      let found := foldl add_found ∅ (omap declared_line (Split data lf)) in
      foldl (use_found found) ∅ (SortStrings (map_to_list found).*1)
  | _ => ∅
  end.

Definition HostTopology (p : pve) : Topology :=
  let topology := DefaultTopology in
  let topology :=
    match local_link p with
    | Ok target =>
        let node := Base (Clean target) in
        if ValidPlacementName node then <["node" := node]> (<["availability-zone" := node]> topology)
        else topology
    | Err _ => topology
    end in
  let topology :=
    match corosync p with
    | Content data =>
        match cluster_find true data with
        | Some cluster =>
            if ValidPlacementName cluster then <["cluster" := cluster]> (<["region" := cluster]> topology)
            else topology
        | None => topology
        end
    | _ => topology
    end in
  descriptionTopology (node_config p) ∪ topology.
End backend.

(** ** The fingerprint of the sources *)

Definition SourceFingerprint (pveRoot : string) (p : pve) : list fp_input :=
  let local := JoinPath [root_of pveRoot; "local"] in
  AddString (match local_link p with
             | Ok target => "local->" +:+ target
             | Err e => "local!" +:+ e
             end)
  :: match conf_dir p with
     | Err e => [AddString ("qemu-server!" +:+ e)]
     | Ok _ =>
         match conf_glob p with
         | Err e => [AddString ("glob!" +:+ e)]
         | Ok files => (fun f => AddFile f.1 f.2) <$> files
         end
     end
  ++ [AddFile (JoinPath [local; "config"]) (node_config p);
      AddFile (JoinPath [root_of pveRoot; "corosync.conf"]) (corosync p)].

(** ** Examples *)

Definition demo_conf : string :=
  Join ["# a comment"; "name: web"; "net0: virtio=BC:24:11:00:00:01,bridge=vmbr9"; "public-ipv4: 1.2.3.4";
        "tags: vtpm_mds.io.role.front;VTPM_MDS.io.tier.a;vtpm_mds.io.tier.b;other"; "[snap]"; "name: old"] lf_string.
Definition demo_pve : pve :=
  mkPve (Ok "nodes/pve1") (Ok ()) (Ok [("/etc/pve/local/qemu-server/101.conf", Content demo_conf)])
    (Content (Join ["#topology.vtpm_mds.io/zone%3A AZ4"; "#topology.vtpm_mds.io/rack%3A r1";
                    "#topology.vtpm_mds.io/rack%3A r2"] lf_string))
    (Content (Join ["totem {"; "  cluster_name: prod"; "}"] lf_string)).

Example demo_guest :
  ParseVMConfigs (H := caseless) "" demo_pve = Ok {[ "101" :=
    mkVM "101" "web" {[ "name" := "web"; "net0" := "virtio=BC:24:11:00:00:01,bridge=vmbr9";
      "tags" := "vtpm_mds.io.role.front;VTPM_MDS.io.tier.a;vtpm_mds.io.tier.b;other" ]}
      {[ "role" := "front" ]} ["bc:24:11:00:00:01"] "" ]} ∧
  HostTopology demo_pve = {[ "availability-zone" := "AZ4"; "node" := "pve1"; "region" := "prod"; "cluster" := "prod" ]}.
Proof. apply (bool_decide_unpack _). by vm_compute. Qed.
Example paths :
  Clean "/a/./b/../c//" = "/a/c" ∧ Clean "../../x" = "../../x" ∧ Clean "" = "." ∧ Clean "/.." = "/" ∧
  JoinPath ["/etc/pve"; "local"; "config"] = "/etc/pve/local/config" ∧ vmid_of "/x/101.conf" = "101".
Proof. by vm_compute. Qed.
