(* ===== verification/ProxmoxProofs.v ===== *)
(** * The Proxmox inventory: what it serves

    An instance tag is served when exactly one tag declares it ([instance_tags_exact]);
    the topology takes each key from its first valid source ([host_topology_exact]);
    sources with one fingerprint are one inventory ([same_fingerprint_same_inventory]). *)

From S2P Require Import Prelude.
From S2P Require Import Go.
From S2P Require Import Net.
From S2P Require Import Inventory.
From S2P Require Import Pins.
From S2P Require Import Proxmox.
From Stdlib Require Import Ascii.

(** ** Grouping by key

    Both [instanceTags] and [descriptionTopology] collect what is declared for each
    key, in order, and use a key that is declared once. *)

Section grouping.
Context {B : Type}.
Implicit Types (l : list (string * B)) (k : string).

(** What [l] declares for [k]. *)
Definition for_key l k : list B := (filter (λ kv, kv.1 = k) l).*2.

Definition add_group (found : gmap string (list B)) (kv : string * B) : gmap string (list B) :=
  <[kv.1 := default [] (found !! kv.1) ++ [kv.2]]> found.

Lemma for_key_cons k v l k' :
  for_key ((k, v) :: l) k' = (if decide (k = k') then [v] else []) ++ for_key l k'.
Proof. unfold for_key. rewrite filter_cons. cbn [fst]. by case_decide. Qed.

Lemma groups l k :
  foldl add_group ∅ l !! k = if decide (for_key l k = []) then None else Some (for_key l k).
Proof.
  assert (∀ m, foldl add_group m l !! k =
    if decide (for_key l k = []) then m !! k else Some (default [] (m !! k) ++ for_key l k)) as Hgen.
  { induction l as [|[k1 v1] l IH]; intros m; cbn [foldl]; [done|].
    rewrite IH, for_key_cons. unfold add_group. cbn [fst snd]. rewrite lookup_insert.
    destruct (decide (k1 = k)) as [->|Hk]; cbn [app]; [|done].
    rewrite (decide_False (P := _ :: _ = [])) by done. case_decide as Hnil; [by rewrite Hnil|].
    cbn. by rewrite <-app_assoc. }
  rewrite Hgen, lookup_empty. done.
Qed.
End grouping.

(** A fold that sets a key only when it meets it. *)
Lemma fold_uses {A} (use : gmap string A → string → gmap string A) (want : string → option A) :
  (∀ out k k', k' ≠ k → use out k !! k' = out !! k') →
  (∀ out k, use out k !! k = match want k with Some v => Some v | None => out !! k end) →
  ∀ keys out k, foldl use out keys !! k = if decide (k ∈ keys ∧ is_Some (want k)) then want k else out !! k.
Proof.
  intros Hother Hself keys. induction keys as [|k0 keys IH]; intros out k; cbn [foldl].
  { rewrite decide_False; [done|]. by intros [?%not_elem_of_nil _]. }
  rewrite IH. destruct (decide (k = k0)) as [->|Hne].
  - rewrite Hself. destruct (want k0) as [v|] eqn:Hw.
    + rewrite (decide_True (P := k0 ∈ k0 :: keys ∧ _)) by (split; [by left|by eexists]). by case_decide.
    + by rewrite !decide_False by (intros [_ [? [=]]]).
  - rewrite Hother by done. destruct (decide (k ∈ keys ∧ is_Some (want k))) as [Hk|Hk].
    + rewrite decide_True; [done|]. destruct Hk. split; [by right|done].
    + rewrite decide_False; [done|]. intros [[->|?]%elem_of_cons ?]; [done|]. by apply Hk.
Qed.

(** ** Instance tags *)

Section tags.
Context `{GoUnicode}.

(** The tags of a VM that carry the prefix, as what they declare. *)
Definition declared_tags (tags : string) : list (string * tagEntry) := omap tag_entry (TagFields tags).

(** What a key's entries make of it. *)
Definition sole_tag (l : list tagEntry) : option string :=
  match l with [e] => if tag_ok e then Some (tag_value e) else None | _ => None end.

Lemma tag_steps fields st :
  (∀ k, k ∈ st.2 ↔ is_Some (st.1 !! k)) →
  let st' := foldl tag_step st fields in
  st'.1 = foldl add_group st.1 (omap tag_entry fields) ∧ ∀ k, k ∈ st'.2 ↔ is_Some (st'.1 !! k).
Proof.
  revert st. induction fields as [|tag fields IH]; intros st Hst; [done|]. cbn [omap list_omap foldl].
  destruct (tag_entry tag) as [[key e]|] eqn:E.
  2:{ assert (tag_step st tag = st) as -> by (unfold tag_step; by rewrite E). by apply IH. }
  assert (tag_step st tag = (add_group st.1 (key, e),
    if bool_decide (is_Some (st.1 !! key)) then st.2 else st.2 ++ [key])) as ->
    by (unfold tag_step; by rewrite E).
  cbn [foldl]. apply (IH (_, _)). intros k. cbn [fst snd]. unfold add_group. cbn [fst snd].
  rewrite lookup_insert. case_bool_decide as Hs.
  - rewrite Hst. case_decide as Hk; [|done]. subst k. split; [by eexists|done].
  - rewrite elem_of_app, list_elem_of_singleton, Hst. case_decide as Hk.
    + subst k. split; [by eexists|by right].
    + split; [intros [?|?]; [done|congruence]|by left].
Qed.

(** The tags a key is declared by once, in a valid way. *)
Lemma instance_tags_lookup tags k : instanceTags tags !! k = sole_tag (for_key (declared_tags tags) k).
Proof.
  unfold instanceTags. cbn zeta.
  destruct (tag_steps (TagFields tags) (∅, [])) as [Hm Hk].
  { intros k'. cbn [fst snd]. rewrite lookup_empty. split; [by intros ?%not_elem_of_nil|by intros [? ?]]. }
  rewrite Hm in *. cbn [fst] in *. fold (declared_tags tags) in *.
  set (want k := sole_tag (for_key (declared_tags tags) k)).
  assert (∀ k, (foldl add_group ∅ (declared_tags tags) !! k) ≫=
    (λ l, sole_tag l) = want k) as Hw.
  { intros k'. unfold want. rewrite groups. case_decide as Hn; [by rewrite Hn|done]. }
  rewrite (fold_uses (tag_use (foldl add_group ∅ (declared_tags tags))) want).
  - change (sole_tag (for_key (declared_tags tags) k)) with (want k).
    case_decide as Hd; [done|]. rewrite lookup_empty. destruct (want k) as [v|] eqn:E; [|done].
    exfalso. apply Hd. split; [|done]. apply Hk. rewrite <-Hw in E.
    by apply bind_Some in E as (l & -> & _).
  - intros out k1 k2 Hne. unfold tag_use. repeat case_match; try done. by rewrite lookup_insert_ne.
  - intros out k1. rewrite <-Hw. unfold tag_use, sole_tag.
    destruct (foldl _ _ _ !! k1) as [[|e [|]]|]; cbn; try done.
    destruct (tag_ok e); [by rewrite lookup_insert_eq|done].
Qed.

Lemma sole_tag_Some l v : sole_tag l = Some v ↔ ∃ e, l = [e] ∧ tag_ok e = true ∧ tag_value e = v.
Proof.
  split.
  - destruct l as [|e [|]]; cbn; try done. destruct (tag_ok e) eqn:E; [intros [= <-]; eauto|done].
  - intros (e & -> & Hok & <-). cbn. by rewrite Hok.
Qed.

(** What a prefixed tag declares is valid when it says so. *)
Lemma declared_tag_valid tags k e :
  (k, e) ∈ declared_tags tags → tag_ok e = true → ValidTagKey k = true ∧ ValidTagValue (tag_value e) = true.
Proof.
  unfold declared_tags. rewrite list_elem_of_omap. intros (tag & _ & He). revert He. unfold tag_entry.
  destruct (HasPrefix _ _); [|done]. cbn [negb]. destruct (Cut _ _) as [[key value] hv].
  intros [= <- <-]. cbn. rewrite !andb_true_iff. tauto.
Qed.
Lemma for_key_elem {B} (l : list (string * B)) k v : v ∈ for_key l k ↔ (k, v) ∈ l.
Proof.
  unfold for_key. rewrite list_elem_of_fmap. split.
  - intros ([k' v'] & -> & [Hk ?]%list_elem_of_filter). cbn in Hk. by subst.
  - intros Hl. exists (k, v). split; [done|]. by apply list_elem_of_filter.
Qed.

(** ** A guest's record *)

Lemma conf_lines_app l l' st :
  (∀ x, x ∈ l → HasPrefix (TrimSpace x) "[" = false) →
  conf_lines (l ++ l') st = conf_lines l' (conf_lines l st).
Proof.
  revert st. induction l as [|x l IH]; intros st Hl; cbn [app conf_lines]; [done|].
  rewrite Hl by by left. assert (∀ y, y ∈ l → HasPrefix (TrimSpace y) "[" = false) by (intros; apply Hl; by right).
  destruct (_ || _); by apply IH.
Qed.
Lemma conf_lines_section l x rest st :
  HasPrefix (TrimSpace x) "[" = true → conf_lines (l ++ x :: rest) st = conf_lines l st.
Proof.
  intros Hx. revert st. induction l as [|y l IH]; intros st; cbn [app conf_lines].
  { by rewrite Hx. }
  destruct (HasPrefix (TrimSpace y) "["); [done|]. destruct (_ || _); apply IH.
Qed.
Lemma conf_lines_address l st :
  st.1 !! "public-ipv4" = None → (conf_lines l st).1 !! "public-ipv4" = None.
Proof.
  revert st. induction l as [|x l IH]; intros st Hst; cbn [conf_lines]; [done|].
  destruct (HasPrefix _ _); [done|]. destruct (_ || _); [by apply IH|]. apply IH.
  unfold conf_line. cbn [fst]. destruct (SplitKV _) as [[k v]|]; [|done]. cbn zeta.
  case_bool_decide; [done|]. by rewrite lookup_insert_ne.
Qed.

Lemma Split_not_nil s c : Split s c ≠ [].
Proof. destruct s as [|d s]; cbn; [done|]. case_bool_decide; [done|]. by destruct (Split s c). Qed.
Lemma Split_app_any a c b : Split (a +:+ String c b) c = Split a c ++ Split b c.
Proof.
  induction a as [|d a IH]; cbn [String.append Split].
  - by rewrite bool_decide_eq_true_2.
  - rewrite IH. case_bool_decide; [done|]. pose proof (Split_not_nil a c). by destruct (Split a c).
Qed.

(** C27: a guest's record describes the running guest: whatever follows the first
    section header changes nothing. It never carries a public address, and an
    instance tag is in it exactly when one tag with the prefix declares its key,
    and that tag is valid; keys and values are then safe to serve. *)
Theorem guest_record_exact vmid live header rest :
  ContainsByte lf header = false → HasPrefix (TrimSpace header) "[" = true →
  let c := parseVMConfig vmid live in
  parseVMConfig vmid (live +:+ String lf (header +:+ String lf rest)) = c ∧
  VMID c = vmid ∧ RawConfig c !! "public-ipv4" = None ∧
  ∀ k v, Tags c !! k = Some v ↔
    ∃ e, for_key (declared_tags (default "" (RawConfig c !! "tags"))) k = [e] ∧ tag_ok e = true ∧
      tag_value e = v ∧ ValidTagKey k = true ∧ ValidTagValue v = true.
Proof.
  intros Hlf Hh. split_and!.
  - unfold parseVMConfig. rewrite Split_app_any, Split_app, conf_lines_section by done. done.
  - done.
  - apply conf_lines_address. apply lookup_empty.
  - intros k v. unfold parseVMConfig. cbn [Tags RawConfig].
    rewrite instance_tags_lookup, sole_tag_Some. split.
    + intros (e & Hl & Hok & <-). exists e. split_and!; try done;
        eapply declared_tag_valid; try done; apply for_key_elem; rewrite Hl; by left.
    + intros (e & Hl & Hok & Hv & _). eauto.
Qed.
End tags.

(** ** Topology *)

(** What the lines of a node's description declare. *)
Definition described (f : file_state) : list (string * string) :=
  match f with Content data => omap declared_line (Split data lf) | _ => [] end.
(** A key that one line declares, with a valid value. *)
Definition sole_valid (l : list string) : option string :=
  match l with [v] => if ValidPlacementName v then Some v else None | _ => None end.
Definition usable (f : file_state) (k : string) : Prop := is_Some (sole_valid (for_key (described f) k)).
#[export] Instance usable_dec f k : Decision (usable f k).
Proof. unfold usable. apply _. Defined.
(** The keys the description is read for: the first of the usable ones, in order. *)
Definition description_keys (f : file_state) : list string :=
  take maxTopologyKeys (filter (usable f) (SortStrings (map_to_list (foldl add_group ∅ (described f))).*1)).

Lemma use_found_step found out k :
  use_found found out k =
  match found !! k ≫= sole_valid with
  | Some v => if maxTopologyKeys <=? size out then out else <[k := v]> out
  | None => out
  end.
Proof.
  unfold use_found, sole_valid. destruct (found !! k) as [[|v [|]]|]; cbn; try done.
  by destruct (ValidPlacementName v).
Qed.

Lemma use_found_run (found : gmap string (list string)) keys :
  let want k := found !! k ≫= sole_valid in
  NoDup keys → ∀ out, (∀ k, k ∈ keys → out !! k = None) →
  let chosen := take (maxTopologyKeys - size out) (filter (λ k, is_Some (want k)) keys) in
  (∀ k, foldl (use_found found) out keys !! k = if decide (k ∈ chosen) then want k else out !! k) ∧
  size (foldl (use_found found) out keys) = size out + length chosen.
Proof.
  intros want. induction keys as [|k0 keys IH]; intros Hnd out Hout; cbn zeta.
  { cbn [filter list_filter foldl]. rewrite take_nil. split; [|cbn; lia]. intros k.
    rewrite decide_False; [done|apply not_elem_of_nil]. }
  apply NoDup_cons in Hnd as [Hk0 Hnd]. cbn [foldl]. rewrite filter_cons, use_found_step.
  fold (want k0). specialize (IH Hnd). destruct (want k0) as [v|] eqn:Hw.
  2:{ rewrite decide_False by (by intros [? [=]]). apply IH. intros; apply Hout; by right. }
  rewrite decide_True by by eexists. destruct (Nat.leb_spec maxTopologyKeys (size out)).
  { replace (maxTopologyKeys - size out) with 0 by lia.
    specialize (IH out ltac:(intros; apply Hout; by right)). cbn zeta in IH.
    by replace (maxTopologyKeys - size out) with 0 in IH by lia. }
  assert (size (<[k0 := v]> out) = S (size out)) as Hsize.
  { apply map_size_insert_None, Hout. by left. }
  destruct (IH (<[k0 := v]> out)) as [Hl Hs].
  { intros k Hk. rewrite lookup_insert_ne; [apply Hout; by right|]. by intros ->. }
  rewrite Hsize in Hl, Hs. replace (maxTopologyKeys - size out) with (S (maxTopologyKeys - S (size out))) by lia.
  cbn [take length]. split; [|rewrite Hs; lia]. intros k. rewrite Hl.
  destruct (decide (k = k0)) as [->|Hne].
  - rewrite (decide_True (P := k0 ∈ k0 :: _)) by by left. rewrite decide_False, lookup_insert_eq; [done|].
    intros [_ ?]%subseteq_take%list_elem_of_filter. done.
  - rewrite lookup_insert_ne by done. apply decide_ext. rewrite elem_of_cons. tauto.
Qed.

Lemma declared_line_valid line k v : declared_line line = Some (k, v) → ValidTopologyKey k = true.
Proof.
  unfold declared_line. destruct (HasPrefix _ _); [|done]. cbn [negb].
  destruct (PathUnescape _ ≫= description_line) as [[k0 v0]|]; cbn; [|done].
  destruct (ValidTopologyKey _) eqn:E; [|done]. by intros [= <- _].
Qed.
Lemma described_valid f k v : (k, v) ∈ described f → ValidTopologyKey k = true.
Proof.
  destruct f; cbn; [|by intros ?%not_elem_of_nil..].
  rewrite list_elem_of_omap. intros (l & _ & Hl). by eapply declared_line_valid.
Qed.

Lemma sorted_keys_nodup {B} (m : gmap string B) : NoDup (SortStrings (map_to_list m).*1).
Proof. unfold SortStrings. rewrite merge_sort_Permutation. apply NoDup_fst_map_to_list. Qed.

Lemma description_lookup f k :
  descriptionTopology f !! k =
    (if decide (k ∈ description_keys f) then sole_valid (for_key (described f) k) else None) ∧
  size (descriptionTopology f) = length (description_keys f).
Proof.
  assert (∀ k, foldl add_group ∅ (described f) !! k ≫= sole_valid = sole_valid (for_key (described f) k)) as Hw.
  { intros k'. rewrite groups. case_decide as Hn; [by rewrite Hn|done]. }
  destruct f as [data| |].
  2,3: change (description_keys _) with (@nil string); cbn [descriptionTopology];
    rewrite map_size_empty, lookup_empty; by case_decide.
  unfold descriptionTopology. cbn zeta. change (foldl add_found) with (foldl (@add_group string)).
  cbn [described] in *. set (found := foldl add_group ∅ _) in *.
  destruct (use_found_run found (SortStrings (map_to_list found).*1)) with (out := (∅ : gmap string string))
    as [Hl Hs]; [apply sorted_keys_nodup|intros; apply lookup_empty|].
  assert (take (maxTopologyKeys - size (∅ : gmap string string))
    (filter (λ k, is_Some (found !! k ≫= sole_valid)) (SortStrings (map_to_list found).*1)) =
    description_keys (Content data)) as Hk.
  { rewrite map_size_empty, Nat.sub_0_r. unfold description_keys. f_equal. apply filter_ext_in.
    intros k' _. unfold usable. cbn [described]. by rewrite Hw. }
  rewrite Hk in Hl, Hs. rewrite Hl, Hs, Hw, map_size_empty, lookup_empty. done.
Qed.

(** The node's name and the cluster's, when they may be served. *)
Definition node_name (p : pve) : option string :=
  match local_link p with
  | Ok target => if ValidPlacementName (Base (Clean target)) then Some (Base (Clean target)) else None
  | Err _ => None
  end.
Definition cluster_name (p : pve) : option string :=
  match corosync p with
  | Content data => w ← cluster_find true data; if ValidPlacementName w then Some w else None
  | _ => None
  end.
(** The source below the description. *)
Definition fallback (p : pve) (k : string) : option string :=
  if bool_decide (k = "availability-zone") then Some (default "proxmox" (node_name p))
  else if bool_decide (k = "region") then Some (default "local" (cluster_name p))
  else if bool_decide (k = "node") then node_name p
  else if bool_decide (k = "cluster") then cluster_name p
  else None.

Lemma host_topology_lookup p k :
  HostTopology p !! k = match descriptionTopology (node_config p) !! k with
                        | Some v => Some v | None => fallback p k end.
Proof.
  unfold HostTopology. cbn zeta. rewrite lookup_union. unfold fallback, cluster_name, node_name.
  set (node := local_link p). set (cor := corosync p).
  assert (∀ k, DefaultTopology !! k = if bool_decide (k = "availability-zone") then Some "proxmox"
    else if bool_decide (k = "region") then Some "local" else None) as Hd.
  { intros k'. unfold DefaultTopology. rewrite lookup_insert. case_decide.
    - by rewrite bool_decide_eq_true_2.
    - rewrite bool_decide_eq_false_2, lookup_singleton by congruence.
      case_decide; [by rewrite bool_decide_eq_true_2|by rewrite bool_decide_eq_false_2 by congruence]. }
  assert (∀ (a b : option string), union a b = match a with Some v => Some v | None => b end) as Hu
    by by intros [] [].
  assert (∀ a b v (m : Topology), <[b := v]> (<[a := v]> m) !! k =
    if bool_decide (k = b) || bool_decide (k = a) then Some v else m !! k) as Htwo.
  { intros a b v m. rewrite !lookup_insert.
    repeat case_decide; repeat case_bool_decide; subst; try done; congruence. }
  rewrite Hu. f_equal. specialize (Hd k). revert Hd. generalize DefaultTopology. intros t0 Ht0.
  set (t1 := match node with Ok _ => _ | Err _ => _ end).
  assert (t1 !! k = if bool_decide (k = "availability-zone") then Some (default "proxmox" (node_name p))
    else if bool_decide (k = "region") then Some "local"
    else if bool_decide (k = "node") then node_name p else None) as Ht1.
  { unfold t1, node_name. fold node.
    destruct node as [target|]; [destruct (ValidPlacementName _); rewrite ?Htwo|]; rewrite Ht0;
      repeat case_bool_decide; subst; done. }
  clearbody t1. unfold node_name in Ht1. fold node in Ht1. clear Ht0.
  destruct cor as [data| |]; [destruct (cluster_find true data) as [w|]; cbn [mbind option_bind];
    [destruct (ValidPlacementName w); rewrite ?Htwo|]|..]; rewrite Ht1; clear;
    repeat case_bool_decide; subst; done.
Qed.

Lemma fallback_valid p k v : fallback p k = Some v → ValidTopologyKey k = true ∧ ValidPlacementName v = true.
Proof.
  unfold fallback, node_name, cluster_name.
  repeat case_bool_decide; subst; intros Hv; try done; (split; [done|]); revert Hv.
  - destruct (local_link p); cbn; [|by intros [= <-]].
    destruct (ValidPlacementName (Base _)) eqn:E; cbn; intros [= <-]; done.
  - destruct (corosync p) as [data| |]; cbn; [|by intros [= <-]..].
    destruct (cluster_find true data) as [w|]; cbn; [|by intros [= <-]].
    destruct (ValidPlacementName w) eqn:E; cbn; intros [= <-]; done.
  - destruct (local_link p); [|done]. destruct (ValidPlacementName (Base _)) eqn:E; [|done]. by intros [= <-].
  - destruct (corosync p) as [data| |]; cbn; [|done..]. destruct (cluster_find true data) as [w|]; cbn; [|done].
    destruct (ValidPlacementName w) eqn:E; [|done]. by intros [= <-].
Qed.

Lemma host_topology_valid p k v :
  HostTopology p !! k = Some v → ValidTopologyKey k = true ∧ ValidPlacementName v = true.
Proof.
  rewrite host_topology_lookup, (proj1 (description_lookup (node_config p) k)).
  destruct (decide _) as [Hk|]; [|apply fallback_valid].
  destruct (sole_valid _) as [v0|] eqn:Hs; [|apply fallback_valid]. intros [= <-]. revert Hs. unfold sole_valid.
  destruct (for_key _ k) as [|v1 [|]] eqn:Hf; try done.
  destruct (ValidPlacementName v1) eqn:Hv; [|done]. intros [= <-]. split; [|done].
  eapply described_valid, for_key_elem. rewrite Hf. by left.
Qed.

(** C28: the host's topology takes each key from its first valid source: the
    node's description when exactly one of its lines declares the key, with a
    valid value, and it is among the first 64 such keys in order; else the node's
    name or the cluster's; else the default. Zone and region are always there, and
    every key is a safe path segment with a valid value. *)
Theorem host_topology_exact p :
  (∀ k, HostTopology p !! k =
     if decide (k ∈ description_keys (node_config p)) then sole_valid (for_key (described (node_config p)) k)
     else fallback p k) ∧
  (∀ k v, HostTopology p !! k = Some v → ValidTopologyKey k = true ∧ ValidPlacementName v = true) ∧
  is_Some (HostTopology p !! "availability-zone") ∧ is_Some (HostTopology p !! "region") ∧
  size (descriptionTopology (node_config p)) ≤ 64.
Proof.
  assert (∀ k, k ∈ description_keys (node_config p) → usable (node_config p) k) as Hus.
  { intros k Hk%subseteq_take%list_elem_of_filter. tauto. }
  assert (∀ k, HostTopology p !! k =
     if decide (k ∈ description_keys (node_config p)) then sole_valid (for_key (described (node_config p)) k)
     else fallback p k) as Hl.
  { intros k. rewrite host_topology_lookup, (proj1 (description_lookup (node_config p) k)).
    case_decide as Hk; [|done]. by destruct (Hus k Hk) as [v ->]. }
  assert (∀ k, is_Some (fallback p k) → is_Some (HostTopology p !! k)) as Hsome.
  { intros k. rewrite Hl. case_decide as Hk; [|done]. intros _. by apply Hus. }
  split_and!; [done| |by apply Hsome; eexists|by apply Hsome; eexists|].
  - intros k v. apply host_topology_valid.
  - rewrite (proj2 (description_lookup (node_config p) "")). unfold description_keys.
    rewrite length_take. unfold maxTopologyKeys. lia.
Qed.

(** ** Fingerprints *)

(** C29: the service may skip a reload when the fingerprint is the same: two
    snapshots of the sources that write the same bytes into the digest load the
    same guests, or fail with the same error, and the same topology. *)
Theorem same_fingerprint_same_inventory `{GoUnicode} root p p' :
  Forall sized_input (SourceFingerprint root p) → Forall sized_input (SourceFingerprint root p') →
  builder_bytes (SourceFingerprint root p) = builder_bytes (SourceFingerprint root p') →
  ParseVMConfigs root p = ParseVMConfigs root p' ∧ HostTopology p = HostTopology p'.
Proof.
  intros Hs Hs' Heq%builder_bytes_inj; [|done..]. clear Hs Hs'. revert Heq. unfold SourceFingerprint.
  intros [= Hlink Heq]. apply app_inj_2 in Heq as [Hmid [= Hconf Hcor]]; [|done].
  assert (HostTopology p = HostTopology p') as Ht.
  { unfold HostTopology. rewrite Hconf, Hcor.
    destruct (local_link p) as [t|e], (local_link p') as [t'|e'].
    - by simplify_eq/=.
    - done.
    - done.
    - done. }
  split; [|done]. unfold ParseVMConfigs. clear Hlink Ht Hconf Hcor.
  assert (∀ f f' : list (string * file_state),
    (λ f, AddFile f.1 f.2) <$> f = (λ f, AddFile f.1 f.2) <$> f' → f = f') as Hfiles.
  { induction f as [|[a x] f IH]; intros [|[a' x'] f']; cbn; try done.
    intros [= -> -> Hf]. f_equal. by apply IH. }
  destruct (conf_dir p) as [|e], (conf_dir p') as [|e'].
  - destruct (conf_glob p) as [f|e], (conf_glob p') as [f'|e'].
    + by rewrite (Hfiles _ _ Hmid).
    + by destruct f as [|? [|]].
    + by destruct f' as [|? [|]].
    + by simplify_eq/=.
  - destruct (conf_glob p) as [f|e]; [by destruct f as [|? [|]]|done].
  - destruct (conf_glob p') as [f'|e']; [by destruct f' as [|? [|]]|done].
  - by simplify_eq/=.
Qed.

(** ** Witnesses *)

Lemma guest_record_exact_witness :
  let c := parseVMConfig (H := caseless) "101" "name: web" in
  parseVMConfig (H := caseless) "101" ("name: web" +:+ String lf ("[snap]" +:+ String lf "name: old")) = c ∧
  VMID c = "101".
Proof.
  destruct (guest_record_exact (H := caseless) "101" "name: web" "[snap]" "name: old") as (Hc & Hid & _);
    [by vm_compute..|]. split; [exact Hc|exact Hid].
Defined.

(** While the directory cannot be read, what it holds does not matter. *)
Definition demo_down (files : list (string * file_state)) : pve :=
  mkPve (Ok "nodes/pve1") (Err "permission denied") (Ok files) Missing Missing.
Lemma same_fingerprint_same_inventory_witness :
  ParseVMConfigs (H := caseless) "" (demo_down []) =
  ParseVMConfigs (H := caseless) "" (demo_down [("/etc/pve/local/qemu-server/101.conf", Missing)]).
Proof.
  refine (proj1 (same_fingerprint_same_inventory (H := caseless) "" (demo_down [])
    (demo_down [("/etc/pve/local/qemu-server/101.conf", Missing)]) _ _ _)).
  - repeat constructor; by vm_compute.
  - repeat constructor; by vm_compute.
  - reflexivity.
Defined.
