(* ===== verification/Enroll.v ===== *)
(** * Enrolment: the two legs and their HTTP handlers

    internal/devid/auth.go, enroll.go and http.go over the sessions, the pins, the
    CA and the signing request. A leg reads its surroundings from a [leg] record:
    the clock at its three uses, the cluster pins and guests, the inventory's
    pins, random bytes and the faults of the pin store. The world the legs change
    is the session store and the pin directory. JSON bodies are decoded by
    parameters, which read at most the first megabyte; log lines are left out. *)

From S2P Require Import Prelude.
From S2P Require Import Go.
From S2P Require Import Sessions.
From S2P Require Import Crypto.
From S2P Require Import Pins.
From S2P Require Import CA.
From S2P Require Import Csr.
From S2P Require Import Net.
From S2P Require Import Inventory.

Section enroll.
Context `{CR : Crypto} {CC : CACrypto} {WR : Wire} `{GU : GoUnicode}.

Record Enroller := mkEnroller {
  EnrollCA : option CA;
  EKRoots : option CertPool;
  EnrollPins : pin_config;      (* [InventoryPins] is taken from the leg *)
}.
Record leg := mkLeg {
  at_verify : Z;
  at_session : Z;
  at_issue : Z;
  around : surroundings;
  inventory_pins : option (gmap string string);
  session_random : option string;
  challenge_random : nat → option string;
  between : dirstate → dirstate;
  faults1 : create_faults;
  faults2 : create_faults;
}.
Record world := mkWorld { w_sessions : SessionStore SigningRequest; w_pins : dirstate }.

Definition leg_pins (e : Enroller) (l : leg) : pin_config :=
  mkPinConfig (PinDir (EnrollPins e)) (ClusterPinDir (EnrollPins e)) (RequireClusterPin (EnrollPins e))
    (GuestConfigRoot (EnrollPins e)) (inventory_pins l).

(** ** Authentication (auth.go) *)

Record request := mkRequest {
  req_vm : option VMConfig;     (* the record bound to the connection *)
  req_ek_header : string;
  req_body : string;
}.

Definition noVMIdentity : string := "VM identity required (MAC not in inventory)".
Definition errSessionEK : string := "EK certificate does not match enroll session".
Definition errHeaderCSR : string := "EK certificate header does not match signing request".

Definition trust_error (e : string) : enroll_error :=
  errUnauthorized (if bool_decide (e = ErrEKCertificateKeyMismatch) then ErrEKCertificateKeyMismatch
                   else "EK certificate not trusted: " +:+ e).

Definition unauthorized_of {A} (m : outcome string A) : outcome enroll_error A :=
  match m with Ok a => Ok a | Err e => Err (errUnauthorized e) end.

(** The certificate of the signing request and its key are given on the start leg. *)
Definition check_chain (e : Enroller) (l : leg) (csrEK : option (certificate Key)) (ek : option Public)
    (cert : certificate Key) : outcome enroll_error () :=
  match csrEK with
  | Some _ =>
      match VerifyEKCertificateBound (at_verify l) (EKRoots e) ek cert with
      | Ok _ => Ok () | Err err => Err (trust_error err)
      end
  | None =>
      match VerifyEKCertificateChain (at_verify l) (EKRoots e) (Some cert) with
      | Ok _ => Ok () | Err err => Err (errUnauthorized ("EK certificate not trusted: " +:+ err))
      end
  end.

Definition check_pins (e : Enroller) (l : leg) (store : dirstate) (vm : VMConfig) (fp : string)
    : outcome enroll_error () :=
  let pin := TrimSpace (EKSHA256 vm) in
  _ ← (if negb (bool_decide (pin = "")) then
         if EqualFold pin fp then Ok () else Err (errUnauthorized errInventoryPinMismatch)
       else enforceOwnPin (leg_pins e l) (around l) store (VMID vm) fp);
  other ← pinnedToAnotherVM (leg_pins e l) (around l) store (VMID vm) fp;
  if bool_decide (other = "") then Ok () else Err (errPinnedToAnotherVM (VMID vm) other).

Definition AuthenticateEnrollCaller (e : Enroller) (l : leg) (store : dirstate) (r : request)
    (csrEK : option (certificate Key)) (ek : option Public) (expectedFP : string)
    : outcome enroll_error (string * certificate Key) :=
  match BoundVM (req_vm r) with
  | None => Err (errUnauthorized noVMIdentity)
  | Some vm =>
      cert ← unauthorized_of (ParseEKCertHeader (req_ek_header r));
      _ ← check_chain e l csrEK ek cert;
      let fp := EKFingerprint cert in
      _ ← check_pins e l store vm fp;
      if negb (bool_decide (expectedFP = "")) && negb (EqualFold expectedFP fp)
      then Err (errUnauthorized errSessionEK)
      else
        match csrEK with
        | Some c => if certsDEREqual c cert then Ok (VMID vm, cert) else Err (errUnauthorized errHeaderCSR)
        | None => Ok (VMID vm, cert)
        end
  end.

(** ** The legs (enroll.go) *)

Record StartResult := mkStarted { StartSession : string; CredentialBlob : string; StartSecret : string }.

(** Everything [Start] checks before it makes a challenge. *)
Definition start_checks (e : Enroller) (l : leg) (requestData signature ekFP : string) (sr : SigningRequest)
    : outcome string () :=
  _ ← prefix_error "invalid request signature: " (CheckSignature (DevIDKey sr) requestData signature);
  _ ← VerifyEKCertificateChain (at_verify l) (EKRoots e) (EndorsementCertificate sr);
  match DevIDKey sr, AttestationKey sr with
  | Some devid, Some ak =>
      _ ← prefix_error "DevID residency: "
            (VerifyDevIDResidency (AttestationKey sr) devid (CertifyData sr) (CertifySignature sr));
      _ ← CheckDevIDProp (Attributes devid);
      _ ← CheckAKProp (Attributes ak);
      match EndorsementCertificate sr with
      | Some cert =>
          if negb (bool_decide (ekFP = "")) && negb (EqualFold (EKFingerprint cert) ekFP)
          then Err "EK fingerprint does not match authenticated certificate" else Ok ()
      | None => Ok ()
      end
  | _, _ => Err "DevID residency: certify signature: missing public key"
  end.

Definition start_challenge (l : leg) (sr : SigningRequest) : outcome string (string * string * string) :=
  match AttestationKey sr with
  | None => Err "missing AK"
  | Some ak =>
      akName ← NameOf ak;
      prefix_error "create challenge: " (CreateChallenge (challenge_random l) (EndorsementKey sr) akName)
  end.

Definition Start (e : Enroller) (l : leg) (requestData signature vmid ekFP : string)
    (s : SessionStore SigningRequest) : SessionStore SigningRequest * outcome string StartResult :=
  match EnrollCA e with
  | None => (s, Err "enroller not configured")
  | Some _ =>
      match prefix_error "decode signing request: " (UnmarshalBinary requestData) with
      | Err err => (s, Err err)
      | Ok sr =>
          match (_ ← start_checks e l requestData signature ekFP sr; start_challenge l sr) with
          | Err err => (s, Err err)
          | Ok (cred, secret, nonce) =>
              match Put (at_session l) (session_random l) nonce sr vmid ekFP s with
              | (s, Err err) => (s, Err err)
              | (s, Ok sid) => (s, Ok (mkStarted sid cred secret))
              end
          end
      end
  end.

Definition errSessionVM : string := "VM identity does not match enroll session".

Definition session_checks (sess : Session SigningRequest) (response vmid ekFP : string)
    : outcome enroll_error () :=
  if negb (bool_decide (SessVMID sess = "")) && negb (bool_decide (SessVMID sess = vmid))
  then Err (OtherError errSessionVM)
  else if negb (bool_decide (SessEKFingerprint sess = "")) && negb (EqualFold (SessEKFingerprint sess) ekFP)
  then Err (OtherError errSessionEK)
  else if negb (bool_decide (Nonce sess = response)) then Err (OtherError "challenge verification failed")
  else Ok ().

(** The pin step and the certificate. *)
Definition issue (e : Enroller) (l : leg) (ca : CA) (sess : Session SigningRequest)
    (vmid ekFP inventoryPin : string) (pins : dirstate) : dirstate * outcome enroll_error string :=
  let '(pins, pinned) :=
    if bool_decide (TrimSpace inventoryPin = "")
    then ensurePinBeforeIssue (leg_pins e l) (around l) vmid ekFP (between l) (faults1 l) (faults2 l) pins
    else (pins, Ok ()) in
  match pinned with
  | Err err => (pins, Err err)
  | Ok _ =>
      let sr := Request sess in
      match IssueDevID ca (DevIDKey sr) (EndorsementKey sr) (EndorsementCertificate sr) (SessVMID sess)
              (Some (at_issue l)) (at_issue l) with
      | Err err => (pins, Err (OtherError ("issue DevID: " +:+ err)))
      | Ok cert => (pins, Ok (pem_Encode "CERTIFICATE" (Raw cert) +:+ pem_Encode "CERTIFICATE" (Raw (ca_cert ca))))
      end
  end.

Definition Finish (e : Enroller) (l : leg) (sessionID response vmid ekFP inventoryPin : string) (w : world)
    : world * outcome enroll_error string :=
  match EnrollCA e with
  | None => (w, Err (OtherError "enroller not configured"))
  | Some ca =>
      let '(s, taken) := Take (at_session l) sessionID (w_sessions w) in
      match taken with
      | Err err => (mkWorld s (w_pins w), Err (OtherError err))
      | Ok sess =>
          match session_checks sess response vmid ekFP with
          | Err err => (mkWorld s (w_pins w), Err err)
          | Ok _ =>
              let '(pins, r) := issue e l ca sess vmid ekFP inventoryPin (w_pins w) in
              (mkWorld s pins, r)
          end
      end
  end.

(** ** HTTP (http.go) *)

Inductive reply_body :=
| TextBody (msg : string)
| StartBody (session credential_blob_b64 secret_b64 : string)
| FinishBody (devid_cert_pem : string).
Record reply := mkReply { status : Z; body : reply_body }.
Definition http_error (msg : string) (code : Z) : reply := mkReply code (TextBody msg).

(** [err.Error()] and what a guest is told of it. *)
Definition error_text (err : enroll_error) : string :=
  match err with
  | PinStoreError msg => "ek pin store: " +:+ msg
  | AlreadyPinned => "ek pin already exists"
  | Unauthorized msg detail => if bool_decide (detail = "") then msg else msg +:+ " " +:+ detail
  | OtherError msg => msg
  end.
Definition responseBody (err : enroll_error) : string :=
  match err with Unauthorized msg _ => msg | _ => error_text err end.
Definition isUnauthorized (err : enroll_error) : bool :=
  match err with Unauthorized _ _ => true | _ => false end.
Definition isPinStore (err : enroll_error) : bool :=
  match err with PinStoreError _ => true | _ => false end.

Definition writeEnrollAuthError (err : enroll_error) : reply :=
  if isPinStore err then http_error errPinStoreUnavailable 500
  else http_error (responseBody err) (if isUnauthorized err then 401 else 400).

(** The JSON decoders of the two bodies. *)
Context (decode_start : string → option (string * string)).
Context (decode_finish : string → option (string * string)).

(** The decoded body of a start leg. *)
Definition start_input (r : request) : outcome string (string * string * SigningRequest) :=
  match decode_start (req_body r) with
  | None => Err "invalid JSON"
  | Some (request_b64, signature_b64) =>
      match base64_decode request_b64 with
      | None => Err "invalid request_b64"
      | Some requestData =>
          match base64_decode signature_b64 with
          | None => Err "invalid signature_b64"
          | Some sig =>
              match UnmarshalBinary requestData with
              | Err _ => Err "invalid signing request"
              | Ok sr => Ok (requestData, sig, sr)
              end
          end
      end
  end.

Definition HandleStart (e : Enroller) (l : leg) (r : request) (w : world) : world * reply :=
  match start_input r with
  | Err msg => (w, http_error msg 400)
  | Ok (requestData, sig, sr) =>
      match AuthenticateEnrollCaller e l (w_pins w) r (EndorsementCertificate sr) (EndorsementKey sr) "" with
      | Err err => (w, writeEnrollAuthError err)
      | Ok (vmid, cert) =>
          match Start e l requestData sig vmid (EKFingerprint cert) (w_sessions w) with
          | (s, Err err) => (mkWorld s (w_pins w), http_error err 400)
          | (s, Ok res) => (mkWorld s (w_pins w), mkReply 200 (StartBody (StartSession res)
              (base64_encode (CredentialBlob res)) (base64_encode (StartSecret res))))
          end
      end
  end.

Definition finish_error (err : enroll_error) : reply :=
  if isPinStore err then http_error errPinStoreUnavailable 500
  else http_error (responseBody err)
    (if isUnauthorized err || bool_decide (error_text err = errSessionVM)
        || bool_decide (error_text err = errSessionEK) then 401 else 400).

Definition HandleFinish (e : Enroller) (l : leg) (r : request) (w : world) : world * reply :=
  match decode_finish (req_body r) with
  | None => (w, http_error "invalid JSON" 400)
  | Some (sessionID, response_b64) =>
      match base64_decode response_b64 with
      | None => (w, http_error "invalid challenge_response_b64" 400)
      | Some resp =>
          match AuthenticateEnrollCaller e l (w_pins w) r None None "" with
          | Err err => (w, writeEnrollAuthError err)
          | Ok (vmid, cert) =>
              let inventoryPin := match req_vm r with Some vm => EKSHA256 vm | None => "" end in
              match Finish e l sessionID resp vmid (EKFingerprint cert) inventoryPin w with
              | (w, Err err) => (w, finish_error err)
              | (w, Ok pemBytes) => (w, mkReply 200 (FinishBody pemBytes))
              end
          end
      end
  end.
End enroll.
