(* ===== verification/EnrollProofs.v ===== *)
(** * Enrolment: no certificate without both legs

    Any sequence of legs of any callers, with the operator editing the pin
    directory in between, is a list of [event]s. A certificate is issued only for a
    session that an earlier start leg of the same VM opened after every check
    ([certificate_needs_enrolment]); what a guest is told is [enroll_replies]. *)

From S2P Require Import Prelude.
From S2P Require Import Go.
From S2P Require Import Sessions.
From S2P Require Import Crypto.
From S2P Require Import Pins.
From S2P Require Import CA.
From S2P Require Import Csr.
From S2P Require Import Net.
From S2P Require Import Inventory.
From S2P Require Import Enroll.
From Stdlib Require Import Ascii.

Section proofs.
Context `{CR : Crypto} {CC : CACrypto} {WR : Wire} `{GU : GoUnicode}.
Context (decode_start decode_finish : string → option (string * string)).
Context (e : Enroller).
(** A SHA-256 digest is 32 bytes. *)
Context (sha256_length : ∀ s, String.length (sha256 s) = 32).
Abbreviation world := (@world CR WR).
Abbreviation Session := (Session SigningRequest).

(** ** Histories *)

Inductive event :=
| EvStart (l : leg) (r : request)
| EvFinish (l : leg) (r : request)
| EvDir (edit : dirstate → dirstate).

Definition step (ev : event) (w : world) : world * option reply :=
  match ev with
  | EvStart l r => let '(w, rep) := HandleStart decode_start e l r w in (w, Some rep)
  | EvFinish l r => let '(w, rep) := HandleFinish decode_finish e l r w in (w, Some rep)
  | EvDir edit => (mkWorld (w_sessions w) (edit (w_pins w)), None)
  end.
Fixpoint run (evs : list event) (w : world) : world * list (event * option reply) :=
  match evs with
  | [] => (w, [])
  | ev :: evs =>
      let '(w, rep) := step ev w in
      let '(w, log) := run evs w in
      (w, (ev, rep) :: log)
  end.

(** ** What a start leg establishes *)

(** The caller of a leg: its VM and EK certificate, trusted and consistent with
    every pin. *)
Definition authentic (l : leg) (r : request) (vm : VMConfig) (cert : certificate Key) : Prop :=
  BoundVM (req_vm r) = Some vm ∧ ParseEKCertHeader (req_ek_header r) = Ok cert ∧
  VerifyEKCertificateChain (at_verify l) (EKRoots e) (Some cert) = Ok () ∧
  ∃ pins, check_pins e l pins vm (EKFingerprint cert) = Ok ().

(** The session a start leg opened and everything it verified first: the request
    is signed by the DevID key, which lives in the TPM of the attestation key; the
    EK certificate is the caller's and certifies the EK; the nonce went out
    encrypted to that EK. *)
Definition vetted (l : leg) (r : request) (sess : Session) : Prop :=
  ∃ vm cert data sig c blob secret,
    authentic l r vm cert ∧ SessVMID sess = VMID vm ∧ SessEKFingerprint sess = EKFingerprint cert ∧
    start_input decode_start r = Ok (data, sig, Request sess) ∧
    EndorsementCertificate (Request sess) = Some c ∧ Raw c = Raw cert ∧
    ekCertificateMatchesKey cert (EndorsementKey (Request sess)) = true ∧
    start_checks e l data sig (EKFingerprint cert) (Request sess) = Ok () ∧
    start_challenge l (Request sess) = Ok (blob, secret, Nonce sess) ∧ Created sess = at_session l.

Lemma auth_authentic l store r csr ek fp vmid cert :
  AuthenticateEnrollCaller e l store r csr ek fp = Ok (vmid, cert) →
  ∃ vm, authentic l r vm cert ∧ vmid = VMID vm ∧
    match csr with
    | Some c => Raw c = Raw cert ∧ ekCertificateMatchesKey cert ek = true
    | None => True
    end.
Proof.
  unfold AuthenticateEnrollCaller. destruct (BoundVM (req_vm r)) as [vm|] eqn:Hvm; [|done].
  unfold unauthorized_of. destruct (ParseEKCertHeader (req_ek_header r)) as [cert'|] eqn:Hh; [|done].
  cbn [mbind outcome_bind]. destruct (check_chain e l csr ek cert') as [[]|] eqn:Hc; [|done].
  cbn [mbind outcome_bind]. destruct (check_pins e l store vm _) as [[]|] eqn:Hp; [|done].
  cbn [mbind outcome_bind]. destruct (_ && _); [done|]. intros Hr.
  assert (cert' = cert ∧ vmid = VMID vm ∧ match csr with Some c => Raw c = Raw cert | None => True end)
    as (-> & -> & Hraw).
  { destruct csr as [c|]; [|by injection Hr as <- <-]. unfold certsDEREqual in Hr.
    case_bool_decide; [|done]. by injection Hr as <- <-. }
  exists vm. unfold check_chain in Hc.
  assert (VerifyEKCertificateChain (at_verify l) (EKRoots e) (Some cert) = Ok () ∧
    match csr with Some _ => ekCertificateMatchesKey cert ek = true | None => True end) as [Hv Hk].
  { destruct csr as [c|].
    - unfold VerifyEKCertificateBound in Hc.
      destruct (VerifyEKCertificateChain _ _ _) as [[]|]; cbn in Hc; [|done]. by destruct (ekCertificateMatchesKey _ _).
    - by destruct (VerifyEKCertificateChain _ _ _) as [[]|]. }
  split_and!; [|done|by destruct csr]. unfold authentic. split_and!; [done..|by exists store].
Qed.

(** ** The steps *)

Lemma start_input_request r data sig sr :
  start_input decode_start r = Ok (data, sig, sr) → UnmarshalBinary data = Ok sr.
Proof.
  unfold start_input. destruct (decode_start _) as [[a b]|]; [|done].
  destruct (base64_decode a); [|done]. destruct (base64_decode b); [|done].
  destruct (UnmarshalBinary _) eqn:E; [|done]. by intros [= <- <- <-].
Qed.

Lemma start_step l r w w' rep :
  HandleStart decode_start e l r w = (w', rep) →
  w_pins w' = w_pins w ∧ sessionTTL (w_sessions w') = sessionTTL (w_sessions w) ∧
  ∀ id sess, sessions (w_sessions w') !! id = Some sess →
    sessions (w_sessions w) !! id = Some sess ∨
    (SessionID sess = id ∧ status rep = 200%Z ∧ vetted l r sess ∧ ∃ blob secret, body rep = StartBody id blob secret).
Proof.
  unfold HandleStart. destruct (start_input decode_start r) as [[[data sig] sr]|] eqn:Hin;
    [|intros [= <- <-]; auto].
  destruct (AuthenticateEnrollCaller _ _ _ _ _ _ _) as [[vmid cert]|] eqn:Ha; [|intros [= <- <-]; auto].
  apply auth_authentic in Ha as (vm & Hauth & -> & Hcsr). unfold Start.
  destruct (EnrollCA e) as [ca|]; [|intros [= <- <-]; auto].
  rewrite (start_input_request _ _ _ _ Hin). cbn [prefix_error].
  destruct (start_checks e l data sig _ sr) as [[]|] eqn:Hck; cbn [mbind outcome_bind];
    [|intros [= <- <-]; auto].
  destruct (start_challenge l sr) as [[[blob secret] nonce]|] eqn:Hch; [|intros [= <- <-]; auto].
  pose proof (Put_lookup (A := SigningRequest) (at_session l)) as Hput.
  pose proof (Put_ttl (A := SigningRequest) (at_session l) (session_random l)) as Httl.
  specialize (Httl nonce sr (VMID vm) (EKFingerprint cert) (w_sessions w)).
  destruct (session_random l) as [b|]; [|intros [= <- <-]; auto].
  specialize (Hput b nonce sr (VMID vm) (EKFingerprint cert) (w_sessions w)).
  destruct (Put _ _ _ _ _ _ _) as [s o] eqn:HP. unfold Put in HP. injection HP as <- <-.
  cbn [fst] in *. intros [= <- <-]. split_and!; [done|done|]. cbn [w_sessions status body].
  intros id sess. rewrite Hput. intros [[-> ->]|(_ & ? & _)]; [right|by left].
  split_and!; [done|done| |by eexists _, _].
  assert (∃ c, EndorsementCertificate sr = Some c) as [c Hc].
  { unfold start_checks in Hck. destruct (EndorsementCertificate sr); [eauto|].
    by destruct (CheckSignature _ _ _). }
  rewrite Hc in Hcsr. destruct Hcsr. exists vm, cert, data, sig, c, blob, secret. by split_and!.
Qed.

Lemma session_checks_Ok sess resp vmid fp :
  session_checks sess resp vmid fp = Ok () ↔
    (SessVMID sess = "" ∨ SessVMID sess = vmid) ∧
    (SessEKFingerprint sess = "" ∨ EqualFold (SessEKFingerprint sess) fp = true) ∧ Nonce sess = resp.
Proof.
  unfold session_checks. generalize (EqualFold (SessEKFingerprint sess) fp) as b.
  generalize (SessVMID sess) as v, (SessEKFingerprint sess) as f, (Nonce sess) as n. clear. intros n f v b.
  repeat case_bool_decide; destruct b; cbn [negb andb]; intuition congruence.
Qed.

(** What a finish leg that answers a certificate went through. *)
Definition completed (l : leg) (r : request) (rep : reply) (sess : Session) : Prop :=
  ∃ vm cert ca leaf resp, authentic l r vm cert ∧ EnrollCA e = Some ca ∧
    decode_finish (req_body r) = Some (SessionID sess, resp) ∧ base64_decode resp = Some (Nonce sess) ∧
    (SessVMID sess = "" ∨ SessVMID sess = VMID vm) ∧
    (SessEKFingerprint sess = "" ∨ EqualFold (SessEKFingerprint sess) (EKFingerprint cert) = true) ∧
    IssueDevID ca (DevIDKey (Request sess)) (EndorsementKey (Request sess))
      (EndorsementCertificate (Request sess)) (SessVMID sess) (Some (at_issue l)) (at_issue l) = Ok leaf ∧
    body rep = FinishBody (pem_Encode "CERTIFICATE" (Raw leaf) +:+ pem_Encode "CERTIFICATE" (Raw (ca_cert ca))).

Lemma finish_step l r w w' rep :
  HandleFinish decode_finish e l r w = (w', rep) →
  sessionTTL (w_sessions w') = sessionTTL (w_sessions w) ∧
  (∀ id sess, sessions (w_sessions w') !! id = Some sess → sessions (w_sessions w) !! id = Some sess) ∧
  (status rep = 200%Z → ∃ id sess, sessions (w_sessions w) !! id = Some sess ∧
    sessions (w_sessions w') !! id = None ∧ alive (sessionTTL (w_sessions w)) (at_session l) sess ∧
    (SessionID sess = id → completed l r rep sess)).
Proof.
  unfold HandleFinish. destruct (decode_finish _) as [[id resp64]|] eqn:Hd; [|by intros [= <- <-]].
  destruct (base64_decode resp64) as [resp|] eqn:Hr; [|by intros [= <- <-]].
  destruct (AuthenticateEnrollCaller _ _ _ _ _ _ _) as [[vmid cert]|err] eqn:Ha.
  2:{ intros [= <- <-]. split_and!; [done|done|]. unfold writeEnrollAuthError. by repeat case_match. }
  apply auth_authentic in Ha as (vm & Hauth & -> & _). unfold Finish.
  assert (∀ err, status (finish_error err) ≠ 200%Z) as Herr by (intros; unfold finish_error; by repeat case_match).
  destruct (EnrollCA e) as [ca|] eqn:Hca; [|by intros [= <- <-]].
  pose proof (Take_lookup (at_session l) id (w_sessions w)) as Htake.
  pose proof (Take_ttl (at_session l) id (w_sessions w)) as Httl.
  pose proof (Take_result (at_session l) id (w_sessions w)) as Hres.
  destruct (Take _ _ _) as [s taken]. cbn [fst snd] in *.
  assert (∀ id' sess, sessions s !! id' = Some sess → sessions (w_sessions w) !! id' = Some sess) as Hsub
    by (intros id' sess; rewrite Htake; tauto).
  destruct taken as [sess|err]; [|by intros [= <- <-]; split_and!; [done|done|intros ?%Herr]].
  destruct (session_checks _ _ _ _) as [[]|err] eqn:Hck; [|by intros [= <- <-]; split_and!; [done|done|intros ?%Herr]].
  apply session_checks_Ok in Hck as (Hvm & Hfp & Hn). destruct (proj1 (Hres sess) eq_refl) as [Hl Halive].
  assert (∀ w' rep, (let '(pins, r0) := issue e l ca sess (VMID vm) (EKFingerprint cert)
      match req_vm r with Some vm => EKSHA256 vm | None => "" end (w_pins w) in
    match r0 with Err err => (mkWorld s pins, finish_error err)
                | Ok pemBytes => (mkWorld s pins, mkReply 200 (FinishBody pemBytes)) end) = (w', rep) →
    w_sessions w' = s ∧ (status rep = 200%Z → SessionID sess = id → completed l r rep sess)) as Hgen.
  { intros w1 rep1. unfold issue. destruct (if bool_decide _ then _ else _) as [pins [[]|err]].
    2:{ intros [= <- <-]. split; [done|intros ?%Herr; done]. }
    destruct (IssueDevID _ _ _ _ _ _ _) as [leaf|err] eqn:Hi.
    2:{ intros [= <- <-]. split; [done|intros ?%Herr; done]. }
    intros [= <- <-]. split; [done|]. intros _ <-. exists vm, cert, ca, leaf, resp64. subst resp. by split_and!. }
  intros Heq. destruct (Hgen w' rep) as [<- Hdone].
  { rewrite <-Heq. destruct (issue _ _ _ _ _ _ _ _) as [pins [|]]; done. }
  split_and!; [done|done|]. intros H200. exists id, sess. split_and!; [done| |done|by apply Hdone].
  destruct (sessions (w_sessions w') !! id) eqn:E; [|done]. apply Htake in E. tauto.
Qed.
Lemma EKFingerprint_nonempty cert : EKFingerprint cert ≠ "".
Proof.
  intros Hn%(f_equal String.length). unfold EKFingerprint in Hn.
  by rewrite hex_encode_length, sha256_length in Hn.
Qed.

(** ** Every session comes from a start leg *)

Definition opened (log : list (event * option reply)) (sess : Session) : Prop :=
  ∃ l r rep blob secret, (EvStart l r, Some rep) ∈ log ∧ status rep = 200%Z ∧ vetted l r sess ∧
    body rep = StartBody (SessionID sess) blob secret.
Definition traced (log : list (event * option reply)) (w : world) : Prop :=
  ∀ id sess, sessions (w_sessions w) !! id = Some sess → SessionID sess = id ∧ opened log sess.

Lemma opened_mono log log' sess : log ⊆ log' → opened log sess → opened log' sess.
Proof. intros Hl (l & r & rep & b & c & Hin & H). exists l, r, rep, b, c. split; [by apply Hl|done]. Qed.

Lemma step_traced ev w w' rep log :
  step ev w = (w', rep) → traced log w →
  traced (log ++ [(ev, rep)]) w' ∧ sessionTTL (w_sessions w') = sessionTTL (w_sessions w).
Proof.
  intros Hs Ht. assert (log ⊆ log ++ [(ev, rep)]) as Hsub by (intros x ?; apply elem_of_app; by left).
  destruct ev as [l r|l r|edit]; cbn [step] in Hs.
  - destruct (HandleStart _ _ _ _ _) as [w1 rep1] eqn:E. injection Hs as <- <-.
    apply start_step in E as (_ & Httl & Hsess). split; [|done]. intros id sess [Hl|(<- & H200 & Hv & b & c & Hb)]%Hsess.
    + destruct (Ht id sess Hl) as [? Hop]. split; [done|by eapply opened_mono].
    + split; [done|]. exists l, r, rep1, b, c. split_and!; [|done..]. apply elem_of_app. right. by left.
  - destruct (HandleFinish _ _ _ _ _) as [w1 rep1] eqn:E. injection Hs as <- <-.
    apply finish_step in E as (Httl & Hsess & _). split; [|done]. intros id sess Hl%Hsess.
    destruct (Ht id sess Hl) as [? Hop]. split; [done|by eapply opened_mono].
  - injection Hs as <- <-. split; [|done]. intros id sess Hl. destruct (Ht id sess Hl) as [? Hop].
    split; [done|by eapply opened_mono].
Qed.

Lemma run_split evs w log1 ev rep log2 log0 :
  (run evs w).2 = log1 ++ (ev, rep) :: log2 → traced log0 w →
  ∃ w1 w2, step ev w1 = (w2, rep) ∧ traced (log0 ++ log1) w1 ∧
    sessionTTL (w_sessions w1) = sessionTTL (w_sessions w).
Proof.
  revert w log1 log0. induction evs as [|ev0 evs IH]; intros w log1 log0; cbn [run].
  { intros Hn. by destruct log1. }
  destruct (step ev0 w) as [w1 rep0] eqn:Hs. specialize (IH w1).
  destruct (run evs w1) as [w2 log] eqn:Hr. cbn [snd] in *. intros Hlog Ht.
  destruct log1 as [|x log1].
  - injection Hlog as -> -> ->. exists w, w1. by rewrite app_nil_r.
  - injection Hlog as <- Hlog. destruct (step_traced _ _ _ _ _ Hs Ht) as [Ht1 Httl].
    destruct (IH log1 (log0 ++ [(ev0, rep0)]) Hlog Ht1) as (w3 & w4 & Hs3 & Ht3 & Httl3).
    exists w3, w4. split_and!; [done| |congruence]. by rewrite <-app_assoc in Ht3.
Qed.

Lemma BoundVM_Some v vm : BoundVM v = Some vm → v = Some vm ∧ VMID vm ≠ "".
Proof. unfold BoundVM, IsBound. destruct v as [vm'|]; [|done]. case_bool_decide; [done|]. by intros [= ->]. Qed.

(** Both legs of one session: the same VM and EK certificate, and the certificate. *)
Lemma legs_agree `{!CALaws} l0 r0 l r rep sess :
  vetted l0 r0 sess → completed l r rep sess →
  ∃ vm cert ca leaf resp, authentic l r vm cert ∧
    SessVMID sess = VMID vm ∧ SessEKFingerprint sess = EKFingerprint cert ∧
    decode_finish (req_body r) = Some (SessionID sess, resp) ∧ base64_decode resp = Some (Nonce sess) ∧
    body rep = FinishBody (pem_Encode "CERTIFICATE" (Raw leaf) +:+ pem_Encode "CERTIFICATE" (Raw (ca_cert ca))) ∧
    CommonName leaf = VMID vm ∧ (PublicKeyOf <$> DevIDKey (Request sess)) = Some (Ok (PublicKey leaf)) ∧
    CertIsCA leaf = false.
Proof.
  intros (vm0 & cert0 & data & sig & c & blob & secret & (Hbound & _) & Hvm0 & Hfp0 & _)
    (vm & cert & ca & leaf & resp & Hauth & _ & Hd & Hr & Hvm & Hfp & Hi & Hb).
  apply BoundVM_Some in Hbound as [_ Hne]. destruct Hvm as [Hvm|Hvm]; [congruence|].
  exists vm, cert, ca, leaf, resp. destruct (IssueDevID_facts _ _ _ _ _ _ _ _ Hi) as (Hcn & Hpk & Hca & _).
  split_and!; [done|done| |done|done|done|congruence|done|done].
  rewrite Hfp0 in *. destruct Hfp as [Hfp|Hfp].
  - by apply EKFingerprint_nonempty in Hfp.
  - unfold EKFingerprint in *. rewrite EqualFold_hex in Hfp by apply hex_encode_hex.
    by apply bool_decide_eq_true in Hfp.
Qed.

(** No certificate without both legs. Whatever legs run before, whoever
    sends them and whatever is edited in the pin directory, a finish leg that
    answers a certificate was preceded by a start leg that opened its session: by
    the same VM with the same EK certificate, no longer ago than the session
    lifetime, after the whole request was verified; the response is the nonce that
    was encrypted to that EK; and the certificate holds the verified DevID key,
    names the VM and is no CA. *)
Theorem certificate_needs_enrolment `{!CALaws} evs w0 log1 l r rep log2 :
  sessions (w_sessions w0) = ∅ →
  (run evs w0).2 = log1 ++ (EvFinish l r, Some rep) :: log2 → status rep = 200%Z →
  ∃ sess vm cert ca leaf resp, opened log1 sess ∧ authentic l r vm cert ∧
    SessVMID sess = VMID vm ∧ SessEKFingerprint sess = EKFingerprint cert ∧
    alive (sessionTTL (w_sessions w0)) (at_session l) sess ∧
    decode_finish (req_body r) = Some (SessionID sess, resp) ∧ base64_decode resp = Some (Nonce sess) ∧
    body rep = FinishBody (pem_Encode "CERTIFICATE" (Raw leaf) +:+ pem_Encode "CERTIFICATE" (Raw (ca_cert ca))) ∧
    CommonName leaf = VMID vm ∧ (PublicKeyOf <$> DevIDKey (Request sess)) = Some (Ok (PublicKey leaf)) ∧
    CertIsCA leaf = false.
Proof.
  intros Hempty Hlog H200.
  assert (traced [] w0) as Ht0 by (intros id sess; by rewrite Hempty, lookup_empty).
  destruct (run_split _ _ _ _ _ _ _ Hlog Ht0) as (w1 & w2 & Hs & Ht & Httl). cbn [app step] in *.
  destruct (HandleFinish _ _ _ _ _) as [w3 rep3] eqn:E. injection Hs as -> ->.
  apply finish_step in E as (_ & _ & Hdone). destruct (Hdone H200) as (id & sess & Hl & _ & Halive & Hcomp).
  destruct (Ht id sess Hl) as [Hid Hop]. rewrite Httl in Halive.
  pose proof Hop as (l0 & r0 & rep0 & b0 & c0 & _ & _ & Hv & _).
  destruct (legs_agree _ _ _ _ _ _ Hv (Hcomp Hid)) as (vm & cert & ca & leaf & resp & Hall).
  exists sess, vm, cert, ca, leaf, resp. tauto.
Qed.
End proofs.

(** ** What a guest is told *)

Section replies.
Context `{CR : Crypto} {CC : CACrypto} {WR : Wire} `{GU : GoUnicode}.
Context (decode_finish : string → option (string * string)).

(** The texts of refusals that say something of the pins. None names a VM. *)
Definition pin_texts : list string :=
  [errClusterPinMismatch; errNoClusterPin; errStoredPinMismatch; errInventoryPinMismatch; errPinnedElsewhere].

Inductive pin_error : enroll_error → Prop :=
| pin_error_store msg : pin_error (PinStoreError msg)
| pin_error_refused msg detail : msg ∈ pin_texts → pin_error (Unauthorized msg detail).

Lemma pin_text msg : bool_decide (msg ∈ pin_texts) = true → pin_error (errUnauthorized msg).
Proof. intros ?%bool_decide_eq_true. by constructor. Qed.

Lemma validateVMID_err v err : validateVMID v = Err err → pin_error err.
Proof. unfold validateVMID. repeat case_match; intros [= <-]; constructor. Qed.
Lemma readStoredPin_err dir d v err : readStoredPin dir d v = Err err → pin_error err.
Proof.
  unfold readStoredPin. case_bool_decide; [done|]. intros [?%validateVMID_err|(_ & _ & Hr)]%bind_Err; [done|].
  by destruct (ReadFile d v); simplify_eq; constructor.
Qed.
Lemma readClusterPin_err e env v err : readClusterPin e env v = Err err → pin_error err.
Proof.
  unfold readClusterPin. case_bool_decide; [done|]. intros [?%validateVMID_err|(_ & _ & Hr)]%bind_Err; [done|].
  repeat case_match; simplify_eq; constructor.
Qed.
Lemma matching_err m v fp names err : matching m v fp names = Err err → pin_error err.
Proof.
  induction names as [|n names IH]; cbn [matching]; [done|]. destruct (negb _); [done|].
  destruct (ReadFile _ _); try done; try (intros [= <-]; constructor).
  intros [?|(? & _ & ?)]%bind_Err; [by apply IH|done].
Qed.
Lemma scan_store_err e env m v fp names err : scan_store e env m v fp names = Err err → pin_error err.
Proof.
  induction names as [|n names IH]; cbn [scan_store]; [done|]. destruct (negb _); [done|].
  intros [?%readStoredPin_err|(p & _ & Hr)]%bind_Err; [done|]. destruct (_ && _); [done|by apply IH].
Qed.
Lemma pinnedToAnotherVM_err e env d v fp err : pinnedToAnotherVM e env d v fp = Err err → pin_error err.
Proof.
  unfold pinnedToAnotherVM. case_bool_decide; [done|]. intros [Hs|(found & _ & Hr)]%bind_Err.
  - case_bool_decide; [done|]. destruct d; [done|simplify_eq; constructor|by eapply scan_store_err].
  - destruct found; [done|]. apply bind_Err in Hr as [Hc|(ids & _ & Hr)]; [|by repeat case_match].
    unfold clusterPinsMatching in Hc. case_bool_decide; [done|].
    destruct (cluster_pins env); [done|simplify_eq; constructor|by eapply matching_err].
Qed.

Lemma check_pins_err e l d vm fp err : check_pins e l d vm fp = Err err → pin_error err.
Proof.
  unfold check_pins. cbn zeta. intros [Hown|(_ & _ & Hr)]%bind_Err.
  - destruct (negb _).
    + destruct (EqualFold _ _); [done|]. injection Hown as <-. by apply pin_text.
    + unfold enforceOwnPin in Hown. apply bind_Err in Hown as [?%readClusterPin_err|(c & _ & Hown)]; [done|].
      apply bind_Err in Hown as [Hs|(stored & _ & Hown)].
      * case_bool_decide; [done|by eapply readStoredPin_err].
      * repeat case_match; simplify_eq; by apply pin_text.
  - apply bind_Err in Hr as [?%pinnedToAnotherVM_err|(other & _ & Hr)]; [done|].
    case_bool_decide; [done|]. injection Hr as <-. constructor. by apply (bool_decide_unpack _).
Qed.

Lemma create_err e v fp f d err : (createStoredPinExclusive e v fp f d).2 = Err err → pin_error err ∨ err = AlreadyPinned.
Proof.
  unfold createStoredPinExclusive. destruct (_ || _); [intros [= <-]; left; constructor|].
  destruct (validateVMID v) eqn:Hv; [|intros [= <-]; left; by eapply validateVMID_err].
  cbn zeta. repeat case_match; cbn; intros [= <-]; first [by right|left; constructor].
Qed.
Lemma ensure_err e env v fp between f1 f2 d err :
  (ensurePinBeforeIssue e env v fp between f1 f2 d).2 = Err err → pin_error err ∨ err = AlreadyPinned.
Proof.
  unfold ensurePinBeforeIssue. destruct (readClusterPin e env v) as [[cpin b]|] eqn:Hc.
  2:{ intros [= <-]. left. by eapply readClusterPin_err. }
  destruct (negb _); [destruct (EqualFold _ _); [done|intros [= <-]; left; by apply pin_text]|].
  destruct (RequireClusterPin e); [intros [= <-]; left; by apply pin_text|].
  destruct (bool_decide _); [done|]. destruct (readStoredPin _ d v) as [ex|] eqn:Hs.
  2:{ intros [= <-]. left. by eapply readStoredPin_err. }
  destruct (_ && _); [intros [= <-]; left; by apply pin_text|].
  destruct (pinnedToAnotherVM e env d v fp) as [other|] eqn:Ho.
  2:{ intros [= <-]. left. by eapply pinnedToAnotherVM_err. }
  destruct (negb (bool_decide (other = ""))).
  { intros [= <-]. left. constructor. by apply (bool_decide_unpack _). }
  destruct (negb _); [done|].
  pose proof (create_err e v fp f1 (between d)) as H1.
  destruct (createStoredPinExclusive _ _ _ f1 _) as [d1 [[]|err1]] eqn:Hcr; [done|].
  assert (∀ err0, err1 ≠ AlreadyPinned → Err err1 = Err err0 :> outcome enroll_error () → pin_error err0 ∨ err0 = AlreadyPinned)
    as Hkeep by (intros err0 _ [= <-]; by apply H1).
  destruct err1; try by apply Hkeep. destruct (readStoredPin _ d1 v) as [ex'|] eqn:Hs'.
  2:{ intros [= <-]. left. by eapply readStoredPin_err. }
  destruct (bool_decide _); [apply create_err|]. destruct (negb _); [|done].
  intros [= <-]. left. by apply pin_text.
Qed.

(** The other texts of a finish leg. *)
Definition leg_texts : list string :=
  ["invalid JSON"; "invalid challenge_response_b64"; noVMIdentity; errPinStoreUnavailable;
   "enroller not configured"; "unknown or expired session"; errSessionVM; errSessionEK;
   "challenge verification failed"; "ek pin already exists"].
(** Texts made from the guest's own header and the host's view of its certificate. *)
Definition own_text (e : Enroller) (l : leg) (r : request) (msg : string) : Prop :=
  ParseEKCertHeader (req_ek_header r) = Err msg ∨
  ∃ cert err, ParseEKCertHeader (req_ek_header r) = Ok cert ∧
    VerifyEKCertificateChain (at_verify l) (EKRoots e) (Some cert) = Err err ∧
    msg = "EK certificate not trusted: " +:+ err.

Lemma auth_err e l d r err :
  AuthenticateEnrollCaller e l d r None None "" = Err err →
  pin_error err ∨ ∃ msg, err = errUnauthorized msg ∧ (msg = noVMIdentity ∨ own_text e l r msg).
Proof.
  unfold AuthenticateEnrollCaller. destruct (BoundVM _) as [vm|]; [|intros [= <-]; eauto].
  unfold unauthorized_of. destruct (ParseEKCertHeader _) as [cert|msg] eqn:Hh; cbn [mbind outcome_bind].
  2:{ intros [= <-]. right. eexists. split; [done|]. right. by left. }
  unfold check_chain. destruct (VerifyEKCertificateChain _ _ _) as [[]|err'] eqn:Hc; cbn [mbind outcome_bind].
  2:{ intros [= <-]. right. eexists. split; [done|]. right. right. by exists cert, err'. }
  destruct (check_pins _ _ _ _ _) as [[]|] eqn:Hp; cbn [mbind outcome_bind]; [done|].
  intros [= <-]. left. by eapply check_pins_err.
Qed.

(** The errors of the leg itself. *)
Definition leg_error (err : enroll_error) : Prop :=
  pin_error err ∨ err = AlreadyPinned ∨
  ∃ m, err = OtherError m ∧ (m ∈ leg_texts ∨ ∃ x, m = "issue DevID: " +:+ x).

Lemma leg_text m : bool_decide (m ∈ leg_texts) = true → m ∈ leg_texts.
Proof. by intros ?%bool_decide_eq_true. Qed.
Lemma leg_error_text m : bool_decide (m ∈ leg_texts) = true → leg_error (OtherError m).
Proof. intros ?%leg_text. right; right. exists m. split; [done|by left]. Qed.

Lemma issue_err e l ca sess vmid fp pin pins pins' err :
  issue e l ca sess vmid fp pin pins = (pins', Err err) → leg_error err.
Proof.
  unfold issue. destruct (bool_decide _).
  - pose proof (ensure_err (leg_pins e l) (around l) vmid fp (between l) (faults1 l) (faults2 l) pins) as He.
    destruct (ensurePinBeforeIssue _ _ _ _ _ _ _ _) as [d [[]|err']].
    + destruct (IssueDevID _ _ _ _ _ _ _); [done|]. intros [= <- <-]. right; right. eauto.
    + intros [= <- <-]. destruct (He err' eq_refl); [by left|by right; left].
  - destruct (IssueDevID _ _ _ _ _ _ _); [done|]. intros [= <- <-]. right; right. eauto.
Qed.
Lemma finish_err e l id resp vmid fp pin w w' err :
  Finish e l id resp vmid fp pin w = (w', Err err) → leg_error err.
Proof.
  unfold Finish. destruct (EnrollCA e) as [ca|]; [|intros [= <- <-]; by apply leg_error_text].
  destruct (Take _ _ _) as [s [sess|err']] eqn:Ht.
  2:{ intros [= <- <-]. unfold Take in Ht. cbn zeta in Ht. destruct (_ !! id); [done|].
      injection Ht as <- <-. by apply leg_error_text. }
  destruct (session_checks _ _ _ _) as [[]|err'] eqn:Hck.
  2:{ intros [= <- <-]. unfold session_checks in Hck. repeat case_match; simplify_eq; by apply leg_error_text. }
  destruct (issue _ _ _ _ _ _ _ _) as [pins r] eqn:Hi. intros [= <- ->]. by eapply issue_err.
Qed.

(** What a refusal says, by its status. *)
Definition told (e : Enroller) (l : leg) (r : request) (rep : reply) (msg : string) : Prop :=
  (status rep = 500%Z ∨ status rep = 401%Z ∨ status rep = 400%Z) ∧
  (status rep = 500%Z → msg = errPinStoreUnavailable) ∧
  (msg ∈ leg_texts ∨ msg ∈ pin_texts ∨ own_text e l r msg ∨ ∃ err, msg = "issue DevID: " +:+ err).

Lemma finish_told e l r err msg :
  leg_error err → body (finish_error err) = TextBody msg → told e l r (finish_error err) msg.
Proof.
  unfold finish_error, told.
  assert (∀ b c : bool, (http_error (responseBody err) (if b || c then 401 else 400)).(status) = 401%Z ∨
    (http_error (responseBody err) (if b || c then 401 else 400)).(status) = 400%Z) as Hst
    by (intros [] []; cbn; auto).
  intros [[m|m d Hm]|[->|(m & -> & Hm)]]; cbn [isPinStore isUnauthorized orb].
  - intros [= <-]. split_and!; [by left|done|left; by apply leg_text].
  - intros [= <-]. split_and!; [by right; left|done|by right; left].
  - intros [= <-]. split_and!; [by right; right|done|left; by apply leg_text].
  - intros [= <-]. split; [right; apply Hst|]. split; [by case_match|].
    cbn. destruct Hm as [?|[x ->]]; [by left|right; right; right; by eexists].
Qed.
Lemma auth_told e l d r err msg :
  AuthenticateEnrollCaller e l d r None None "" = Err err →
  body (writeEnrollAuthError err) = TextBody msg → told e l r (writeEnrollAuthError err) msg.
Proof.
  intros [[m|m d' Hm]|(m & -> & Hm)]%auth_err; intros [= <-]; unfold told.
  - split_and!; [by left|done|left; by apply leg_text].
  - split_and!; [by right; left|done|by right; left].
  - split_and!; [by right; left|done|]. destruct Hm as [->|?]; [left; by apply leg_text|by right; right; left].
Qed.

End replies.

(** ** An enrolment *)

Definition toy_body (s : string) : option (string * string) :=
  let '(a, b, ok) := Cut s "&"%char in if ok then Some (a, b) else None.
Definition toy_enroller : Enroller (CR := toy_crypto) (CC := toy_ca_crypto) :=
  mkEnroller (CR := toy_crypto) (CC := toy_ca_crypto) (Some toy_ca) (Some ["ekca"]) demo_config.
Definition toy_leg (now : Z) : leg :=
  mkLeg now now now demo_env None (Some "0123456789abcdef") (λ _, Some "sixteen byte key") id
    (no_faults "r") (no_faults "r").
Definition toy_vm (id : string) : VMConfig := mkVM id "" ∅ ∅ [] "".
Definition toy_req (id text : string) : request :=
  mkRequest (Some (toy_vm id)) (base64_encode "CERT|ekca|ek1") text.
Definition toy_start : string := base64_encode toy_data +:+ "&" +:+ base64_encode ("devid1#" +:+ toy_data).
Definition toy_finish : string := hex_encode "0123456789abcdef" +:+ "&" +:+ base64_encode "sixteen byte key".
Definition toy_world : world (CR := toy_crypto) (WR := toy_wire) :=
  mkWorld (CR := toy_crypto) (WR := toy_wire) (NewSessionStore 0) (Listing ∅).
Definition toy_events : list event :=
  [EvStart (toy_leg 0) (toy_req "350" toy_start); EvFinish (toy_leg Minute) (toy_req "350" toy_finish)].
Definition toy_run (evs : list event) : list (event * option reply) :=
  (run (CC := toy_ca_crypto) (GU := caseless) toy_body toy_body toy_enroller evs toy_world).2.

Definition toy_issued : reply :=
  mkReply 200 (FinishBody ("CERTIFICATE:CERT|350|devid1|60000000000|7776060000000000" +:+ lf_string
    +:+ "CERTIFICATE:CERT|ca|cakey" +:+ lf_string)).

Lemma certificate_needs_enrolment_witness :
  ∃ (sess : Session (SigningRequest (H := toy_crypto) (H0 := toy_wire))) (leaf : certificate string),
    SessVMID sess = "350" ∧ CommonName leaf = "350" ∧ CertIsCA leaf = false.
Proof.
  destruct (certificate_needs_enrolment (CR := toy_crypto) (CC := toy_ca_crypto) (WR := toy_wire) (GU := caseless)
    toy_body toy_body toy_enroller (take_pad_length 32) toy_events toy_world
    [(EvStart (toy_leg 0) (toy_req "350" toy_start),
      Some (mkReply 200 (StartBody "30313233343536373839616263646566" "c2l4dGVlbiBieXRlIGtleQ==" "YWsx")))]
    (toy_leg Minute) (toy_req "350" toy_finish) toy_issued [])
    as (sess & vm & cert & ca & leaf & resp & _ & (Hvm & _) & Hs & _ & _ & _ & _ & _ & Hcn & _ & Hca).
  - reflexivity.
  - vm_compute. reflexivity.
  - reflexivity.
  - exists sess, leaf. injection Hvm as <-. split_and!; [exact Hs|exact Hcn|exact Hca].
Defined.

(** An EK that VM 101 is pinned to, presented by VM 350. *)
Definition toy_pinned : Enroll.world (CR := toy_crypto) (WR := toy_wire) :=
  mkWorld (CR := toy_crypto) (WR := toy_wire) (NewSessionStore 0)
    (Listing {[ "101" := File (hex_encode (take_pad 32 "CERT|ekca|ek1")) ]}).
