(* ===== verification/EnrollProgress.v ===== *)
(** * An honest guest is enrolled

    The other side of what an answer rests on: a guest whose request is genuine and
    whom the pins admit gets its certificate. Other guests' legs may run between its
    two, and the pin directory be edited; a guest that does not know the session's ID
    cannot take the session away ([honest_guest_enrols]). *)

From S2P Require Import Prelude.
From S2P Require Import Go.
From S2P Require Import Sessions.
From S2P Require Import Crypto.
From S2P Require Import Pins.
From S2P Require Import CA.
From S2P Require Import Csr.
From S2P Require Import Net.
From S2P Require Import Inventory.
From S2P Require Import Enroll.
From S2P Require Import EnrollProofs.

(** ** A pin can be recorded *)

Section pins.
Context `{GoUnicode} (e : pin_config) (env : surroundings).

(** The directory can be made or is one, and the temporary name is free. *)
Definition roomy (n vmid : string) (d : dirstate) : Prop :=
  match d with NoDir => True | BadDir => False | Listing m => m !! tmp_name vmid n = None end.

Lemma create_free vmid fp n d :
  PinDir e ≠ "" → fp ≠ "" → validateVMID vmid = Ok () → roomy n vmid d → lookup_node d vmid = None →
  (createStoredPinExclusive e vmid fp (no_faults n) d).2 = Ok ().
Proof.
  intros Hd Hf Hv Hr Hl. unfold createStoredPinExclusive. rewrite !bool_decide_eq_false_2 by done. cbn [orb].
  rewrite Hv. apply validateVMID_Ok in Hv as (_ & _ & _ & _ & Hdot).
  cbn [no_faults mkdir_fails nonce open_fails write_fails close_fails link_fails remove_fails orb].
  assert (∃ m, match d with NoDir => Listing ∅ | _ => d end = Listing m ∧ m !! tmp_name vmid n = None ∧ m !! vmid = None)
    as (m & -> & Ht & Hm).
  { destruct d as [| |m]; [exists ∅; by rewrite !lookup_empty|done|by exists m]. }
  rewrite bool_decide_eq_false_2 by (rewrite Ht; by intros []).
  rewrite bool_decide_eq_false_2; [done|]. rewrite lookup_insert_ne, Hm by by apply tmp_ne. by intros [].
Qed.
Lemma create_taken vmid fp n d :
  PinDir e ≠ "" → fp ≠ "" → validateVMID vmid = Ok () → roomy n vmid d → is_Some (lookup_node d vmid) →
  createStoredPinExclusive e vmid fp (no_faults n) d = (d, Err AlreadyPinned).
Proof.
  intros Hd Hf Hv Hr Hl. unfold createStoredPinExclusive. rewrite !bool_decide_eq_false_2 by done. cbn [orb].
  rewrite Hv. apply validateVMID_Ok in Hv as (_ & _ & _ & _ & Hdot).
  cbn [no_faults mkdir_fails nonce open_fails write_fails close_fails link_fails remove_fails orb].
  destruct d as [| |m]; cbn [roomy lookup_node] in Hr, Hl; [by destruct Hl|done|].
  rewrite bool_decide_eq_false_2 by (rewrite Hr; by intros []).
  rewrite bool_decide_eq_true_2 by (rewrite lookup_insert_ne by (by apply tmp_ne); done).
  by rewrite delete_insert_id.
Qed.

(** When the caller's own pins admit it and no other VM holds its EK, a directory
    that can be written is all it takes. *)
Lemma ensure_succeeds vmid fp n1 n2 d :
  fp ≠ "" → enforceOwnPin e env d vmid fp = Ok () → pinnedToAnotherVM e env d vmid fp = Ok "" →
  roomy n1 vmid d → roomy n2 vmid d →
  (ensurePinBeforeIssue e env vmid fp id (no_faults n1) (no_faults n2) d).2 = Ok ().
Proof.
  intros Hf Hown Hother Hr1 Hr2. unfold enforceOwnPin in Hown. unfold ensurePinBeforeIssue.
  apply bind_Ok in Hown as ([cpin ex] & -> & Hown). apply bind_Ok in Hown as (stored & Hs & Hown). cbn [fst] in Hown.
  case_bool_decide as Hc; cbn [negb] in *; [|by destruct (EqualFold cpin fp)].
  destruct (RequireClusterPin e); [done|].
  destruct (decide (PinDir e = "")) as [Hd|Hd]; [by rewrite (bool_decide_eq_true_2 (PinDir e = ""))|].
  rewrite (bool_decide_eq_false_2 (PinDir e = "")) in * by done. rewrite Hs, Hother.
  destruct (negb (bool_decide (stored = "")) && _); [done|]. rewrite (bool_decide_eq_true_2 ("" = "")) by done. cbn [negb].
  case_bool_decide as He; cbn [negb]; [|done]. subst stored.
  assert (validateVMID vmid = Ok ()) as Hv.
  { unfold readStoredPin in Hs. rewrite bool_decide_eq_false_2 in Hs by done. by destruct (validateVMID vmid) as [[]|]. }
  change (id d) with d. destruct (lookup_node d vmid) as [nd|] eqn:Hl.
  - rewrite create_taken by (by rewrite ?Hl). rewrite Hs, bool_decide_eq_true_2 by done. destruct d as [| |m]; [done..|].
    cbn [no_faults remove_fails remove_pin]. apply create_free; [done..| |by apply lookup_delete_eq].
    cbn [roomy] in Hr2 |- *. rewrite lookup_delete_ne; [done|]. apply validateVMID_Ok in Hv as (_ & _ & _ & _ & Hdot).
    apply not_eq_sym. by apply tmp_ne.
  - pose proof (create_free vmid fp n1 d Hd Hf Hv Hr1 Hl) as Hok.
    destruct (createStoredPinExclusive _ _ _ _ _) as [d' [[]|err]]; done.
Qed.
End pins.

(** ** Between the legs *)

Section progress.
Context `{CR : Crypto} {CC : CACrypto} {WR : Wire} `{GU : GoUnicode}.
Context (decode_start decode_finish : string → option (string * string)).
Context (e : Enroller).
(** A SHA-256 digest is 32 bytes. *)
Context (sha256_length : ∀ s, String.length (sha256 s) = 32).
Abbreviation world := (@world CR WR).
Local Abbreviation step := (EnrollProofs.step decode_start decode_finish e).
Local Abbreviation run := (EnrollProofs.run decode_start decode_finish e).

(** What others do until [now]: a start leg does not draw the session's ID again,
    and no finish leg names it. *)
Definition apart (sid : string) (now : Z) (ev : event) : Prop :=
  match ev with
  | EvStart l _ => (at_session l ≤ now)%Z ∧ (hex_encode <$> session_random l) ≠ Some sid
  | EvFinish l r => (at_session l ≤ now)%Z ∧ (fst <$> decode_finish (req_body r)) ≠ Some sid
  | EvDir _ => True
  end.

(** A step is at most one operation of the session store. *)
Lemma step_ops sid now ev w :
  apart sid now ev → ∃ ops, Forall (spares sid) ops ∧ Forall (λ op, (op_now op ≤ now)%Z) ops ∧
    w_sessions (step ev w).1 = run_ops ops (w_sessions w).
Proof.
  assert (∀ s, s = w_sessions w → ∃ ops : list (session_op (A := SigningRequest)), Forall (spares sid) ops ∧
    Forall (λ op, (op_now op ≤ now)%Z) ops ∧ s = run_ops ops (w_sessions w)) as Hsame.
  { intros s ->. exists []. by repeat constructor. }
  destruct ev as [l r|l r|edit]; cbn [apart EnrollProofs.step].
  - intros [Ht Hsid]. unfold HandleStart. destruct (start_input _ _) as [[[data sig] sr]|]; [|by apply Hsame].
    destruct (AuthenticateEnrollCaller _ _ _ _ _ _ _) as [[vmid cert]|]; [|by apply Hsame].
    unfold Start. destruct (EnrollCA e); [|by apply Hsame]. destruct (prefix_error _ _) as [sr'|]; [|by apply Hsame].
    destruct (_ ← start_checks _ _ _ _ _ _; _) as [[[blob secret] nonce]|]; [|by apply Hsame].
    exists [OpPut (at_session l) (session_random l) nonce sr' vmid (EKFingerprint cert)].
    split_and!; [|by repeat constructor|].
    + constructor; [|done]. cbn [spares]. destruct (session_random l); [|done]. intros ?. by apply Hsid; f_equal/=.
    + cbn [run_ops foldl run_op]. by destruct (Put _ _ _ _ _ _ _) as [? []].
  - intros [Ht Hsid]. unfold HandleFinish. destruct (decode_finish _) as [[id resp64]|]; [|by apply Hsame].
    destruct (base64_decode _); [|by apply Hsame].
    destruct (AuthenticateEnrollCaller _ _ _ _ _ _ _) as [[vmid cert]|]; [|by apply Hsame].
    unfold Finish. destruct (EnrollCA e); [|by apply Hsame]. exists [OpTake (at_session l) id].
    split_and!; [|by repeat constructor|].
    + constructor; [|done]. cbn [spares]. intros ->. by apply Hsid.
    + cbn [run_ops foldl run_op]. destruct (Take _ _ _) as [? [sess|]]; [|done].
      destruct (session_checks _ _ _ _); [|done]. by destruct (issue _ _ _ _ _ _ _ _) as [pins []].
  - intros _. by apply Hsame.
Qed.

Lemma run_ops_of sid now evs w :
  Forall (apart sid now) evs → ∃ ops, Forall (spares sid) ops ∧ Forall (λ op, (op_now op ≤ now)%Z) ops ∧
    w_sessions (run evs w).1 = run_ops ops (w_sessions w).
Proof.
  intros Hevs. revert w. induction Hevs as [|ev evs Hev _ IH]; intros w; [by exists []|]. cbn [EnrollProofs.run].
  destruct (step_ops sid now ev w Hev) as (ops & H1 & H2 & Hs). destruct (step ev w) as [w1 rep].
  destruct (IH w1) as (ops' & H1' & H2' & Hs'). destruct (run evs w1) as [w2 log]. cbn [fst] in *.
  exists (ops ++ ops'). split_and!; [by apply Forall_app|by apply Forall_app|].
  rewrite Hs', Hs. symmetry. apply foldl_app.
Qed.

(** ** The guest *)

Lemma EqualFold_fingerprint cert : EqualFold (EKFingerprint cert) (EKFingerprint cert) = true.
Proof.
  unfold EKFingerprint. rewrite EqualFold_hex by apply hex_encode_hex. by apply bool_decide_eq_true.
Qed.

(** The connection's VM and the certificate it sends. *)
Definition calls (r : request) (vm : VMConfig) (cert : certificate Key) : Prop :=
  BoundVM (req_vm r) = Some vm ∧ ParseEKCertHeader (req_ek_header r) = Ok cert.
(** The certificate is trusted at that time, and every pin agrees. *)
Definition admitted (l : leg) (store : dirstate) (vm : VMConfig) (cert : certificate Key) : Prop :=
  VerifyEKCertificateChain (at_verify l) (EKRoots e) (Some cert) = Ok () ∧
  check_pins e l store vm (EKFingerprint cert) = Ok ().
(** A signing request made by the TPM the certificate is for. *)
Record genuine (r : request) (cert : certificate Key) (data sig : string) (sr : SigningRequest) : Prop := {
  gen_input : start_input decode_start r = Ok (data, sig, sr);
  gen_cert : EndorsementCertificate sr = Some cert;
  gen_ek : ekCertificateMatchesKey cert (EndorsementKey sr) = true;
  gen_signed : CheckSignature (DevIDKey sr) data sig = Ok ();
  gen_keys : ∃ devid ak, DevIDKey sr = Some devid ∧ AttestationKey sr = Some ak ∧
    VerifyDevIDResidency (Some ak) devid (CertifyData sr) (CertifySignature sr) = Ok () ∧
    CheckDevIDProp (Attributes devid) = Ok () ∧ CheckAKProp (Attributes ak) = Ok ();
}.
(** The pin store can be written, and nobody writes it meanwhile. *)
Definition recordable (l : leg) (vmid : string) (store : dirstate) : Prop :=
  between l = id ∧ ∃ n1 n2, faults1 l = no_faults n1 ∧ faults2 l = no_faults n2 ∧
    roomy n1 vmid store ∧ roomy n2 vmid store.

Lemma authenticate_start l store r vm cert data sig sr :
  calls r vm cert → admitted l store vm cert → genuine r cert data sig sr →
  AuthenticateEnrollCaller e l store r (EndorsementCertificate sr) (EndorsementKey sr) "" = Ok (VMID vm, cert).
Proof.
  intros [Hvm Hh] [Hv Hp] [_ Hc Hk _ _]. unfold AuthenticateEnrollCaller. rewrite Hvm, Hh, Hc.
  cbn [unauthorized_of mbind outcome_bind check_chain]. unfold VerifyEKCertificateBound. rewrite Hv.
  cbn [mbind outcome_bind]. rewrite Hk. cbn zeta. rewrite Hp. cbn [mbind outcome_bind].
  rewrite (bool_decide_eq_true_2 ("" = "")) by done. unfold certsDEREqual. by rewrite bool_decide_eq_true_2.
Qed.
Lemma authenticate_finish l store r vm cert :
  calls r vm cert → admitted l store vm cert →
  AuthenticateEnrollCaller e l store r None None "" = Ok (VMID vm, cert).
Proof.
  intros [Hvm Hh] [Hv Hp]. unfold AuthenticateEnrollCaller. rewrite Hvm, Hh.
  cbn [unauthorized_of mbind outcome_bind check_chain]. rewrite Hv. cbn [mbind outcome_bind]. cbn zeta. by rewrite Hp.
Qed.

Lemma genuine_checks l store r vm cert data sig sr :
  admitted l store vm cert → genuine r cert data sig sr →
  start_checks e l data sig (EKFingerprint cert) sr = Ok ().
Proof.
  intros [Hv _] [_ Hc _ Hs (devid & ak & Hd & Ha & Hr & Hpd & Hpa)]. unfold start_checks.
  rewrite Hs, Hc, Hv, Hd, Ha. cbn [prefix_error mbind outcome_bind]. rewrite Hr. cbn [prefix_error mbind outcome_bind].
  rewrite Hpd. cbn [mbind outcome_bind]. rewrite Hpa. cbn [mbind outcome_bind].
  by rewrite EqualFold_fingerprint, andb_false_r.
Qed.

(** The start leg: a challenge, and a session that waits for its answer. *)
Lemma start_succeeds ca vm cert data sig sr l r b blob secret nonce w :
  EnrollCA e = Some ca → calls r vm cert → admitted l (w_pins w) vm cert → genuine r cert data sig sr →
  session_random l = Some b → start_challenge l sr = Ok (blob, secret, nonce) →
  HandleStart decode_start e l r w =
    (mkWorld (Put (at_session l) (Some b) nonce sr (VMID vm) (EKFingerprint cert) (w_sessions w)).1 (w_pins w),
     mkReply 200 (StartBody (hex_encode b) (base64_encode blob) (base64_encode secret))).
Proof.
  intros Hca Hcall Had Hg Hb Hch. unfold HandleStart. pose proof (gen_input _ _ _ _ _ Hg) as Hin. rewrite Hin.
  rewrite (authenticate_start _ _ _ _ _ _ _ _ Hcall Had Hg). unfold Start. rewrite Hca.
  rewrite (start_input_request _ _ _ _ _ Hin). cbn [prefix_error].
  rewrite (genuine_checks _ _ _ _ _ _ _ _ Had Hg). cbn [mbind outcome_bind]. rewrite Hch, Hb. done.
Qed.

Lemma issue_succeeds l ca sess vm cert pins leaf :
  admitted l pins vm cert → recordable l (VMID vm) pins →
  IssueDevID ca (DevIDKey (Request sess)) (EndorsementKey (Request sess)) (EndorsementCertificate (Request sess))
    (SessVMID sess) (Some (at_issue l)) (at_issue l) = Ok leaf →
  (issue e l ca sess (VMID vm) (EKFingerprint cert) (EKSHA256 vm) pins).2 =
    Ok (pem_Encode "CERTIFICATE" (Raw leaf) +:+ pem_Encode "CERTIFICATE" (Raw (ca_cert ca))).
Proof.
  intros [_ Hp] (Hbt & n1 & n2 & Hf1 & Hf2 & Hr1 & Hr2) Hi. unfold issue, check_pins in *. cbn zeta in Hp.
  apply bind_Ok in Hp as ([] & Hown & Hp). apply bind_Ok in Hp as (other & Hother & Hp).
  destruct (decide (other = "")) as [->|Ho]; [|by rewrite bool_decide_eq_false_2 in Hp]. rewrite Hbt, Hf1, Hf2.
  destruct (decide (TrimSpace (EKSHA256 vm) = "")) as [Ht|Ht].
  - rewrite (bool_decide_eq_true_2 _ Ht) in *. cbn [negb] in Hown.
    pose proof (ensure_succeeds _ _ _ _ n1 n2 _ (EKFingerprint_nonempty sha256_length cert) Hown Hother Hr1 Hr2) as He.
    destruct (ensurePinBeforeIssue _ _ _ _ _ _ _ _) as [pins' [[]|]]; [|done]. by rewrite Hi.
  - rewrite (bool_decide_eq_false_2 _ Ht). by rewrite Hi.
Qed.

(** The finish leg, while the session is in the store. *)
Lemma finish_succeeds ca sess vm cert l r id resp64 w leaf :
  EnrollCA e = Some ca → calls r vm cert → admitted l (w_pins w) vm cert → recordable l (VMID vm) (w_pins w) →
  sessions (w_sessions w) !! id = Some sess → alive (sessionTTL (w_sessions w)) (at_session l) sess →
  SessVMID sess = VMID vm → SessEKFingerprint sess = EKFingerprint cert →
  decode_finish (req_body r) = Some (id, resp64) → base64_decode resp64 = Some (Nonce sess) →
  IssueDevID ca (DevIDKey (Request sess)) (EndorsementKey (Request sess)) (EndorsementCertificate (Request sess))
    (SessVMID sess) (Some (at_issue l)) (at_issue l) = Ok leaf →
  (HandleFinish decode_finish e l r w).2 =
    mkReply 200 (FinishBody (pem_Encode "CERTIFICATE" (Raw leaf) +:+ pem_Encode "CERTIFICATE" (Raw (ca_cert ca)))).
Proof.
  intros Hca Hcall Had Hrec Hl Ha Hvm Hfp Hd Hr Hi. unfold HandleFinish. rewrite Hd, Hr.
  rewrite (authenticate_finish _ _ _ _ _ Hcall Had). unfold Finish. rewrite Hca.
  destruct Hcall as [(-> & _)%BoundVM_Some _].
  assert ((Take (at_session l) id (w_sessions w)).2 = Ok sess) as Htake by by apply Take_result.
  destruct (Take _ _ _) as [s taken]. cbn [snd] in Htake. subst taken.
  assert (session_checks sess (Nonce sess) (VMID vm) (EKFingerprint cert) = Ok ()) as ->.
  { apply session_checks_Ok. rewrite Hfp. split_and!; [by right|right; apply EqualFold_fingerprint|done]. }
  pose proof (issue_succeeds l ca sess vm cert (w_pins w) leaf Had Hrec Hi) as His.
  by destruct (issue _ _ _ _ _ _ _ _) as [pins [pem|]]; simplify_eq/=.
Qed.

(** A guest whose request is genuine is enrolled. Its start leg answers a session and
    a challenge; then, whatever legs of others run and whatever is edited in the pin
    directory, as long as no one else names the session's ID and its pins still admit
    it, the answer its TPM recovers from the challenge, given within the session's
    lifetime, is answered with the certificate: for the DevID key of the request, in
    the name of the connection's VM. *)
Theorem honest_guest_enrols `{!CALaws} ca vm cert data sig sr l1 r1 l2 r2 b w evs activate blob secret nonce leaf :
  EnrollCA e = Some ca → calls r1 vm cert → calls r2 vm cert →
  genuine r1 cert data sig sr → admitted l1 (w_pins w) vm cert →
  session_random l1 = Some b → start_challenge l1 sr = Ok (blob, secret, nonce) → activate blob secret = nonce →
  let sid := hex_encode b in
  let started := HandleStart decode_start e l1 r1 w in
  let w2 := (run evs started.1).1 in
  started.2 = mkReply 200 (StartBody sid (base64_encode blob) (base64_encode secret)) ∧
  (Forall (apart sid (at_session l2)) evs →
   (at_session l1 ≤ at_session l2 ≤ at_session l1 + sessionTTL (w_sessions w))%Z →
   (sessionTTL (w_sessions w) < max_int64)%Z →
   decode_finish (req_body r2) = Some (sid, base64_encode (activate blob secret)) →
   admitted l2 (w_pins w2) vm cert → recordable l2 (VMID vm) (w_pins w2) →
   IssueDevID ca (DevIDKey sr) (EndorsementKey sr) (EndorsementCertificate sr) (VMID vm)
     (Some (at_issue l2)) (at_issue l2) = Ok leaf →
   (HandleFinish decode_finish e l2 r2 w2).2 =
       mkReply 200 (FinishBody (pem_Encode "CERTIFICATE" (Raw leaf) +:+ pem_Encode "CERTIFICATE" (Raw (ca_cert ca)))) ∧
     CommonName leaf = VMID vm ∧ (PublicKeyOf <$> DevIDKey sr) = Some (Ok (PublicKey leaf))).
Proof.
  intros Hca Hc1 Hc2 Hg Had Hb Hch Hact sid started w2. subst started.
  pose proof (start_succeeds _ _ _ _ _ _ _ _ _ _ _ _ _ Hca Hc1 Had Hg Hb Hch) as Hs. split; [by rewrite Hs|].
  intros Hevs Ht Hmax Hd Had2 Hrec Hi.
  pose proof (IssueDevID_facts _ _ _ _ _ _ _ _ Hi) as (Hcn & Hpk & _). split; [|by split].
  set (sess := mkSession sid nonce sr (VMID vm) (EKFingerprint cert) (at_session l1)).
  set (s1 := (Put (at_session l1) (Some b) nonce sr (VMID vm) (EKFingerprint cert) (w_sessions w)).1).
  destruct (run_ops_of sid (at_session l2) evs (HandleStart decode_start e l1 r1 w).1 Hevs) as (ops & Hsp & Hnow & Hops).
  fold w2 in Hops. rewrite Hs in Hops. cbn [fst w_sessions] in Hops. fold s1 in Hops.
  assert (sessionTTL s1 = sessionTTL (w_sessions w)) as Httl by apply Put_ttl.
  assert (alive (sessionTTL s1) (at_session l2) sess) as Ha.
  { rewrite Httl. unfold alive, Sub, min_int64. cbn. unfold max_int64 in *. lia. }
  apply (finish_succeeds ca sess vm cert l2 r2 sid (base64_encode (activate blob secret)));
    [done|done|done|done| | |done|done|done| |done]; rewrite ?Hops.
  - apply (run_ops_keeps ops s1 sid sess (at_session l2)); [done|done|done|]. apply Put_lookup. by left.
  - by rewrite run_ops_ttl.
  - rewrite Hact. apply base64_roundtrip.
Qed.
End progress.

(** ** A guest, and another one between its legs *)

Definition toy_guest : certificate string := mkCert "CERT|ekca|ek1" "ek1" [] false "ekca" 0 0.
Definition toy_between : list event := [EvFinish (toy_leg Minute) (toy_req "101" "00&eA=="); EvDir id].
Definition toy_started : Enroll.world (CR := toy_crypto) (WR := toy_wire) * reply :=
  HandleStart (CR := toy_crypto) (CC := toy_ca_crypto) (WR := toy_wire) (GU := caseless) toy_body toy_enroller
    (toy_leg 0) (toy_req "350" toy_start) toy_world.

Lemma toy_genuine : genuine (CR := toy_crypto) (WR := toy_wire) toy_body (toy_req "350" toy_start) toy_guest
  toy_data ("devid1#" +:+ toy_data) toy_request.
Proof.
  split; [by vm_compute..|]. eexists _, _. split_and!; by vm_compute.
Qed.
Lemma toy_admitted now store : store = Listing ∅ →
  admitted (CR := toy_crypto) (CC := toy_ca_crypto) (GU := caseless) toy_enroller (toy_leg now) store (toy_vm "350") toy_guest.
Proof. intros ->. by split; vm_compute. Qed.
Lemma toy_recordable now : recordable (toy_leg now) "350" (Listing ∅).
Proof. split; [done|]. exists "r", "r". by split_and!. Qed.

Definition toy_leaf : certificate string :=
  mkCert "CERT|350|devid1|60000000000|7776060000000000" "devid1" [] false "350" 60000000000 7776060000000000.
Lemma honest_guest_enrols_witness :
  (HandleFinish (CR := toy_crypto) (CC := toy_ca_crypto) (WR := toy_wire) (GU := caseless) toy_body toy_enroller
    (toy_leg Minute) (toy_req "350" toy_finish)
    (EnrollProofs.run (CR := toy_crypto) (CC := toy_ca_crypto) (WR := toy_wire) (GU := caseless) toy_body toy_body
       toy_enroller toy_between toy_started.1).1).2 =
  mkReply 200 (FinishBody (pem_Encode (Crypto := toy_crypto) "CERTIFICATE" (Raw toy_leaf) +:+
    pem_Encode (Crypto := toy_crypto) "CERTIFICATE" (Raw (ca_cert toy_ca)))).
Proof.
  refine (proj1 (proj2 (honest_guest_enrols (CR := toy_crypto) (CC := toy_ca_crypto) (WR := toy_wire) (GU := caseless)
    toy_body toy_body toy_enroller (take_pad_length 32) toy_ca (toy_vm "350") toy_guest toy_data ("devid1#" +:+ toy_data)
    toy_request (toy_leg 0) (toy_req "350" toy_start) (toy_leg Minute) (toy_req "350" toy_finish) "0123456789abcdef"
    toy_world toy_between (λ blob _, blob) "sixteen byte key" "ak1" "sixteen byte key" toy_leaf
    eq_refl (conj eq_refl eq_refl) (conj eq_refl eq_refl) toy_genuine (toy_admitted 0 _ eq_refl) eq_refl
    eq_refl eq_refl) _ _ _ _ _ _ _)).
  - repeat constructor; by vm_compute.
  - by vm_compute.
  - by vm_compute.
  - by vm_compute.
  - by apply toy_admitted; vm_compute.
  - assert (w_pins (EnrollProofs.run (CR := toy_crypto) (CC := toy_ca_crypto) (WR := toy_wire) (GU := caseless) toy_body
      toy_body toy_enroller toy_between toy_started.1).1 = Listing ∅) as Hp by by vm_compute.
    refine (eq_ind_r _ (toy_recordable Minute) Hp).
  - by vm_compute.
Qed.
