(* ===== verification/Tpm.v ===== *)
(** * Keys in the TPM (internal/devid/keys.go, csr.go, activate.go, sign.go)

    The TPM's commands change the state of the chip, [W]: which objects and
    sessions are loaded. The class [TPM] is go-tpm's functions for them, with the
    empty password authorization the code always gives left out; a deferred flush
    runs whatever the function returns. *)

From S2P Require Import Prelude.
From S2P Require Import Go.
From S2P Require Import Crypto.
From S2P Require Import Csr.
From Stdlib Require Import Ascii.

(** go-tpm's errors: a parameter error, a format-0 error and a warning, each a value
    or a pointer to one, and any other. *)
Inductive tpm_error :=
| ParameterError (pointer : bool) (code : Z)
| FormatError (pointer : bool) (code : Z)
| Warning (pointer : bool) (code : Z)
| OtherTPM (msg : string).

(** A TPMT_SIGNATURE with the member of its algorithm. *)
Record Signature := mkSig { SigAlg : Z; RSASignature : string; ECCSignature : Z * Z }.

Class TPM (W : Type) `{Crypto} := {
  NVRead : Z → fallible W tpm_error string;
  CreatePrimaryEx : Z → Public → fallible W tpm_error (Z * string);
  (** The private and the public area. *)
  CreateKeyUsingAuth : Z → Public → fallible W tpm_error (string * string);
  LoadUsingAuth : Z → string → string → fallible W tpm_error Z;
  FlushContext : Z → fallible W tpm_error ();
  Certify : Z → Z → fallible W tpm_error (string * string);
  StartAuthSession : fallible W tpm_error Z;
  PolicySecret : Z → fallible W tpm_error ();
  (** The session, the two keys, the credential and the secret. *)
  ActivateCredentialUsingAuth : Z → Z → Z → string → string → fallible W tpm_error string;
  ReadPublic : Z → fallible W tpm_error Public;
  (** A digest and its ticket. *)
  TPMHash : Z → string → Z → fallible W tpm_error (string * string);
  HashSequenceStart : Z → fallible W tpm_error Z;
  SequenceUpdate : Z → string → fallible W tpm_error ();
  SequenceComplete : Z → Z → string → fallible W tpm_error (string * string);
  TPMSign : Z → string → string → SigScheme → fallible W tpm_error Signature;
  tpm_text : tpm_error → string;
  HandleEndorsement : Z; HandleOwner : Z; EKRSACertificateHandle : Z;
  AlgRSAPSS : Z; AlgECDSA : Z;
  RCIntegrity : Z; RCBinding : Z; RCSensitive : Z; RCRetry : Z;
  DecodeSignature : string → outcome string Signature;
  (** The ASN.1 sequence of two integers. *)
  EncodeECDSA : Z → Z → outcome string string;
  (** go-tpm-tools' templates, and a template with an empty unique field. *)
  DefaultEKTemplateRSA : Public;
  SRKTemplateRSA : Public;
  empty_unique : string → string;
}.

Record KeyInfo := mkKey {
  KeyHandle : Z;
  KeyPublic : Public;
  KeyPublicBlob : string;
  KeyPrivateBlob : string;
  KeyTemplate : Public;
}.
Definition without_handle (k : KeyInfo) : KeyInfo :=
  mkKey 0 (KeyPublic k) (KeyPublicBlob k) (KeyPrivateBlob k) (KeyTemplate k).

Record KeyFactory := mkFactory { EKTemplate : Public; SRKTemplate : Public; AKTemplate : Public; DevIDTemplate : Public }.

(** The two errors of [LoadDevID], by their texts. *)
Inductive load_error := DevIDForeign (msg : string) | DevIDLoad (msg : string).
Definition ErrDevIDLoad : string := "load existing DevID".
Definition ErrDevIDForeign : string := "DevID blobs are foreign to this TPM".

Section tpm.
Context {W : Type} `{CR : Crypto} `{!TPM W} `{!Wire}.

Definition run_tpm {A} (what : string) (m : fallible W tpm_error A) : fallible W string A :=
  λ w, match m w with (w, Ok a) => (w, Ok a) | (w, Err e) => (w, Err (what +:+ tpm_text e)) end.
Definition of_tpm {A} (o : outcome string A) : fallible W string A := λ w, (w, o).
(** [tpm2.FlushContext], its error ignored. *)
Definition flush (h : Z) (w : W) : W := (FlushContext h w).1.
(** [defer f(); m]. *)
Definition deferred {E A} (f : W → W) (m : fallible W E A) : fallible W E A := λ w, let '(w, r) := m w in (f w, r).

Definition fail_after {E A} (f : W → W) (e : E) : fallible W E A := λ w, (f w, Err e).

(** Zero is no handle, and the persistent ones are left alone. *)
Definition FlushTransient (h : Z) (w : W) : W :=
  if (h =? 0)%Z then w else if (2164260864 <=? h)%Z && (h <=? 2181038079)%Z then w else flush h w.

(** ** Keys (keys.go) *)

Definition SRKTemplateHighRSA : Public :=
  let t := SRKTemplateRSA in
  mkPublic (PubType t) (NameAlg t) (Attributes t) (RSAParameters t) (ECCParameters t) (empty_unique (PubRest t)).
Definition DefaultKeyFactory : KeyFactory :=
  mkFactory DefaultEKTemplateRSA SRKTemplateHighRSA DefaultAKTemplateRSA DefaultDevIDTemplateRSA.

Definition createPrimaryKey (hierarchy : Z) (template : Public) : fallible W string KeyInfo :=
  '(handle, pubBlob) ← run_tpm "CreatePrimary: " (CreatePrimaryEx hierarchy template);
  match DecodePublic pubBlob with
  | Err e => fail_after (flush handle) ("decode primary public: " +:+ e)
  | Ok pub => mret (mkKey handle pub pubBlob "" template)
  end.

Definition createLoadedKey (parent : Z) (template : Public) : fallible W string KeyInfo :=
  '(privBlob, pubBlob) ← run_tpm "CreateKey: " (CreateKeyUsingAuth parent template);
  pub ← of_tpm (prefix_error "decode public: " (DecodePublic pubBlob));
  handle ← run_tpm "Load: " (LoadUsingAuth parent pubBlob privBlob);
  mret (mkKey handle pub pubBlob privBlob template).

Section factory.
Context (f : KeyFactory).

Definition CreateEK : fallible W string KeyInfo := createPrimaryKey HandleEndorsement (EKTemplate f).
Definition CreateSRK : fallible W string KeyInfo := createPrimaryKey HandleOwner (SRKTemplate f).
Definition createUnderSRK (template : Public) : fallible W string KeyInfo :=
  srk ← CreateSRK;
  deferred (flush (KeyHandle srk)) (createLoadedKey (KeyHandle srk) template).
Definition CreateAK : fallible W string KeyInfo := createUnderSRK (AKTemplate f).
Definition CreateDevID : fallible W string KeyInfo := createUnderSRK (DevIDTemplate f).

Definition isForeignLoadError (err : tpm_error) : bool :=
  match err with
  | ParameterError _ code => (code =? RCIntegrity)%Z || (code =? RCBinding)%Z
  | FormatError _ code => (code =? RCSensitive)%Z
  | _ => false
  end.

Definition LoadDevID (pubBlob privBlob : string) : fallible W load_error KeyInfo :=
  if bool_decide (pubBlob = "") || bool_decide (privBlob = "")
  then throw (DevIDLoad (ErrDevIDLoad +:+ ": missing blobs"))
  else
    match DecodePublic pubBlob with
    | Err e => throw (DevIDForeign (ErrDevIDForeign +:+ ": decode public: " +:+ e))
    | Ok pub =>
        λ w,
        match CreateSRK w with
        | (w, Err e) => (w, Err (DevIDLoad (ErrDevIDLoad +:+ ": derive parent: " +:+ e)))
        | (w, Ok srk) =>
            deferred (flush (KeyHandle srk)) (λ w,
              match LoadUsingAuth (KeyHandle srk) pubBlob privBlob w with
              | (w, Err err) =>
                  (w, Err (if isForeignLoadError err then DevIDForeign (ErrDevIDForeign +:+ ": " +:+ tpm_text err)
                           else DevIDLoad (ErrDevIDLoad +:+ ": " +:+ tpm_text err)))
              | (w, Ok handle) => (w, Ok (mkKey handle pub pubBlob privBlob (DevIDTemplate f)))
              end) w
        end
    end.
End factory.

(** ** Signatures (sign.go) *)

Definition maxDigestBuffer : nat := 1024.

Definition signatureBytes (sig : Signature) : outcome string string :=
  if (SigAlg sig =? AlgRSASSA)%Z || (SigAlg sig =? AlgRSAPSS)%Z then Ok (RSASignature sig)
  else if (SigAlg sig =? AlgECDSA)%Z then EncodeECDSA (ECCSignature sig).1 (ECCSignature sig).2
  else Err ("unsupported signature algorithm 0x" +:+ hex_04 (SigAlg sig)).

(** The blocks of a long message; each takes bytes, so the length bounds the loop. *)
Fixpoint hash_blocks (fuel : nat) (seq : Z) (data : string) : fallible W string string :=
  match fuel with
  | O => throw "more blocks"
  | S fuel =>
      if maxDigestBuffer <? String.length data then
        _ ← run_tpm "SequenceUpdate: " (SequenceUpdate seq (String.substring 0 maxDigestBuffer data));
        hash_blocks fuel seq (sdrop maxDigestBuffer data)
      else mret data
  end.
Definition tpmHash (hierarchy hashAlg : Z) (data : string) : fallible W string (string * string) :=
  if String.length data <=? maxDigestBuffer then run_tpm "Hash: " (TPMHash hashAlg data hierarchy)
  else
    seq ← run_tpm "HashSequenceStart: " (HashSequenceStart hashAlg);
    deferred (flush seq)
      (rest ← hash_blocks (S (String.length data)) seq data;
       run_tpm "SequenceComplete: " (SequenceComplete seq hierarchy rest)).

Definition HashAndSign (hierarchy keyHandle : Z) (data : string) : fallible W string string :=
  pub ← run_tpm "ReadPublic: " (ReadPublic keyHandle);
  scheme ← of_tpm (SignatureScheme pub);
  match scheme with
  | None => throw "missing signature scheme"
  | Some scheme =>
      '(digest, ticket) ← tpmHash hierarchy (SchemeHash scheme) data;
      sig ← run_tpm "Sign: " (TPMSign keyHandle digest ticket scheme);
      of_tpm (signatureBytes sig)
  end.

(** ** Credentials (activate.go) *)

Definition endorsementPolicySession : fallible W string Z :=
  session ← run_tpm "StartAuthSession: " StartAuthSession;
  (λ w, match PolicySecret session w with
        | (w, Err e) => (flush session w, Err ("PolicySecret: " +:+ tpm_text e))
        | (w, Ok _) => (w, Ok session)
        end) : fallible W string Z.
Definition ActivateCredential (akHandle ekHandle : Z) (credentialBlob secret : string) : fallible W string string :=
  session ← endorsementPolicySession;
  deferred (flush session)
    (run_tpm "ActivateCredential: " (ActivateCredentialUsingAuth session akHandle ekHandle credentialBlob secret)).

(** ** The signing request (csr.go) *)

Record RequestResources := mkRes {
  Attestation : option KeyInfo;
  Endorsement : option KeyInfo;
  ResDevID : option KeyInfo;
  ResFactory : option KeyFactory;
}.

Definition flush_key (k : option KeyInfo) (w : W) : W :=
  match k with Some k => FlushTransient (KeyHandle k) w | None => w end.
Definition Flush (r : RequestResources) (w : W) : W * RequestResources :=
  (flush_key (ResDevID r) (flush_key (Attestation r) w),
   mkRes (without_handle <$> Attestation r) (Endorsement r) (without_handle <$> ResDevID r) (ResFactory r)).

Definition Activate (r : RequestResources) (credentialBlob secret : string) : fallible W string string :=
  match Attestation r, Endorsement r with
  | Some ak, Some _ =>
      ek ← wrap (String.append "create EK: ") (CreateEK (default DefaultKeyFactory (ResFactory r)));
      deferred (flush (KeyHandle ek)) (ActivateCredential (KeyHandle ak) (KeyHandle ek) credentialBlob secret)
  | _, _ => throw "missing AK or EK"
  end.

(** The target of [errors.As] is a pointer, so a warning that is a value does not match. *)
Definition isTPMRetry (err : tpm_error) : bool :=
  match err with Warning true code => (code =? RCRetry)%Z | _ => false end.

Definition maxAttempts : nat := 5.
(** The attempts that are left; [last] is the error of the one before. *)
Fixpoint certify_attempts (more : nat) (last : string) (object signer : Z) : fallible W string (string * string) :=
  match more with
  | O => throw ("Certify: max retries exceeded: " +:+ last)
  | S more =>
      λ w,
      match Certify object signer w with
      | (w, Ok (data, sigBlob)) =>
          (w, sig ← prefix_error "decode Certify signature: " (DecodeSignature sigBlob);
              raw ← signatureBytes sig;
              Ok (data, raw))
      | (w, Err err) =>
          if negb (isTPMRetry err) then (w, Err ("Certify: " +:+ tpm_text err))
          else certify_attempts more (tpm_text err) object signer w
      end
  end.
Definition certifyWithRetry : Z → Z → fallible W string (string * string) := certify_attempts maxAttempts "".

(** The body, which records the resources as it goes. *)
Definition on_tpm {A} (m : fallible W string A) : fallible (W * RequestResources) string A :=
  λ '(w, r), let '(w, o) := m w in ((w, r), o).
Definition record (g : RequestResources → RequestResources) : fallible (W * RequestResources) string () :=
  modify (λ '(w, r), (w, g r)).

(** [pkix.Name{CommonName: cn}.ToRDNSequence()]. *)
Context (ToRDNSequence : string → list RDN).

Definition request_body (factory : KeyFactory) (platformCN : string) (devID : option KeyInfo)
    : fallible (W * RequestResources) string SigningRequest :=
  ekCertData ← on_tpm (run_tpm "read EK certificate NV: " (NVRead EKRSACertificateHandle));
  ekCert ← on_tpm (of_tpm (prefix_error "parse EK certificate: " (parseCertificateLoose ekCertData)));
  ek ← on_tpm (wrap (String.append "create EK: ") (CreateEK factory));
  _ ← modify (λ '(w, r), (flush (KeyHandle ek) w,
                          mkRes (Attestation r) (Some (without_handle ek)) (ResDevID r) (ResFactory r)));
  ak ← on_tpm (wrap (String.append "create AK: ") (CreateAK factory));
  _ ← record (λ r, mkRes (Some ak) (Endorsement r) (ResDevID r) (ResFactory r));
  devID ← (match devID with
           | Some k => mret k
           | None =>
               k ← on_tpm (wrap (String.append "create DevID: ") (CreateDevID factory));
               _ ← record (λ r, mkRes (Attestation r) (Endorsement r) (Some k) (ResFactory r));
               mret k
           end);
  '(certifyData, certifySig) ← on_tpm (certifyWithRetry (KeyHandle devID) (KeyHandle ak));
  mret (mkSR (if bool_decide (platformCN = "") then [] else ToRDNSequence platformCN) (Some ekCert)
          (Some (KeyPublic ek)) (Some (KeyPublic ak)) (Some (KeyPublic devID)) certifyData certifySig).

(** The deferred flush runs on an error only. *)
Definition CreateSigningRequestWithKey (factory : option KeyFactory) (platformCN : string) (devID : option KeyInfo)
    : fallible W string (SigningRequest * RequestResources) :=
  λ w,
  let factory := default DefaultKeyFactory factory in
  match request_body factory platformCN devID (w, mkRes None None devID (Some factory)) with
  | ((w, r), Ok sr) => (w, Ok (sr, r))
  | ((w, r), Err e) => ((Flush r w).1, Err e)
  end.

Definition load_text (e : load_error) : string := match e with DevIDForeign m | DevIDLoad m => m end.
Definition CreateSigningRequestWithDevID (factory : option KeyFactory) (platformCN : string) (pubBlob privBlob : string)
    : fallible W string (SigningRequest * RequestResources) :=
  λ w,
  let factory := default DefaultKeyFactory factory in
  if negb (bool_decide (pubBlob = "")) && negb (bool_decide (privBlob = "")) then
    match LoadDevID factory pubBlob privBlob w with
    | (w, Err e) => (w, Err (load_text e))
    | (w, Ok devID) => CreateSigningRequestWithKey (Some factory) platformCN (Some devID) w
    end
  else CreateSigningRequestWithKey (Some factory) platformCN None w.
Definition CreateSigningRequest (factory : option KeyFactory) (platformCN : string)
    : fallible W string (SigningRequest * RequestResources) :=
  CreateSigningRequestWithDevID factory platformCN "" "".

(** ** The TPM's part of a run of the client (client.go) *)

(** What the run takes from the disk and the network between the TPM's steps. *)
Record run_steps := mkSteps {
  (** A reason to renew that the certificate gives, with and without the key. *)
  due : bool;
  due_with_key : Public → bool;
  request_data : SigningRequest → outcome string string;
  start_exchange : string → string → outcome string (string * string);
  finish_exchange : string → KeyInfo → outcome string ();
}.

(** The run from the loading of the key on; the key is flushed when it is kept as
    it is, and the resources of a request when the function returns. *)
Definition renew_with (s : run_steps) (factory : KeyFactory) (platformCN : string) (devID : option KeyInfo)
    : fallible W string () :=
  '(sr, res) ← CreateSigningRequestWithKey (Some factory) platformCN devID;
  deferred (λ w, (Flush res w).1)
    (requestData ← of_tpm (request_data s sr);
     match ResDevID res with
     | None => throw "nil pointer dereference"
     | Some key =>
         sig ← wrap (String.append "sign request: ") (HashAndSign HandleOwner (KeyHandle key) requestData);
         '(cred, secret) ← of_tpm (start_exchange s requestData sig);
         challengeResp ← wrap (String.append "activate credential: ") (Activate res cred secret);
         of_tpm (finish_exchange s challengeResp key)
     end).
Definition tpm_run (s : run_steps) (factory : option KeyFactory) (platformCN : string) (pubBlob privBlob : string)
    : fallible W string () :=
  λ w,
  let factory := default DefaultKeyFactory factory in
  if bool_decide (pubBlob = "") || bool_decide (privBlob = "") then renew_with s factory platformCN None w
  else
    match LoadDevID factory pubBlob privBlob w with
    | (w, Err (DevIDForeign _)) => renew_with s factory platformCN None w
    | (w, Err (DevIDLoad msg)) => (w, Err msg)
    | (w, Ok devID) =>
        if due s || due_with_key s (KeyPublic devID) then renew_with s factory platformCN (Some devID) w
        else (FlushTransient (KeyHandle devID) w, Ok ())
    end.
End tpm.
