(* ===== verification/TpmProofs.v ===== *)
(** * The client leaves the TPM as it found it

    [client_frees_tpm]: a run flushes every object and session it loads, whatever
    fails, and never needs more than the three object slots a TPM has. *)

From S2P Require Import Prelude.
From S2P Require Import Go.
From S2P Require Import Crypto.
From S2P Require Import Csr.
From S2P Require Import Tpm.
From Stdlib Require Import Ascii.

(** Handles 0x80000000 to 0x80FFFFFF are the transient objects'. *)
Definition transient (h : Z) : Prop := (2147483648 ≤ h < 2164260864)%Z.

(** What the commands do to the objects and sessions that are loaded: [peak] is the
    greatest number of objects that were loaded at once. A command that loads an
    object gives it a transient handle that is not in use, a failed one loads none;
    flushing a handle that is not loaded is an error that changes nothing. *)
Class TPMLaws (W : Type) `{TPM W} := {
  loaded : W → gset Z;
  sessions : W → gset Z;
  peak : W → nat;
  same w w' := loaded w' = loaded w ∧ sessions w' = sessions w ∧ peak w' = peak w;
  quiet {A} (m : fallible W tpm_error A) := ∀ w, same w (m w).1;
  loads {A} (h : A → Z) (m : fallible W tpm_error A) :=
    ∀ w, match m w with
         | (w', Ok a) => transient (h a) ∧ h a ∉ loaded w ∧ loaded w' = {[h a]} ∪ loaded w ∧
             sessions w' = sessions w ∧ peak w' = peak w `max` size (loaded w')
         | (w', Err _) => same w w'
         end;
  loaded_range w h : h ∈ loaded w → transient h;
  sessions_range w h : h ∈ sessions w → ¬ transient h;
  CreatePrimaryEx_law hierarchy t : loads fst (CreatePrimaryEx hierarchy t);
  LoadUsingAuth_law parent pub priv : loads (λ h, h) (LoadUsingAuth parent pub priv);
  HashSequenceStart_law alg : loads (λ h, h) (HashSequenceStart alg);
  SequenceComplete_law s hierarchy data w :
    let w' := (SequenceComplete s hierarchy data w).1 in
    loaded w' ∖ {[s]} = loaded w ∖ {[s]} ∧ sessions w' = sessions w ∧ peak w' = peak w;
  StartAuthSession_law w :
    match StartAuthSession w with
    | (w', Ok s) => ¬ transient s ∧ s ∉ sessions w ∧ sessions w' = {[s]} ∪ sessions w ∧
        loaded w' = loaded w ∧ peak w' = peak w
    | (w', Err _) => same w w'
    end;
  FlushContext_law h w :
    let w' := (FlushContext h w).1 in
    loaded w' = loaded w ∖ {[h]} ∧ sessions w' = sessions w ∖ {[h]} ∧ peak w' = peak w;
  NVRead_quiet h : quiet (NVRead h);
  CreateKeyUsingAuth_quiet p t : quiet (CreateKeyUsingAuth p t);
  Certify_quiet o s : quiet (Certify o s);
  PolicySecret_quiet s : quiet (PolicySecret s);
  Activate_quiet s ak ek c x : quiet (ActivateCredentialUsingAuth s ak ek c x);
  ReadPublic_quiet h : quiet (ReadPublic h);
  TPMHash_quiet a d h : quiet (TPMHash a d h);
  SequenceUpdate_quiet s d : quiet (SequenceUpdate s d);
  TPMSign_quiet k d t s : quiet (TPMSign k d t s);
}.
Create HintDb tpm.
#[export] Hint Resolve NVRead_quiet CreateKeyUsingAuth_quiet Certify_quiet PolicySecret_quiet Activate_quiet
  ReadPublic_quiet TPMHash_quiet SequenceUpdate_quiet TPMSign_quiet : tpm.

Section tpm.
Context {W : Type} `{CR : Crypto} `{!TPM W} `{!TPMLaws W} `{!Wire}.

(** ** Triples about the loaded objects *)

Definition at_tpm (L T : gset Z) (K : nat) (w : W) : Prop := loaded w = L ∧ sessions w = T ∧ peak w ≤ K.
(** A new object was loaded. *)
Definition gained (L T : gset Z) (K : nat) (h : Z) (w : W) : Prop :=
  transient h ∧ h ∉ L ∧ at_tpm ({[h]} ∪ L) T K w.
(** [m] leaves what is loaded as it is. *)
Definition steady {E A} (m : fallible W E A) (room : nat) : Prop :=
  ∀ L T K, size L + room ≤ K → hoare (at_tpm L T K) m (λ _, at_tpm L T K) (at_tpm L T K).
(** [m] loads an object, and needs [room] slots while it runs. *)
Definition gains {E} (m : fallible W E KeyInfo) (room : nat) : Prop :=
  ∀ L T K, size L + room ≤ K → hoare (at_tpm L T K) m (λ k, gained L T K (KeyHandle k)) (at_tpm L T K).

Lemma size_more (h : Z) (L : gset Z) : h ∉ L → size ({[h]} ∪ L) = S (size L).
Proof. intros Hh. rewrite size_union by set_solver. by rewrite size_singleton. Qed.

Lemma flush_at h L L' T K w : at_tpm L' T K w → transient h → L = L' ∖ {[h]} → at_tpm L T K (flush h w).
Proof.
  intros (HL & HT & HK) Hh ->. destruct (FlushContext_law h w) as (H1 & H2 & H3).
  unfold at_tpm, flush. rewrite H1, H2, H3, HL, HT. split_and!; [done| |done].
  assert (h ∉ T) by (rewrite <- HT; intros Hin; by apply (sessions_range w h)). set_solver.
Qed.
Lemma flush_gained h L T K w : gained L T K h w → at_tpm L T K (flush h w).
Proof. intros (Hh & Hf & Hw). eapply flush_at; [done..|]. set_solver. Qed.

Lemma hoare_deferred {E A} P f (m : fallible W E A) Q Q' X X' :
  hoare P m Q' X' → (∀ a w, Q' a w → Q a (f w)) → (∀ w, X' w → X (f w)) → hoare P (deferred f m) Q X.
Proof. intros Hm Hq Hx w Hw. specialize (Hm w Hw). unfold deferred. destruct (m w) as [w' [a|e]]; auto. Qed.
Lemma hoare_run_tpm {A} P what (m : fallible W tpm_error A) Q X : hoare P m Q X → hoare P (run_tpm what m) Q X.
Proof. intros Hm w Hw. specialize (Hm w Hw). unfold run_tpm. by destruct (m w) as [w' []]. Qed.
Lemma hoare_of_tpm {A} P (o : outcome string A) (X : W → Prop) : (∀ w, P w → X w) → hoare P (of_tpm o) (λ _, P) X.
Proof. intros HX w Hw. unfold of_tpm. destruct o; auto. Qed.

Lemma steady_more {E A} (m : fallible W E A) r r' : steady m r → r ≤ r' → steady m r'.
Proof. intros Hm Hr L T K HK. apply Hm. lia. Qed.
Lemma steady_quiet {A} (m : fallible W tpm_error A) what : quiet m → steady (run_tpm what m) 0.
Proof.
  intros Hm L T K _. apply hoare_run_tpm. intros w (HL & HT & HK). destruct (Hm w) as (H1 & H2 & H3).
  unfold at_tpm. destruct (m w) as [w' [a|e]]; cbn in *; rewrite H1, H2, H3; done.
Qed.
Lemma steady_of_tpm {A} (o : outcome string A) r : steady (of_tpm o) r.
Proof. intros L T K _. by apply hoare_of_tpm. Qed.
Lemma steady_bind {E A B} (m : fallible W E A) (k : A → fallible W E B) r :
  steady m r → (∀ a, steady (k a) r) → steady (m ≫= k) r.
Proof. intros Hm Hk L T K HK. eapply hoare_bind; [by apply Hm|]. intros a. by apply Hk. Qed.
Lemma steady_ret {E A} (a : A) r : steady (mret a : fallible W E A) r.
Proof. intros L T K _. by apply hoare_ret. Qed.
Lemma steady_throw {E A} (e : E) r : steady (throw e : fallible W E A) r.
Proof. intros L T K _. by apply hoare_throw. Qed.
Lemma steady_wrap {E A} g (m : fallible W E A) r : steady m r → steady (wrap g m) r.
Proof. intros Hm L T K HK. apply hoare_wrap. by apply Hm. Qed.

Lemma hoare_loads {A} (h : A → Z) (m : fallible W tpm_error A) what L T K :
  loads h m → size L + 1 ≤ K →
  hoare (at_tpm L T K) (run_tpm what m) (λ a, gained L T K (h a)) (at_tpm L T K).
Proof.
  intros Hm HK. apply hoare_run_tpm. intros w (HL & HT & HP). specialize (Hm w).
  destruct (m w) as [w' [a|e]].
  - destruct Hm as (H1 & H2 & H3 & H4 & H5). unfold gained, at_tpm. rewrite HL in *.
    split_and!; [done..|congruence|]. rewrite H5, H3, size_more by done. lia.
  - destruct Hm as (H1 & H2 & H3). unfold at_tpm. by rewrite H1, H2, H3.
Qed.
(** A use of a fresh object that is flushed in the end. *)
Lemma steady_using {E A B} (h : A → Z) (m : fallible W E A) (k : A → fallible W E B) r :
  (∀ L T K, size L + S r ≤ K → hoare (at_tpm L T K) m (λ a, gained L T K (h a)) (at_tpm L T K)) →
  (∀ a, steady (k a) r) → steady (m ≫= λ a, deferred (flush (h a)) (k a)) (S r).
Proof.
  intros Hm Hk L T K HK. eapply hoare_bind; [by apply Hm|]. intros a w (Ht & Hn & Hw).
  apply (hoare_deferred (at_tpm ({[h a]} ∪ L) T K) _ _ _ (λ _, at_tpm ({[h a]} ∪ L) T K) _ (at_tpm ({[h a]} ∪ L) T K)); [|by intros; apply flush_gained..|done].
  apply Hk. rewrite size_more by done. lia.
Qed.

(** ** Keys *)

Lemma createPrimaryKey_gains hierarchy t : gains (createPrimaryKey hierarchy t) 1.
Proof.
  intros L T K HK. unfold createPrimaryKey.
  eapply hoare_bind; [apply (hoare_loads fst); [apply CreatePrimaryEx_law|done]|].
  intros [h pub] w Hw. destruct (DecodePublic pub); [done|]. by apply flush_gained.
Qed.

Lemma createLoadedKey_gains parent t : gains (createLoadedKey parent t) 1.
Proof.
  intros L T K HK. unfold createLoadedKey.
  eapply hoare_bind; [apply (steady_quiet _ _ (CreateKeyUsingAuth_quiet _ _)); lia|]. intros [priv pub].
  eapply hoare_bind; [by apply hoare_of_tpm|]. intros p.
  eapply hoare_bind; [apply (hoare_loads (λ h, h)); [apply LoadUsingAuth_law|done]|]. intros h. by apply hoare_ret.
Qed.

(** A parent that is loaded for the loading of its child. *)
Lemma gains_under {E} (k : KeyInfo) (m : fallible W E KeyInfo) L T K w :
  gains m 1 → size L + 2 ≤ K → gained L T K (KeyHandle k) w →
  match deferred (flush (KeyHandle k)) m w with
  | (w', Ok c) => gained L T K (KeyHandle c) w'
  | (w', Err _) => at_tpm L T K w'
  end.
Proof.
  intros Hm HK (Ht & Hn & Hw). unfold deferred.
  specialize (Hm ({[KeyHandle k]} ∪ L) T K ltac:(rewrite size_more by done; lia) w Hw).
  destruct (m w) as [w' [c|e]].
  - destruct Hm as (Ht' & Hn' & Hw'). split_and!; [done|set_solver|]. eapply flush_at; [done..|]. set_solver.
  - by apply flush_gained.
Qed.

Lemma createUnderSRK_gains f t : gains (createUnderSRK f t) 2.
Proof.
  intros L T K HK. unfold createUnderSRK. eapply hoare_bind; [apply createPrimaryKey_gains; lia|].
  intros srk w Hw. apply gains_under; [apply createLoadedKey_gains|done..].
Qed.

Lemma LoadDevID_gains f pub priv : gains (LoadDevID f pub priv) 2.
Proof.
  intros L T K HK. unfold LoadDevID. case_match; [by apply hoare_throw|].
  destruct (DecodePublic pub) as [p|e]; [|by apply hoare_throw]. intros w Hw.
  pose proof (createPrimaryKey_gains HandleOwner (SRKTemplate f) L T K ltac:(lia) w Hw) as Hs.
  unfold CreateSRK. destruct (createPrimaryKey _ _ w) as [w1 [srk|e]]; [|done].
  apply (gains_under srk); [|done..]. intros L' T' K' HK' w2 Hw2.
  pose proof (hoare_loads (λ h, h) _ "" L' T' K' (LoadUsingAuth_law (KeyHandle srk) pub priv) HK' w2 Hw2) as Hl.
  unfold run_tpm in Hl. by destruct (LoadUsingAuth _ pub priv w2) as [w3 [h|err]].
Qed.

(** ** Signing and activation *)

Lemma hash_blocks_steady fuel seq data r : steady (hash_blocks fuel seq data) r.
Proof.
  revert data. induction fuel as [|fuel IH]; intros data; [apply steady_throw|]. cbn [hash_blocks].
  destruct (maxDigestBuffer <? String.length data); [|apply steady_ret].
  apply steady_bind; [|done]. eapply steady_more; [apply steady_quiet; auto with tpm|lia].
Qed.

(** The loop's fuel is enough: more changes nothing. *)
Lemma hash_blocks_enough fuel fuel' seq data w :
  String.length data < fuel → fuel ≤ fuel' → hash_blocks fuel seq data w = hash_blocks fuel' seq data w.
Proof.
  revert fuel' data w. induction fuel as [|fuel IH]; intros fuel' data w Hf Hle; [lia|].
  destruct fuel' as [|fuel']; [lia|]. cbn [hash_blocks].
  destruct (Nat.ltb_spec maxDigestBuffer (String.length data)) as [Hl|]; [|done].
  unfold mbind, fallible_bind. destruct (run_tpm _ _ w) as [w' [[]|e]]; [|done].
  apply IH; [rewrite sdrop_length; unfold maxDigestBuffer in *; lia|lia].
Qed.

(** The sequence object is flushed even when its completion has unloaded it. *)
Lemma tpmHash_steady hierarchy alg data : steady (tpmHash hierarchy alg data) 1.
Proof.
  unfold tpmHash. destruct (String.length data <=? maxDigestBuffer).
  { eapply steady_more; [apply steady_quiet; auto with tpm|lia]. }
  intros L T K HK. eapply hoare_bind; [apply (hoare_loads (λ h, h)); [apply HashSequenceStart_law|done]|].
  intros seq w (Ht & Hn & Hw).
  set (half := λ w, loaded w ∖ {[seq]} = L ∧ sessions w = T ∧ peak w ≤ K).
  assert (∀ w, half w → at_tpm L T K (flush seq w)) as Hflush.
  { intros w1 (H1 & H2 & H3). apply (flush_at seq L (loaded w1)); [|done|done]. done. }
  assert (∀ w, at_tpm ({[seq]} ∪ L) T K w → half w) as Hhalf.
  { intros w1 (H1 & H2 & H3). split_and!; [|done..]. rewrite H1. set_solver. }
  apply (hoare_deferred (at_tpm ({[seq]} ∪ L) T K) _ _ _ (λ _, half) _ half); [|by auto..|done].
  eapply hoare_bind.
  { eapply hoare_post; [apply (hash_blocks_steady _ _ _ 0); rewrite size_more by done; lia|done|exact Hhalf]. }
  intros rest. apply hoare_run_tpm. intros w1 (H1 & H2 & H3).
  destruct (SequenceComplete_law seq hierarchy rest w1) as (H4 & H5 & H6).
  destruct (SequenceComplete seq hierarchy rest w1) as [w2 r]; cbn in *.
  assert (half w2) as Hw2 by (unfold half; rewrite H4, H5, H6, H1; split_and!; [set_solver|done..]).
  by destruct r.
Qed.

Lemma HashAndSign_steady hierarchy key data : steady (HashAndSign hierarchy key data) 1.
Proof.
  unfold HashAndSign. apply steady_bind; [eapply steady_more; [apply steady_quiet; auto with tpm|lia]|]. intros pub.
  apply steady_bind; [apply steady_of_tpm|]. intros [scheme|]; [|apply steady_throw].
  apply steady_bind; [apply tpmHash_steady|]. intros [digest ticket].
  apply steady_bind; [eapply steady_more; [apply steady_quiet; auto with tpm|lia]|]. intros sig. apply steady_of_tpm.
Qed.

(** The session is flushed on every path. *)
Lemma flush_session s T L K w :
  at_tpm L ({[s]} ∪ T) K w → ¬ transient s → s ∉ T → at_tpm L T K (flush s w).
Proof.
  intros (HL & HT & HK) Hs Hn. destruct (FlushContext_law s w) as (H1 & H2 & H3).
  unfold at_tpm, flush. rewrite H1, H2, H3, HL, HT.
  assert (s ∉ L) by (rewrite <- HL; intros Hin; by eapply Hs, loaded_range). split_and!; [set_solver..|done].
Qed.

Lemma ActivateCredential_steady ak ek c x : steady (ActivateCredential ak ek c x) 0.
Proof.
  intros L T K _. unfold ActivateCredential.
  apply (hoare_bind _ _ _ (λ s w, ¬ transient s ∧ s ∉ T ∧ at_tpm L ({[s]} ∪ T) K w)).
  - unfold endorsementPolicySession.
    apply (hoare_bind _ _ _ (λ s w, ¬ transient s ∧ s ∉ T ∧ at_tpm L ({[s]} ∪ T) K w)).
    + apply hoare_run_tpm. intros w (H1 & H2 & H3). pose proof (StartAuthSession_law w) as Hl.
      destruct (StartAuthSession w) as [w1 [s|e]].
      * destruct Hl as (G1 & G2 & G3 & G4 & G5). unfold at_tpm. rewrite G3, G4, G5, H2 in *. by split_and!.
      * destruct Hl as (G1 & G2 & G3). unfold at_tpm. by rewrite G1, G2, G3.
    + intros s w (Hs & Hn & H1 & H2 & H3). pose proof (PolicySecret_quiet s w) as (G1 & G2 & G3).
      destruct (PolicySecret s w) as [w1 [[]|e]]; cbn in *.
      * unfold at_tpm. by rewrite G1, G2, G3.
      * apply flush_session; [|done..]. unfold at_tpm. by rewrite G1, G2, G3.
  - intros s w (Hs & Hn & Hw).
    apply (hoare_deferred (at_tpm L ({[s]} ∪ T) K) _ _ _ (λ _, at_tpm L ({[s]} ∪ T) K) _ (at_tpm L ({[s]} ∪ T) K));
      [|by intros; apply flush_session..|done].
    intros w1 (G1 & G2 & G3). destruct (Activate_quiet s ak ek c x w1) as (F1 & F2 & F3).
    unfold run_tpm, at_tpm. destruct (ActivateCredentialUsingAuth _ _ _ _ _ w1) as [w2 []]; cbn in *; by rewrite F1, F2, F3.
Qed.

Lemma Activate_steady r c x : steady (Activate r c x) 1.
Proof.
  unfold Activate. destruct (Attestation r) as [ak|]; [|apply steady_throw].
  destruct (Endorsement r); [|apply steady_throw]. apply (steady_using KeyHandle).
  - intros L T K HK. apply hoare_wrap. by apply createPrimaryKey_gains.
  - intros ek. apply ActivateCredential_steady.
Qed.

Lemma certify_attempts_steady more last o k r : steady (certify_attempts more last o k) r.
Proof.
  revert last. induction more as [|more IH]; intros last L T K HK w Hw; [done|]. cbn [certify_attempts].
  destruct Hw as (H1 & H2 & H3). destruct (Certify_quiet o k w) as (G1 & G2 & G3).
  destruct (Certify o k w) as [w1 [[data sig]|err]]; cbn in G1, G2, G3.
  - assert (at_tpm L T K w1) by (unfold at_tpm; by rewrite G1, G2, G3). by case_match.
  - assert (at_tpm L T K w1) by (unfold at_tpm; by rewrite G1, G2, G3). destruct (negb _); [done|].
    by apply (IH _ L T K HK).
Qed.
Lemma certify_steady o k : steady (certifyWithRetry o k) 0.
Proof. apply certify_attempts_steady. Qed.

(** ** The signing request *)

(** The handles a request's resources hold. *)
Definition held (r : RequestResources) : list Z :=
  KeyHandle <$> (option_list (Attestation r) ++ option_list (ResDevID r)).
Definition holds (L T : gset Z) (K : nat) (r : RequestResources) (w : W) : Prop :=
  at_tpm (list_to_set (held r) ∪ L) T K w ∧ NoDup (held r) ∧ ∀ h, h ∈ held r → transient h ∧ h ∉ L.

Lemma holds_size L T K r w : holds L T K r w → size (list_to_set (held r) ∪ L) = length (held r) + size L.
Proof.
  intros (_ & Hnd & Hh). rewrite size_union, size_list_to_set by (done || (intros h ?%elem_of_list_to_set; by apply Hh)). done.
Qed.

Lemma FlushTransient_flush h w : transient h → FlushTransient h w = flush h w.
Proof.
  intros [H1 H2]. unfold FlushTransient. destruct (Z.eqb_spec h 0); [lia|].
  destruct (Z.leb_spec 2164260864 h); [lia|done].
Qed.
Lemma flush_key_at k L T K w :
  at_tpm (list_to_set (KeyHandle <$> option_list k) ∪ L) T K w →
  (∀ h, h ∈ KeyHandle <$> option_list k → transient h ∧ h ∉ L) → at_tpm L T K (flush_key k w).
Proof.
  destruct k as [k|]; cbn; intros Hw Hh.
  - destruct (Hh (KeyHandle k)) as [Ht Hn]; [by left|]. rewrite FlushTransient_flush by done.
    eapply flush_at; [done..|]. set_solver.
  - by replace L with (∅ ∪ L) by set_solver.
Qed.

Lemma Flush_at L T K r w : holds L T K r w → at_tpm L T K (Flush r w).1.
Proof.
  unfold holds, held. rewrite fmap_app. intros (Hw & Hnd & Hh). apply NoDup_app in Hnd as (_ & Hdis & _).
  apply flush_key_at; [apply flush_key_at|].
  - by rewrite list_to_set_app_L, <- (assoc_L (∪)) in Hw.
  - intros h Hin. destruct (Hh h) as [? Hn]; [apply elem_of_app; by left|]. split; [done|].
    intros [Hx%elem_of_list_to_set|Hx]%elem_of_union; [by eapply Hdis|done].
  - intros h Hin. apply Hh, elem_of_app. by right.
Qed.

Section body.
Context (L T : gset Z) (K : nat) (HK : size L + 3 ≤ K).

(** The TPM's state and the resources recorded; [broken] when the body fails. *)
Definition recorded (r : RequestResources) (s : W * RequestResources) : Prop := s.2 = r ∧ holds L T K r s.1.
Definition broken (s : W * RequestResources) : Prop := holds L T K s.2 s.1.
(** A new key that is not recorded yet. *)
Definition arrived (r : RequestResources) (h : Z) (s : W * RequestResources) : Prop :=
  s.2 = r ∧ NoDup (held r) ∧ (∀ h, h ∈ held r → transient h ∧ h ∉ L) ∧
  gained (list_to_set (held r) ∪ L) T K h s.1.

Lemma body_steady {A} r (m : fallible W string A) room :
  length (held r) + room ≤ 3 → steady m room → hoare (recorded r) (on_tpm m) (λ _, recorded r) broken.
Proof.
  intros Hr Hm [w r'] [Hr' Hw]. cbn in *. subst r'. pose proof (holds_size _ _ _ _ _ Hw) as Hsz.
  destruct Hw as (Hw & Hnd & Hh). specialize (Hm (list_to_set (held r) ∪ L) T K ltac:(lia) w Hw).
  unfold on_tpm. by destruct (m w) as [w' [a|e]].
Qed.
Lemma body_gains r (m : fallible W string KeyInfo) room :
  length (held r) + room ≤ 3 → gains m room →
  hoare (recorded r) (on_tpm m) (λ k, arrived r (KeyHandle k)) broken.
Proof.
  intros Hr Hm [w r'] [Hr' Hw]. cbn in *. subst r'. pose proof (holds_size _ _ _ _ _ Hw) as Hsz.
  destruct Hw as (Hw & Hnd & Hh). specialize (Hm (list_to_set (held r) ∪ L) T K ltac:(lia) w Hw).
  unfold on_tpm. by destruct (m w) as [w' [a|e]].
Qed.

Lemma arrived_recorded r r' h s :
  arrived r h s → held r' ≡ₚ h :: held r → recorded r' (s.1, r').
Proof.
  intros (_ & Hnd & Hh & Ht & Hn & Hw) Hp. split; [done|]. split_and!; cbn.
  - destruct Hw as (H1 & H2 & H3). split_and!; [|done..]. rewrite H1. apply leibniz_equiv. rewrite Hp. set_solver.
  - rewrite Hp. apply NoDup_cons. split; [|done]. intros Hin. apply Hn, elem_of_union. left. by apply elem_of_list_to_set.
  - intros h'. rewrite Hp. intros [->|Hin]%elem_of_cons; [|by apply Hh]. split; [done|]. set_solver.
Qed.

Context (ToRDNSequence : string → list RDN).
Abbreviation resources f ak ek devID := (mkRes ak ek devID (Some f)).

Lemma request_body_spec f cn devID :
  hoare (recorded (resources f None None devID)) (request_body ToRDNSequence f cn devID)
    (λ sr s, ∃ ak ek dev, recorded (resources f (Some ak) (Some ek) (Some dev)) s) broken.
Proof.
  unfold request_body. assert (∀ ek, length (held (resources f None ek devID)) ≤ 1) as Hlen by (intros; destruct devID; cbn; lia).
  pose proof (Hlen None) as Hlen0.
  eapply hoare_bind; [apply (body_steady _ _ 0); [lia|apply steady_quiet; auto with tpm]|]. intros data.
  eapply hoare_bind; [apply (body_steady _ _ 0); [lia|apply steady_of_tpm]|]. intros cert.
  eapply hoare_bind; [apply (body_gains _ _ 1); [lia|intros L' T' K' ?; apply hoare_wrap, createPrimaryKey_gains; done]|].
  intros ek. eapply (hoare_bind _ _ _ (λ _, recorded (resources f None (Some (without_handle ek)) devID))).
  { apply hoare_modify. intros [w r] (Hr & Hnd & Hh & Hw). cbn in *. subst r. split; [done|].
    split_and!; [by apply flush_gained|done..]. }
  intros _. specialize (Hlen (Some (without_handle ek))).
  eapply hoare_bind; [apply (body_gains _ _ 2); [lia|intros L' T' K' ?; apply hoare_wrap, createUnderSRK_gains; done]|].
  intros ak. eapply (hoare_bind _ _ _ (λ _, recorded (resources f (Some ak) (Some (without_handle ek)) devID))).
  { apply hoare_modify. intros [w r] Hs. pose proof Hs as [Hr _]. cbn in Hr. subst r. cbn.
    apply (arrived_recorded _ _ _ _ Hs). done. }
  intros _. apply (hoare_bind _ _ _ (λ dev, recorded (resources f (Some ak) (Some (without_handle ek)) (Some dev)))).
  - destruct devID as [dev|]; [by apply hoare_ret|].
    eapply hoare_bind; [apply (body_gains _ _ 2); [cbn; lia|intros L' T' K' ?; apply hoare_wrap, createUnderSRK_gains; done]|].
    intros dev. eapply (hoare_bind _ _ _ (λ _, recorded (resources f (Some ak) (Some (without_handle ek)) (Some dev)))).
    + apply hoare_modify. intros [w r] Hs. pose proof Hs as [Hr _]. cbn in Hr. subst r. cbn.
      apply (arrived_recorded _ _ _ _ Hs). cbn. apply perm_swap.
    + intros _. by apply hoare_ret.
  - intros dev. eapply hoare_bind; [apply (body_steady _ _ 0); [cbn; lia|apply certify_steady]|].
    intros [cdata csig]. apply hoare_ret. intros s Hs. by exists ak, (without_handle ek), dev.
Qed.

(** The request: its resources hold two keys, and a failed one holds nothing. *)
Lemma CreateSigningRequestWithKey_spec f cn devID w w' r :
  holds L T K (resources (default DefaultKeyFactory f) None None devID) w →
  CreateSigningRequestWithKey ToRDNSequence f cn devID w = (w', r) →
  match r with
  | Ok (_, res) => holds L T K res w' ∧ ∃ ak ek dev, res = resources (default DefaultKeyFactory f) (Some ak) (Some ek) (Some dev)
  | Err _ => at_tpm L T K w'
  end.
Proof.
  intros Hw. unfold CreateSigningRequestWithKey. cbv zeta.
  pose proof (request_body_spec (default DefaultKeyFactory f) cn devID
    (w, resources (default DefaultKeyFactory f) None None devID) (conj eq_refl Hw)) as Hb.
  destruct (request_body _ _ _ _ _) as [[w1 r1] [sr|e]]; intros [= <- <-].
  - destruct Hb as (ak & ek & dev & Hr & Hh). cbn in *. subst r1. eauto.
  - by apply Flush_at.
Qed.
End body.

(** ** The run *)

Context (ToRDNSequence : string → list RDN).

Lemma renew_with_spec L T K s f cn devID w :
  size L + 3 ≤ K → holds L T K (mkRes None None devID (Some f)) w →
  at_tpm L T K (renew_with ToRDNSequence s f cn devID w).1.
Proof.
  intros HK Hw. unfold renew_with, mbind at 1, fallible_bind at 1.
  destruct (CreateSigningRequestWithKey _ _ _ _ w) as [w1 [[sr res]|e]] eqn:E;
    apply (CreateSigningRequestWithKey_spec L T K HK) in E; [|done..].
  destruct E as (Hh & ak & ek & dev & ->). unfold deferred.
  set (res := mkRes (Some ak) (Some ek) (Some dev) (Some f)) in *.
  pose proof (holds_size _ _ _ _ _ Hh) as Hsz.
  match goal with |- at_tpm _ _ _ (let '(_, _) := ?m w1 in _).1 => assert (steady m 1) as Hm end.
  { apply steady_bind; [apply steady_of_tpm|]. intros data. cbn [ResDevID res].
    apply steady_bind; [apply steady_wrap, HashAndSign_steady|]. intros sig.
    apply steady_bind; [apply steady_of_tpm|]. intros [cred secret].
    apply steady_bind; [apply steady_wrap, Activate_steady|]. intros resp. apply steady_of_tpm. }
  destruct Hh as (Hw1 & Hnd & Hfresh). specialize (Hm _ _ K ltac:(rewrite Hsz; cbn; lia) w1 Hw1).
  match goal with |- at_tpm _ _ _ (let '(_, _) := ?m w1 in _).1 => destruct (m w1) as [w2 [a|e]] end;
    by apply Flush_at.
Qed.

(** C31: a run of the client leaves the TPM as it found it. Whatever the TPM answers
    to each command, whatever the disk and the service do between them, and on every
    return, each object and session the run loaded has been flushed and none that
    was there before has; and at no time are more than three objects loaded beyond
    those, which is what a TPM has slots for. *)
Theorem client_frees_tpm s f cn pubBlob privBlob w :
  let w' := (tpm_run ToRDNSequence s f cn pubBlob privBlob w).1 in
  loaded w' = loaded w ∧ sessions w' = sessions w ∧ peak w' ≤ peak w `max` (size (loaded w) + 3).
Proof.
  set (L := loaded w). set (T := sessions w). set (K := peak w `max` (size L + 3)).
  assert (size L + 3 ≤ K) as HK by lia. cbv zeta.
  assert (at_tpm L T K w) as Hw by (split_and!; [done|done|lia]).
  cut (at_tpm L T K (tpm_run ToRDNSequence s f cn pubBlob privBlob w).1); [done|]. unfold tpm_run. cbv zeta.
  set (fac := default DefaultKeyFactory f).
  assert (∀ w, at_tpm L T K w → holds L T K (mkRes None None None (Some fac)) w) as Hnone.
  { intros w1 Hw1. split_and!; [unfold held; cbn; by rewrite (left_id_L ∅ (∪))|constructor|]. intros h Hh. by apply elem_of_nil in Hh. }
  destruct (_ || _); [by apply renew_with_spec, Hnone|].
  pose proof (LoadDevID_gains fac pubBlob privBlob L T K ltac:(lia) w Hw) as Hload.
  destruct (LoadDevID fac pubBlob privBlob w) as [w1 [dev|[msg|msg]]]; [|by apply renew_with_spec, Hnone|done].
  destruct (due s || _).
  - apply renew_with_spec; [done|]. destruct Hload as (Ht & Hn & Hw1). split_and!; cbn.
    + by rewrite (right_id_L ∅ (∪)).
    + apply NoDup_singleton.
    + by intros h ->%list_elem_of_singleton.
  - cbn. destruct Hload as (Ht & Hn & Hw1). rewrite FlushTransient_flush by done. by apply flush_gained.
Qed.

(** A retry warning as go-tpm returns it, a value, ends the first attempt. *)
Lemma certify_value_not_retried o k w w' :
  Certify o k w = (w', Err (Warning false RCRetry)) →
  certifyWithRetry o k w = (w', Err ("Certify: " +:+ tpm_text (Warning false RCRetry))).
Proof. intros E. unfold certifyWithRetry, maxAttempts. cbn [certify_attempts]. by rewrite E. Qed.
End tpm.

(** ** A TPM with three slots *)

(** [budget]: the commands that are left before every one fails, flushes apart. *)
Record chip := mkChip { objects : gset Z; auth_sessions : gset Z; most : nat; budget : nat }.
Definition slots : list Z := [2147483648; 2147483649; 2147483650]%Z.
Definition session_slots : list Z := [50331648]%Z.
Definition free (all : list Z) (used : gset Z) : option Z := head (filter (λ h, h ∉ used) all).

Definition command {A} (k : chip → chip * outcome tpm_error A) : fallible chip tpm_error A :=
  λ c, match budget c with
       | O => (c, Err (OtherTPM "gone"))
       | S n => k (mkChip (objects c) (auth_sessions c) (most c) n)
       end.
Definition answer_with {A} (a : A) : fallible chip tpm_error A := command (λ c, (c, Ok a)).
Definition chip_loaded (c : chip) : gset Z := objects c ∩ list_to_set slots.
Definition load_with {A} (f : Z → A) : fallible chip tpm_error A :=
  command (λ c, match free slots (objects c) with
                | None => (c, Err (Warning false 2))
                | Some h =>
                    let objs := {[h]} ∪ objects c in
                    (mkChip objs (auth_sessions c) (most c `max` size (objs ∩ list_to_set slots)) (budget c), Ok (f h))
                end).
Definition start_session : fallible chip tpm_error Z :=
  command (λ c, match free session_slots (auth_sessions c) with
                | None => (c, Err (Warning false 3))
                | Some s => (mkChip (objects c) ({[s]} ∪ auth_sessions c) (most c) (budget c), Ok s)
                end).
Definition unload (h : Z) (c : chip) : chip :=
  mkChip (objects c ∖ {[h]}) (auth_sessions c ∖ {[h]}) (most c) (budget c).

#[export] Instance chip_tpm : TPM chip (H := toy_crypto) := {|
  NVRead _ := answer_with "CERT|ek|key";
  CreatePrimaryEx _ _ := load_with (λ h, (h, "primary"));
  CreateKeyUsingAuth _ _ := answer_with ("private", "key");
  LoadUsingAuth _ _ _ := load_with (λ h, h);
  FlushContext h c := (unload h c, Ok ());
  Certify _ _ := answer_with ("data", "sig");
  StartAuthSession := start_session;
  PolicySecret _ := answer_with ();
  ActivateCredentialUsingAuth _ _ _ _ _ := answer_with "secret";
  ReadPublic _ := answer_with (DefaultDevIDTemplateRSA (H := toy_crypto));
  TPMHash _ _ _ := answer_with ("digest", "ticket");
  HashSequenceStart _ := load_with (λ h, h);
  SequenceUpdate _ _ := answer_with ();
  SequenceComplete s _ _ :=
    command (λ c, (mkChip (objects c ∖ {[s]}) (auth_sessions c) (most c) (budget c), Ok ("digest", "ticket")));
  TPMSign _ _ _ _ := answer_with (mkSig 20 "signed" (0, 0)%Z);
  tpm_text _ := "TPM error";
  HandleEndorsement := 1; HandleOwner := 2; EKRSACertificateHandle := 3;
  AlgRSAPSS := 22; AlgECDSA := 24; RCIntegrity := 31; RCBinding := 37; RCSensitive := 85; RCRetry := 34;
  DecodeSignature _ := Ok (mkSig 20 "certified" (0, 0)%Z);
  EncodeECDSA _ _ := Ok "ecdsa";
  DefaultEKTemplateRSA := DefaultAKTemplateRSA (H := toy_crypto);
  SRKTemplateRSA := DefaultAKTemplateRSA (H := toy_crypto);
  empty_unique s := s;
|}.

Lemma free_spec all used h : free all used = Some h → h ∈ all ∧ h ∉ used.
Proof.
  unfold free. destruct (filter _ all) as [|x l] eqn:E; [done|]. intros [= ->].
  assert (h ∈ filter (λ h, h ∉ used) all) as Hin by (rewrite E; by left).
  by apply list_elem_of_filter in Hin as [? ?].
Qed.

Definition chip_sessions (c : chip) : gset Z := auth_sessions c ∩ list_to_set session_slots.
Lemma slot_transient h : h ∈ slots → transient h.
Proof. revert h. apply Forall_forall. by repeat constructor. Qed.

#[export] Program Instance chip_laws : TPMLaws chip (H := toy_crypto) (H0 := chip_tpm) := {|
  loaded := chip_loaded;
  sessions := chip_sessions;
  peak := most;
|}.
Next Obligation. intros w h [_ Hh]%elem_of_intersection. apply elem_of_list_to_set in Hh. by apply slot_transient. Qed.
Next Obligation.
  intros w h [_ Hh]%elem_of_intersection. apply elem_of_list_to_set in Hh. unfold session_slots in Hh.
  apply list_elem_of_singleton in Hh as ->. unfold transient. lia.
Qed.
Ltac chip_load :=
  intros; hnf; intros c; cbn; unfold load_with, command; destruct (budget c); [done|]; cbn [objects auth_sessions most budget];
  destruct (free slots _) as [h|] eqn:E; [|done]; apply free_spec in E as [Hin Hn];
  pose proof (slot_transient h Hin); unfold chip_loaded, chip_sessions; cbn [objects auth_sessions most budget fst];
  apply (elem_of_list_to_set (C := gset Z)) in Hin; split_and!; [done|set_solver|set_solver|done|done].
Next Obligation. chip_load. Qed.
Next Obligation. chip_load. Qed.
Next Obligation. chip_load. Qed.
Next Obligation.
  intros s hierarchy data c. cbn. unfold command. destruct (budget c); [done|]. cbn [fst].
  unfold chip_loaded, chip_sessions. cbn [objects auth_sessions most]. split_and!; [set_solver|done|done].
Qed.
Next Obligation.
  intros c. cbn. unfold start_session, command. destruct (budget c); [done|]. cbn [objects auth_sessions most budget].
  destruct (free session_slots _) as [h|] eqn:E; [|done]. apply free_spec in E as [Hin Hn].
  unfold chip_loaded, chip_sessions. cbn [objects auth_sessions most budget].
  assert (¬ transient h).
  { apply list_elem_of_singleton in Hin as ->. unfold transient. lia. }
  apply (elem_of_list_to_set (C := gset Z)) in Hin. split_and!; [done|set_solver|set_solver|done|done].
Qed.
Next Obligation.
  intros h c. cbn. unfold chip_loaded, chip_sessions, unload. cbn [objects auth_sessions most].
  split_and!; [set_solver|set_solver|done].
Qed.
Ltac chip_quiet := intros; hnf; intros c0; cbn; unfold answer_with, command; by destruct (budget c0).
Solve All Obligations with chip_quiet.

(** Every prefix of the commands of a renewal with the stored key: wherever the TPM
    stops answering, nothing is left in it. *)
Definition demo_steps : run_steps (H := toy_wire) := mkSteps true (λ _, false) (λ _, Ok "request") (λ _ _, Ok ("cred", "secret")) (λ _ _, Ok ()).
Definition demo_chip (n : nat) : chip := mkChip ∅ ∅ 0 n.
Definition demo_run (n : nat) : chip * outcome string () :=
  tpm_run (λ cn, [cn]) demo_steps None "guest" "key" "private" (demo_chip n).
Example demo_client_runs :
  Forall (λ n, is_ok (demo_run n).2 = false ∧ most (demo_run n).1 ≤ 3 ∧ objects (demo_run n).1 = ∅) (seq 0 15) ∧
  (demo_run 15).2 = Ok () ∧ most (demo_run 15).1 = 3.
Proof. apply (bool_decide_unpack _). by vm_compute. Qed.

Lemma client_frees_tpm_witness :
  (demo_run 7).2 = Err "Certify: TPM error" ∧
  chip_loaded (demo_run 7).1 = ∅ ∧ chip_sessions (demo_run 7).1 = ∅ ∧ most (demo_run 7).1 ≤ 3.
Proof.
  split; [reflexivity|].
  exact (client_frees_tpm (λ cn, [cn]) demo_steps None "guest" "key" "private" (demo_chip 7)).
Defined.
