(* ===== verification/Client.v ===== *)
(** * The guest's client (internal/devid/renew.go, client.go, instanceid.go, keys.go)

    One run of [ClientEnrollOrRenew]: it decides whether the materials on disk
    still fit, and if not enrols and replaces them. What the run reads is a record
    ([inputs]): the answers of the metadata service and of the TPM, and which file
    operations fail. The disk maps a directory and a name to content; [past]
    keeps every disk the run went through, which are the disks a crash can leave.
    Handles of the TPM, file modes and owners, and log lines are left out. *)

From S2P Require Import Prelude.
From S2P Require Import Go.
From S2P Require Import Crypto.
From S2P Require Import Csr.
From S2P Require Import Tpm.
From S2P Require Import Net.
From S2P Require Import Inventory.
From S2P Require Import Proxmox.

(** ** Files *)

Abbreviation disk := (gmap (string * string) string).

Inductive write_step := WCreate | WWrite | WChmod | WSync | WClose | WRename.
#[export] Instance write_step_eq_dec : EqDecision write_step.
Proof. solve_decision. Defined.

Record cstate := mkState { now_disk : disk; past : list disk; restarts : nat; posted : list string }.

Definition set_disk (d : disk) (st : cstate) : cstate :=
  mkState d (past st ++ [d]) (restarts st) (posted st).
Definition change (f : disk → disk) : fallible cstate string () :=
  fun st => (set_disk (f (now_disk st)) st, Ok ()).

(** The name [os.CreateTemp] gives, [random] its random part. *)
Definition temp_name (name random : string) : string := "." +:+ name +:+ ".tmp-" +:+ random.
(** What [os.Lstat] and [os.Stat] give: the owner and group, where the platform has them. *)
Inductive stat_owner := Owned (owner : option (Z * Z)) | NoFile (msg : string) | StatFailed (msg : string).
(** The seams of [keepOwner]; [chown] is the error of giving the new file away. *)
Record owner_env := mkOwnerEnv {
  geteuid : Z;
  lstatPath : string → stat_owner;
  statPath : string → stat_owner;
  chownFile : Z * Z → option string;
}.
(** The owner the new file at [path] in [dir] is given, if any. *)
Definition keepOwner (e : owner_env) (dir path : string) : outcome string (option (Z * Z)) :=
  if negb (geteuid e =? 0)%Z then Ok None
  else
    fi ← (match lstatPath e path with
          | Owned o => Ok o
          | StatFailed msg => Err msg
          | NoFile _ => match statPath e dir with Owned o => Ok o | NoFile msg | StatFailed msg => Err msg end
          end);
    match fi with
    | None => Err ("owner of " +:+ path +:+ ": no stat_t")
    | Some st =>
        match chownFile e st with
        | Some msg => Err ("keep owner of " +:+ path +:+ ": " +:+ msg)
        | None => Ok (Some st)
        end
    end.

(** [writeFileAtomic]; [fault] is the error of the steps that fail. A failed step
    removes the temporary file. *)
Definition writeFileAtomic (e : owner_env) (dir name random data : string) (fault : write_step → option string)
    : fallible cstate string () :=
  let tmp := temp_name name random in
  let cleanup {A} (msg : string) : fallible cstate string A :=
    _ ← change (delete (dir, tmp)); throw msg in
  match fault WCreate with
  | Some msg => throw msg
  | None =>
    _ ← change <[(dir, tmp) := ""]>;
    match fault WWrite with
    | Some msg => cleanup msg
    | None =>
      _ ← change <[(dir, tmp) := data]>;
      match fault WChmod, keepOwner e dir (JoinPath [dir; name]), fault WSync, fault WClose, fault WRename with
      | Some msg, _, _, _, _ | None, Err msg, _, _, _ | None, Ok _, Some msg, _, _
      | None, Ok _, None, Some msg, _ | None, Ok _, None, None, Some msg => cleanup msg
      | None, Ok _, None, None, None => change (fun d => <[(dir, name) := data]> (delete (dir, tmp) d))
      end
    end
  end.

(** [ClearSPIREAgentSVIDCache]; [fault path] is the error of a removal that fails. *)
Definition svid_files : list string := ["agent-data.json"; "agent_svid.der"].
Definition remove_svid (dataDir : string) (fault : string → option string) (name : string) : fallible cstate string () :=
  let path := JoinPath [dataDir; name] in
  match fault path with
  | Some msg => throw ("clear SPIRE SVID cache " +:+ path +:+ ": " +:+ msg)
  | None => change (delete (dataDir, name))
  end.
Definition ClearSPIREAgentSVIDCache (dataDir : string) (fault : string → option string) : fallible cstate string () :=
  if bool_decide (dataDir = "") then mret () else each (remove_svid dataDir fault) svid_files.

Definition TryRestartSPIREAgent : fallible cstate string () :=
  modify (fun st => mkState (now_disk st) (past st) (S (restarts st)) (posted st)).

(** [os.ReadFile] of the current disk, unless reading fails. *)
Definition read_file (dir name : string) (fault : option string) : fallible cstate string file_state :=
  gets (fun st =>
    match fault with
    | Some e => Failed e
    | None => match now_disk st !! (dir, name) with Some d => Content d | None => Missing end
    end).
(** [readBlob]: nil for a missing file. *)
Definition readBlob (dir name : string) (fault : option string) : fallible cstate string string :=
  f ← read_file dir name fault;
  match f with Content d => mret d | Missing => mret "" | Failed e => throw e end.

Definition lift {A} (m : outcome string A) : fallible cstate string A := fun st => (st, m).

(** ** The metadata service (instanceid.go) *)

(** [io.ReadAll] of an [io.LimitReader]. *)
Fixpoint LimitReader (body : string) (n : Z) : string :=
  match body with
  | "" => ""
  | String c rest => if (n <=? 0)%Z then "" else String c (LimitReader rest (n - 1))
  end.
(** The answer to a request: its status and body, or a transport error. *)
Abbreviation answer := (outcome string (Z * string)).
Definition doMetadataRequest (a : answer) : outcome string string :=
  '(code, body) ← a;
  let data := LimitReader body 4096 in
  if bool_decide (code = 200%Z) then Ok (TrimSpace data)
  else Err ("HTTP " +:+ Itoa code +:+ ": " +:+ TrimSpace data).
(** [httpPostJSON]. *)
Definition httpPostJSON (a : answer) : outcome string string :=
  '(code, body) ← a;
  let data := LimitReader body 1048576 in
  if (300 <=? code)%Z then Err ("HTTP " +:+ Itoa code +:+ ": " +:+ data) else Ok data.

Definition fetchInstanceID (token id : answer) : outcome string string :=
  token ← prefix_error "session token: " (doMetadataRequest token);
  if bool_decide (token = "") then Err "session token: empty answer"
  else prefix_error "instance-id: " (doMetadataRequest id).

Definition instanceIDAttempts : nat := 3.
(** The loop over the tries that are left. *)
Fixpoint read_vmid `{GoUnicode} (tries : nat) (answers : nat → answer * answer) (last : string) : outcome string string :=
  match tries with
  | O => Err ("read instance-id after 3 tries: " +:+ last)
  | S tries' =>
      let a := answers (instanceIDAttempts - tries) in
      match fetchInstanceID a.1 a.2 with
      | Err e => read_vmid tries' answers e
      | Ok id =>
          let '(vmid, ok) := CutPrefix id "i-" in
          if negb ok || bool_decide (vmid = "") then Err ("instance-id " +:+ Quote id +:+ " does not name a VM (no i- prefix)")
          else Ok vmid
      end
  end.
Definition ReadVMID `{GoUnicode} (answers : nat → answer * answer) : outcome string string :=
  read_vmid instanceIDAttempts answers "".

Section client.
Context `{CR : Crypto} {WR : Wire} `{GU : GoUnicode}.
Abbreviation Certificate := (certificate Key).

(** ** Renewal (renew.go) *)

Definition RenewDue (cert : option Certificate) (now : Z) : bool :=
  match cert with
  | None => true
  | Some cert =>
      if negb (After (NotAfter cert) now) then true
      else
        let total := Sub (NotAfter cert) (NotBefore cert) in
        if (total <=? 0)%Z then true
        else (Sub (NotAfter cert) now <? Z.quot total 3)%Z
  end.

Definition LoadCertPEMFile (path : string) (f : file_state) : outcome string (option Certificate) :=
  match f with
  | Missing => Ok None
  | Failed e => Err e
  | Content data =>
      if bool_decide (data = "") then Err (path +:+ ": empty certificate file")
      else
        match pem_Decode data with
        | Some (typ, bytes, _) =>
            if bool_decide (typ = "CERTIFICATE") then prefix_error (path +:+ ": ") (Some <$> ParseCertificate bytes)
            else Err (path +:+ ": no certificate PEM")
        | None => Err (path +:+ ": no certificate PEM")
        end
  end.

(** [certHoldsKey]. *)
Definition certHoldsKey (cert : Certificate) (pub : Public) : bool := ekCertificateMatchesKey cert (Some pub).

(** What the TPM does in a run: the outcomes of the functions of [Tpm]. *)
Record device := mkDevice {
  load_devid : string → string → load_error + KeyInfo;
  (** [CreateSigningRequestWithKey]: the request and the DevID key it is for. *)
  create_request : string → option KeyInfo → outcome string (SigningRequest * KeyInfo);
  hash_and_sign : KeyInfo → string → outcome string string;
  activate : string → string → outcome string string;
}.

(** ** The run (client.go) *)

Record ClientOptions := mkOptions { PlatformCN : string; OutDir : string; SpireDataDir : string }.
Record inputs := mkInputs {
  client_now : Z;
  instance_id : nat → answer * answer;
  tpm : device;
  (** The service's answer to a request with this path, body and certificate
      header, and the JSON of requests and responses. *)
  post : string → string → string → answer;
  encode_start : string → string → string;
  decode_started : string → outcome string (string * string * string);
  encode_finish : string → string → string;
  decode_finished : string → outcome string string;
  cert_fault : option string; pub_fault : option string; priv_fault : option string;
  mkdir_fault : option string;
  svid_fault : string → option string;
  owner : owner_env;
  priv_write : write_step → option string; pub_write : write_step → option string;
  cert_write : write_step → option string;
  tmp_random : string → string;
}.

Definition crtName : string := "devid.crt.pem".
Definition privName : string := "devid.priv.blob".
Definition pubName : string := "devid.pub.blob".
Definition cert_path (o : ClientOptions) : string := JoinPath [OutDir o; crtName].

Inductive decision := Keep | Renew (reason detail : string) (devID : option KeyInfo).

Definition first_reason (reason r : string) (b : bool) : string :=
  if bool_decide (reason = "") && b then r else reason.

(** The checks, cheapest first. *)
Definition cert_reason (existing : outcome string (option Certificate)) (now : Z) : string * string :=
  match existing with
  | Err e => ("unreadable certificate", e)
  | Ok None => ("no certificate", "")
  | Ok (Some c) => if RenewDue (Some c) now then ("due", "") else ("", "")
  end.
Definition blob_reason (t : device) (existing : option Certificate) (pubBlob privBlob reason detail : string)
    : outcome string decision :=
  if bool_decide (pubBlob = "") || bool_decide (privBlob = "") then
    Ok (Renew (first_reason reason "missing blob" true) detail None)
  else
    let reason := first_reason reason "certificate does not match key"
      (match existing, DecodePublic pubBlob with
       | Some c, Ok pub => negb (certHoldsKey c pub)
       | _, _ => false
       end) in
    match load_devid t pubBlob privBlob with
    | inl (DevIDForeign msg) =>
        Ok (if bool_decide (reason = "") then Renew "key does not load in this TPM" (msg +:+ "; new key") None
            else Renew reason ("key does not load in this TPM: " +:+ msg +:+ "; new key") None)
    | inl (DevIDLoad msg) => Err msg
    | inr key => Ok (if bool_decide (reason = "") then Keep else Renew reason detail (Some key))
    end.

Definition decide_renewal (o : ClientOptions) (i : inputs) : fallible cstate string decision :=
  f ← read_file (OutDir o) crtName (cert_fault i);
  let existing := LoadCertPEMFile (cert_path o) f in
  let '(reason, detail) := cert_reason existing (client_now i) in
  let cert := match existing with Ok c => c | Err _ => None end in
  reason ← (match cert with
            | None => mret reason
            | Some c =>
                vmid ← lift (ReadVMID (instance_id i));
                mret (first_reason reason "certificate is for another VM" (negb (bool_decide (CommonName c = vmid))))
            end);
  pubBlob ← readBlob (OutDir o) pubName (pub_fault i);
  privBlob ← readBlob (OutDir o) privName (priv_fault i);
  lift (blob_reason (tpm i) cert pubBlob privBlob reason detail).

Definition send (i : inputs) (path body header : string) : fallible cstate string string :=
  _ ← modify (fun st => mkState (now_disk st) (past st) (restarts st) (posted st ++ [path]));
  lift (httpPostJSON (post i path body header)).
Definition from_base64 (s : string) : fallible cstate string string :=
  match base64_decode s with Some b => mret b | None => throw "illegal base64 data" end.

(** The exchange with the service: the new certificate and the key it is for. *)
Definition enrol (o : ClientOptions) (i : inputs) (devID : option KeyInfo)
    : fallible cstate string (string * KeyInfo) :=
  '(sr, key) ← lift (create_request (tpm i) (PlatformCN o) devID);
  _ ← (match mkdir_fault i with Some msg => throw msg | None => mret () end);
  match EndorsementCertificate sr with
  | None => throw "TPM EK certificate required for enroll authentication"
  | Some ek =>
      let ekAuth := EncodeEKCertHeader ek in
      requestData ← lift (MarshalBinary sr);
      sig ← wrap (String.append "sign request: ") (lift (hash_and_sign (tpm i) key requestData));
      startResp ← wrap (String.append "enroll/start: ")
        (send i "/latest/devid/enroll/start" (encode_start i (base64_encode requestData) (base64_encode sig)) ekAuth);
      '(sid, cred64, secret64) ← wrap (String.append "decode start response: ") (lift (decode_started i startResp));
      cred ← from_base64 cred64;
      secret ← from_base64 secret64;
      challengeResp ← wrap (String.append "activate credential: ") (lift (activate (tpm i) cred secret));
      finishResp ← wrap (String.append "enroll/finish: ")
        (send i "/latest/devid/enroll/finish" (encode_finish i sid (base64_encode challengeResp)) ekAuth);
      newPEM ← wrap (String.append "decode finish response: ") (lift (decode_finished i finishResp));
      if bool_decide (newPEM = "") then throw "empty DevID certificate in response" else mret (newPEM, key)
  end.

(** Replacing the materials. [oldPEM] is the certificate on disk, when it parsed. *)
Definition install (o : ClientOptions) (i : inputs) (oldPEM newPEM : string) (key : KeyInfo)
    : fallible cstate string () :=
  let pemChanged := negb (bool_decide (oldPEM = newPEM)) in
  _ ← when pemChanged (ClearSPIREAgentSVIDCache (SpireDataDir o) (svid_fault i));
  _ ← writeFileAtomic (owner i) (OutDir o) privName (tmp_random i privName) (KeyPrivateBlob key) (priv_write i);
  _ ← writeFileAtomic (owner i) (OutDir o) pubName (tmp_random i pubName) (KeyPublicBlob key) (pub_write i);
  _ ← writeFileAtomic (owner i) (OutDir o) crtName (tmp_random i crtName) newPEM (cert_write i);
  when (pemChanged && negb (bool_decide (SpireDataDir o = ""))) TryRestartSPIREAgent.

(** [oldPEM]: the certificate file, when a certificate was read from it. *)
Definition old_pem (o : ClientOptions) (i : inputs) (st : cstate) : string :=
  match cert_fault i with
  | Some _ => ""
  | None =>
      match now_disk st !! (OutDir o, crtName) with
      | Some d => match LoadCertPEMFile (cert_path o) (Content d) with Ok (Some _) => d | _ => "" end
      | None => ""
      end
  end.

Definition ClientEnrollOrRenew (mdsBaseURL : string) (o : ClientOptions) (i : inputs)
    : fallible cstate string () :=
  if bool_decide (mdsBaseURL = "") then throw "mds base URL required"
  else if bool_decide (OutDir o = "") then throw "output directory required"
  else
    d ← decide_renewal o i;
    match d with
    | Keep => mret ()
    | Renew reason detail devID =>
        oldPEM ← gets (old_pem o i);
        '(newPEM, key) ← enrol o i devID;
        install o i oldPEM newPEM key
    end.

Definition ClientEnroll (mdsBaseURL platformCN outDir : string) (i : inputs) : fallible cstate string () :=
  ClientEnrollOrRenew mdsBaseURL (mkOptions platformCN outDir "") i.

(** ** cmd/devid-enroll

    [open] is the error of opening the TPM, if any. *)

Inductive enroll_ending := EnrollFatal (msg : string) | EnrollDone.
Definition enroll_main (tpmPath mdsURL outDir cn spireData : string) (open : option string) (i : inputs) (st : cstate)
    : cstate * enroll_ending :=
  match open with
  | Some e => (st, EnrollFatal ("open TPM " +:+ tpmPath +:+ ": " +:+ e))
  | None =>
      match ClientEnrollOrRenew mdsURL (mkOptions cn outDir spireData) i st with
      | (st, Err e) => (st, EnrollFatal ("DevID enroll failed: " +:+ e))
      | (st, Ok _) => (st, EnrollDone)
      end
  end.
End client.
