(* ===== verification/ClientProofs.v ===== *)
(** * The guest's client: renewal and crash safety

    When a certificate is due ([renew_due_exact]), and what a crash at any moment
    of a run can leave on disk ([client_crash_safe]). *)

From S2P Require Import Prelude.
From S2P Require Import Go.
From S2P Require Import Crypto.
From S2P Require Import Csr.
From S2P Require Import Tpm.
From S2P Require Import Inventory.
From S2P Require Import Client.

Section renew.
Context `{CR : Crypto}.

(** A certificate is due exactly when less than a third of its lifetime is
    left, so a fresh one is kept for two thirds of it; one that never was valid
    or has expired is due, and once due it stays due. *)
Theorem renew_due_exact (cert : certificate Key) now :
  let total := (NotAfter cert - NotBefore cert)%Z in
  ((0 < total ≤ max_int64)%Z → RenewDue (Some cert) now = true ↔
     (NotAfter cert ≤ now ∨ NotAfter cert - now < total / 3)%Z) ∧
  ((total ≤ 0)%Z → RenewDue (Some cert) now = true) ∧
  (RenewDue (Some cert) now = true → ∀ later, (now ≤ later)%Z → RenewDue (Some cert) later = true).
Proof.
  intros total. unfold RenewDue, After. cbn zeta. fold total. split_and!.
  - intros Ht. destruct (Z.ltb_spec now (NotAfter cert)); cbn [negb]; [|tauto].
    assert (Sub (NotAfter cert) (NotBefore cert) = total) as -> by (unfold Sub, min_int64; lia).
    destruct (Z.leb_spec total 0); [lia|]. rewrite Z.ltb_lt, Z.quot_div_nonneg by lia.
    assert (0 ≤ total / 3 ≤ max_int64)%Z by (Z.to_euclidean_division_equations; lia).
    unfold Sub, min_int64. unfold max_int64 in *. lia.
  - intros Ht. destruct (negb _); [done|]. destruct (Z.leb_spec (Sub (NotAfter cert) (NotBefore cert)) 0); [done|].
    unfold Sub, min_int64, max_int64 in *. lia.
  - intros Hd later Hl. destruct (Z.ltb_spec later (NotAfter cert)); cbn [negb]; [|done].
    destruct (Z.ltb_spec now (NotAfter cert)); cbn [negb] in Hd; [|lia].
    destruct (_ <=? 0)%Z; [done|]. apply Z.ltb_lt in Hd. apply Z.ltb_lt. unfold Sub in *. lia.
Qed.
End renew.

(** ** Installing *)

Section install.
Context `{CR : Crypto} {WR : Wire}.
Context (o : ClientOptions) (i : inputs) (d0 : disk) (oldPEM newPEM : string) (key : KeyInfo).
(** The temporary files. *)
Definition tmp_file (n : string) : string := temp_name n (tmp_random i n).

Definition at_crt (d : disk) : option string := d !! (OutDir o, crtName).
Definition at_priv (d : disk) : option string := d !! (OutDir o, privName).
Definition at_pub (d : disk) : option string := d !! (OutDir o, pubName).
(** The agent has no cached identity, where a new certificate needs that. *)
Definition cleared (d : disk) : Prop :=
  oldPEM ≠ newPEM → SpireDataDir o ≠ "" → ∀ n, n ∈ svid_files → d !! (SpireDataDir o, n) = None.

(** A disk a crash may leave: each file whole, old or new; the new certificate
    only with both new blobs and without a cached identity. *)
Definition sound (d : disk) : Prop :=
  (at_priv d = at_priv d0 ∨ at_priv d = Some (KeyPrivateBlob key)) ∧
  (at_pub d = at_pub d0 ∨ at_pub d = Some (KeyPublicBlob key)) ∧
  (at_crt d = at_crt d0 ∨ at_crt d = Some newPEM ∧ at_priv d = Some (KeyPrivateBlob key) ∧
     at_pub d = Some (KeyPublicBlob key) ∧ cleared d).

(** The stages: which files are new. *)
Record stage (priv pub crt clear : bool) (d : disk) : Prop := {
  stage_priv : at_priv d = if priv then Some (KeyPrivateBlob key) else at_priv d0;
  stage_pub : at_pub d = if pub then Some (KeyPublicBlob key) else at_pub d0;
  stage_crt : at_crt d = if crt then Some newPEM else at_crt d0;
  stage_clear : clear = true → cleared d;
}.
Definition on (P : disk → Prop) (st : cstate) : Prop :=
  P (now_disk st) ∧ Forall sound (past st) ∧ restarts st = 0.

Lemma stage_sound priv pub crt clear d :
  stage priv pub crt clear d → (crt = true → priv = true ∧ pub = true ∧ clear = true) → sound d.
Proof.
  intros [H1 H2 H3 H4] Hc. unfold sound. rewrite H1, H2, H3. split_and!; [destruct priv; auto|destruct pub; auto|].
  destruct crt; [|by left]. destruct (Hc eq_refl) as (-> & -> & ->). right. split_and!; [done..|]. exact (H4 eq_refl).
Qed.

Lemma on_change (P Q : disk → Prop) f X :
  (∀ d, P d → Q (f d) ∧ sound (f d)) → hoare (on P) (change f) (λ _, on Q) X.
Proof.
  intros Hf st (Hp & Hs & Hr). cbn. destruct (Hf _ Hp) as [Hq Hsd]. split_and!; [done| |done].
  apply Forall_app. by split; [|apply Forall_singleton].
Qed.

(** A write of one file takes [P] to [Q], and leaves [P] when it fails. *)
Lemma hoare_write (P Q : disk → Prop) n data fault :
  (∀ d, P d → sound d) → (∀ d, Q d → sound d) →
  (∀ d v, P d → P (<[(OutDir o, tmp_file n) := v]> d)) →
  (∀ d, P d → P (delete (OutDir o, tmp_file n) d)) →
  (∀ d, P d → Q (<[(OutDir o, n) := data]> (delete (OutDir o, tmp_file n) d))) →
  hoare (on P) (writeFileAtomic (owner i) (OutDir o) n (tmp_random i n) data fault) (λ _, on Q) (on P).
Proof.
  intros HPs HQs Hins Hdel Hren. unfold writeFileAtomic. cbn zeta. fold (tmp_file n).
  assert (∀ e, hoare (on P) (_ ← change (delete (OutDir o, tmp_file n)); throw e) (λ _ : (), on Q) (on P)) as Hclean.
  { intros e. apply (hoare_bind _ _ _ (λ _, on P)); [|intros []; by apply hoare_throw]. apply on_change. intros d Hd.
    pose proof (Hdel d Hd). auto. }
  assert (∀ v X, hoare (on P) (change <[(OutDir o, tmp_file n) := v]>) (λ _, on P) X) as Hset.
  { intros v X. apply on_change. intros d Hd. pose proof (Hins d v Hd). auto. }
  destruct (fault WCreate); [by apply hoare_throw|]. eapply hoare_bind; [apply Hset|]. intros [].
  destruct (fault WWrite); [apply Hclean|]. eapply hoare_bind; [apply Hset|]. intros [].
  repeat (case_match; try by apply Hclean).
  apply on_change. intros d Hd. pose proof (Hren d Hd). auto.
Qed.

Lemma tmp_file_ne n m : HasPrefix m "." = false → tmp_file n ≠ m.
Proof. intros Hm <-. by unfold tmp_file, temp_name in Hm. Qed.

(** Changes of other files leave a stage alone. *)
Lemma stage_other priv pub crt clear d d' :
  stage priv pub crt clear d →
  (∀ k, k.2 ∈ [privName; pubName; crtName] ∨ k.2 ∈ svid_files → d' !! k = d !! k ∨ k.2 ∈ svid_files ∧ d' !! k = None) →
  stage priv pub crt clear d'.
Proof.
  intros [H1 H2 H3 H4] Hd.
  assert (∀ n, n ∈ [privName; pubName; crtName] → d' !! (OutDir o, n) = d !! (OutDir o, n)) as Hmat.
  { intros n Hn. destruct (Hd (OutDir o, n)) as [|[Hs _]]; [by left|done|]. exfalso. cbn in Hs.
    repeat (apply elem_of_cons in Hn as [->|Hn];
      [revert Hs; by apply (bool_decide_unpack (_ ∉ _))|]).
    by apply not_elem_of_nil in Hn. }
  unfold at_priv, at_pub, at_crt in *. split; unfold at_priv, at_pub, at_crt.
  - rewrite Hmat; [done|by apply (bool_decide_unpack _)].
  - rewrite Hmat; [done|by apply (bool_decide_unpack _)].
  - rewrite Hmat; [done|by apply (bool_decide_unpack _)].
  - intros Hc Hne Hdir n Hn. destruct (Hd (SpireDataDir o, n)) as [->|[_ ?]]; [by right|by apply H4|done].
Qed.

Lemma hidden_file n k : k.2 ∈ [privName; pubName; crtName] ∨ k.2 ∈ svid_files → k ≠ (OutDir o, tmp_file n).
Proof.
  intros Hk ->. cbn in Hk. assert (∀ m, m ∈ [privName; pubName; crtName] ++ svid_files → HasPrefix m "." = false) as Hm.
  { intros m Hm. repeat (apply elem_of_cons in Hm as [->|Hm]; [done|]). by apply not_elem_of_nil in Hm. }
  specialize (Hm (tmp_file n)). rewrite elem_of_app in Hm. by specialize (Hm Hk).
Qed.

Lemma stage_insert priv pub crt clear d n v :
  stage priv pub crt clear d → stage priv pub crt clear (<[(OutDir o, tmp_file n) := v]> d).
Proof.
  intros Hs. apply (stage_other _ _ _ _ d); [done|]. intros k Hk. left.
  apply lookup_insert_ne. intros Heq. by apply (hidden_file n k Hk).
Qed.
Lemma stage_delete priv pub crt clear d n :
  stage priv pub crt clear d → stage priv pub crt clear (delete (OutDir o, tmp_file n) d).
Proof.
  intros Hs. apply (stage_other _ _ _ _ d); [done|]. intros k Hk. left.
  apply lookup_delete_ne. intros Heq. by apply (hidden_file n k Hk).
Qed.

(** Clearing the agent's cache, where it is called for. *)
Lemma hoare_clear X :
  (∀ s, on (stage false false false false) s → X s) →
  hoare (on (stage false false false false))
    (when (negb (bool_decide (oldPEM = newPEM))) (ClearSPIREAgentSVIDCache (SpireDataDir o) (svid_fault i)))
    (λ _, on (stage false false false true)) X.
Proof.
  intros HX. set (gone n d := stage false false false false d ∧
    ∀ m, m ∈ (n : list string) → d !! (SpireDataDir o, m) = None).
  assert (∀ n d, gone n d → sound d) as Hsound by (intros n d [Hs _]; by eapply stage_sound).
  apply hoare_when.
  2:{ intros Heq s (Hp & Hrest). split; [|done]. destruct Hp as [? ? ? _]. split; try done.
      intros _ Hne. by rewrite bool_decide_eq_false_2 in Heq. }
  intros _. unfold ClearSPIREAgentSVIDCache. destruct (bool_decide _) eqn:Hdir.
  { apply hoare_ret. intros s (Hp & Hrest). split; [|done]. destruct Hp as [? ? ? _]. split; try done.
    intros _ _ Hne. by apply bool_decide_eq_true in Hdir. }
  assert (∀ done_ todo, done_ ++ todo = svid_files → hoare (on (gone done_))
    (each (remove_svid (SpireDataDir o) (svid_fault i)) todo) (λ _, on (gone svid_files)) X) as Hall.
  2:{ eapply hoare_pre; [eapply hoare_post; [by apply (Hall [] svid_files)| |done]|].
      - intros [] s ([Hs Hg] & Hrest). split; [|done]. destruct Hs as [? ? ? _]. split; try done.
        intros _ _ _. apply Hg.
      - intros s (Hs & Hrest). split; [|done]. split; [done|]. by intros m ?%not_elem_of_nil. }
  intros done_ todo. revert done_. induction todo as [|name todo IH]; intros done_ Heq; cbn [each].
  { rewrite app_nil_r in Heq. subst. by apply hoare_ret. }
  apply (hoare_bind _ _ _ (λ _, on (gone (done_ ++ [name])))).
  - unfold remove_svid. cbv zeta. destruct (svid_fault i _) as [msg|].
    { apply hoare_throw. intros s ([Hs _] & Hrest). by apply HX. }
    apply on_change. intros d [Hs Hg].
    assert (name ∈ svid_files) as Hname by (rewrite <-Heq, elem_of_app; right; by left).
    assert (gone (done_ ++ [name]) (delete (SpireDataDir o, name) d)) as Hgone.
    { split.
      - apply (stage_other _ _ _ _ d); [done|]. intros k Hk.
        destruct (decide (k = (SpireDataDir o, name))) as [->|Hne]; [right|left; by apply lookup_delete_ne].
        split; [done|]. apply lookup_delete_eq.
      - intros m [Hm|Hm%list_elem_of_singleton]%elem_of_app; [|subst; apply lookup_delete_eq].
        destruct (decide (m = name)) as [->|Hne]; [apply lookup_delete_eq|].
        rewrite lookup_delete_ne by congruence. by apply Hg. }
    split; [done|by eapply Hsound].
  - intros []. apply IH. by rewrite <-app_assoc.
Qed.

Definition installed (st : cstate) : Prop :=
  stage true true true true (now_disk st) ∧ Forall sound (past st) ∧
  restarts st = (if negb (bool_decide (oldPEM = newPEM)) && negb (bool_decide (SpireDataDir o = "")) then 1 else 0).
Definition interrupted (st : cstate) : Prop := sound (now_disk st) ∧ Forall sound (past st) ∧ restarts st = 0.

(** What the rename of a write changes. *)
Definition written (n v : string) (d : disk) : disk :=
  <[(OutDir o, n) := v]> (delete (OutDir o, tmp_file n) d).
Lemma written_lookup n v d m :
  m ∈ [privName; pubName; crtName] →
  written n v d !! (OutDir o, m) = if decide (m = n) then Some v else d !! (OutDir o, m).
Proof.
  intros Hm. unfold written. case_decide as Hn; [subst; apply lookup_insert_eq|].
  rewrite lookup_insert_ne by congruence. apply lookup_delete_ne. intros Heq.
  by apply (hidden_file n (OutDir o, m)); [left|].
Qed.
Lemma written_cleared n v d : n ∈ [privName; pubName; crtName] → cleared d → cleared (written n v d).
Proof.
  intros Hn Hd Hne Hdir k Hk. unfold written. rewrite lookup_insert_ne, lookup_delete_ne; [by apply Hd| |].
  - intros Heq. by apply (hidden_file n (SpireDataDir o, k)); [right|].
  - intros [= _ <-]. revert Hk. repeat (apply elem_of_cons in Hn as [->|Hn];
      [by apply (bool_decide_unpack (_ ∉ _))|]). by apply not_elem_of_nil in Hn.
Qed.

Lemma stage_written n v d priv pub crt :
  stage priv pub crt true d →
  (n = privName ∧ v = KeyPrivateBlob key → stage true pub crt true (written n v d)) ∧
  (n = pubName ∧ v = KeyPublicBlob key → stage priv true crt true (written n v d)) ∧
  (n = crtName ∧ v = newPEM → stage priv pub true true (written n v d)).
Proof.
  intros [H1 H2 H3 H4].
  assert (∀ m, bool_decide (m ∈ [privName; pubName; crtName]) = true → m ∈ [privName; pubName; crtName]) as Hin
    by by intros m ?%bool_decide_eq_true.
  split_and!; intros [-> ->]; split; try (intros _; apply written_cleared; [by apply Hin|by apply H4]);
    unfold at_priv, at_pub, at_crt in *; rewrite written_lookup by (by apply Hin);
    case_decide as He; first [done|by vm_compute in He].
Qed.

(** The write of one of the materials takes a stage to the next. *)
Lemma hoare_material n v fault priv pub crt priv' pub' crt' :
  (∀ d, stage priv pub crt true d → stage priv' pub' crt' true (written n v d)) →
  (crt = true → priv = true ∧ pub = true) → (crt' = true → priv' = true ∧ pub' = true) →
  hoare (on (stage priv pub crt true)) (writeFileAtomic (owner i) (OutDir o) n (tmp_random i n) v fault)
    (λ _, on (stage priv' pub' crt' true)) interrupted.
Proof.
  intros Hw Hc Hc'.
  assert (∀ d, stage priv pub crt true d → sound d) as Hs by (intros; eapply stage_sound; naive_solver).
  eapply hoare_post; [apply (hoare_write (stage priv pub crt true) (stage priv' pub' crt' true))|done|].
  - done.
  - intros; eapply stage_sound; naive_solver.
  - intros. by apply stage_insert.
  - intros. by apply stage_delete.
  - done.
  - intros s (Hp & Hrest). split; [by apply Hs|done].
Qed.

Lemma hoare_install :
  hoare (on (stage false false false false)) (install o i oldPEM newPEM key) (λ _, installed) interrupted.
Proof.
  unfold install. cbn zeta. eapply hoare_bind; [apply hoare_clear|intros []].
  { intros s (Hs & Hrest). split; [by eapply stage_sound|done]. }
  eapply hoare_bind; [apply (hoare_material _ _ _ false false false true false false); [|done..]|intros []].
  { intros d Hd. by apply (stage_written privName (KeyPrivateBlob key)) in Hd as (? & _ & _); auto. }
  eapply hoare_bind; [apply (hoare_material _ _ _ true false false true true false); [|done..]|intros []].
  { intros d Hd. by apply (stage_written pubName (KeyPublicBlob key)) in Hd as (_ & ? & _); auto. }
  eapply hoare_bind; [apply (hoare_material _ _ _ true true false true true true); [|done..]|intros []].
  { intros d Hd. by apply (stage_written crtName newPEM) in Hd as (_ & _ & ?); auto. }
  apply hoare_when; intros Hb; unfold TryRestartSPIREAgent, installed; rewrite Hb.
  - apply hoare_modify. intros s (Hs & Hp & Hr). cbn. rewrite Hr. by split_and!.
  - intros s (Hs & Hp & Hr). by split_and!.
Qed.
End install.

(** ** The run *)

(** Computations of the run that touch neither the disk nor the agent. *)
Create HintDb quiet.

Section run.
Context `{CR : Crypto} {WR : Wire} `{GU : GoUnicode}.

(** A computation that leaves the disk, its history and the agent alone. *)
Definition quiet (d : disk) (st : cstate) : Prop := now_disk st = d ∧ past st = [] ∧ restarts st = 0.
Definition keeps_quiet {A} (m : fallible cstate string A) : Prop := ∀ d, preserves (quiet d) m.

Lemma quiet_bind {A B} (m : fallible cstate string A) (k : A → fallible cstate string B) :
  keeps_quiet m → (∀ a, keeps_quiet (k a)) → keeps_quiet (m ≫= k).
Proof. intros Hm Hk d. apply preserves_bind; [apply Hm|intros a; apply Hk]. Qed.
Lemma quiet_ret {A} (a : A) : keeps_quiet (mret a).
Proof. by intros d s. Qed.
Lemma quiet_throw {A} e : keeps_quiet (@throw cstate string A e).
Proof. by intros d s. Qed.
Lemma quiet_lift {A} (m : outcome string A) : keeps_quiet (lift m).
Proof. by intros d s. Qed.
Lemma quiet_gets {A} (f : cstate → A) : keeps_quiet (gets f).
Proof. by intros d s. Qed.
Lemma quiet_wrap {A} w (m : fallible cstate string A) : keeps_quiet m → keeps_quiet (wrap w m).
Proof. intros Hm d. apply preserves_wrap, Hm. Qed.
Lemma quiet_when b (m : fallible cstate string ()) : keeps_quiet m → keeps_quiet (when b m).
Proof. intros Hm d. apply preserves_when, Hm. Qed.
Lemma quiet_send i path b h : keeps_quiet (send i path b h).
Proof. apply quiet_bind; [by intros d s|intros []; apply quiet_lift]. Qed.
Lemma quiet_base64 s : keeps_quiet (from_base64 s).
Proof. unfold from_base64. case_match; [apply quiet_ret|apply quiet_throw]. Qed.
Lemma quiet_blob dir n fault : keeps_quiet (readBlob dir n fault).
Proof.
  apply quiet_bind; [apply quiet_gets|]. intros []; [apply quiet_ret..|apply quiet_throw].
Qed.
#[local] Hint Resolve quiet_bind quiet_ret quiet_throw quiet_lift quiet_gets quiet_wrap quiet_when quiet_send
  quiet_base64 quiet_blob : quiet.

Lemma decide_quiet o i : keeps_quiet (decide_renewal o i).
Proof.
  unfold decide_renewal. apply quiet_bind; [apply quiet_gets|]. intros f. cbn zeta.
  destruct (cert_reason _ _) as [reason detail]. apply quiet_bind.
  - destruct (match _ with Ok c => c | Err _ => None end); auto with quiet.
  - auto 10 with quiet.
Qed.
Lemma enrol_quiet o i devID : keeps_quiet (enrol o i devID).
Proof.
  unfold enrol. apply quiet_bind; [apply quiet_lift|]. intros [sr key]. apply quiet_bind; [destruct (mkdir_fault i); auto with quiet|].
  intros _. destruct (EndorsementCertificate sr) as [ek|]; [|apply quiet_throw]. cbn zeta.
  repeat (apply quiet_bind; [auto with quiet|intros ?]). destruct a2 as [[sid cred64] secret64].
  repeat (apply quiet_bind; [auto with quiet|intros ?]). case_bool_decide; auto with quiet.
Qed.

(** C30: a renewal is safe against a crash and against every failure. Either the
    run changes nothing on disk, or it has obtained a new certificate for a key,
    and then every disk it goes through, the last included, holds each file
    whole, old or new, and holds the new certificate only together with both
    blobs of its key and, if the certificate changed, without the agent's cached
    identity. The agent is restarted only after all of it, and only for a changed
    certificate. *)
Theorem client_crash_safe url o i st0 st r :
  past st0 = [] → restarts st0 = 0 → ClientEnrollOrRenew url o i st0 = (st, r) →
  (past st = [] ∧ now_disk st = now_disk st0 ∧ restarts st = 0) ∨
  ∃ newPEM key reason detail devID st1 st2,
    decide_renewal o i st0 = (st1, Ok (Renew reason detail devID)) ∧
    enrol o i devID st1 = (st2, Ok (newPEM, key)) ∧
    let oldPEM := old_pem o i st0 in
    Forall (sound o (now_disk st0) oldPEM newPEM key) (past st ++ [now_disk st]) ∧
    match r with
    | Ok _ => stage o (now_disk st0) oldPEM newPEM key true true true true (now_disk st) ∧
        restarts st = (if negb (bool_decide (oldPEM = newPEM)) && negb (bool_decide (SpireDataDir o = "")) then 1 else 0)
    | Err _ => restarts st = 0
    end.
Proof.
  intros Hpast Hr0. assert (quiet (now_disk st0) st0) as Hq0 by done.
  unfold ClientEnrollOrRenew. destruct (bool_decide (url = "")); [intros [= <- <-]; by left|].
  destruct (bool_decide (OutDir o = "")); [intros [= <- <-]; by left|].
  unfold mbind at 1, fallible_bind at 1. pose proof (decide_quiet o i _ _ Hq0) as Hq1.
  destruct (decide_renewal o i st0) as [st1 [[|reason detail devID]|e]] eqn:Hd; cbn [fst] in Hq1;
    [intros [= <- <-]; left; by destruct Hq1 as (? & ? & ?)| |intros [= <- <-]; left; by destruct Hq1 as (? & ? & ?)].
  unfold mbind at 1, fallible_bind at 1, gets. unfold mbind at 1, fallible_bind at 1.
  pose proof (enrol_quiet o i devID _ _ Hq1) as Hq2.
  destruct (enrol o i devID st1) as [st2 [[newPEM key]|e]] eqn:He; cbn [fst] in Hq2;
    [|intros [= <- <-]; left; by destruct Hq2 as (? & ? & ?)].
  assert (old_pem o i st1 = old_pem o i st0) as ->.
  { unfold old_pem. by destruct Hq1 as (-> & _). }
  intros Hi. right. exists newPEM, key, reason, detail, devID, st1, st2. split; [done|]. split; [done|]. cbn zeta.
  destruct Hq2 as (Hd2 & Hp2 & Hr2).
  pose proof (hoare_install o i (now_disk st0) (old_pem o i st0) newPEM key st2) as Hh.
  rewrite Hi in Hh. assert (on o (now_disk st0) (old_pem o i st0) newPEM key
    (stage o (now_disk st0) (old_pem o i st0) newPEM key false false false false) st2) as Hon.
  { split; [rewrite Hd2; by split|]. by rewrite Hp2. }
  specialize (Hh Hon). destruct r as [[]|e]; destruct Hh as (Hs & Hp & Hr).
  - split; [|done]. apply Forall_app. split; [done|]. apply Forall_singleton. by eapply stage_sound.
  - split; [|done]. apply Forall_app. by split; [|apply Forall_singleton].
Qed.
End run.

(** ** Witnesses *)

Definition toy_cert : certificate string := mkCert "CERT|350|devid1|0|300" "devid1" [] false "350" 0 300.
Lemma renew_due_exact_witness :
  RenewDue (CR := toy_crypto) (Some toy_cert) 200 = false ∧ RenewDue (CR := toy_crypto) (Some toy_cert) 201 = true ∧
  ∀ later, (201 ≤ later)%Z → RenewDue (CR := toy_crypto) (Some toy_cert) later = true.
Proof.
  destruct (renew_due_exact (CR := toy_crypto) toy_cert 201) as (Hdue & _ & Hstays).
  assert (RenewDue (CR := toy_crypto) (Some toy_cert) 201 = true) as Hd.
  { apply Hdue; [by vm_compute|]. by right. }
  split; [done|]. split; [done|]. by apply Hstays.
Defined.

(** A guest whose certificate is due: blobs that load, an answering service. *)
Definition toy_key : KeyInfo := mkKey 1 (DefaultDevIDTemplateRSA (H := toy_crypto)) "devid1" "private1" (DefaultDevIDTemplateRSA (H := toy_crypto)).
Definition toy_device : device (CR := toy_crypto) (WR := toy_wire) :=
  mkDevice (CR := toy_crypto) (WR := toy_wire) (λ _ _, inr toy_key) (λ _ _, Ok (toy_request, toy_key))
    (λ _ _, Ok "signature") (λ _ _, Ok "response").
Definition toy_new : string := "CERTIFICATE:CERT|350|devid1|250|550" +:+ lf_string.
Definition toy_inputs (fault : option write_step) : inputs (CR := toy_crypto) (WR := toy_wire) :=
  mkInputs (CR := toy_crypto) (WR := toy_wire) 250 (λ _, (Ok (200%Z, "token"), Ok (200%Z, "i-350"))) toy_device
    (λ _ _ _, Ok (200%Z, "{}")) (λ _ _, "{}") (λ _, Ok ("session", "", "")) (λ _ _, "{}") (λ _, Ok toy_new)
    None None None None (λ _, None) (mkOwnerEnv 1000 (λ _, NoFile "") (λ _, NoFile "") (λ _, None))
    (λ _, None) (λ _, None) (λ s, if decide (fault = Some s) then Some "fault" else None) (λ _, "1").
Definition toy_options : ClientOptions := mkOptions "guest" "/devid" "/spire".
Definition toy_disk : disk := {[
  ("/devid", crtName) := "CERTIFICATE:CERT|350|devid1|0|300" +:+ lf_string;
  ("/devid", pubName) := "devid1"; ("/devid", privName) := "private1"; ("/spire", "agent-data.json") := "cached" ]}.
Definition toy_client_run (fault : option write_step) : cstate * outcome string () :=
  ClientEnrollOrRenew (CR := toy_crypto) (WR := toy_wire) (GU := caseless) "http://169.254.169.254" toy_options (toy_inputs fault)
    (mkState toy_disk [] 0 []).

(** A run went through sound disks only. *)
Definition sound_run (fault : option write_step) : Prop :=
  ∃ st r newPEM key, toy_client_run fault = (st, r) ∧ length (past st) = 11 ∧
  Forall (sound toy_options toy_disk (old_pem (CR := toy_crypto) (WR := toy_wire) toy_options (toy_inputs fault)
    (mkState toy_disk [] 0 [])) newPEM key) (past st ++ [now_disk st]).

(** The renewal succeeds, and one whose last rename fails leaves the old
    certificate; both go through sound disks only. *)
Lemma client_crash_safe_witness : sound_run None ∧ sound_run (Some WRename).
Proof.
  assert (∀ fault, fault = None ∨ fault = Some WRename → sound_run fault) as Hall; [|split; apply Hall; auto].
  intros fault Hf. unfold sound_run. destruct (toy_client_run fault) as [st r] eqn:E.
  assert (length (past st) = 11) as Hpast.
  { transitivity (length (past (toy_client_run fault).1)); [by rewrite E|].
    clear E. destruct Hf as [-> | ->]; by vm_compute. }
  unfold toy_client_run in E.
  destruct (client_crash_safe (CR := toy_crypto) (WR := toy_wire) _ _ _ (mkState toy_disk [] 0 []) _ _ eq_refl eq_refl E)
    as [(Hp & _)|(newPEM & key & _ & _ & _ & _ & _ & _ & _ & Hs & _)]; [by rewrite Hp in Hpast|].
  exists st, r, newPEM, key. split; [done|]. split; [exact Hpast|exact Hs].
Defined.
