(* ===== verification/Handshake.v ===== *)
(** * An enrolment from end to end

    The client's run against the service's two handlers: what the client sends is
    what the handlers read, and what they answer is what it reads. With a TPM of its
    own, a disk it can write and pins that admit it, a guest that is due has its new
    certificate installed, whatever other guests do to the service meanwhile
    ([enrolment_completes]). *)

From S2P Require Import Prelude.
From S2P Require Import Go.
From S2P Require Import Sessions.
From S2P Require Import Crypto.
From S2P Require Import Pins.
From S2P Require Import CA.
From S2P Require Import Csr.
From S2P Require Import Net.
From S2P Require Import Inventory.
From S2P Require Import Proxmox.
From S2P Require Import Enroll.
From S2P Require Import EnrollProofs.
From S2P Require Import EnrollProgress.
From S2P Require Import Tpm.
From S2P Require Import Client.
From S2P Require Import ClientProofs.
From Stdlib Require Import Ascii.

(** ** Computations that succeed in any state *)

Section yields.
Context {S E : Type}.
Definition yields {A} (m : fallible S E A) (a : A) : Prop := ∀ s, (m s).2 = Ok a.

Lemma yields_bind {A B} (m : fallible S E A) (k : A → fallible S E B) a b :
  yields m a → yields (k a) b → yields (m ≫= k) b.
Proof. intros Hm Hk s. rewrite run_bind. specialize (Hm s). destruct (m s) as [s' r]. cbn in Hm. subst r. apply Hk. Qed.
Lemma yields_ret {A} (a : A) : yields (mret a) a.
Proof. done. Qed.
Lemma yields_wrap {A} w (m : fallible S E A) a : yields m a → yields (wrap w m) a.
Proof. intros Hm s. rewrite run_wrap. specialize (Hm s). destruct (m s) as [s' r]. cbn in Hm. by subst r. Qed.
Lemma yields_modify f : yields (modify (E := E) f) ().
Proof. done. Qed.
Lemma yields_when b (m : fallible S E ()) : yields m () → yields (when b m) ().
Proof. by destruct b. Qed.
Lemma yields_each {A} (f : A → fallible S E ()) l : (∀ a, yields (f a) ()) → yields (each f l) ().
Proof. intros Hf. induction l as [|a l IH]; [done|]. by eapply yields_bind. Qed.
End yields.

(** ** The texts between them *)

Lemma LimitReader_short s n : (Z.of_nat (String.length s) ≤ n)%Z → LimitReader s n = s.
Proof.
  revert n. induction s as [|c s IH]; intros n Hn; [done|]. cbn [LimitReader String.length] in *.
  destruct (Z.leb_spec n 0); [lia|]. by rewrite IH by lia.
Qed.

Lemma b64_char_graph v : (0 ≤ v < 64)%Z → is_graph (b64_char v) = true.
Proof. revert v. apply (below_64 (λ v, is_graph (b64_char v) = true)). by vm_compute. Qed.
Lemma base64_graph s : graph_string (base64_encode s) = true.
Proof.
  unfold graph_string. induction s as [|a|a b|a b c r IH] using triple_ind; [done|..]; cbn [base64_encode sforall];
    rewrite !b64_char_graph by sextets; [done..|]. by rewrite IH.
Qed.

Section header.
Context `{CR : Crypto} {WR : Wire}.
Lemma ek_header (cert : certificate Key) :
  parsed cert → pem_Decode (Raw cert) = None → ParseEKCertHeader (EncodeEKCertHeader cert) = Ok cert.
Proof.
  intros [Hne Hp] Hd. unfold ParseEKCertHeader, EncodeEKCertHeader. cbn zeta.
  rewrite TrimSpace_graph by apply base64_graph. rewrite bool_decide_eq_false_2 by by rewrite base64_encode_empty.
  by rewrite base64_roundtrip, Hd, Hp.
Qed.
End header.

(** ** Writing *)

Section writing.
Context `{CR : Crypto} {WR : Wire}.
Context (o : ClientOptions) (i : inputs).

(** No step of a write fails, and the owner can be kept. *)
Record writable : Prop := {
  wr_priv s : priv_write i s = None;
  wr_pub s : pub_write i s = None;
  wr_cert s : cert_write i s = None;
  wr_svid path : svid_fault i path = None;
  wr_owner path : is_ok (keepOwner (owner i) (OutDir o) path) = true;
}.

Lemma write_yields name random data fault :
  (∀ s, fault s = None) → (∀ path, is_ok (keepOwner (owner i) (OutDir o) path) = true) →
  yields (writeFileAtomic (owner i) (OutDir o) name random data fault) ().
Proof.
  intros Hf Ho s. specialize (Ho (JoinPath [OutDir o; name])). unfold writeFileAtomic. cbn zeta.
  rewrite !Hf, !run_bind. cbn [change]. rewrite !run_bind. unfold change at 1. cbn zeta iota.
  by destruct (keepOwner _ _ _).
Qed.
Lemma clear_yields dir : (∀ path, svid_fault i path = None) → yields (ClearSPIREAgentSVIDCache dir (svid_fault i)) ().
Proof.
  intros Hf. unfold ClearSPIREAgentSVIDCache. destruct (bool_decide _); [done|]. apply yields_each.
  intros n s. unfold remove_svid. cbn zeta. by rewrite Hf.
Qed.
Lemma install_yields oldPEM newPEM key : writable → yields (install o i oldPEM newPEM key) ().
Proof.
  intros [H1 H2 H3 H4 H5]. unfold install. cbn zeta.
  eapply yields_bind; [by apply yields_when, clear_yields|].
  do 3 (eapply yields_bind; [by apply write_yields|]). apply yields_when, yields_modify.
Qed.
End writing.

(** ** Both sides *)

Section handshake.
Context `{CR : Crypto} {CC : CACrypto} {WR : Wire} `{GU : GoUnicode}.
Context (decode_start decode_finish : string → option (string * string)).
(** The body of a reply: the text of an error, or JSON. *)
Context (encode_reply : reply_body → string).
Context (e : Enroller).
Context (sha256_length : ∀ s, String.length (sha256 s) = 32).
Context (i : inputs) (o : ClientOptions).
Local Abbreviation run := (EnrollProofs.run decode_start decode_finish e).
Local Abbreviation start := (HandleStart decode_start e).
Local Abbreviation finish := (HandleFinish decode_finish e).

(** JSON: what one side encodes the other decodes. *)
Record same_json : Prop := {
  json_start a b : decode_start (encode_start i a b) = Some (a, b);
  json_finish a b : decode_finish (encode_finish i a b) = Some (a, b);
  json_started a b c : decode_started i (encode_reply (StartBody a b c)) = Ok (a, b, c);
  json_finished p : decode_finished i (encode_reply (FinishBody p)) = Ok p;
}.

(** The guest's TPM: its keys, the EK's certificate, and what they sign and recover. *)
Record own_tpm (devID : option KeyInfo) (cert : certificate Key) (sr : SigningRequest) (key : KeyInfo)
    (data sig : string) : Prop := {
  tpm_request : create_request (tpm i) (PlatformCN o) devID = Ok (sr, key);
  tpm_encoded : MarshalBinary sr = Ok data;
  tpm_signed : hash_and_sign (tpm i) key data = Ok sig;
  tpm_ekcert : EndorsementCertificate sr = Some cert;
  tpm_parsed : parsed cert;
  tpm_der : pem_Decode (Raw cert) = None;
  tpm_ek : ekCertificateMatchesKey cert (EndorsementKey sr) = true;
  tpm_devid : DevIDKey sr = Some (KeyPublic key);
  tpm_verifies : CheckSignature (DevIDKey sr) data sig = Ok ();
  tpm_ak : ∃ ak, AttestationKey sr = Some ak ∧ CheckAKProp (Attributes ak) = Ok () ∧
    CheckDevIDProp (Attributes (KeyPublic key)) = Ok () ∧
    VerifyDevIDResidency (Some ak) (KeyPublic key) (CertifyData sr) (CertifySignature sr) = Ok ();
  tpm_recovers l blob secret nonce :
    start_challenge l sr = Ok (blob, secret, nonce) → activate (tpm i) blob secret = Ok nonce;
}.

(** The service, at the two legs' times: the requests come on a connection of [vm],
    and [evs] happens between them. *)
Definition start_of (vm : VMConfig) (cert : certificate Key) (data sig : string) : request :=
  mkRequest (Some vm) (EncodeEKCertHeader cert) (encode_start i (base64_encode data) (base64_encode sig)).
Definition between_legs (l1 : leg) (r1 : request) (evs : list event) (w : Enroll.world) : Enroll.world :=
  (run evs (start l1 r1 w).1).1.
Definition serving (vm : VMConfig) (l1 l2 : leg) (w w2 : Enroll.world) (path body header : string) : answer :=
  let r := mkRequest (Some vm) header body in
  let rep := if bool_decide (path = "/latest/devid/enroll/start") then (start l1 r w).2 else (finish l2 r w2).2 in
  Ok (status rep, encode_reply (Enroll.body rep)).

Lemma own_tpm_genuine `{!WireLaws} devID cert sr key data sig vm :
  same_json → own_tpm devID cert sr key data sig →
  genuine decode_start (start_of vm cert data sig) cert data sig sr.
Proof.
  intros [Hjs _ _ _] [_ Henc _ Hc Hparsed _ Hek Hd Hv (ak & Ha & Hpa & Hpd & Hres) _]. split; try done.
  - unfold start_input, start_of. cbn [req_body]. rewrite Hjs, !base64_roundtrip.
    rewrite (unmarshal_marshal sr data); [done| |done]. intros c Hc'. rewrite Hc in Hc'. by injection Hc' as <-.
  - exists (KeyPublic key), ak. by split_and!.
Qed.

Lemma send_yields path body header code text :
  post i path body header = Ok (code, text) → (code < 300)%Z → (Z.of_nat (String.length text) ≤ 1048576)%Z →
  yields (send i path body header) text.
Proof.
  intros Hp Hc Hl. unfold send. eapply yields_bind; [apply yields_modify|]. intros s. unfold lift. cbn [snd].
  rewrite Hp. unfold httpPostJSON. cbn [mbind outcome_bind]. cbn zeta. rewrite LimitReader_short by done.
  by destruct (Z.leb_spec 300 code); [lia|].
Qed.
Lemma base64_yields s : yields (from_base64 (base64_encode s)) s.
Proof. intros st. unfold from_base64. by rewrite base64_roundtrip. Qed.
Lemma lift_yields {A} (m : outcome string A) a : m = Ok a → yields (lift m) a.
Proof. by intros ->. Qed.

(** The service's side: it is configured, has random bytes, admits the guest at both
    legs, within the session's lifetime, and can sign; the answers fit the client. *)
Record attended (vm : VMConfig) (cert : certificate Key) (sr : SigningRequest) (ca : CA) (leaf : certificate Key)
    (b blob secret nonce : string) (l1 l2 : leg) (w w2 : Enroll.world) : Prop := {
  sv_ca : EnrollCA e = Some ca;
  sv_bound : VMID vm ≠ "";
  sv_admits1 : admitted e l1 (w_pins w) vm cert;
  sv_random : session_random l1 = Some b;
  sv_challenge : start_challenge l1 sr = Ok (blob, secret, nonce);
  sv_time : (at_session l1 ≤ at_session l2 ≤ at_session l1 + sessionTTL (w_sessions w))%Z ∧
    (sessionTTL (w_sessions w) < max_int64)%Z;
  sv_admits2 : admitted e l2 (w_pins w2) vm cert;
  sv_records : recordable l2 (VMID vm) (w_pins w2);
  sv_signs : IssueDevID ca (DevIDKey sr) (EndorsementKey sr) (EndorsementCertificate sr) (VMID vm)
    (Some (at_issue l2)) (at_issue l2) = Ok leaf;
  sv_start_fits : (Z.of_nat (String.length (encode_reply (StartBody (hex_encode b) (base64_encode blob)
    (base64_encode secret)))) ≤ 1048576)%Z;
  sv_finish_fits : let pem := pem_Encode "CERTIFICATE" (Raw leaf) +:+ pem_Encode "CERTIFICATE" (Raw (ca_cert ca)) in
    pem ≠ "" ∧ (Z.of_nat (String.length (encode_reply (FinishBody pem))) ≤ 1048576)%Z;
}.

(** The exchange gives the certificate and the key it is for. *)
Lemma enrol_yields `{!CALaws} `{!WireLaws} devID cert sr key data sig vm ca leaf b blob secret nonce l1 l2 w evs :
  let w2 := between_legs l1 (start_of vm cert data sig) evs w in
  same_json → own_tpm devID cert sr key data sig → attended vm cert sr ca leaf b blob secret nonce l1 l2 w w2 →
  Forall (apart decode_finish (hex_encode b) (at_session l2)) evs → mkdir_fault i = None →
  (∀ path body header, post i path body header = serving vm l1 l2 w w2 path body header) →
  CommonName leaf = VMID vm ∧ PublicKeyOf (KeyPublic key) = Ok (PublicKey leaf) ∧
    yields (enrol o i devID)
      (pem_Encode "CERTIFICATE" (Raw leaf) +:+ pem_Encode "CERTIFICATE" (Raw (ca_cert ca)), key).
Proof.
  intros w2 Hjson Htpm Hsv Hevs Hmk Hpost. pose proof (own_tpm_genuine _ _ _ _ _ _ vm Hjson Htpm) as Hg.
  destruct Hjson as [Hjs Hjf Hjsd Hjfd]. destruct Htpm as [Hreq Henc Hsig Hc Hparsed Hder Hek Hd _ _ Hact].
  destruct Hsv as [Hca Hne Had1 Hb Hch [Ht Hmax] Had2 Hrec Hi Hfit1 [Hpem Hfit]].
  assert (∀ body, calls (mkRequest (Some vm) (EncodeEKCertHeader cert) body) vm cert) as Hcalls.
  { intros body. split; [|by apply ek_header]. cbn [req_vm]. unfold BoundVM, IsBound. by rewrite bool_decide_eq_false_2. }
  set (r2 := mkRequest (Some vm) (EncodeEKCertHeader cert) (encode_finish i (hex_encode b) (base64_encode nonce))).
  destruct (honest_guest_enrols decode_start decode_finish e sha256_length ca vm cert data sig sr l1
    (start_of vm cert data sig) l2 r2 b w evs (λ _ _, nonce) blob secret nonce leaf
    Hca (Hcalls _) (Hcalls _) Hg Had1 Hb Hch eq_refl) as [Hstart Hfinish].
  destruct (Hfinish Hevs Ht Hmax (Hjf _ _) Had2 Hrec Hi) as (Hfin & Hcn & Hpk). clear Hfinish. split; [done|]. split; [by rewrite Hd in Hpk; injection Hpk as ->|].
  unfold enrol. eapply yields_bind; [by apply lift_yields|]. cbn beta iota. rewrite Hmk, Hc.
  eapply yields_bind; [apply yields_ret|]. cbn zeta. eapply yields_bind; [by apply lift_yields|].
  eapply yields_bind; [by apply yields_wrap, lift_yields|].
  eapply yields_bind.
  { apply yields_wrap. eapply (send_yields _ _ _ 200%Z); [|done|exact Hfit1]. rewrite Hpost. unfold serving.
    rewrite (bool_decide_eq_true_2 (_ = "/latest/devid/enroll/start")) by done. cbn zeta.
    fold (start_of vm cert data sig). by rewrite Hstart. }
  eapply yields_bind; [by apply yields_wrap, lift_yields|]. cbn beta iota.
  eapply yields_bind; [apply base64_yields|]. eapply yields_bind; [apply base64_yields|].
  eapply yields_bind; [by eapply yields_wrap, lift_yields, Hact|].
  eapply yields_bind.
  { apply yields_wrap. eapply (send_yields _ _ _ 200%Z); [|done|exact Hfit]. rewrite Hpost. unfold serving.
    rewrite (bool_decide_eq_false_2 (_ = "/latest/devid/enroll/start")) by done. cbn zeta. fold r2.
    unfold w2, between_legs. by rewrite Hfin. }
  eapply yields_bind; [by apply yields_wrap, lift_yields|]. rewrite bool_decide_eq_false_2 by done. apply yields_ret.
Qed.

(** C4: an enrolment completes. A guest that is due, whose TPM holds the keys and the
    certificate it presents and whose disk can be written, meets a service that is
    configured and whose pins admit it; other guests' legs and an operator's edits of
    the pins come between its two legs, and no one else names its session. Then its
    run succeeds, and leaves on its disk the certificate chain the service issued:
    for the DevID key whose blobs are beside it, in the name of the VM the service
    knows its connection by. *)
Theorem enrolment_completes `{!CALaws} `{!WireLaws} url st0 st1 reason detail devID cert sr key data sig
    vm ca leaf b blob secret nonce l1 l2 w evs :
  let w2 := between_legs l1 (start_of vm cert data sig) evs w in
  url ≠ "" → OutDir o ≠ "" → writable o i → mkdir_fault i = None → past st0 = [] → restarts st0 = 0 →
  decide_renewal o i st0 = (st1, Ok (Renew reason detail devID)) →
  same_json → own_tpm devID cert sr key data sig → attended vm cert sr ca leaf b blob secret nonce l1 l2 w w2 →
  Forall (apart decode_finish (hex_encode b) (at_session l2)) evs →
  (∀ path body header, post i path body header = serving vm l1 l2 w w2 path body header) →
  ∃ st, ClientEnrollOrRenew url o i st0 = (st, Ok ()) ∧
    CommonName leaf = VMID vm ∧ PublicKeyOf (KeyPublic key) = Ok (PublicKey leaf) ∧
    at_crt o (now_disk st) =
      Some (pem_Encode "CERTIFICATE" (Raw leaf) +:+ pem_Encode "CERTIFICATE" (Raw (ca_cert ca))) ∧
    at_priv o (now_disk st) = Some (KeyPrivateBlob key) ∧ at_pub o (now_disk st) = Some (KeyPublicBlob key).
Proof.
  intros w2 Hurl Hdir Hwr Hmk Hpast Hr0 Hdec Hjson Htpm Hsv Hevs Hpost.
  destruct (enrol_yields _ _ _ _ _ _ _ _ _ _ _ _ _ _ _ _ _ Hjson Htpm Hsv Hevs Hmk Hpost) as (Hcn & Hpk & Hen). set (newPEM := _ +:+ _) in *. unfold ClientEnrollOrRenew.
  rewrite (bool_decide_eq_false_2 _ Hurl), (bool_decide_eq_false_2 _ Hdir), run_bind, Hdec.
  assert (quiet (now_disk st0) st0) as Hq by done.
  pose proof (decide_quiet o i _ _ Hq) as Hq1. rewrite Hdec in Hq1. cbn [fst] in Hq1.
  pose proof (enrol_quiet o i devID _ _ Hq1) as (Hd2 & Hp2 & Hr2). specialize (Hen st1).
  rewrite run_bind. cbn [gets]. rewrite run_bind. destruct (enrol o i devID st1) as [st2 r2]. cbn [fst snd] in *. subst r2.
  pose proof (install_yields o i (old_pem o i st1) newPEM key Hwr st2) as Hin.
  pose proof (hoare_install o i (now_disk st0) (old_pem o i st1) newPEM key st2) as Hh.
  destruct (install o i (old_pem o i st1) newPEM key st2) as [st r]. cbn [snd] in Hin. subst r.
  destruct Hh as ([Hpriv Hpub Hcrt _] & _).
  { split; [rewrite Hd2; by split|]. by rewrite Hp2. }
  exists st. by split_and!.
Qed.
End handshake.

(** ** A guest without a certificate *)

(** A codec for the bodies: parts in base64, one to the line. *)
Definition toy_pair (a b : string) : string := base64_encode a +:+ String lf (base64_encode b).
Definition toy_unpair (s : string) : option (string * string) :=
  let '(a, b, ok) := Cut s lf in
  if ok then a ← base64_decode a; b ← base64_decode b; Some (a, b) else None.
Definition toy_reply_text (r : reply_body) : string :=
  match r with TextBody m => m | StartBody a b c => toy_pair a (toy_pair b c) | FinishBody p => p end.
Definition toy_started_parts (s : string) : outcome string (string * string * string) :=
  match ('(a, r) ← toy_unpair s; '(b, c) ← toy_unpair r; Some (a, b, c)) with
  | Some p => Ok p
  | None => Err "malformed"
  end.

Lemma toy_unpair_pair a b : toy_unpair (toy_pair a b) = Some (a, b).
Proof.
  unfold toy_unpair, toy_pair. rewrite (proj2 (Cut_spec _ _ (base64_encode a) (base64_encode b))).
  2: { split; [done|]. eapply sforall_no; [apply base64_graph|done]. }
  by rewrite !base64_roundtrip.
Qed.

Definition toy_devid_key : KeyInfo :=
  mkKey 1 (mkPublic 1 11 262258 (Some (mkRSA (Some (mkScheme 20 11)) (Some 128%Z))) None "devid1") "devid1" "private1"
    (DefaultDevIDTemplateRSA (H := toy_crypto)).
Definition toy_chip : device (CR := toy_crypto) (WR := toy_wire) :=
  mkDevice (CR := toy_crypto) (WR := toy_wire) (λ _ _, inr toy_devid_key) (λ _ _, Ok (toy_request, toy_devid_key))
    (λ _ data, Ok ("devid1#" +:+ data)) (λ blob _, Ok blob).
Definition toy_start_request : request :=
  mkRequest (Some (toy_vm "350")) (base64_encode "CERT|ekca|ek1")
    (toy_pair (base64_encode toy_data) (base64_encode ("devid1#" +:+ toy_data))).
(** Another guest answers for a session it does not have. *)
Definition toy_others : list event := [EvFinish (toy_leg Minute) (toy_req "101" (toy_pair "00" "eA==")); EvDir id].
Definition toy_later : Enroll.world (CR := toy_crypto) (WR := toy_wire) :=
  (EnrollProofs.run (CR := toy_crypto) (CC := toy_ca_crypto) (WR := toy_wire) (GU := caseless) toy_unpair toy_unpair
    toy_enroller toy_others
    (HandleStart (CR := toy_crypto) (CC := toy_ca_crypto) (WR := toy_wire) (GU := caseless) toy_unpair toy_enroller
       (toy_leg 0) toy_start_request toy_world).1).1.
Definition toy_network : inputs (CR := toy_crypto) (WR := toy_wire) :=
  mkInputs (CR := toy_crypto) (WR := toy_wire) 0 (λ _, (Ok (200%Z, "token"), Ok (200%Z, "i-350"))) toy_chip
    (serving (CR := toy_crypto) (CC := toy_ca_crypto) (WR := toy_wire) (GU := caseless) toy_unpair toy_unpair
       toy_reply_text toy_enroller (toy_vm "350") (toy_leg 0) (toy_leg Minute) toy_world toy_later)
    toy_pair toy_started_parts toy_pair Ok
    None None None None (λ _, None) (mkOwnerEnv 1000 (λ _, NoFile "") (λ _, NoFile "") (λ _, None))
    (λ _, None) (λ _, None) (λ _, None) (λ _, "1").

Lemma toy_same_json : same_json (CR := toy_crypto) (WR := toy_wire) toy_unpair toy_unpair toy_reply_text toy_network.
Proof.
  split; try apply toy_unpair_pair; [|done]. intros a b c. cbn [decode_started toy_network toy_reply_text].
  unfold toy_started_parts. rewrite !toy_unpair_pair. cbn [mbind option_bind]. by rewrite toy_unpair_pair.
Qed.
Lemma toy_own_tpm :
  own_tpm (CR := toy_crypto) (WR := toy_wire) toy_network toy_options None toy_guest toy_request toy_devid_key
    toy_data ("devid1#" +:+ toy_data).
Proof.
  split; try (by vm_compute).
  - eexists. split_and!; by vm_compute.
  - intros l blob secret nonce. unfold start_challenge, CreateChallenge.
    cbn -[String.length sdrop]. destruct (challenge_random l 16) as [n|]; [|done].
    destruct (_ || _); [done|]. by intros [= <- <- <-].
Qed.
Lemma toy_attended :
  attended (CR := toy_crypto) (CC := toy_ca_crypto) (WR := toy_wire) (GU := caseless) toy_reply_text toy_enroller
    (toy_vm "350") toy_guest toy_request toy_ca toy_leaf "0123456789abcdef" "sixteen byte key" "ak1" "sixteen byte key"
    (toy_leg 0) (toy_leg Minute) toy_world toy_later.
Proof.
  assert (w_pins toy_later = Listing ∅) as Hp by by vm_compute.
  split.
  - done.
  - done.
  - by apply toy_admitted.
  - done.
  - by vm_compute.
  - split; [split|]; by vm_compute.
  - rewrite Hp. by apply toy_admitted.
  - rewrite Hp. apply toy_recordable.
  - by vm_compute.
  - by vm_compute.
  - split; by vm_compute.
Qed.

Lemma enrolment_completes_witness :
  ∃ st, ClientEnrollOrRenew (CR := toy_crypto) (WR := toy_wire) (GU := caseless) "http://169.254.169.254" toy_options
      toy_network (mkState ∅ [] 0 []) = (st, Ok ()) ∧
    at_priv toy_options (now_disk st) = Some "private1" ∧ CommonName toy_leaf = "350".
Proof.
  destruct (enrolment_completes (CR := toy_crypto) (CC := toy_ca_crypto) (WR := toy_wire) (GU := caseless) toy_unpair
    toy_unpair toy_reply_text toy_enroller (take_pad_length 32) toy_network toy_options "http://169.254.169.254"
    (mkState ∅ [] 0 []) (mkState ∅ [] 0 []) "no certificate" "" None toy_guest toy_request toy_devid_key toy_data
    ("devid1#" +:+ toy_data) (toy_vm "350") toy_ca toy_leaf "0123456789abcdef" "sixteen byte key" "ak1"
    "sixteen byte key" (toy_leg 0) (toy_leg Minute) toy_world toy_others) as (st & Hrun & Hcn & _ & _ & Hpriv & _).
  - done.
  - done.
  - by split.
  - done.
  - done.
  - done.
  - by vm_compute.
  - apply toy_same_json.
  - apply toy_own_tpm.
  - apply toy_attended.
  - repeat constructor; by vm_compute.
  - done.
  - exists st. split_and!; [exact Hrun|exact Hpriv|exact Hcn].
Defined.
