(* ===== verification/Imds.v ===== *)
(** * The metadata handlers (imds/handlers.go, placement.go, tags.go)

    A handler reads the token store, the host's topology and the clock
    ([context]) and answers a request; only minting a token changes the store. A
    [request] holds what the handlers read of an [http.Request], with the record
    the connection is bound to. The identity document is kept as its fields, in
    place of their JSON text. *)

From S2P Require Import Prelude.
From S2P Require Import Go.
From S2P Require Import Net.
From S2P Require Import Tokens.
From S2P Require Import Inventory.
From Stdlib Require Import Ascii.

(** ** Requests and responses *)

Record request := mkRequest {
  Method : string;
  Path : string;
  Host : string;
  RemoteAddr : string;
  token_header : string;            (* X-Aws-Ec2-Metadata-Token *)
  PathValue : string → string;      (* the wildcards of the pattern *)
  VM : option VMConfig;             (* GetVMConfigFromRequest *)
}.
Record context := mkContext {
  store : option TokenStore;
  topology : Topology;
  clock : Z;
}.
Inductive content := Text (s : string) | Document (fields : gmap string (option string)).
Record response := mkResponse {
  Status : Z;
  Header : gmap string string;
  Body : content;
}.
Abbreviation handler := (context → request → response).

Definition content_type (s : string) : gmap string string := {[ "Content-Type" := s ]}.
Definition plain : gmap string string := content_type "text/plain".

(** [http.Error], on top of the headers set before, and [http.NotFound]. *)
Definition Error (h : gmap string string) (msg : string) (code : Z) : response :=
  mkResponse code
    (<["Content-Type" := "text/plain; charset=utf-8"]> (<["X-Content-Type-Options" := "nosniff"]> h))
    (Text (msg +:+ lf_string)).
Definition NotFound : response := Error ∅ "404 page not found" 404.

(** [http.Redirect] to a path in ASCII: the link is the body of an answer to GET. *)
Definition quoted (s : string) : string := String (chr 34) (s +:+ String (chr 34) "").
Definition Redirect (r : request) (url text : string) (code : Z) : response :=
  mkResponse code
    (if bool_decide (Method r = "GET") || bool_decide (Method r = "HEAD")
     then {[ "Location" := url; "Content-Type" := "text/html; charset=utf-8" ]} else {[ "Location" := url ]})
    (Text (if bool_decide (Method r = "GET")
           then "<a href=" +:+ quoted url +:+ ">" +:+ text +:+ "</a>." +:+ lf_string +:+ lf_string else "")).

(** [fmt.Fprintln] of each. *)
Fixpoint Println (l : list string) : string :=
  match l with [] => "" | x :: l => x +:+ lf_string +:+ Println l end.

(** ** The caller *)

Definition PeerIP (remoteAddr : string) : option (list Z) :=
  ParseIP (match SplitHost remoteAddr with Some host => host | None => remoteAddr end).

Definition LocalIPv4 (r : request) : string :=
  match PeerIP (RemoteAddr r) with
  | None => ""
  | Some ip => match To4 ip with None => "" | Some v4 => IPString v4 end
  end.

Definition PublicIPv4 (r : request) : string :=
  match VM r with
  | None => ""
  | Some vm =>
      let declared := TrimSpace (default "" (RawConfig vm !! "public-ipv4")) in
      if bool_decide (declared = "") then ""
      else match ParseIP declared ≫= To4 with None => "" | Some v4 => IPString v4 end
  end.

(** [strings.ReplaceAll] of one byte by another. *)
Definition replace_byte (a b : ascii) (s : string) : string :=
  smap (fun c => if bool_decide (c = a) then b else c) s.

Definition InstanceID (r : request) : string :=
  match BoundVM (VM r) with
  | Some vm => "i-" +:+ VMID vm
  | None =>
      let ip := LocalIPv4 r in
      if bool_decide (ip = "") then "" else "i-" +:+ replace_byte "." "-" ip
  end.

(** [None] for nil. *)
Definition InstanceTags (r : request) : option (gmap string string) :=
  match VM r with
  | None => None
  | Some vm => if bool_decide (size (Tags vm) = 0) then None else Some (Tags vm)
  end.

Definition getHostname (r : request) : string :=
  if bool_decide (Host r = "") then "localhost.localdomain"
  else match Split (Host r) ":" with h :: _ => h | [] => "" end.
Definition getAvailabilityZone (c : context) : string := default "" (topology c !! "availability-zone").
Definition getRegion (c : context) : string := default "" (topology c !! "region").
Definition getDomain : string := "localdomain".

(** ** Session tokens *)

Definition storeValidatesToken (s : option TokenStore) (c : context) (r : request) : bool :=
  match s with
  | None => false
  | Some ts =>
      if bool_decide (token_header r = "") then false else ValidateToken (clock c) (token_header r) ts
  end.
Definition validateToken (c : context) (r : request) : bool := storeValidatesToken (store c) c r.

Definition unauthorized : response :=
  Error {[ "X-Aws-Ec2-Metadata-Token" := "required" ]} "IMDSv2 token required" 401.
(** The guard every handler opens with. *)
Definition with_token (h : handler) : handler :=
  fun c r => if negb (validateToken c r) then unauthorized else h c r.

Definition HandleCreateToken (now : Z) (rnd : option string) (s : TokenStore) (r : request)
    : TokenStore * response :=
  let peer := match PeerIP (RemoteAddr r) with Some ip => IPString ip | None => "unknown" end in
  match generateTokenAt peer now rnd s with
  | (s, Ok token) => (s, mkResponse 200 plain (Text (Value token)))
  | (s, Err ErrTokenStoreEmergency) =>
      (s, mkResponse 429 (<["Retry-After" := "60"]> plain) (Text ("Too many requests" +:+ lf_string)))
  | (s, Err ErrRandom) => (s, Error ∅ "Internal server error" 500)
  end.

(** ** The handlers *)

Definition ok_text (s : string) : response := mkResponse 200 plain (Text s).
(** [writeNoTag]: also the answer of the address handlers without an address. *)
Definition writeNoTag : response := mkResponse 404 plain (Text "").
Definition WriteInstanceIDUnavailable : response := mkResponse 422 plain (Text "").

Definition index_paths (r : request) : list string :=
  ["instance-id"; "local-hostname"; "local-ipv4"] ++
  (if bool_decide (PublicIPv4 r = "") then [] else ["public-ipv4"]) ++
  ["placement/"; "services/"] ++
  (match InstanceTags r with Some _ => ["tags/"] | None => [] end).
Definition HandleMetaDataIndex : handler := with_token (fun c r => ok_text (Println (index_paths r))).

Definition HandleInstanceID : handler := with_token (fun c r =>
  let instanceID := InstanceID r in
  if bool_decide (instanceID = "") then WriteInstanceIDUnavailable else ok_text instanceID).
Definition HandleHostname : handler := with_token (fun c r => ok_text (getHostname r)).
Definition HandleLocalIPv4 : handler := with_token (fun c r =>
  let ip := LocalIPv4 r in if bool_decide (ip = "") then writeNoTag else ok_text ip).
Definition HandlePublicIPv4 : handler := with_token (fun c r =>
  let ip := PublicIPv4 r in if bool_decide (ip = "") then writeNoTag else ok_text ip).
Definition HandleAvailabilityZone : handler := with_token (fun c r => ok_text (getAvailabilityZone c)).
Definition HandleRegion : handler := with_token (fun c r => ok_text (getRegion c)).
Definition HandleDomain : handler := with_token (fun c r => ok_text getDomain).

Definition identity_document (c : context) (r : request) : gmap string (option string) := {[
  "instanceId" := Some (InstanceID r); "imageId" := Some "proxmox-unknown"; "instanceType" := Some "vm";
  "region" := Some (getRegion c); "availabilityZone" := Some (getAvailabilityZone c);
  "privateIp" := Some (LocalIPv4 r); "devpayProductCodes" := None; "version" := Some "2017-09-30";
  "billingProducts" := None; "accountId" := Some "012345678901" ]}.
Definition HandleInstanceIdentityDocument : handler := with_token (fun c r =>
  if bool_decide (InstanceID r = "") then WriteInstanceIDUnavailable
  else mkResponse 200 (content_type "application/json") (Document (identity_document c r))).

(** The keys of a map, sorted. *)
Definition sorted_keys (m : gmap string string) : list string := SortStrings (map_to_list m).*1.

Definition HandlePlacementKeys : handler := with_token (fun c r => ok_text (Println (sorted_keys (topology c)))).
Definition HandlePlacementKey : handler := with_token (fun c r =>
  match topology c !! PathValue r "key" with Some value => ok_text value | None => writeNoTag end).
Definition HandlePlacementRedirect : handler := fun c r =>
  Redirect r "/latest/meta-data/placement/" "Moved Permanently" 301.

Definition HandleTags : handler := with_token (fun c r =>
  match InstanceTags r with None => writeNoTag | Some _ => ok_text (Println ["instance"]) end).
Definition HandleInstanceTagKeys : handler := with_token (fun c r =>
  match InstanceTags r with None => writeNoTag | Some tags => ok_text (Println (sorted_keys tags)) end).
Definition HandleInstanceTag : handler := with_token (fun c r =>
  match InstanceTags r ≫= (.!! PathValue r "key") with Some value => ok_text value | None => writeNoTag end).

(** ** Callers without a record *)

Definition IdentityBearingPaths : list string :=
  ["/latest/meta-data/instance-id"; "/latest/dynamic/instance-identity/document"].
Definition RequiresVMIdentity (path : string) : bool := bool_decide (path ∈ IdentityBearingPaths).

(** [s] is the store the wrapper was handed: a pointer, so its content is that of
    the moment of the request. *)
Definition RequireVMIdentity (require : bool) (s : context → option TokenStore) (next : handler) : handler :=
  if negb require then next
  else fun c r =>
    if negb (storeValidatesToken (s c) c r) then next c r
    else if negb (IsBound (VM r)) then NotFound
    else next c r.
