(* ===== verification/Mux.v ===== *)
(** * net/http's ServeMux

    How Go 1.24 picks the handler of a request: patterns with a method, literal
    segments, one-segment wildcards, [{$}] and a trailing slash. The tree of the
    patterns is the list of them, searched in the tree's order: literals before
    wildcards before a trailing slash, at each segment. Host patterns and CONNECT
    are left out, since no pattern here names a host. *)

From S2P Require Import Prelude.
From S2P Require Import Go.
From S2P Require Import Proxmox.
From Stdlib Require Import Ascii.

(** ** Patterns *)

Inductive segment :=
  | Lit (s : string)          (* the segment "/" is [{$}] *)
  | Wild (name : string)
  | Multi.                    (* a trailing slash *)
#[export] Instance segment_eq_dec : EqDecision segment.
Proof. solve_decision. Defined.

Definition parse_segment (s : string) : segment :=
  if bool_decide (s = "") then Multi
  else if bool_decide (s = "{$}") then Lit "/"
  else
    let '(name, ok) := CutPrefix s "{" in
    if ok then Wild (TrimSuffix name "}") else Lit s.
(** [parsePattern], of a pattern that is known to be well formed: method and segments. *)
Definition parsePattern (p : string) : string * list segment :=
  let '(method, path, ok) := Cut p " " in
  let path := if ok then path else p in
  ((if ok then method else ""), parse_segment <$> tail (Split path "/")).

(** The segments of a request's path, the final slash a segment of its own. *)
Fixpoint request_segments (parts : list string) : list string :=
  match parts with
  | [] => []
  | [""] => ["/"]
  | s :: parts => default s (PathUnescape s) :: request_segments parts
  end.

Section mux.
Context {A : Type}.

Record route := mkRoute { route_method : string; route_segments : list segment; route_handler : A }.
Definition Handle (pattern : string) (h : A) : route :=
  let '(m, segs) := parsePattern pattern in mkRoute m segs h.

(** The children of a node: the routes whose next segment is [s], below it. *)
Definition node := (list (list segment * route))%type.
Definition child (s : segment) (n : node) : node :=
  omap (fun e => match e.1 with s' :: rest => if bool_decide (s' = s) then Some (rest, e.2) else None | [] => None end) n.
Definition wild_child (n : node) : node :=
  omap (fun e => match e.1 with Wild _ :: rest => Some (rest, e.2) | _ => None end) n.
(** The route that ends at a node. *)
Definition leaf (n : node) : option route :=
  snd <$> List.find (fun e => match e.1 with [] => true | _ => false end) n.

Definition orelse {B} (m m' : option B) : option B := match m with Some _ => m | None => m' end.

(** [matchPath]: the route and the values of its wildcards. *)
Fixpoint matchPath (path : list string) (n : node) (matches : list string) : option (route * list string) :=
  match path with
  | [] => r ← leaf n; Some (r, matches)
  | seg :: rest =>
      orelse (matchPath rest (child (Lit seg) n) matches)
        (orelse (if bool_decide (seg = "/") then None
                 else matchPath rest (wild_child n) (matches ++ [seg]))
           (r ← leaf (child Multi n); Some (r, matches)))
  end.

Definition of_method (m : string) (rs : list route) : node :=
  (fun r => (route_segments r, r)) <$> filter (λ r, route_method r = m) rs.
(** [matchMethodAndPath]. *)
Definition matchMethodAndPath (rs : list route) (method : string) (path : list string)
    : option (route * list string) :=
  orelse (matchPath path (of_method method rs) [])
    (orelse (if bool_decide (method = "HEAD") then matchPath path (of_method "GET" rs) [] else None)
       (matchPath path (of_method "" rs) [])).

(** [exactMatch]: a trailing slash has matched nothing more. *)
Definition exactMatch (m : option (route * list string)) (path : string) : bool :=
  match m with
  | None => false
  | Some (r, _) =>
      if negb (bool_decide (last (route_segments r) = Some Multi)) then true
      else HasSuffix path "/" && (length (route_segments r) =? length (tail (Split path "/")))
  end.

Definition cleanPath (path : string) : string :=
  if bool_decide (path = "") then "/"
  else
    let p := if HasPrefix path "/" then path else "/" +:+ path in
    let np := Clean p in
    if HasSuffix p "/" && negb (bool_decide (np = "/")) then np +:+ "/" else np.

Inductive found := Found (r : route) (matches : list string) | Redirected (path : string) | NoRoute.

(** [findHandler] of a request with this [EscapedPath]. *)
Definition findHandler (rs : list route) (method escaped : string) : found :=
  let path := cleanPath escaped in
  let m := matchMethodAndPath rs method (request_segments (tail (Split path "/"))) in
  let slashed := path +:+ "/" in
  if negb (exactMatch m path) && negb (HasSuffix path "/") &&
     exactMatch (matchMethodAndPath rs method (request_segments (tail (Split slashed "/")))) slashed
  then Redirected slashed
  else if negb (bool_decide (path = escaped)) then Redirected path
  else match m with Some (r, matches) => Found r matches | None => NoRoute end.

(** [PathValue]: the values by the wildcards' names. *)
Definition wildcard_names (segs : list segment) : list string :=
  omap (fun s => match s with Wild n => Some n | _ => None end) segs.
Definition path_value (r : route) (matches : list string) (name : string) : string :=
  default "" ((list_to_map (zip (wildcard_names (route_segments r)) matches) : gmap string string) !! name).
End mux.
Arguments route : clear implicits.
Arguments found : clear implicits.

(** ** What a match says of the path *)

Definition fits (seg : segment) (s : string) : Prop :=
  match seg with Lit s' => s = s' | Wild _ => s ≠ "/" | Multi => False end.
(** A list of segments covers a path: one each, or up to a trailing slash. *)
Fixpoint covers (segs : list segment) (path : list string) : Prop :=
  match segs, path with
  | [], [] => True
  | [Multi], _ :: _ => True
  | seg :: segs, s :: path => fits seg s ∧ covers segs path
  | _, _ => False
  end.

Section facts.
Context {A : Type}.
Implicit Types (n : @node A).

Lemma leaf_elem n r : leaf n = Some r → ([], r) ∈ n.
Proof.
  unfold leaf. destruct (List.find _ n) as [[segs r']|] eqn:E; cbn; [|done]. intros [= <-].
  apply List.find_some in E as [Hin Hs]. destruct segs; [|done]. by apply list_elem_of_In.
Qed.
Lemma child_elem s n segs r : (segs, r) ∈ child s n → (s :: segs, r) ∈ n.
Proof.
  unfold child. rewrite list_elem_of_omap. intros ([[|s' segs'] r'] & Hin & Hs); cbn in Hs; [done|].
  case_bool_decide; [|done]. by simplify_eq.
Qed.
Lemma wild_child_elem n segs r : (segs, r) ∈ wild_child n → ∃ name, (Wild name :: segs, r) ∈ n.
Proof.
  unfold wild_child. rewrite list_elem_of_omap. intros ([[|[] segs'] r'] & Hin & Hs); cbn in Hs; try done.
  simplify_eq. by eexists.
Qed.

Lemma matchPath_covers path n matches r vals :
  matchPath path n matches = Some (r, vals) → ∃ segs, (segs, r) ∈ n ∧ covers segs path.
Proof.
  revert n matches. induction path as [|s path IH]; intros n matches; cbn [matchPath].
  { destruct (leaf n) as [r'|] eqn:E; cbn; [|done]. intros [= <- <-]. exists []. split; [by apply leaf_elem|done]. }
  destruct (matchPath path (child (Lit s) n) matches) as [[r1 v1]|] eqn:E1; cbn [orelse].
  { intros [= <- <-]. apply IH in E1 as (segs & Hin & Hc). apply child_elem in Hin.
    exists (Lit s :: segs). split; [done|]. by cbn. }
  destruct (if bool_decide _ then _ else _) as [[r2 v2]|] eqn:E2; cbn [orelse].
  { intros [= <- <-]. case_bool_decide as Hs; [done|]. apply IH in E2 as (segs & Hin & Hc).
    apply wild_child_elem in Hin as [name Hin]. exists (Wild name :: segs). split; [done|]. by cbn. }
  destruct (leaf (child Multi n)) as [r3|] eqn:E3; cbn; [|done]. intros [= <- <-].
  exists [Multi]. split; [by apply child_elem, leaf_elem|done].
Qed.

Lemma matchMethodAndPath_covers (rs : list (route A)) method path r vals :
  matchMethodAndPath rs method path = Some (r, vals) →
  r ∈ rs ∧ covers (route_segments r) path.
Proof.
  assert (∀ m, matchPath path (of_method m rs) [] = Some (r, vals) → r ∈ rs ∧ covers (route_segments r) path) as H1.
  { intros m (segs & Hin & Hc)%matchPath_covers. unfold of_method in Hin.
    apply list_elem_of_fmap in Hin as (r' & [= -> ->] & [_ Hin]%list_elem_of_filter). done. }
  unfold matchMethodAndPath, orelse. destruct (matchPath path (of_method method rs) []) eqn:E; [intros [= ->]; eauto|].
  case_bool_decide; [|eauto]. destruct (matchPath path (of_method "GET" rs) []) eqn:E'; [intros [= ->]; eauto|eauto].
Qed.

(** A literal route is found for its own path only. *)
Lemma covers_literal (lits : list string) path : covers (Lit <$> lits) path → path = lits.
Proof.
  revert path. induction lits as [|s lits IH]; intros [|s' path]; cbn; try done.
  intros [Hf Hc]. f_equal; [done|by apply IH].
Qed.
End facts.

(** ** Handlers do not matter to the choice *)

Section natural.
Context {A B : Type} (f : A → B).

Definition route_map (r : route A) : route B := mkRoute (route_method r) (route_segments r) (f (route_handler r)).
Definition node_map (n : @node A) : @node B := prod_map id route_map <$> n.
Definition match_map (m : option (route A * list string)) : option (route B * list string) :=
  prod_map route_map id <$> m.
Definition found_map (x : found A) : found B :=
  match x with Found r vals => Found (route_map r) vals | Redirected p => Redirected p | NoRoute => NoRoute end.

Lemma child_map s n : child s (node_map n) = node_map (child s n).
Proof.
  unfold child, node_map. induction n as [|[[|s' segs] r] n IH]; cbn; [done..|].
  case_bool_decide; cbn; [|done]. by f_equal.
Qed.
Lemma wild_child_map n : wild_child (node_map n) = node_map (wild_child n).
Proof.
  unfold wild_child, node_map. induction n as [|[[|[] segs] r] n IH]; cbn; try done. by f_equal.
Qed.
Lemma leaf_map n : leaf (node_map n) = route_map <$> leaf n.
Proof. unfold leaf, node_map. induction n as [|[[|s segs] r] n IH]; cbn; done. Qed.

Lemma orelse_map m m' : orelse (match_map m) (match_map m') = match_map (orelse m m').
Proof. by destruct m. Qed.

Lemma matchPath_map path n vals : matchPath path (node_map n) vals = match_map (matchPath path n vals).
Proof.
  revert n vals. induction path as [|s path IH]; intros n vals; cbn [matchPath].
  { rewrite leaf_map. by destruct (leaf n). }
  rewrite !child_map, wild_child_map, leaf_map, !IH, <- !orelse_map. f_equal. f_equal.
  - by case_bool_decide.
  - by destruct (leaf _).
Qed.

Lemma of_method_map m rs : of_method m (route_map <$> rs) = node_map (of_method m rs).
Proof.
  unfold of_method, node_map. induction rs as [|r rs IH]; [done|]. rewrite fmap_cons, !filter_cons.
  cbn [route_map route_method]. case_decide; [|done]. rewrite !fmap_cons. by f_equal.
Qed.

Lemma matchMethodAndPath_map rs method path :
  matchMethodAndPath (route_map <$> rs) method path = match_map (matchMethodAndPath rs method path).
Proof.
  unfold matchMethodAndPath. rewrite !of_method_map, !matchPath_map, <- !orelse_map. f_equal. f_equal.
  by case_bool_decide.
Qed.

Lemma exactMatch_map m path : exactMatch (match_map m) path = exactMatch m path.
Proof. by destruct m as [[]|]. Qed.

Lemma findHandler_map rs method escaped :
  findHandler (route_map <$> rs) method escaped = found_map (findHandler rs method escaped).
Proof.
  unfold findHandler. cbn zeta. rewrite !matchMethodAndPath_map, !exactMatch_map.
  destruct (_ && _); [done|]. destruct (negb _); [done|].
  by destruct (matchMethodAndPath _ _ _) as [[]|].
Qed.
End natural.

Lemma findHandler_covers {A} (rs : list (route A)) method escaped r vals :
  findHandler rs method escaped = Found r vals →
  r ∈ rs ∧ cleanPath escaped = escaped ∧ covers (route_segments r) (request_segments (tail (Split escaped "/"))).
Proof.
  unfold findHandler. cbn zeta. destruct (_ && _); [done|].
  case_bool_decide as Hp; cbn [negb]; [|done]. rewrite Hp.
  destruct (matchMethodAndPath _ _ _) as [[r' v']|] eqn:E; [|done]. intros [= -> ->].
  by apply matchMethodAndPath_covers in E as [? ?].
Qed.

(** A route answers its own method; GET answers HEAD too. *)
Lemma findHandler_method {A} (rs : list (route A)) method escaped r vals :
  findHandler rs method escaped = Found r vals →
  route_method r = method ∨ route_method r = "" ∨ method = "HEAD" ∧ route_method r = "GET".
Proof.
  assert (∀ m path, matchPath path (of_method m rs) [] = Some (r, vals) → route_method r = m) as H1.
  { intros m path (segs & Hin & _)%matchPath_covers. unfold of_method in Hin.
    apply list_elem_of_fmap in Hin as (r' & [= -> ->] & [Hm _]%list_elem_of_filter). done. }
  unfold findHandler. cbn zeta. destruct (_ && _); [done|].
  case_bool_decide; cbn [negb]; [|done]. destruct (matchMethodAndPath _ _ _) as [[r' v']|] eqn:E; [|done].
  intros [= -> ->]. unfold matchMethodAndPath, orelse in E.
  destruct (matchPath _ (of_method method rs) []) eqn:E1; [injection E as ->; left; by eapply H1|].
  case_bool_decide as Hm; [|right; left; by eapply H1].
  destruct (matchPath _ (of_method "GET" rs) []) eqn:E2; [injection E as ->|right; left; by eapply H1].
  right; right. split; [done|by eapply H1].
Qed.

(** The routes by their numbers: what the mux computes with. *)
Definition number {A} (rs : list (route A)) : list (route nat) :=
  imap (λ i r, mkRoute (route_method r) (route_segments r) i) rs.

Lemma number_handlers {A} (d : A) (rs : list (route A)) :
  route_map (λ i, nth i (route_handler <$> rs) d) <$> number rs = rs.
Proof.
  unfold number. rewrite fmap_imap. apply list_eq. intros i. rewrite list_lookup_imap.
  destruct (rs !! i) as [r|] eqn:E; cbn; [|done]. f_equal. unfold route_map. cbn.
  erewrite (nth_lookup_Some _ _ _ (route_handler r)); [by destruct r|]. by rewrite list_lookup_fmap, E.
Qed.

Lemma findHandler_number {A} (rs : list (route A)) method escaped m segs i vals h :
  findHandler (number rs) method escaped = Found (mkRoute m segs i) vals →
  (route_handler <$> rs) !! i = Some h →
  findHandler rs method escaped = Found (mkRoute m segs h) vals.
Proof.
  intros Hf Hi. rewrite <- (number_handlers h rs), findHandler_map, Hf at 1. unfold found_map, route_map. cbn.
  by rewrite (nth_lookup_Some _ _ _ _ Hi).
Qed.
