(* ===== verification/Config.v ===== *)
(** * The configuration (internal/config/config.go)

    [Load] over a parameter for the YAML decoder, which overlays a document's
    values on a configuration. [time.ParseDuration] is written after Go's; only
    the floating-point product for a fraction is a parameter. *)

From S2P Require Import Prelude.
From S2P Require Import Go.
From S2P Require Import Net.
From Stdlib Require Import Ascii.

Record MDSConfig := mkMDS {
  ListenAddr : string;
  JWKSPath : string;
  AttestationCA : string;
  EKCAChain : string;
  DevIDCACert : string;
  DevIDCAKey : string;
  DevIDLifetime : string;
  TokenTTL : string;
  JWTTTL : string;
  EnableEC2Compat : bool;
  EnableTPMAttestation : bool;
  TPMDevice : string;
  HostTPMDevice : string;
  SigningKeyPath : string;
  InventoryPath : string;
  RequireVMIdentity : bool;
  MDSClusterPinDir : string;
  MDSRequireClusterPin : bool;
}.

Definition MaxDevIDLifetime : Z := (8760 * Hour)%Z.

Definition DefaultConfig : MDSConfig := {|
  ListenAddr := "169.254.169.1:80";
  JWKSPath := "/var/lib/vtpm-mds/jwks.json";
  AttestationCA := "/etc/vtpm-mds/attestation-ca.pem";
  EKCAChain := "/etc/vtpm-mds/ek-chain.pem";
  DevIDCACert := "/etc/vtpm-mds/devid-ca.pem";
  DevIDCAKey := "/etc/vtpm-mds/devid-ca-key.pem";
  DevIDLifetime := "2160h";
  TokenTTL := "60s";
  JWTTTL := "5m";
  EnableEC2Compat := true;
  EnableTPMAttestation := true;
  TPMDevice := "/dev/tpm0";
  HostTPMDevice := "/dev/tpmrm0";
  SigningKeyPath := "/var/lib/vtpm-mds/signing-key.pem";
  InventoryPath := "";
  RequireVMIdentity := true;
  MDSClusterPinDir := "/etc/pve/vtpm-ek";
  MDSRequireClusterPin := false;
|}.

(** ** time.ParseDuration *)

Definition digit (c : ascii) : Z := (byte c - 48)%Z.
(** [leadingInt]: [None] on overflow. *)
Fixpoint leadingInt (s : string) (x : Z) : option (Z * string) :=
  match s with
  | "" => Some (x, "")
  | String c r =>
      if negb (is_digit c) then Some (x, s)
      else if (2 ^ 63 / 10 <? x)%Z then None
      else
        let x := (x * 10 + digit c)%Z in
        if (2 ^ 63 <? x)%Z then None else leadingInt r x
  end.
(** [leadingFraction]: digits past the precision are skipped. The scale is the
    number of digits counted. *)
Fixpoint leadingFraction (s : string) (x : Z) (scale : nat) (overflow : bool) : Z * nat * string :=
  match s with
  | "" => (x, scale, "")
  | String c r =>
      if negb (is_digit c) then (x, scale, s)
      else if overflow then leadingFraction r x scale true
      else if (max_int64 / 10 <? x)%Z then leadingFraction r x scale true
      else
        let y := (x * 10 + digit c)%Z in
        if (2 ^ 63 <? y)%Z then leadingFraction r x scale true
        else leadingFraction r y (S scale) false
  end.

Fixpoint unit_text (s : string) : string * string :=
  match s with
  | "" => ("", "")
  | String c r =>
      if bool_decide (c = "."%char) || is_digit c then ("", s)
      else let '(u, r) := unit_text r in (String c u, r)
  end.
Definition utf8_us : list string := [String (chr 194) (String (chr 181) "s"); String (chr 206) (String (chr 188) "s")].
Definition unitMap (u : string) : option Z :=
  if bool_decide (u = "ns") then Some Nanosecond
  else if bool_decide (u ∈ "us" :: utf8_us) then Some 1000%Z
  else if bool_decide (u = "ms") then Some Millisecond
  else if bool_decide (u = "s") then Some Second
  else if bool_decide (u = "m") then Some Minute
  else if bool_decide (u = "h") then Some Hour
  else None.

Section duration.
(** [uint64(float64(f) * (float64(unit) / scale))], the scale ten to a number of digits. *)
Context (float_part : Z → Z → nat → Z).

(** [quote]: every byte of a rune outside ASCII is written in hex. *)
Definition quote_duration : string → string :=
  between_quotes (λ c, let z := byte c in
    if negb (is_ascii c) || (z <? 32)%Z then escape_hex c
    else if (z =? 34)%Z || (z =? 92)%Z then backslash (String c "") else String c "").
Definition invalid (s : string) : string := "time: invalid duration " +:+ quote_duration s.

(** One number with its unit: what it adds, and the rest. *)
Definition duration_item (orig s : string) : outcome string (Z * string) :=
  match s with
  | "" => Err (invalid orig)
  | String c _ =>
      if negb (bool_decide (c = "."%char) || is_digit c) then Err (invalid orig)
      else
        match leadingInt s 0 with
        | None => Err (invalid orig)
        | Some (v, r) =>
            let pre := negb (bool_decide (String.length s = String.length r)) in
            let '(f, scale, r', post) :=
              match r with
              | String "." r1 =>
                  let '(f, scale, r2) := leadingFraction r1 0 0 false in
                  (f, scale, r2, negb (bool_decide (String.length r1 = String.length r2)))
              | _ => (0%Z, 0, r, false)
              end in
            if negb pre && negb post then Err (invalid orig)
            else
              let '(u, rest) := unit_text r' in
              if bool_decide (u = "") then Err ("time: missing unit in duration " +:+ quote_duration orig)
              else
                match unitMap u with
                | None => Err ("time: unknown unit " +:+ quote_duration u +:+ " in duration " +:+ quote_duration orig)
                | Some unit =>
                    if (2 ^ 63 / unit <? v)%Z then Err (invalid orig)
                    else
                      let v := (v * unit)%Z in
                      let v := if (0 <? f)%Z then (v + float_part f unit scale)%Z else v in
                      if (2 ^ 63 <? v)%Z then Err (invalid orig) else Ok (v, rest)
                end
        end
  end.

(** The loop; every item takes a byte at least, so the length bounds it. *)
Fixpoint duration_items (fuel : nat) (orig s : string) (d : Z) : outcome string Z :=
  match fuel, s with
  | _, "" => Ok d
  | O, _ => Err (invalid orig)
  | S fuel, _ =>
      '(v, rest) ← duration_item orig s;
      if (2 ^ 63 <? d + v)%Z then Err (invalid orig) else duration_items fuel orig rest (d + v)
  end.

Definition ParseDuration (orig : string) : outcome string Z :=
  let '(neg, s) :=
    match orig with
    | String "-" r => (true, r)
    | String "+" r => (false, r)
    | _ => (false, orig)
    end in
  if bool_decide (s = "0") then Ok 0%Z
  else if bool_decide (s = "") then Err (invalid orig)
  else
    d ← duration_items (String.length s) orig s 0;
    if neg then Ok (- d)%Z
    else if (max_int64 <? d)%Z then Err (invalid orig) else Ok d.

(** ** Loading *)

Context `{GoUnicode}.
Context (decode : string → MDSConfig → outcome string MDSConfig).

(** [file] is what [os.ReadFile] returns. *)
Definition Load (file : outcome string string) : outcome string MDSConfig :=
  match file with
  | Err e => Err ("failed to read config file: " +:+ e)
  | Ok data =>
      match decode data DefaultConfig with
      | Err e => Err ("failed to parse config: " +:+ e)
      | Ok cfg =>
          if bool_decide (ListenAddr cfg = "") then Err "listen_addr is required"
          else
            match ParseDuration (TokenTTL cfg) with
            | Err e => Err ("invalid token_ttl " +:+ Quote (TokenTTL cfg) +:+ ": " +:+ e)
            | Ok _ =>
                match ParseDuration (DevIDLifetime cfg) with
                | Err e => Err ("invalid devid_lifetime " +:+ Quote (DevIDLifetime cfg) +:+ ": " +:+ e)
                | Ok lifetime =>
                    if (lifetime <=? 0)%Z
                    then Err ("invalid devid_lifetime " +:+ Quote (DevIDLifetime cfg) +:+ ": must be strictly positive")
                    else if (MaxDevIDLifetime <? lifetime)%Z
                    then Err ("invalid devid_lifetime " +:+ Quote (DevIDLifetime cfg) +:+ ": must not exceed 8760h0m0s")
                    else if MDSRequireClusterPin cfg && bool_decide (MDSClusterPinDir cfg = "")
                    then Err "require_cluster_pin needs cluster_pin_dir"
                    else if MDSRequireClusterPin cfg && negb (bool_decide (InventoryPath cfg = ""))
                    then Err "require_cluster_pin cannot be used with inventory_path: cluster pins are read only with the Proxmox inventory"
                    else Ok cfg
                end
            end
      end
  end.
End duration.

Definition no_fractions (f unit : Z) (scale : nat) : Z := (f * unit / 10 ^ Z.of_nat scale)%Z.
Example durations :
  ParseDuration no_fractions "2160h" = Ok (2160 * Hour)%Z ∧ ParseDuration no_fractions "1h30m0.5s" = Ok (90 * Minute + Second / 2)%Z ∧
  ParseDuration no_fractions "-5m" = Ok (- (5 * Minute))%Z ∧ ParseDuration no_fractions "0" = Ok 0%Z ∧
  is_ok (ParseDuration no_fractions "5") = false ∧ is_ok (ParseDuration no_fractions "2562048h") = false ∧
  is_ok (ParseDuration no_fractions ".s") = false ∧ ParseDuration no_fractions "9223372036854775807ns" = Ok max_int64.
Proof. by vm_compute. Qed.
Example default_config_loads :
  Load no_fractions (H := caseless) (λ _ cfg, Ok cfg) (Ok "") = Ok DefaultConfig.
Proof. by vm_compute. Qed.
