(* ===== verification/Server.v ===== *)
(** * The server (internal/server/server.go, reload.go)

    Who a connection belongs to, the inventory cache and when it is read again,
    health, and the loading of the enroller. The server's state is a record; each
    critical section is one step, and the files a step reads are its argument.
    Debug lines are left out, except that the arguments of one are evaluated. *)

From S2P Require Import Prelude.
From S2P Require Import Go.
From S2P Require Import Net.
From S2P Require Import Crypto.
From S2P Require Import Pins.
From S2P Require Import CA.
From S2P Require Import Csr.
From S2P Require Import Inventory.
From S2P Require Import Proxmox.
From S2P Require Import Enroll.
From S2P Require Import Config.
From Stdlib Require Import Ascii.

(** ** The caller of a connection *)

Definition incomplete_mac : string := "00:00:00:00:00:00".

(** An index out of range panics. *)
Inductive arp_result := NoMAC | FoundMAC (mac : string) | ArpPanic.

Section caller.
Context `{GoUnicode}.

(** The loop of [getMACFromARP] over the lines. The debug line of a hit reads
    the sixth field, whether or not it is written. *)
Fixpoint arp_scan (ip : string) (lines : list string) : arp_result :=
  match lines with
  | [] => NoMAC
  | line :: lines =>
      if HasPrefix line "IP address" then arp_scan ip lines
      else
        match Fields line with
        | f0 :: _ :: _ :: hw :: more =>
            if bool_decide (f0 = ip) then
              let mac := ToLower hw in
              if negb (bool_decide (mac = incomplete_mac)) then
                match more with _ :: _ :: _ => FoundMAC mac | _ => ArpPanic end
              else arp_scan ip lines
            else arp_scan ip lines
        | _ => arp_scan ip lines
        end
  end.

(** [file] is what reading [arpTablePath] returns. *)
Definition getMACFromARP (file : outcome string string) (ip : string) : arp_result :=
  match file with
  | Err _ => NoMAC
  | Ok data => arp_scan ip (Split data lf)
  end.

(** [order] is the order the cache is ranged over in. *)
Definition findVMConfigByMAC (cache : VMConfigMap) (order : list (string * VMConfig)) (mac : string)
    : option VMConfig :=
  let mac := ToLower (TrimSpace mac) in
  let vmid := GetVMIDByMAC order mac in
  if negb (bool_decide (vmid = "")) then cache !! vmid else None.

Inductive binding := Bound (vm : VMConfig) | Unbound | Panicked.
(** [remote] is the address of a TCP peer, [None] for any other. *)
Definition extractVMConfigByRouting (arp : outcome string string) (cache : VMConfigMap)
    (order : list (string * VMConfig)) (remote : option (list Z)) : binding :=
  match remote with
  | None => Unbound
  | Some ip =>
      match getMACFromARP arp (IPString ip) with
      | ArpPanic => Panicked
      | NoMAC => Unbound
      | FoundMAC mac =>
          if bool_decide (mac = "") then Unbound
          else match findVMConfigByMAC cache order mac with Some vm => Bound vm | None => Unbound end
      end
  end.

(** A connection: its binding once [vmConfigOnce] has run. *)
Record vmConnection := mkConn { remote_ip : option (list Z); once : option binding }.
Definition extractVMConfig (arp : outcome string string) (cache : VMConfigMap)
    (order : list (string * VMConfig)) (c : vmConnection) : vmConnection :=
  match once c with
  | Some _ => c
  | None => mkConn (remote_ip c) (Some (extractVMConfigByRouting arp cache order (remote_ip c)))
  end.
(** [connContext]: the record the requests of a connection carry. *)
Definition connContext (c : vmConnection) : option VMConfig :=
  match once c with Some (Bound vm) => Some vm | _ => None end.
End caller.

(** ** The inventory cache *)

Definition errClassInventoryLoadFailed : string := "inventory_load_failed".
Definition errClassDevIDCAUnreadable : string := "devid_ca_unreadable".
Definition caReadableCacheTTL : Z := (5 * Second)%Z.

Record server := mkServer {
  vmConfigCache : VMConfigMap;
  hostTopology : Topology;
  inventoryLoaded : bool;
  vmCount : nat;
  lastReload : option Z;
  lastErrorClass : string;
  caReadable : bool;
  caCheckedAt : option Z;
  poll_last : string;
  poll_have : bool;
}.
(** A process that has loaded nothing. *)
Definition fresh_server : server :=
  mkServer ∅ DefaultTopology false 0 None "" false None "" false.

(** What the backends read. *)
Record sources := mkSources { yaml_file : file_state; pve_dir : pve }.
Definition os_ReadFile (f : file_state) : outcome string string :=
  match f with Content d => Ok d | Missing => Err "no such file or directory" | Failed e => Err e end.

Section reload.
Context `{GoUnicode}.
Context (sha256 : string → string).
Context (decode : string → outcome string (list yamlVM)).
Context (range : gmap string string → list (string * string)).
Context (cfg : MDSConfig).

Definition recordInventoryLoadSuccess (n : nat) (now : Z) (s : server) : server :=
  mkServer (vmConfigCache s) (hostTopology s) true n (Some now) "" (caReadable s) (caCheckedAt s)
    (poll_last s) (poll_have s).
Definition recordInventoryLoadFailure (s : server) : server :=
  mkServer (vmConfigCache s) (hostTopology s) (inventoryLoaded s) (vmCount s) (lastReload s)
    errClassInventoryLoadFailed (caReadable s) (caCheckedAt s) (poll_last s) (poll_have s).
Definition set_inventory (m : VMConfigMap) (t : Topology) (s : server) : server :=
  mkServer m (SetHostTopology t (hostTopology s)) (inventoryLoaded s) (vmCount s) (lastReload s)
    (lastErrorClass s) (caReadable s) (caCheckedAt s) (poll_last s) (poll_have s).
Definition set_poll (fp : string) (s : server) : server :=
  mkServer (vmConfigCache s) (hostTopology s) (inventoryLoaded s) (vmCount s) (lastReload s)
    (lastErrorClass s) (caReadable s) (caCheckedAt s) fp true.

(** The configured backend's guests and topology. *)
Definition load_sources (src : sources) : outcome string VMConfigMap * Topology :=
  if negb (bool_decide (InventoryPath cfg = ""))
  then (LoadYAML decode range (os_ReadFile (yaml_file src)), DefaultTopology)
  else (ParseVMConfigs "" (pve_dir src), HostTopology (pve_dir src)).

Definition RefreshVMConfigCache (now : Z) (src : sources) (s : server) : server * outcome string () :=
  let '(vmConfigMap, topology) := load_sources src in
  match vmConfigMap with
  | Err e => (recordInventoryLoadFailure s, Err e)
  | Ok m => (recordInventoryLoadSuccess (size m) now (set_inventory m topology s), Ok ())
  end.

Definition inventoryFingerprint (src : sources) : string :=
  Sum sha256 (if negb (bool_decide (InventoryPath cfg = ""))
              then YAMLFingerprint (InventoryPath cfg) (yaml_file src)
              else SourceFingerprint "" (pve_dir src)).

(** A load attempt: the sources when the fingerprint is taken and when they are
    read, and the clock. *)
Record attempt := mkAttempt { at_fingerprint : sources; at_load : sources; at_time : Z }.

Definition reloadNow (a : attempt) (s : server) : server * outcome string () :=
  RefreshVMConfigCache (at_time a) (at_load a) (set_poll (inventoryFingerprint (at_fingerprint a)) s).

Definition reloadIfChanged (a : attempt) (s : server) : server * bool :=
  let fp := inventoryFingerprint (at_fingerprint a) in
  if poll_have s && bool_decide (fp = poll_last s) then (s, false)
  else ((RefreshVMConfigCache (at_time a) (at_load a) (set_poll fp s)).1, true).

(** The loop of the poller and the signal handler: SIGHUP reloads, a tick checks. *)
Inductive reload_event := Hangup (a : attempt) | Tick (a : attempt).
Definition reload_step (s : server) (e : reload_event) : server :=
  match e with Hangup a => (reloadNow a s).1 | Tick a => (reloadIfChanged a s).1 end.
Definition event_attempt (e : reload_event) : attempt := match e with Hangup a | Tick a => a end.
Definition reload_run (evs : list reload_event) (s : server) : server := foldl reload_step s evs.
End reload.

(** ** Health *)

Record healthDetail := mkHealth {
  health_status : string;
  health_loaded : bool;
  health_vm_count : nat;
  DevIDCAReadable : option bool;
  LastReload : option Z;
  LastError : string;
}.

Section health.
Context (cfg : MDSConfig).

(** [credentialCAKeyPath]; [stat] gives the size of a file. *)
Definition credentialCAKeyPath (dir : string) (stat : string → outcome string Z) : string :=
  if bool_decide (dir = "") then ""
  else
    let path := JoinPath [dir; "devid_ca.key"] in
    match stat path with
    | Ok size => if (size =? 0)%Z then "" else path
    | Err _ => ""
    end.

(** What health reads: the credentials directory, the file system, the clock. *)
Record environment := mkEnvironment {
  env_credentials : string;
  env_state : string;
  stat_size : string → outcome string Z;
  readableFile : string → bool;
  health_now : Z;
}.

(** The key's path: a credential replaces the configured one. *)
Definition ca_key_path (e : environment) : string :=
  let cred := credentialCAKeyPath (env_credentials e) (stat_size e) in
  if negb (bool_decide (cred = "")) then cred else DevIDCAKey cfg.

(** [enrolling]: an enroller is loaded. *)
Definition checkDevIDCAReadable (enrolling : bool) (e : environment) : bool :=
  if negb enrolling then false
  else if bool_decide (DevIDCACert cfg = "") || bool_decide (ca_key_path e = "") then false
  else readableFile e (DevIDCACert cfg) && readableFile e (ca_key_path e).

Definition set_ca_readable (ok : bool) (now : Z) (s : server) : server :=
  mkServer (vmConfigCache s) (hostTopology s) (inventoryLoaded s) (vmCount s) (lastReload s)
    (lastErrorClass s) ok (Some now) (poll_last s) (poll_have s).

Definition devIDCAReadableCached (enrolling : bool) (e : environment) (s : server) : server * bool :=
  let now := health_now e in
  let fresh := checkDevIDCAReadable enrolling e in
  match caCheckedAt s with
  | Some t => if (Sub now t <? caReadableCacheTTL)%Z then (s, caReadable s) else (set_ca_readable fresh now s, fresh)
  | None => (set_ca_readable fresh now s, fresh)
  end.

Definition readiness (enrolling : bool) (e : environment) (s : server) : server * healthDetail :=
  let '(s', caOK) :=
    if EnableTPMAttestation cfg
    then let '(s', ok) := devIDCAReadableCached enrolling e s in (s', Some ok)
    else (s, None) in
  let lastErr :=
    match caOK with
    | Some false => if bool_decide (lastErrorClass s = "") then errClassDevIDCAUnreadable else lastErrorClass s
    | _ => lastErrorClass s
    end in
  let status := "ok" in
  let status := if negb (inventoryLoaded s) then "degraded" else status in
  let status := match caOK with Some false => "degraded" | _ => status end in
  let status := if negb (bool_decide (lastErr = "")) then "degraded" else status in
  (s', mkHealth status (inventoryLoaded s) (vmCount s) caOK (lastReload s) lastErr).

(** [handleHealth]: a bound caller is told the status only. *)
Inductive health_body := StatusOnly (status : string) | Detail (d : healthDetail).
Definition handleHealth (enrolling : bool) (e : environment) (vm : option VMConfig) (s : server)
    : server * health_body :=
  let '(s, detail) := readiness enrolling e s in
  (s, if IsBound vm then StatusOnly (health_status detail) else Detail detail).
End health.

(** ** The enroller *)

(** [inventoryPins]. *)
Definition inventoryPins (cache : VMConfigMap) : gmap string string :=
  omap (fun vm => if bool_decide (EKSHA256 vm = "") then None else Some (EKSHA256 vm)) cache.

(** [filepath.Dir]. *)
Definition Dir (path : string) : string :=
  match cut_last path "/" with Some (before, _) => Clean (before +:+ "/") | None => "." end.
Definition ekPinDir (e : environment) : string :=
  if negb (bool_decide (env_state e = "")) then
    let '(first, _, _) := Cut (env_state e) ":" in JoinPath [first; "ek-pins"]
  else JoinPath [Dir (JWKSPath DefaultConfig); "ek-pins"].

Section enroller.
Context `{CR : Crypto} {CC : CACrypto} {WR : Wire} `{GU : GoUnicode}.
Context (float_part : Z → Z → nat → Z).
(** x509's pools: an empty one, one of the certificates in a PEM text ([None] when
    there are none) and one of a single certificate. *)
Context (NewCertPool : CertPool).
Context (AppendCertsFromPEM : string → option CertPool).
Context (PoolOf : certificate Key → CertPool).
Context (cfg : MDSConfig).

Definition ek_roots (file : string → outcome string string) : outcome string CertPool :=
  if bool_decide (EKCAChain cfg = "") then Ok NewCertPool
  else
    match file (EKCAChain cfg) with
    | Err e => Err ("read ek_ca_chain: " +:+ e)
    | Ok pemBytes =>
        match AppendCertsFromPEM pemBytes with
        | Some pool => Ok pool
        | None =>
            match pem_Decode pemBytes with
            | None => Err "ek_ca_chain: no certificates found"
            | Some (_, bytes, _) => PoolOf <$> prefix_error "ek_ca_chain: " (ParseCertificate bytes)
            end
        end
    end.

(** [None]: no routes, and no error. *)
Definition loadDevIDEnroller (e : environment) (file : string → outcome string string)
    : outcome string (option Enroller) :=
  let certPath := DevIDCACert cfg in
  let keyPath := ca_key_path cfg e in
  if bool_decide (certPath = "") || bool_decide (keyPath = "") then Ok None
  else
    match stat_size e certPath, stat_size e keyPath with
    | Err e, _ => Err ("DevID CA cert " +:+ certPath +:+ ": " +:+ e)
    | _, Err e => Err ("DevID CA key " +:+ keyPath +:+ ": " +:+ e)
    | Ok _, Ok _ =>
        ca ← LoadCA (file certPath) (file keyPath);
        let lifetimeStr :=
          if bool_decide (DevIDLifetime cfg = "") then DevIDLifetime DefaultConfig else DevIDLifetime cfg in
        lifetime ← prefix_error "devid_lifetime: " (ParseDuration float_part lifetimeStr);
        if (lifetime <=? 0)%Z || (MaxDevIDLifetime <? lifetime)%Z
        then Err ("invalid devid_lifetime " +:+ Quote lifetimeStr)
        else
          roots ← ek_roots file;
          let on_proxmox := bool_decide (InventoryPath cfg = "") in
          Ok (Some (mkEnroller (Some (mkCA (ca_cert ca) (ca_key ca) lifetime)) (Some roots)
            (mkPinConfig (ekPinDir e)
               (if on_proxmox then MDSClusterPinDir cfg else "")
               (MDSRequireClusterPin cfg)
               (if on_proxmox then JoinPath [DefaultRoot; "nodes"] else "")
               None)))
    end.
End enroller.
