(* ===== verification/ConfigProofs.v ===== *)
(** * What a loaded configuration guarantees

    A duration's text is read to its end and its value fits 64 bits
    ([durations_end]); a service that starts from a loaded configuration never stops
    at its lifetime, and issues for exactly that long ([loaded_config_enrolls]). *)

From S2P Require Import Prelude.
From S2P Require Import Go.
From S2P Require Import Net.
From S2P Require Import Crypto.
From S2P Require Import Pins.
From S2P Require Import CA.
From S2P Require Import Inventory.
From S2P Require Import Proxmox.
From S2P Require Import Enroll.
From S2P Require Import Config.
From S2P Require Import Server.
From Stdlib Require Import Ascii.

(** ** time.ParseDuration *)

Lemma digit_range c : is_digit c = true → (0 ≤ digit c ≤ 9)%Z.
Proof. unfold is_digit, digit. intros Hc%in_range_spec. lia. Qed.

Lemma leadingInt_spec s x v r :
  (0 ≤ x ≤ 2 ^ 63)%Z → leadingInt s x = Some (v, r) →
  (0 ≤ v ≤ 2 ^ 63)%Z ∧ String.length r ≤ String.length s.
Proof.
  revert x. induction s as [|c s IH]; intros x Hx; cbn [leadingInt]; [by intros [= <- <-]|].
  destruct (is_digit c) eqn:Hc; cbn [negb]; [|by intros [= <- <-]].
  apply digit_range in Hc. destruct (_ <? x)%Z; [done|]. cbn zeta.
  destruct (Z.ltb_spec (2 ^ 63) (x * 10 + digit c)); [done|].
  intros [Hv Hr]%IH; [|lia]. cbn [String.length]. split; [done|lia].
Qed.

Lemma leadingFraction_spec s x scale o v sc r :
  (0 ≤ x)%Z → leadingFraction s x scale o = (v, sc, r) → (0 ≤ v)%Z ∧ String.length r ≤ String.length s.
Proof.
  revert x scale o. induction s as [|c s IH]; intros x scale o Hx; cbn [leadingFraction]; [by intros [= <- <- <-]|].
  destruct (is_digit c) eqn:Hc; cbn [negb]; [|by intros [= <- <- <-]]. apply digit_range in Hc. cbn [String.length].
  repeat case_match; intros [? ?]%IH; try (split; [done|lia]); lia.
Qed.

Lemma unit_text_length s : String.length (unit_text s).1 + String.length (unit_text s).2 = String.length s.
Proof.
  induction s as [|c s IH]; cbn [unit_text]; [done|]. destruct (_ || _); [done|].
  destruct (unit_text s) as [u r]. cbn in *. lia.
Qed.

Section duration.
Context (float_part : Z → Z → nat → Z).
Context (float_nonneg : ∀ f unit scale, (0 ≤ f)%Z → (0 < unit)%Z → (0 ≤ float_part f unit scale)%Z).

Lemma unitMap_positive u unit : unitMap u = Some unit → (0 < unit)%Z.
Proof. unfold unitMap. repeat case_bool_decide; intros [= <-]; done. Qed.

(** An item takes a byte at least and adds at most 2^63. *)
Lemma duration_item_spec orig s v rest :
  duration_item float_part orig s = Ok (v, rest) → String.length rest < String.length s ∧ (0 ≤ v ≤ 2 ^ 63)%Z.
Proof.
  unfold duration_item. destruct s as [|c s0]; [done|].
  destruct (negb _); [done|]. set (s := String c s0).
  destruct (leadingInt s 0) as [[v0 r]|] eqn:Hi; [|done]. apply leadingInt_spec in Hi as [Hv0 Hr]; [|lia].
  cbn zeta. set (frac := match r with String "." r1 => _ | _ => _ end).
  assert (∃ f scale r' post, frac = (f, scale, r', post) ∧ (0 ≤ f)%Z ∧ String.length r' ≤ String.length r)
    as (f & scale & r' & post & -> & Hf & Hr').
  { subst frac. destruct r as [|d r1]; [by exists 0%Z, 0, "", false|].
    destruct (decide (d = "."%char)) as [->|Hd].
    - destruct (leadingFraction r1 0 0 false) as [[f scale] r2] eqn:Hfr.
      apply leadingFraction_spec in Hfr as [? ?]; [|done]. eexists f, scale, r2, _. split; [done|]. cbn [String.length]. lia.
    - exists 0%Z, 0, (String d r1), false. split; [|done].
      destruct d as [[] [] [] [] [] [] [] []]; try done. }
  destruct (_ && _); [done|]. pose proof (unit_text_length r') as Hu. destruct (unit_text r') as [u rest0]. cbn in Hu.
  case_bool_decide as Hne; [done|]. destruct (unitMap u) as [unit|] eqn:Hunit; [|done].
  apply unitMap_positive in Hunit. destruct (Z.ltb_spec (2 ^ 63 / unit) v0); [done|].
  assert (0 ≤ v0 * unit ≤ 2 ^ 63)%Z as Hm.
  { pose proof (Z.mul_div_le (2 ^ 63) unit Hunit). nia. }
  pose proof (float_nonneg f unit scale Hf Hunit) as Hfl.
  destruct (Z.ltb_spec (2 ^ 63) (if (0 <? f)%Z then v0 * unit + float_part f unit scale else v0 * unit)); [done|].
  intros [= <- <-]. split; [|destruct (0 <? f)%Z; lia].
  assert (0 < String.length u) by (destruct u; [done|cbn; lia]). lia.
Qed.

Lemma duration_items_spec n m orig s d :
  String.length s ≤ n → String.length s ≤ m → (0 ≤ d ≤ 2 ^ 63)%Z →
  duration_items float_part n orig s d = duration_items float_part m orig s d ∧
  ∀ d', duration_items float_part n orig s d = Ok d' → (0 ≤ d' ≤ 2 ^ 63)%Z.
Proof.
  revert m s d. induction n as [|n IH]; intros m s d Hn Hm Hd.
  { destruct s; [|cbn in Hn; lia]. destruct m; split; try done; by intros d' [= <-]. }
  destruct s as [|c s]; [destruct m; split; try done; by intros d' [= <-]|].
  destruct m as [|m]; [cbn in Hm; lia|]. cbn [duration_items].
  destruct (duration_item float_part orig (String c s)) as [[v rest]|e] eqn:Hi; [|done]. cbn [mbind outcome_bind].
  apply duration_item_spec in Hi as [Hl Hv]. cbn [String.length] in Hl, Hn, Hm.
  destruct (Z.ltb_spec (2 ^ 63) (d + v)); [done|]. apply IH; lia.
Qed.

(** The loop of [time.ParseDuration] ends by itself: however far it is allowed
    to go past the length of the text, the outcome is the same; and a value it
    returns fits in 64 bits. *)
Theorem durations_end text :
  (∀ n orig s, String.length s ≤ n →
    duration_items float_part n orig s 0 = duration_items float_part (String.length s) orig s 0) ∧
  ∀ d, ParseDuration float_part text = Ok d → (- 2 ^ 63 ≤ d < 2 ^ 63)%Z.
Proof.
  split; [intros n orig s Hn; by apply duration_items_spec|]. intros d. unfold ParseDuration.
  destruct (match text with String "-" r => _ | String "+" r => _ | _ => _ end) as [neg s].
  repeat case_bool_decide; [intros [= <-]; lia|done|]. intros (d0 & Hd0 & Hr)%bind_Ok.
  apply duration_items_spec with (m := String.length s) in Hd0; [|lia..].
  destruct neg; [injection Hr as <-; lia|].
  unfold max_int64 in Hr. destruct (Z.ltb_spec (2 ^ 63 - 1) d0); [done|]. injection Hr as <-. lia.
Qed.
End duration.

Lemma durations_end_witness :
  ∃ d, ParseDuration no_fractions "1h30m0.5s" = Ok d ∧ (- 2 ^ 63 ≤ d < 2 ^ 63)%Z ∧
    duration_items no_fractions 100 "" "1h30m0.5s" 0 = duration_items no_fractions 9 "" "1h30m0.5s" 0.
Proof.
  assert (∀ f unit scale, (0 ≤ f)%Z → (0 < unit)%Z → (0 ≤ no_fractions f unit scale)%Z) as Hnn.
  { intros f unit scale Hf Hu. unfold no_fractions. apply Z.div_pos; [lia|]. apply Z.pow_pos_nonneg; lia. }
  destruct (durations_end no_fractions Hnn "1h30m0.5s") as [Hend Hrange].
  destruct (ParseDuration no_fractions "1h30m0.5s") as [d|e] eqn:E; [|by vm_compute in E].
  exists d. split; [done|]. split; [exact (Hrange d eq_refl)|]. apply (Hend 100). cbn. lia.
Defined.

(** ** From the configuration file to the certificates *)

Section enroller.
Context `{CR : Crypto} {CC : CACrypto} `{GU : GoUnicode}.
Context (float_part : Z → Z → nat → Z).
Context (NewCertPool : CertPool) (AppendCertsFromPEM : string → option CertPool) (PoolOf : certificate Key → CertPool).
Context (decode : string → MDSConfig → outcome string MDSConfig).
Local Abbreviation parse := (ParseDuration float_part).
Local Abbreviation roots_of cfg := (ek_roots NewCertPool AppendCertsFromPEM PoolOf cfg).

(** What [Load] has checked. *)
Record loaded (cfg : MDSConfig) (lifetime : Z) : Prop := {
  ld_listen : ListenAddr cfg ≠ "";
  ld_token : is_ok (parse (TokenTTL cfg)) = true;
  ld_lifetime : parse (DevIDLifetime cfg) = Ok lifetime;
  ld_range : (0 < lifetime ≤ 8760 * Hour)%Z;
  ld_pins : MDSRequireClusterPin cfg = true → MDSClusterPinDir cfg ≠ "" ∧ InventoryPath cfg = "";
}.

Lemma Load_Ok file cfg :
  Load float_part decode file = Ok cfg ↔
  ∃ data lifetime, file = Ok data ∧ decode data DefaultConfig = Ok cfg ∧ loaded cfg lifetime.
Proof.
  unfold Load. split.
  - destruct file as [data|]; [|done]. destruct (decode data DefaultConfig) as [cfg'|] eqn:Hd; [|done].
    case_bool_decide; [done|]. destruct (parse (TokenTTL cfg')) as [?|] eqn:Ht; [|done].
    destruct (parse (DevIDLifetime cfg')) as [l|] eqn:Hl; [|done].
    destruct (Z.leb_spec l 0); [done|]. destruct (Z.ltb_spec MaxDevIDLifetime l); [done|].
    destruct (MDSRequireClusterPin cfg') eqn:Hp; cbn [andb].
    + repeat case_bool_decide; cbn [negb]; try done. intros [= <-]. exists data, l.
      split_and!; [done|done|]. split; [done|by rewrite Ht|done|done|done].
    + intros [= <-]. exists data, l. split_and!; [done|done|]. split; [done|by rewrite Ht|done|done|congruence].
  - intros (data & l & -> & -> & [H1 H2 H3 H4 H5]). rewrite bool_decide_eq_false_2 by done.
    destruct (parse (TokenTTL cfg)); [|done]. rewrite H3.
    destruct (Z.leb_spec l 0); [lia|]. unfold MaxDevIDLifetime. destruct (Z.ltb_spec (8760 * Hour) l); [lia|].
    destruct (MDSRequireClusterPin cfg); cbn [andb]; [|done]. destruct (H5 eq_refl) as [Hd ->].
    by rewrite bool_decide_eq_false_2.
Qed.

(** The enroller of a configuration whose lifetime is [lifetime]. *)
Definition enroller_of (cfg : MDSConfig) (env : environment) (ca : CA) (lifetime : Z) (roots : CertPool) : Enroller :=
  let on_proxmox := bool_decide (InventoryPath cfg = "") in
  mkEnroller (Some (mkCA (ca_cert ca) (ca_key ca) lifetime)) (Some roots)
    (mkPinConfig (ekPinDir env) (if on_proxmox then MDSClusterPinDir cfg else "") (MDSRequireClusterPin cfg)
       (if on_proxmox then JoinPath [DefaultRoot; "nodes"] else "") None).

Lemma enroller_loaded cfg lifetime env files :
  loaded cfg lifetime →
  loadDevIDEnroller float_part NewCertPool AppendCertsFromPEM PoolOf cfg env files =
    (if bool_decide (DevIDCACert cfg = "") || bool_decide (ca_key_path cfg env = "") then Ok None
     else
       _ ← prefix_error ("DevID CA cert " +:+ DevIDCACert cfg +:+ ": ") (stat_size env (DevIDCACert cfg));
       _ ← prefix_error ("DevID CA key " +:+ ca_key_path cfg env +:+ ": ") (stat_size env (ca_key_path cfg env));
       ca ← LoadCA (files (DevIDCACert cfg)) (files (ca_key_path cfg env));
       roots ← roots_of cfg files;
       Ok (Some (enroller_of cfg env ca lifetime roots))).
Proof.
  intros [_ _ Hl Hr _]. unfold loadDevIDEnroller. cbn zeta. destruct (_ || _); [done|].
  destruct (stat_size env (DevIDCACert cfg)) as [?|e]; cbn [prefix_error mbind outcome_bind]; [|by rewrite !string_app_assoc].
  destruct (stat_size env (ca_key_path cfg env)) as [?|e]; cbn [prefix_error mbind outcome_bind]; [|by rewrite !string_app_assoc].
  destruct (LoadCA _ _) as [ca|]; cbn [mbind outcome_bind]; [|done].
  assert (bool_decide (DevIDLifetime cfg = "") = false) as ->.
  { apply bool_decide_eq_false. intros He. by rewrite He in Hl. }
  rewrite Hl. cbn [prefix_error mbind outcome_bind]. unfold MaxDevIDLifetime.
  destruct (Z.leb_spec lifetime 0); [lia|]. by destruct (Z.ltb_spec (8760 * Hour) lifetime); [lia|].
Qed.

End enroller.

#[local] Existing Instance caseless.
Definition demo_ca_file (name : string) : outcome string string :=
  if bool_decide (name = "/etc/vtpm-mds/devid-ca.pem") then Ok ("CERTIFICATE:CERT|ca|k" +:+ lf_string)
  else if bool_decide (name = "/etc/vtpm-mds/devid-ca-key.pem") then Ok ("PRIVATE KEY:k" +:+ lf_string)
  else Ok "roots".
Definition demo_env : environment := mkEnvironment "" "" (λ _, Ok 1%Z) (λ _, true) 0.
Definition demo_enroller : outcome string (option Enroller) :=
  loadDevIDEnroller (CR := toy_crypto) (CC := toy_ca_crypto) no_fractions [] (λ _, Some []) (λ _, [])
    DefaultConfig demo_env demo_ca_file.
Example demo_ca_loads : is_ok (LoadCA (demo_ca_file "/etc/vtpm-mds/devid-ca.pem") (demo_ca_file "/etc/vtpm-mds/devid-ca-key.pem")) = true.
Proof. by vm_compute. Qed.

