(* ===== verification/ServerProofs.v ===== *)
(** * The server: whose connection it is, and how fresh the inventory

    A connection is bound to the one VM that has the MAC the kernel resolved its
    address to ([caller_bound_exact]); after a check the inventory is what the
    sources hold, unless they cannot be read ([inventory_follows_sources]). *)

From S2P Require Import Prelude.
From S2P Require Import Go.
From S2P Require Import Net.
From S2P Require Import Inventory.
From S2P Require Import Proxmox.
From S2P Require Import Config.
From S2P Require Import Server.

(** ** The caller *)

Section caller.
Context `{GoUnicode}.
Implicit Types (cache : VMConfigMap) (order : list (string * VMConfig)).

(** A line of the ARP table that resolves [ip]: its MAC, and its number of fields. *)
Definition resolves (ip line : string) : option (string * nat) :=
  if HasPrefix line "IP address" then None
  else
    match Fields line with
    | f0 :: _ :: _ :: hw :: more =>
        if bool_decide (f0 = ip) && negb (bool_decide (ToLower hw = incomplete_mac))
        then Some (ToLower hw, 4 + length more) else None
    | _ => None
    end.

Lemma arp_scan_first ip lines :
  arp_scan ip lines = match head (omap (resolves ip) lines) with
                      | None => NoMAC
                      | Some (mac, n) => if 6 <=? n then FoundMAC mac else ArpPanic
                      end.
Proof.
  induction lines as [|line lines IH]; cbn [arp_scan]; [done|].
  change (omap (resolves ip) (line :: lines)) with
    (match resolves ip line with Some y => y :: omap (resolves ip) lines | None => omap (resolves ip) lines end).
  unfold resolves at 1.
  destruct (HasPrefix line "IP address"); [done|].
  destruct (Fields line) as [|f0 [|f1 [|f2 [|hw more]]]]; [done..|].
  case_bool_decide; cbn [andb]; [|done]. case_bool_decide; cbn [negb head]; [done|].
  by destruct more as [|? [|]].
Qed.

(** A record owns a MAC in lower case. *)
Definition owns (vm : VMConfig) (mac : string) : Prop := ∃ m, m ∈ MACs vm ∧ ToLower m = mac.

Lemma owns_spec vm mac : existsb (fun m => bool_decide (ToLower m = mac)) (MACs vm) = true ↔ owns vm mac.
Proof.
  rewrite existsb_exists. unfold owns. split; intros (m & Hin & Hm); exists m.
  - split; [by apply list_elem_of_In|by apply bool_decide_eq_true in Hm].
  - split; [by apply list_elem_of_In|by apply bool_decide_eq_true].
Qed.

Lemma find_by_mac cache order mac :
  order ≡ₚ map_to_list cache → clean_mac mac = mac →
  match findVMConfigByMAC cache order mac with
  | Some vm => ∃ id, id ≠ "" ∧ cache !! id = Some vm ∧ owns vm mac
  | None => ∀ id vm, cache !! id = Some vm → owns vm mac → ∃ vm', cache !! "" = Some vm' ∧ owns vm' mac
  end.
Proof.
  intros Ho Hm. unfold findVMConfigByMAC, GetVMIDByMAC. change (ToLower (TrimSpace mac)) with (clean_mac mac).
  rewrite !Hm. destruct (List.find _ order) as [[id vm]|] eqn:Hf.
  - apply List.find_some in Hf as [Hin%list_elem_of_In Hown%owns_spec]. cbn [fst snd] in *.
    rewrite Ho in Hin. apply elem_of_map_to_list in Hin. case_bool_decide as Hid; cbn [negb].
    + subst id. intros id' vm' _ _. by exists vm.
    + rewrite Hin. by exists id.
  - cbn [negb]. rewrite bool_decide_true by done. intros id vm Hl Hown%owns_spec.
    assert ((id, vm) ∈ order) as Hin%list_elem_of_In by (rewrite Ho; by apply elem_of_map_to_list).
    pose proof (List.find_none _ _ Hf _ Hin) as Hn. cbn in Hn. congruence.
Qed.

(** C37: a connection is bound by the first entry of the ARP table that resolves
    its address. It gets a record that has that MAC; it gets none when the table
    has no such entry or no record has the MAC; and the record it gets is the
    only one with the MAC, when there is only one, in whatever order the cache is
    ranged over. An entry with fewer than six fields panics. *)
Theorem caller_bound_exact arp cache order ip :
  order ≡ₚ map_to_list cache → cache !! "" = None →
  (∀ mac n, head (omap (resolves (IPString ip)) (Split arp lf)) = Some (mac, n) → clean_mac mac = mac ∧ mac ≠ "") →
  match head (omap (resolves (IPString ip)) (Split arp lf)), extractVMConfigByRouting (Ok arp) cache order (Some ip) with
  | None, r => r = Unbound
  | Some (mac, n), Panicked => n < 6
  | Some (mac, n), Unbound => 6 ≤ n ∧ ∀ id vm, cache !! id = Some vm → ¬ owns vm mac
  | Some (mac, n), Bound vm => 6 ≤ n ∧ ∃ id, cache !! id = Some vm ∧ owns vm mac ∧
      ∀ id' vm', cache !! id' = Some vm' → owns vm' mac →
        (∀ id1 id2 vm1 vm2, cache !! id1 = Some vm1 → cache !! id2 = Some vm2 → owns vm1 mac → owns vm2 mac → id1 = id2) →
        vm' = vm
  end.
Proof.
  intros Ho Hempty Hmac. unfold extractVMConfigByRouting, getMACFromARP. rewrite arp_scan_first.
  destruct (head _) as [[mac n]|]; [|done]. destruct (Hmac _ _ eq_refl) as [Hclean Hne]. clear Hmac.
  destruct (Nat.leb_spec 6 n); [|done]. rewrite bool_decide_false by done.
  pose proof (find_by_mac cache order mac Ho Hclean) as Hf.
  destruct (findVMConfigByMAC cache order mac) as [vm|].
  - destruct Hf as (id & _ & Hl & Hown). split; [done|]. exists id. split_and!; [done..|].
    intros id' vm' Hl' Hown' Huniq. assert (id' = id) as -> by (by eapply Huniq). congruence.
  - split; [done|]. intros id vm Hl Hown. destruct (Hf id vm Hl Hown) as (vm' & Hl' & _). congruence.
Qed.
End caller.

(** ** The inventory *)

Section reload.
Context `{GoUnicode}.
Context (sha256 : string → string).
Context (decode : string → outcome string (list yamlVM)).
Context (range : gmap string string → list (string * string)).
Context (cfg : MDSConfig).
Local Abbreviation load := (load_sources decode range cfg).
Local Abbreviation fingerprint := (inventoryFingerprint sha256 cfg).
Local Abbreviation step := (reload_step sha256 decode range cfg).
Local Abbreviation run_events := (reload_run sha256 decode range cfg).

(** A load settles the inventory and its health. *)
Definition settled (l : outcome string VMConfigMap * Topology) (s : server) : Prop :=
  match l.1 with
  | Ok m => vmConfigCache s = m ∧ hostTopology s = l.2 ∧ vmCount s = size m ∧ inventoryLoaded s = true ∧
      lastErrorClass s = ""
  | Err _ => lastErrorClass s = errClassInventoryLoadFailed
  end.
Definition same_inventory (s s' : server) : Prop :=
  vmConfigCache s' = vmConfigCache s ∧ hostTopology s' = hostTopology s ∧ vmCount s' = vmCount s ∧
  inventoryLoaded s' = inventoryLoaded s.

Lemma refresh_spec now src s :
  let s' := (RefreshVMConfigCache decode range cfg now src s).1 in
  settled (load src) s' ∧ (is_ok (load src).1 = false → same_inventory s s') ∧
  poll_last s' = poll_last s ∧ poll_have s' = poll_have s.
Proof.
  unfold RefreshVMConfigCache, settled. destruct (load src) as [[m|e] t]; cbn; split_and!; done.
Qed.

(** The last attempt left its mark; and what is served comes from one load. *)
Record followed (atts : list attempt) (s : server) : Prop := {
  followed_last : poll_have s = true → ∃ a, a ∈ atts ∧ poll_last s = fingerprint (at_fingerprint a) ∧
    settled (load (at_load a)) s;
  followed_whole : vmConfigCache s = ∅ ∧ inventoryLoaded s = false ∨
    ∃ a, a ∈ atts ∧ load (at_load a) = (Ok (vmConfigCache s), hostTopology s);
}.

Lemma attempt_followed atts a s :
  followed atts s →
  followed (atts ++ [a]) (RefreshVMConfigCache decode range cfg (at_time a) (at_load a)
    (set_poll (fingerprint (at_fingerprint a)) s)).1.
Proof.
  intros [_ Hw]. destruct (refresh_spec (at_time a) (at_load a) (set_poll (fingerprint (at_fingerprint a)) s))
    as (Hs & Hsame & Hl & Hh). set (s' := (RefreshVMConfigCache _ _ _ _ _ _).1) in *. split.
  - intros _. exists a. split_and!; [apply elem_of_app; right; by left|by rewrite Hl|done].
  - unfold settled in Hs. destruct (load (at_load a)) as [[m|e] t] eqn:E; cbn in Hs, Hsame.
    + right. exists a. split; [apply elem_of_app; right; by left|]. rewrite E. destruct Hs as (-> & -> & _). done.
    + destruct (Hsame eq_refl) as (Hc & Ht & _ & Hi). rewrite Hc, Ht, Hi. cbn.
      destruct Hw as [|(b & Hb & Hb')]; [by left|]. right. exists b. split; [apply elem_of_app; by left|done].
Qed.

Lemma followed_more atts a s : followed atts s → followed (atts ++ [a]) s.
Proof.
  intros [H1 H2]. split.
  - intros Hh. destruct (H1 Hh) as (b & ? & ?). exists b. split; [apply elem_of_app; by left|done].
  - destruct H2 as [|(b & ? & ?)]; [by left|right]. exists b. split; [apply elem_of_app; by left|done].
Qed.

Lemma step_followed atts s e : followed atts s → followed (atts ++ [event_attempt e]) (step s e).
Proof.
  intros Hf. destruct e as [a|a]; cbn; [by apply attempt_followed|].
  unfold reloadIfChanged. cbn zeta. destruct (_ && _); cbn [fst]; [by apply followed_more|by apply attempt_followed].
Qed.

Lemma run_followed evs : followed (event_attempt <$> evs) (run_events evs fresh_server).
Proof.
  unfold reload_run. induction evs as [|e evs IH] using rev_ind; [by split; [|left]|].
  rewrite fmap_app, foldl_app. by apply step_followed.
Qed.

(** C36: the inventory follows its sources. After any history of hangups and
    checks, a check that finds the sources at rest leaves the guests and the
    topology they hold and no error, whether or not it had to load; when they
    cannot be read it keeps the inventory and reports the failure; a further check
    changes nothing. This holds unless the sources changed during an earlier load
    and back again. What is served was read in one load. *)
Theorem inventory_follows_sources evs a :
  let s := run_events evs fresh_server in
  let s' := step s (Tick a) in
  at_fingerprint a = at_load a →
  (∀ e, e ∈ evs → fingerprint (at_fingerprint (event_attempt e)) = fingerprint (at_load a) →
     load (at_load (event_attempt e)) = load (at_load a)) →
  settled (load (at_load a)) s' ∧
  (is_ok (load (at_load a)).1 = false → same_inventory s s') ∧
  (vmConfigCache s' = ∅ ∧ inventoryLoaded s' = false ∨
     ∃ e, e ∈ evs ++ [Tick a] ∧ load (at_load (event_attempt e)) = (Ok (vmConfigCache s'), hostTopology s')) ∧
  step s' (Tick a) = s'.
Proof.
  intros s s' Hrest Hstill.
  pose proof (run_followed evs) as Hf. fold s in Hf. pose proof (step_followed _ s (Tick a) Hf) as [_ Hw].
  fold s' in Hw.
  assert (settled (load (at_load a)) s' ∧ (is_ok (load (at_load a)).1 = false → same_inventory s s') ∧
    poll_have s' = true ∧ poll_last s' = fingerprint (at_fingerprint a)) as (Hset & Hsame & Hh & Hl).
  { unfold s'. cbn. unfold reloadIfChanged. cbn zeta. destruct (poll_have s) eqn:Hh; cbn [andb].
    - case_bool_decide as Hl; cbn [fst].
      + destruct (followed_last _ _ Hf Hh) as (b & Hb & Hbl & Hbs). apply list_elem_of_fmap in Hb as (e & -> & He).
        rewrite (Hstill e He) in Hbs by congruence. done.
      + destruct (refresh_spec (at_time a) (at_load a) (set_poll (fingerprint (at_fingerprint a)) s))
          as (? & ? & ? & ?). done.
    - destruct (refresh_spec (at_time a) (at_load a) (set_poll (fingerprint (at_fingerprint a)) s))
          as (? & ? & ? & ?). done. }
  split_and!; [done|done| |].
  - destruct Hw as [|(b & Hb & Hbl)]; [by left|right].
    apply elem_of_app in Hb as [(e & -> & He)%list_elem_of_fmap| ->%list_elem_of_singleton].
    + exists e. split; [apply elem_of_app; by left|done].
    + exists (Tick a). split; [apply elem_of_app; right; by left|done].
  - clearbody s'. cbn. unfold reloadIfChanged. cbn zeta. rewrite Hh, Hl, bool_decide_true by done. done.
Qed.
End reload.

(** ** Health *)

(** Health is "ok" exactly when an inventory is loaded, the last load did not fail
    and, where enrolment is configured, the CA's files were readable when last
    looked at, at most five seconds ago. *)
Lemma health_exact cfg enrolling e s :
  let r := readiness cfg enrolling e s in
  health_status r.2 = "ok" ↔
  inventoryLoaded s = true ∧ lastErrorClass s = "" ∧
  (EnableTPMAttestation cfg = true → (devIDCAReadableCached cfg enrolling e s).2 = true).
Proof.
  unfold readiness. destruct (EnableTPMAttestation cfg).
  - destruct (devIDCAReadableCached cfg enrolling e s) as [s' []]; cbn -[bool_decide].
    + case_bool_decide as He; cbn [negb]; [destruct (inventoryLoaded s); cbn; intuition congruence|].
      split; [done|tauto].
    + repeat case_bool_decide; cbn [negb]; split; try done; intros (_ & _ & Hf); by specialize (Hf eq_refl).
  - cbn -[bool_decide]. case_bool_decide; cbn [negb]; [destruct (inventoryLoaded s); cbn; intuition congruence|].
    split; [done|tauto].
Qed.

(** ** Witnesses *)

Definition demo_arp : string :=
  Join ["IP address       HW type     Flags       HW address            Mask     Device";
        "10.0.0.7         0x1         0x0         00:00:00:00:00:00     *        vmbr9";
        "10.0.0.7         0x1         0x2         BC:24:11:00:00:01     *        vmbr9"; ""] lf_string.
Definition demo_cache : VMConfigMap := {[ "101" := mkVM "101" "web" ∅ ∅ ["bc:24:11:00:00:01"] "" ]}.
Lemma caller_bound_exact_witness :
  ∃ vm, extractVMConfigByRouting (H := caseless) (Ok demo_arp) demo_cache (map_to_list demo_cache)
    (Some [10; 0; 0; 7]%Z) = Bound vm ∧ VMID vm = "101" ∧ owns (H := caseless) vm "bc:24:11:00:00:01".
Proof.
  assert (head (omap (resolves (H := caseless) (IPString [10; 0; 0; 7]%Z)) (Split demo_arp lf)) =
    Some ("bc:24:11:00:00:01", 6)) as Hhead by by vm_compute.
  pose proof (caller_bound_exact (H := caseless) demo_arp demo_cache (map_to_list demo_cache) [10; 0; 0; 7]%Z
    (reflexivity _) eq_refl) as Hc.
  rewrite Hhead in Hc. specialize (Hc ltac:(intros ? ? [= <- <-]; by split)).
  destruct (extractVMConfigByRouting _ _ _ _) as [vm| |] eqn:E.
  - destruct Hc as (_ & id & Hl & Hown & _). exists vm. split; [done|].
    unfold demo_cache in Hl. apply lookup_singleton_Some in Hl as [<- <-]. split; [done|exact Hown].
  - by vm_compute in E.
  - by vm_compute in E.
Defined.

Definition demo_cfg : MDSConfig := {|
  ListenAddr := ""; JWKSPath := ""; AttestationCA := ""; EKCAChain := ""; DevIDCACert := ""; DevIDCAKey := "";
  DevIDLifetime := ""; TokenTTL := ""; JWTTTL := ""; EnableEC2Compat := true; EnableTPMAttestation := false;
  TPMDevice := ""; HostTPMDevice := ""; SigningKeyPath := ""; InventoryPath := "/etc/inventory.yaml";
  RequireVMIdentity := true; MDSClusterPinDir := ""; MDSRequireClusterPin := false |}.
Definition demo_sources (f : file_state) : sources := mkSources f demo_pve.
Definition good_attempt (text : string) : attempt :=
  mkAttempt (demo_sources (Content text)) (demo_sources (Content text)) 0.
Definition bad_attempt : attempt := mkAttempt (demo_sources Missing) (demo_sources Missing) 0.
Definition demo_reloads (evs : list reload_event) : server :=
  reload_run (H := caseless) (λ s, s) demo_decode map_to_list demo_cfg evs fresh_server.
(** A load, then the file goes away: the inventory stays and the failure shows. *)
Lemma inventory_follows_sources_witness :
  let s' := demo_reloads [Hangup (good_attempt "vms"); Tick bad_attempt] in
  lastErrorClass s' = errClassInventoryLoadFailed ∧ vmConfigCache s' !! "101" ≠ None.
Proof.
  assert (at_fingerprint bad_attempt = at_load bad_attempt) as Hrest by done.
  destruct (inventory_follows_sources (H := caseless) (λ s, s) demo_decode map_to_list demo_cfg
    [Hangup (good_attempt "vms")] bad_attempt Hrest) as (Hset & Hsame & _).
  - intros e He%list_elem_of_singleton. subst e. intros Hfp. exfalso. by vm_compute in Hfp.
  - split; [exact Hset|]. destruct (Hsame eq_refl) as [Hc _].
    change (demo_reloads _) with (reload_step (H := caseless) (λ s, s) demo_decode map_to_list demo_cfg
      (demo_reloads [Hangup (good_attempt "vms")]) (Tick bad_attempt)).
    unfold demo_reloads at 1. rewrite Hc. by vm_compute.
Defined.

(** A line of the table that is cut short panics the lookup. *)
Example arp_short_line_panics :
  getMACFromARP (H := caseless) (Ok "10.0.0.7 0x1 0x2 bc:24:11:00:00:01 *") "10.0.0.7" = ArpPanic.
Proof. by vm_compute. Qed.

(** A change during a load that is undone before the next check stays. *)
Definition other_decode (data : string) : outcome string (list yamlVM) :=
  if bool_decide (data = "vms") then Ok demo_yaml else Ok [].
Definition undone_change : attempt := mkAttempt (demo_sources (Content "vms")) (demo_sources (Content "none")) 0.
Example undone_change_stays :
  vmConfigCache (reload_run (H := caseless) (λ s, s) other_decode map_to_list demo_cfg
    [Hangup undone_change; Tick (good_attempt "vms"); Tick (good_attempt "vms")] fresh_server) = ∅.
Proof. apply (bool_decide_unpack _). by vm_compute. Qed.
