(* ===== verification/Reload.v ===== *)
(** * Reloads that interleave (internal/server/reload.go, server.go)

    The signal handler and the poller's goroutine run at once. A step of one of them
    is what it does between two points where the other may be seen: a critical
    section of [poll.mu], of [vmConfigCacheMu] up to the next lock it takes, or the
    reading of the sources, which others may change at any time. An attempt that
    nothing interrupts is [reloadNow] or [reloadIfChanged] of Server.v. *)

From S2P Require Import Prelude.
From S2P Require Import Go.
From S2P Require Import Net.
From S2P Require Import Inventory.
From S2P Require Import Proxmox.
From S2P Require Import Config.
From S2P Require Import Server.

(** [Signal] runs [New] and the loop over the signals; [Poller] is the goroutine of
    [startInventoryPoller]. *)
Inductive thread := Signal | Poller.
#[export] Instance thread_eq_dec : EqDecision thread.
Proof. solve_decision. Defined.

(** Where a thread is. [Off]: the poller's goroutine does not run. From [Locked] to
    [Unlocking] it holds [vmConfigCacheMu]. *)
Inductive pc :=
| Off
| Idle
| Taken (fp : string)
| Waiting
| Locked
| Loaded (m : VMConfigMap) (t : Topology)
| Cached (n : nat) (t : Topology)
| Published (n : nat)
| Failing
| Unlocking.

(** [cancelled]: [stop] of the poller has been called; [done_closed] is what
    [stopInventoryPoller] waits for. *)
Record reloader := mkReloader {
  srv : server;
  src : sources;
  holder : option thread;
  at_signal : pc;
  at_poller : pc;
  cancelled : bool;
}.
Definition at_pc (th : thread) (st : reloader) : pc :=
  match th with Signal => at_signal st | Poller => at_poller st end.
Definition goto (th : thread) (p : pc) (st : reloader) : reloader :=
  match th with
  | Signal => mkReloader (srv st) (src st) (holder st) p (at_poller st) (cancelled st)
  | Poller => mkReloader (srv st) (src st) (holder st) (at_signal st) p (cancelled st)
  end.
Definition set_srv (s : server) (st : reloader) : reloader :=
  mkReloader s (src st) (holder st) (at_signal st) (at_poller st) (cancelled st).
Definition set_src (s : sources) (st : reloader) : reloader :=
  mkReloader (srv st) s (holder st) (at_signal st) (at_poller st) (cancelled st).
Definition set_holder (h : option thread) (st : reloader) : reloader :=
  mkReloader (srv st) (src st) h (at_signal st) (at_poller st) (cancelled st).
Definition set_cancelled (b : bool) (st : reloader) : reloader :=
  mkReloader (srv st) (src st) (holder st) (at_signal st) (at_poller st) b.
Definition set_cache (m : VMConfigMap) (s : server) : server :=
  mkServer m (hostTopology s) (inventoryLoaded s) (vmCount s) (lastReload s) (lastErrorClass s)
    (caReadable s) (caCheckedAt s) (poll_last s) (poll_have s).
Definition set_topology (t : Topology) (s : server) : server :=
  mkServer (vmConfigCache s) (SetHostTopology t (hostTopology s)) (inventoryLoaded s) (vmCount s) (lastReload s)
    (lastErrorClass s) (caReadable s) (caCheckedAt s) (poll_last s) (poll_have s).

(** Before anything is loaded, the files being [s]. *)
Definition new_reloader (s : sources) : reloader := mkReloader fresh_server s None Idle Off false.

Section step.
Context `{GoUnicode}.
Context (sha256 : string → string).
Context (decode : string → outcome string (list yamlVM)).
Context (range : gmap string string → list (string * string)).
Context (cfg : MDSConfig).

(** The next step of a thread at time [now]: [None] while it waits for the lock, or
    where there is none to take. A signal begins an attempt, as does a tick. *)
Definition advance (th : thread) (now : Z) (st : reloader) : option reloader :=
  match at_pc th st with
  | Off => None
  | Idle => Some (goto th (Taken (inventoryFingerprint sha256 cfg (src st))) st)
  | Taken fp =>
      match th with
      | Poller =>
          if poll_have (srv st) && bool_decide (fp = poll_last (srv st)) then Some (goto th Idle st)
          else Some (goto th Waiting (set_srv (set_poll fp (srv st)) st))
      | Signal => Some (goto th Waiting (set_srv (set_poll fp (srv st)) st))
      end
  | Waiting =>
      match holder st with
      | Some _ => None
      | None => Some (goto th Locked (set_holder (Some th) st))
      end
  | Locked =>
      let '(vmConfigMap, topology) := load_sources decode range cfg (src st) in
      Some (goto th (match vmConfigMap with Ok m => Loaded m topology | Err _ => Failing end) st)
  | Loaded m t => Some (goto th (Cached (size m) t) (set_srv (set_cache m (srv st)) st))
  | Cached n t => Some (goto th (Published n) (set_srv (set_topology t (srv st)) st))
  | Published n => Some (goto th Unlocking (set_srv (recordInventoryLoadSuccess n now (srv st)) st))
  | Failing => Some (goto th Unlocking (set_srv (recordInventoryLoadFailure (srv st)) st))
  | Unlocking => Some (goto th Idle (set_holder None st))
  end.

(** [startInventoryPoller], and [stopInventoryPoller] up to its wait. *)
Definition startInventoryPoller (st : reloader) : option reloader :=
  match at_poller st with Off => Some (goto Poller Idle (set_cancelled false st)) | _ => None end.
Definition cancel_poller (st : reloader) : option reloader :=
  match at_poller st with Off => None | _ => Some (set_cancelled true st) end.
(** The goroutine ends when it finds its context done: no attempt is cut short. *)
Definition poller_ends (st : reloader) : option reloader :=
  match at_poller st with Idle => if cancelled st then Some (goto Poller Off st) else None | _ => None end.

Inductive action :=
| Change (s : sources)
| Advance (th : thread) (now : Z)
| StartPoller
| CancelPoller
| PollerEnds.
Definition act (a : action) (st : reloader) : option reloader :=
  match a with
  | Change s => Some (set_src s st)
  | Advance th now => advance th now st
  | StartPoller => startInventoryPoller st
  | CancelPoller => cancel_poller st
  | PollerEnds => poller_ends st
  end.
Fixpoint acts (l : list action) (st : reloader) : option reloader :=
  match l with [] => Some st | a :: l => st ← act a st; acts l st end.

(** An attempt that nothing else comes between. *)
Fixpoint alone (fuel : nat) (th : thread) (now : Z) (st : reloader) : option reloader :=
  match fuel with
  | O => None
  | S fuel =>
      st ← advance th now st;
      match at_pc th st with Idle => Some st | _ => alone fuel th now st end
  end.

(** [findVMConfigByMAC] takes the read lock: it waits for the holder. *)
Definition cache_seen (st : reloader) : option VMConfigMap :=
  match holder st with None => Some (vmConfigCache (srv st)) | Some _ => None end.
End step.
