(* ===== verification/ReloadProofs.v ===== *)
(** * Interleaved reloads

    Whatever the interleaving of the signal handler, the poller and changes of the
    files, what is served was read in one load, and once both threads are at rest
    with the present fingerprint on record, it is what the files hold
    ([reload_interleavings]). *)

From S2P Require Import Prelude.
From S2P Require Import Go.
From S2P Require Import Net.
From S2P Require Import Inventory.
From S2P Require Import Proxmox.
From S2P Require Import Config.
From S2P Require Import Server.
From S2P Require Import ServerProofs.
From S2P Require Import Reload.

(** One case for each place a thread may be at, with the state spelled out. *)
Ltac each_place th st :=
  let s := fresh "s" in let sr := fresh "sr" in let h := fresh "h" in
  let ps := fresh "ps" in let pp := fresh "pp" in let c := fresh "c" in
  destruct st as [s sr h ps pp c]; destruct th; [destruct ps|destruct pp].

Section reload.
Context `{GoUnicode}.
Context (sha256 : string → string).
Context (decode : string → outcome string (list yamlVM)).
Context (range : gmap string string → list (string * string)).
Context (cfg : MDSConfig).
Local Abbreviation load := (load_sources decode range cfg).
Local Abbreviation fingerprint := (inventoryFingerprint sha256 cfg).
Local Abbreviation go := (advance sha256 decode range cfg).
Local Abbreviation run := (acts sha256 decode range cfg).
Implicit Types (st : reloader) (th : thread) (past : list sources).

(** The thread holds the lock. *)
Definition critical (p : pc) : bool :=
  match p with Locked | Loaded _ _ | Cached _ _ | Published _ | Failing | Unlocking => true | _ => false end.
(** The thread is about to read the sources. *)
Definition to_read (p : pc) : bool := match p with Waiting | Locked => true | _ => false end.

(** What is served comes from one of the loads. *)
Definition served past (s : server) : Prop :=
  (vmConfigCache s = ∅ ∧ inventoryLoaded s = false) ∨
  ∃ sr, sr ∈ past ∧ load sr = (Ok (vmConfigCache s), hostTopology s) ∧ vmCount s = size (vmConfigCache s) ∧ inventoryLoaded s = true.
(** It is, or is being replaced by what was read at one moment. *)
Definition whole past st : Prop :=
  match holder st with
  | None => served past (srv st)
  | Some th =>
      match at_pc th st with
      | Loaded m t => served past (srv st) ∧ ∃ sr, sr ∈ past ∧ load sr = (Ok m, t)
      | Cached n t => ∃ sr, sr ∈ past ∧ load sr = (Ok (vmConfigCache (srv st)), t) ∧ n = size (vmConfigCache (srv st))
      | Published n => ∃ sr, sr ∈ past ∧ load sr = (Ok (vmConfigCache (srv st)), hostTopology (srv st)) ∧
          n = size (vmConfigCache (srv st))
      | _ => served past (srv st)
      end
  end.
(** The last load, finished or under way, has read [sr]. *)
Definition last_read (sr : sources) st : Prop :=
  match holder st with
  | None => settled (load sr) (srv st)
  | Some th =>
      match at_pc th st with
      | Loaded m t => load sr = (Ok m, t)
      | Cached n t => load sr = (Ok (vmConfigCache (srv st)), t) ∧ n = size (vmConfigCache (srv st))
      | Published n => load sr = (Ok (vmConfigCache (srv st)), hostTopology (srv st)) ∧ n = size (vmConfigCache (srv st))
      | Failing => is_ok (load sr).1 = false
      | Unlocking => settled (load sr) (srv st)
      | _ => False
      end
  end.
(** A load that reads no older files than those of the recorded fingerprint is to
    come, or was the last. *)
Definition fresh_enough past st : Prop :=
  poll_have (srv st) = true →
  ∃ i sr, past !! i = Some sr ∧ poll_last (srv st) = fingerprint sr ∧
    ((∃ th, to_read (at_pc th st) = true) ∨ ∃ j sr', i ≤ j ∧ past !! j = Some sr' ∧ last_read sr' st).

(** [past]: the states of the files so far. *)
Record reload_inv past st : Prop := {
  ri_src : last past = Some (src st);
  ri_taken th fp : at_pc th st = Taken fp → ∃ i sr, past !! i = Some sr ∧ fp = fingerprint sr;
  ri_lock th : holder st = Some th ↔ critical (at_pc th st) = true;
  ri_whole : whole past st;
  ri_fresh : fresh_enough past st;
}.

Lemma ri_start s : reload_inv [s] (new_reloader s).
Proof. split; try done; [by intros []|by intros []|by left]. Qed.

Lemma last_lookup_some past s : last past = Some s → ∃ i, past !! i = Some s ∧ ∀ j s', past !! j = Some s' → j ≤ i.
Proof.
  rewrite last_lookup. intros Hl. exists (pred (length past)). split; [done|].
  intros j s' Hj%lookup_lt_Some. lia.
Qed.

Lemma lock_unique past st th : reload_inv past st → holder st = None → critical (at_pc th st) = false.
Proof. intros Hi Hh. apply not_true_iff_false. intros Hc%(ri_lock _ _ Hi). congruence. Qed.

(** A step that changes neither the data nor a thread's part in it. *)
Lemma goto_other th p st : at_pc th (goto th p st) = p.
Proof. by destruct th. Qed.

Lemma advance_lock past th now st st' :
  reload_inv past st → go th now st = Some st' → ∀ th', holder st' = Some th' ↔ critical (at_pc th' st') = true.
Proof.
  intros Hi Ha th'. pose proof (ri_lock _ _ Hi Signal) as H1. pose proof (ri_lock _ _ Hi Poller) as H2.
  destruct st as [s sr h ps pp c]. unfold advance, goto in Ha. cbn in *.
  destruct th; [destruct ps|destruct pp]; cbn in *; simplify_eq/=;
    try (destruct (load_sources _ _ _ _) as [[] ?]); try (destruct (_ && _)); try (destruct h); simplify_eq/=;
    destruct th'; cbn; naive_solver.
Qed.

Lemma advance_taken past th now st st' :
  reload_inv past st → go th now st = Some st' →
  ∀ th' fp, at_pc th' st' = Taken fp → ∃ i sr, past !! i = Some sr ∧ fp = fingerprint sr.
Proof.
  intros Hi Ha th' fp Hfp. destruct (last_lookup_some _ _ (ri_src _ _ Hi)) as (i & Hlast & _).
  pose proof (ri_taken _ _ Hi th' fp) as Hold. clear Hi.
  unfold advance, goto in Ha. each_place th st; cbn in *; simplify_eq/=;
    try (destruct (load_sources _ _ _ _) as [[] ?]); try (destruct (_ && _)); try (destruct h); simplify_eq/=;
    destruct th'; cbn in *; simplify_eq/=; eauto.
Qed.

Lemma advance_whole past th now st st' :
  reload_inv past st → go th now st = Some st' → whole past st'.
Proof.
  intros Hi Ha. destruct (last_lookup_some _ _ (ri_src _ _ Hi)) as (i & Hlast%list_elem_of_lookup_2 & _).
  pose proof (ri_whole _ _ Hi) as Hw. pose proof (ri_lock _ _ Hi th) as Hl. clear Hi.
  unfold whole, advance, goto in *. each_place th st; cbn in *; simplify_eq/=;
    try (destruct (load_sources _ _ _ _) as [[] ?] eqn:El); try (destruct (_ && _)); try (destruct h as [[]|]); simplify_eq/=;
    try discriminate (proj2 Hl eq_refl); try discriminate (proj1 Hl eq_refl); try done.
  all: first [by split; [|eexists] | by destruct Hw as (_ & sr0 & ? & ?); exists sr0
    | by destruct Hw as (sr0 & ? & ? & ->); right; exists sr0].
Qed.

(** The thread's place changes, the record of the fingerprint does not. *)
Lemma fresh_keep past st st' :
  poll_have (srv st') = poll_have (srv st) → poll_last (srv st') = poll_last (srv st) →
  (∀ th, to_read (at_pc th st) = true → to_read (at_pc th st') = true) →
  (∀ sr, last_read sr st → last_read sr st') → fresh_enough past st → fresh_enough past st'.
Proof.
  intros Hh Hl Hr Hd Hf. unfold fresh_enough. rewrite Hh, Hl. intros Hp.
  destruct (Hf Hp) as (i & sr & ? & ? & [[th Hth]|(j & sr' & ? & ? & ?)]); exists i, sr; split_and!; try done.
  - left. exists th. auto.
  - right. exists j, sr'. auto.
Qed.

(** Reading the files makes the load one of the present ones. *)
Lemma fresh_read past st st' i :
  poll_have (srv st') = poll_have (srv st) → poll_last (srv st') = poll_last (srv st) →
  past !! i = Some (src st) → (∀ j s, past !! j = Some s → j ≤ i) → last_read (src st) st' →
  fresh_enough past st → fresh_enough past st'.
Proof.
  intros Hh Hl Hlast Hmax Hd Hf. unfold fresh_enough. rewrite Hh, Hl. intros Hp.
  destruct (Hf Hp) as (k & sr & Hk & ? & _). exists k, sr. split_and!; [done..|]. right. exists i, (src st). eauto.
Qed.

Lemma fresh_poll past st th f s :
  (∃ i sr, past !! i = Some sr ∧ f = fingerprint sr) →
  fresh_enough past (goto th Waiting (set_srv (set_poll f s) st)).
Proof.
  intros (i & sr & ? & ?). intros _. exists i, sr. split_and!; [done|by destruct th|].
  left. exists th. by destruct th.
Qed.

(** A step after which the same load is the last one to have read the files. *)
Ltac same_read th st Hl :=
  apply fresh_keep; each_place th st; cbn in *; simplify_eq/=; try done; try (by intros []);
  intros sr'; unfold last_read, settled; cbn;
  first [ intros [Hr ->]; by rewrite Hr | by destruct (load_sources _ _ _ sr').1
        | match goal with h : option thread |- _ => destruct h as [[]|]; first [done | discriminate (proj1 Hl eq_refl)] end ].

Lemma advance_fresh past th now st st' :
  reload_inv past st → go th now st = Some st' → fresh_enough past st'.
Proof.
  intros Hi Ha. destruct (last_lookup_some _ _ (ri_src _ _ Hi)) as (i & Hlast & Hmax).
  pose proof (ri_fresh _ _ Hi) as Hf. pose proof (ri_taken _ _ Hi th) as Ht. pose proof (ri_lock _ _ Hi th) as Hl.
  clear Hi. unfold advance in Ha. destruct (at_pc th st) as [| |fp| | |m t|n t|n| |] eqn:Hpc; try (pose proof (proj2 Hl eq_refl) as Hh);
    try (injection Ha as <-; revert Hf; clear Hlast Hmax Ht; by same_read th st Hl).
  - done.
  - assert (fresh_enough past (goto th Waiting (set_srv (set_poll fp (srv st)) st))) as Hset by (apply fresh_poll; auto).
    destruct th; [by injection Ha as <-|]. destruct (_ && _); injection Ha as <-; [|done].
    revert Hf. clear Hlast Hmax Ht Hset. destruct st as [s sr h ps pp c]. cbn in Hpc. subst pp.
    apply fresh_keep; try done; [by intros []|]. intros sr'. unfold last_read. cbn.
    destruct h as [[]|]; [done|discriminate (proj1 Hl eq_refl)|done].
  - destruct (holder st) eqn:Hn; [done|]. injection Ha as <-. intros Hp.
    assert (poll_have (srv st) = true) as Hp' by by destruct th. destruct (Hf Hp') as (k & sr & ? & ? & _).
    exists k, sr. split_and!; [done|by destruct th|]. left. exists th. by destruct th.
  - destruct (load (src st)) as [r t] eqn:El. injection Ha as <-. revert Hf. eapply fresh_read; [by destruct th..|exact Hlast|exact Hmax|].
    unfold last_read. destruct th, r; cbn; rewrite Hh; cbn; by rewrite El.
Qed.

Lemma advance_src th now st st' : go th now st = Some st' → src st' = src st.
Proof.
  unfold advance, goto. intros Ha. each_place th st; cbn in *; simplify_eq/=;
    try (destruct (load_sources _ _ _ _) as [[] ?]); try (destruct (_ && _)); try (destruct h); by simplify_eq/=.
Qed.

Lemma advance_inv past th now st st' : reload_inv past st → go th now st = Some st' → reload_inv past st'.
Proof.
  intros Hi Ha. split.
  - rewrite (advance_src _ _ _ _ Ha). apply Hi.
  - by eapply advance_taken.
  - by eapply advance_lock.
  - by eapply advance_whole.
  - by eapply advance_fresh.
Qed.

(** The files change. *)
Lemma served_more past s sv : served past sv → served (past ++ [s]) sv.
Proof. intros [?|(sr & ? & ?)]; [by left|right]. exists sr. split; [apply elem_of_app; by left|done]. Qed.
Lemma lookup_more past s i sr : past !! i = Some sr → (past ++ [s]) !! i = Some sr.
Proof. intros Hl. by apply lookup_app_l_Some. Qed.

Lemma change_inv past st s : reload_inv past st → reload_inv (past ++ [s]) (set_src s st).
Proof.
  intros [H1 H2 H3 H4 H5]. split.
  - by rewrite last_snoc.
  - intros th fp Hfp. destruct (H2 th fp) as (i & sr & ? & ?); [by destruct th|]. exists i, sr. split; [by apply lookup_more|done].
  - intros []; apply (H3 Signal) || apply (H3 Poller).
  - unfold whole in *. cbn. assert (∀ sr, sr ∈ past → sr ∈ past ++ [s]) as Hin by (intros; apply elem_of_app; by left).
    destruct (holder st) as [[]|]; cbn in *; [destruct (at_signal st)|destruct (at_poller st)|];
      try (by apply served_more); naive_solver eauto using served_more.
  - intros Hp. destruct (H5 Hp) as (i & sr & ? & ? & Hc). exists i, sr. split_and!; [by apply lookup_more|done|].
    destruct Hc as [[th ?]|(j & sr' & ? & ? & ?)]; [left; exists th; by destruct th|right].
    exists j, sr'. split_and!; [done|by apply lookup_more|done].
Qed.

(** The poller starts, is told to stop, ends. *)
Lemma poller_inv past st p c :
  reload_inv past st → critical p = false → to_read p = false → (∀ fp, p ≠ Taken fp) → 
  critical (at_poller st) = false → to_read (at_poller st) = false →
  reload_inv past (mkReloader (srv st) (src st) (holder st) (at_signal st) p c).
Proof.
  intros [H1 H2 H3 H4 H5] Hc Hr Ht Hc0 Hr0. split; [done| | | |].
  - intros [] fp; cbn; [apply (H2 Signal)|by intros ?%Ht].
  - intros []; cbn; [apply (H3 Signal)|]. rewrite (H3 Poller). cbn. by rewrite Hc, Hc0.
  - unfold whole in *. cbn. pose proof (H3 Poller) as Hl. destruct (holder st) as [[]|]; [done| |done].
    cbn in Hl. rewrite Hc0 in Hl. discriminate (proj1 Hl eq_refl).
  - intros Hp. destruct (H5 Hp) as (i & sr & ? & ? & Hcase). exists i, sr. split_and!; [done..|].
    destruct Hcase as [[[] Hth]|(j & sr' & ? & ? & Hd)]; cbn in *; [left; by exists Signal|congruence|right].
    exists j, sr'. split_and!; [done..|]. unfold last_read in *. cbn. pose proof (H3 Poller) as Hl.
    destruct (holder st) as [[]|]; [done| |done]. cbn in Hl. rewrite Hc0 in Hl. discriminate (proj1 Hl eq_refl).
Qed.

Definition change_of (a : action) : option sources := match a with Change s => Some s | _ => None end.

Lemma act_inv past a st st' :
  reload_inv past st → act sha256 decode range cfg a st = Some st' → reload_inv (past ++ option_list (change_of a)) st'.
Proof.
  intros Hi. destruct a as [s|th now| | |]; cbn; rewrite ?app_nil_r.
  - intros [= <-]. by apply change_inv.
  - by apply advance_inv.
  - unfold startInventoryPoller. destruct (at_poller st) eqn:E; [|done..]. intros [= <-].
    apply poller_inv; try done; by rewrite E.
  - unfold cancel_poller. intros Hc. assert (st' = set_cancelled true st) as -> by (destruct (at_poller st); by simplify_eq).
    destruct Hi as [H1 H2 H3 H4 H5]. split; [done|by intros []; [apply (H2 Signal)|apply (H2 Poller)]|
      by intros []; [apply (H3 Signal)|apply (H3 Poller)]|done|].
    intros Hp. destruct (H5 Hp) as (i & sr & ? & ? & [[[] ?]|?]); exists i, sr; split_and!; try done;
      [left; by exists Signal|left; by exists Poller|by right].
  - unfold poller_ends. destruct (at_poller st) eqn:E; try done. destruct (cancelled st); [|done]. intros [= <-].
    apply poller_inv; try done; by rewrite E.
Qed.

(** The states of the files over a run. *)
Definition files (s0 : sources) (l : list action) : list sources := s0 :: omap change_of l.

Lemma run_inv past l st st' : reload_inv past st → run l st = Some st' → reload_inv (past ++ omap change_of l) st'.
Proof.
  revert past st. induction l as [|a l IH]; intros past st Hi; cbn [acts].
  { intros [= <-]. by rewrite app_nil_r. }
  intros (st1 & Ha & Hr)%bind_Some. pose proof (IH _ _ (act_inv _ _ _ _ Hi Ha) Hr) as Hd.
  rewrite <- (assoc_L (++)) in Hd. by destruct a.
Qed.

Lemma files_inv s0 l st : run l (new_reloader s0) = Some st → reload_inv (files s0 l) st.
Proof. intros Hr. exact (run_inv [s0] l _ _ (ri_start s0) Hr). Qed.

(** No attempt is between its fingerprint's record and its end. *)
Definition resting st : Prop := ∀ th, critical (at_pc th st) = false ∧ to_read (at_pc th st) = false.
(** The files have not read differently since they first had their present
    fingerprint. *)
Definition steady past (now : sources) : Prop :=
  ∀ i j sr sr', i ≤ j → past !! i = Some sr → past !! j = Some sr' →
    fingerprint sr = fingerprint now → load sr' = load now.

Lemma resting_free past st : reload_inv past st → resting st → holder st = None.
Proof.
  intros Hi Hr. destruct (holder st) as [th|] eqn:E; [|done].
  pose proof (proj1 (ri_lock _ _ Hi th) E) as Hc. destruct (Hr th). congruence.
Qed.

Lemma resting_settled past st :
  reload_inv past st → resting st → steady past (src st) →
  poll_have (srv st) = true → poll_last (srv st) = fingerprint (src st) → settled (load (src st)) (srv st).
Proof.
  intros Hi Hr Hs Hh Hl. destruct (ri_fresh _ _ Hi Hh) as (i & sr & Hpi & Hfp & [[th Hth]|(j & sr' & Hij & Hpj & Hd)]).
  - destruct (Hr th). congruence.
  - unfold last_read in Hd. rewrite (resting_free _ _ Hi Hr) in Hd.
    by rewrite (Hs i j sr sr') in Hd by congruence.
Qed.

Definition event_of th : attempt → reload_event := match th with Signal => Hangup | Poller => Tick end.

Lemma alone_step n th now st :
  alone sha256 decode range cfg (S n) th now st =
    (st ← go th now st; match at_pc th st with Idle => Some st | _ => alone sha256 decode range cfg n th now st end).
Proof. done. Qed.
Ltac one_step := rewrite alone_step; cbn -[alone load_sources inventoryFingerprint bool_decide size].

Lemma alone_is_attempt th now st :
  at_pc th st = Idle → holder st = None →
  alone sha256 decode range cfg 8 th now st =
    Some (set_srv (reload_step sha256 decode range cfg (srv st)
      (event_of th (mkAttempt (src st) (src st) now))) st).
Proof.
  intros Hpc Hh. destruct st as [s sr h ps pp c]. cbn in Hh. subst h.
  destruct th; cbn in Hpc; subst; do 2 one_step; [|destruct (_ && _) eqn:E; cbn [mbind option_bind at_pc goto at_poller];
    [unfold event_of, reload_step, reloadIfChanged; cbn [srv at_fingerprint]; by rewrite E|]].
  all: do 2 one_step; destruct (load_sources decode range cfg sr) as [[m|e] t] eqn:El; cbn [mbind option_bind at_pc goto at_poller at_signal];
    repeat one_step; unfold event_of, reload_step, reloadNow, reloadIfChanged, RefreshVMConfigCache, set_srv;
    cbn [at_load at_time at_fingerprint src srv]; rewrite ?E, El; reflexivity.
Qed.

(** C35: in every interleaving of signals, checks, the poller's start and end, and
    changes of the files: at most one load runs; the guests a request can look up
    and the topology were read by one load (or nothing has been loaded); once no
    attempt is under way and the fingerprint on record is the files' own, they are
    what the files hold, unless the files had changed and changed back; and an
    attempt that nothing comes between ends after at most eight steps as
    [reloadNow] or [reloadIfChanged] does. *)
Theorem reload_interleavings s0 l st :
  run l (new_reloader s0) = Some st →
  ¬ (critical (at_signal st) = true ∧ critical (at_poller st) = true) ∧
  (∀ m, cache_seen st = Some m → (m = ∅ ∧ inventoryLoaded (srv st) = false) ∨
    ∃ sr, sr ∈ files s0 l ∧ load sr = (Ok m, hostTopology (srv st)) ∧ vmCount (srv st) = size m) ∧
  (resting st → steady (files s0 l) (src st) → poll_have (srv st) = true →
    poll_last (srv st) = fingerprint (src st) → settled (load (src st)) (srv st)) ∧
  (∀ th now, at_pc th st = Idle → resting st →
    alone sha256 decode range cfg 8 th now st =
      Some (set_srv (reload_step sha256 decode range cfg (srv st)
        (event_of th (mkAttempt (src st) (src st) now))) st)).
Proof.
  intros Hr. pose proof (files_inv _ _ _ Hr) as Hi. split_and!.
  - intros [H1%(ri_lock _ _ Hi Signal) H2%(ri_lock _ _ Hi Poller)]. congruence.
  - intros m. unfold cache_seen. pose proof (ri_whole _ _ Hi) as Hw. unfold whole in Hw.
    destruct (holder st); [done|]. intros [= <-]. destruct Hw as [?|(sr & ? & ? & ? & ?)]; [by left|right; by exists sr].
  - by apply resting_settled.
  - intros th now Hpc Hrest. apply alone_is_attempt; [done|]. by eapply resting_free.
Qed.
End reload.

(** ** A check in the middle of a signal's load *)

#[local] Existing Instance caseless.
Abbreviation demo_go := (acts (λ s, s) other_decode map_to_list demo_cfg).
Definition demo_files (text : string) : sources := demo_sources (Content text).
Definition steps (th : thread) (n : nat) : list action := replicate n (Advance th 0).
(** The signal's load reads "none"; the file changes while it holds the lock; the
    poller waits for it, then loads what the file holds now. *)
Definition demo_actions : list action :=
  [StartPoller] ++ steps Signal 4 ++ [Change (demo_files "vms")] ++ steps Poller 2 ++ steps Signal 4 ++ steps Poller 6.
Example demo_blocked :
  demo_go ([StartPoller] ++ steps Signal 4 ++ [Change (demo_files "vms")] ++ steps Poller 3) (new_reloader (demo_files "none")) = None.
Proof. by vm_compute. Qed.

Definition demo_final : reloader :=
  default (new_reloader (demo_files "")) (demo_go demo_actions (new_reloader (demo_files "none"))).
Lemma demo_runs : demo_go demo_actions (new_reloader (demo_files "none")) = Some demo_final.
Proof. by vm_compute. Qed.
Lemma demo_rests : at_signal demo_final = Idle ∧ at_poller demo_final = Idle ∧ src demo_final = demo_files "vms" ∧
  poll_have (srv demo_final) = true.
Proof. by vm_compute. Qed.
Lemma demo_recorded :
  poll_last (srv demo_final) = inventoryFingerprint (λ s, s) demo_cfg (demo_files "vms") ∧
  inventoryFingerprint (λ s, s) demo_cfg (demo_files "vms") ≠ inventoryFingerprint (λ s, s) demo_cfg (demo_files "none").
Proof. apply (bool_decide_unpack _). by vm_compute. Qed.
Lemma demo_serves : vmConfigCache (srv demo_final) !! "101" ≠ None.
Proof. by vm_compute. Qed.

Lemma demo_resting : resting demo_final.
Proof. destruct demo_rests as (H1 & H2 & _). by intros []; cbn [at_pc]; rewrite ?H1, ?H2. Qed.
Lemma demo_steady :
  steady (λ s, s) other_decode map_to_list demo_cfg (files (demo_files "none") demo_actions) (demo_files "vms").
Proof.
  change (files (demo_files "none") demo_actions) with [demo_files "none"; demo_files "vms"].
  intros [|[|i]] [|[|j]] sr sr' Hij Hi Hj Hfp; cbn [lookup list_lookup] in Hi, Hj; try lia; try discriminate;
    injection Hi as <-; injection Hj as <-; [|reflexivity..].
  destruct (proj2 demo_recorded (eq_sym Hfp)).
Qed.

Lemma reload_interleavings_witness :
  demo_go demo_actions (new_reloader (demo_files "none")) = Some demo_final ∧ vmConfigCache (srv demo_final) !! "101" ≠ None ∧
  settled (load_sources other_decode map_to_list demo_cfg (demo_files "vms")) (srv demo_final).
Proof.
  split; [exact demo_runs|]. split; [exact demo_serves|].
  destruct (reload_interleavings (λ s, s) other_decode map_to_list demo_cfg _ _ _ demo_runs) as (_ & _ & Hset & _).
  destruct demo_rests as (_ & _ & H3 & H4). rewrite H3 in Hset.
  exact (Hset demo_resting demo_steady H4 (proj1 demo_recorded)).
Defined.
