(* ===== verification/Served.v ===== *)
(** * What is served is well formed

    Whatever the files hold and however loads interleave, every record a caller can
    be bound to and the host's topology are well formed ([served_well_typed]); so the
    text of a listing is one key to the line, and a declared address is served as it
    is written. *)

From stdpp Require Import pretty.
From S2P Require Import Prelude.
From S2P Require Import Go.
From S2P Require Import Net.
From S2P Require Import Tokens.
From S2P Require Import Inventory.
From S2P Require Import Proxmox.
From S2P Require Import ProxmoxProofs.
From S2P Require Import Imds.
From S2P Require Import Config.
From S2P Require Import Server.
From S2P Require Import ServerProofs.
From S2P Require Import Reload.
From S2P Require Import ReloadProofs.
From Stdlib Require Import Ascii.

(** ** Well-formed records and topologies *)

Definition tags_typed (tags : gmap string string) : Prop :=
  ∀ k v, tags !! k = Some v → ValidTagKey k = true ∧ ValidTagValue v = true.
(** The canonical text of an IPv4 address. *)
Definition address_text (a : string) : Prop := ∃ v4, ParseIP a ≫= To4 = Some v4 ∧ a = ip4_string v4.
Record vm_typed (id : string) (vm : VMConfig) : Prop := {
  vt_id : VMID vm = id;
  vt_tags : tags_typed (Tags vm);
  vt_address a : RawConfig vm !! "public-ipv4" = Some a → address_text a;
}.
Definition inventory_typed (m : VMConfigMap) : Prop := ∀ id vm, m !! id = Some vm → vm_typed id vm.
Record topology_typed (t : Topology) : Prop := {
  tt_valid k v : t !! k = Some v → ValidTopologyKey k = true ∧ ValidPlacementName v = true;
  tt_zone : is_Some (t !! "availability-zone");
  tt_region : is_Some (t !! "region");
}.

Lemma host_topology_typed p : topology_typed (HostTopology p).
Proof.
  assert (∀ k, is_Some (fallback p k) → is_Some (HostTopology p !! k)) as Hs.
  { intros k Hk. rewrite host_topology_lookup. by destruct (descriptionTopology _ !! k). }
  split; [intros k v; apply host_topology_valid|by apply Hs; eexists|by apply Hs; eexists].
Qed.

Lemma default_topology_typed : topology_typed DefaultTopology.
Proof.
  split; [|by eexists|by eexists]. intros k v Hkv. unfold DefaultTopology in Hkv.
  apply lookup_insert_Some in Hkv as [[<- <-]|[_ [<- <-]%lookup_singleton_Some]]; done.
Qed.

Section typed.
Context `{GoUnicode}.
Context (sha256 : string → string).
Context (decode : string → outcome string (list yamlVM)).
Context (range : gmap string string → list (string * string)).
Context (range_perm : ∀ m, range m ≡ₚ map_to_list m).
Context (cfg : MDSConfig).
Local Abbreviation load := (load_sources decode range cfg).
Local Abbreviation run := (acts sha256 decode range cfg).

Lemma load_vm_typed vm c : load_vm range vm = Ok c → vm_typed (YID vm) c.
Proof.
  unfold load_vm. intros (raw & Hraw & [= <-])%bind_Ok. split; [done| |]; cbn.
  - intros k v (k0 & v0 & _ & _ & _ & ? & ?)%load_tags_sound; done.
  - intros a Ha. apply load_raw_address in Hraw as [_ Hraw]. destruct (Hraw a Ha) as (v4 & _ & ? & ?). by exists v4.
Qed.

Lemma load_vms_typed vms out m : inventory_typed out → load_vms range vms out = Ok m → inventory_typed m.
Proof.
  revert out. induction vms as [|vm vms IH]; intros out Ho; cbn [load_vms]; [by intros [= <-]|].
  case_bool_decide; [by apply IH|]. intros (c & Hc%load_vm_typed & Hl)%bind_Ok. revert Hl. apply IH.
  intros id vm'. rewrite lookup_insert. case_decide as Hid; [|apply Ho]. subst id. by intros [= <-].
Qed.

Lemma parse_conf_typed vmid data : vm_typed vmid (parseVMConfig vmid data).
Proof.
  split; [done| |].
  - intros k v. unfold parseVMConfig. cbn [Tags]. rewrite instance_tags_lookup, sole_tag_Some.
    intros (e & Hl & Hok & <-). eapply declared_tag_valid; [|done]. apply for_key_elem. rewrite Hl. by left.
  - intros a. unfold parseVMConfig. cbn [RawConfig]. by rewrite conf_lines_address.
Qed.

Lemma add_confs_typed files m : inventory_typed m → inventory_typed (foldl add_conf m files).
Proof.
  revert m. induction files as [|[path f] files IH]; intros m Hm; cbn [foldl]; [done|]. apply IH.
  unfold add_conf. destruct f; [|done..]. intros id vm. cbn [fst snd]. rewrite lookup_insert.
  case_decide as Hid; [|apply Hm]. intros [= <-]. subst id. apply parse_conf_typed.
Qed.

Lemma load_typed src : topology_typed (load src).2 ∧ ∀ m, (load src).1 = Ok m → inventory_typed m.
Proof.
  assert (inventory_typed ∅) as He by by intros id vm; rewrite lookup_empty.
  unfold load_sources. destruct (negb _); cbn [fst snd].
  - split; [apply default_topology_typed|]. intros m. unfold LoadYAML.
    destruct (os_ReadFile _) as [data|]; [|done]. destruct (decode data) as [vms|]; [|done]. by apply load_vms_typed.
  - split; [apply host_topology_typed|]. intros m. unfold ParseVMConfigs.
    destruct (conf_dir _); [|done]. destruct (conf_glob _) as [files|]; [|done]. intros [= <-]. by apply add_confs_typed.
Qed.

(** ** Every state of the service *)

(** What a thread has read is well formed too. *)
Definition pc_typed (p : pc) : Prop :=
  match p with Loaded m t => inventory_typed m ∧ topology_typed t | Cached _ t => topology_typed t | _ => True end.
Record state_typed (st : reloader) : Prop := {
  st_cache : inventory_typed (vmConfigCache (srv st));
  st_topology : topology_typed (hostTopology (srv st));
  st_signal : pc_typed (at_signal st);
  st_poller : pc_typed (at_poller st);
}.

Lemma advance_typed th now st st' :
  state_typed st → advance sha256 decode range cfg th now st = Some st' → state_typed st'.
Proof.
  intros [H1 H2 H3 H4] Ha. destruct (load_typed (src st)) as [Ht Hm]. unfold advance, goto in Ha.
  each_place th st; cbn in *; simplify_eq/=;
    try (destruct (load_sources _ _ _ _) as [[] ?]); try (destruct (_ && _)); try (destruct h); simplify_eq/=;
    split; cbn in *; try tauto; by split; [apply Hm|].
Qed.

Lemma act_typed a st st' : state_typed st → act sha256 decode range cfg a st = Some st' → state_typed st'.
Proof.
  intros Hs. destruct a; cbn; [by intros [= <-]; destruct Hs|by apply advance_typed|..];
    unfold startInventoryPoller, cancel_poller, poller_ends; destruct Hs as [H1 H2 H3 H4], (at_poller st) eqn:E;
    try done; try (destruct (cancelled st); [|done]); intros [= <-]; split; cbn; rewrite ?E; done.
Qed.

Lemma run_typed l st st' : state_typed st → run l st = Some st' → state_typed st'.
Proof.
  revert st. induction l as [|a l IH]; intros st Hs; cbn [acts]; [by intros [= <-]|].
  intros (st1 & Ha & Hr)%bind_Some. eapply IH; [|done]. by eapply act_typed.
Qed.

Lemma new_typed s : state_typed (new_reloader s).
Proof. split; [|apply default_topology_typed|done|done]. intros id vm. cbn. by rewrite lookup_empty. Qed.
End typed.

(** ** At the handlers *)

Lemma Println_lines l : (∀ x, x ∈ l → ContainsByte lf x = false) → Split (Println l) lf = l ++ [""].
Proof.
  induction l as [|x l IH]; intros Hl; [done|]. cbn [Println]. change (x +:+ lf_string +:+ Println l) with (x +:+ String lf (Println l)).
  rewrite Split_app by (apply Hl; by left). cbn [app]. f_equal. apply IH. intros; apply Hl; by right.
Qed.

Lemma valid_key_line k : ValidTagKey k = true → ContainsByte lf k = false.
Proof. intros [_ Hk]%andb_true_iff. by eapply sforall_no. Qed.

Lemma sorted_keys_lines m : (∀ k v, m !! k = Some v → ValidTagKey k = true) →
  Split (Println (sorted_keys m)) lf = sorted_keys m ++ [""].
Proof.
  intros Hm. apply Println_lines. intros k. unfold sorted_keys, SortStrings. rewrite merge_sort_Permutation.
  intros ([k' v] & -> & Hk%elem_of_map_to_list)%list_elem_of_fmap. cbn. by eapply valid_key_line, Hm.
Qed.

Lemma sforall_Join p l sep : sforall p sep = true → (∀ x, x ∈ l → sforall p x = true) → sforall p (Join l sep) = true.
Proof.
  intros Hs. induction l as [|x [|y l] IH]; intros Hl; [done|by apply Hl; left|].
  change (Join (x :: y :: l) sep) with (x +:+ sep +:+ Join (y :: l) sep).
  rewrite !sforall_app, Hs, (Hl x) by by left. apply IH. intros; apply Hl; by right.
Qed.

Lemma ip4_string_graph a b c d : graph_string (ip4_string [a; b; c; d]) = true.
Proof.
  assert (∀ z, sforall is_graph (Itoa z) = true) as Hi.
  { intros z. apply Itoa_chars; [|done]. intros y. unfold pretty_N_char. by repeat case_match. }
  apply sforall_Join; [done|]. by intros x (z & -> & _)%list_elem_of_fmap.
Qed.

Lemma public_address r id vm :
  VM r = Some vm → vm_typed id vm → PublicIPv4 r = default "" (RawConfig vm !! "public-ipv4").
Proof.
  intros Hvm [_ _ Ha]. unfold PublicIPv4. rewrite Hvm. cbn zeta.
  destruct (RawConfig vm !! "public-ipv4") as [a|]; [|done]. cbn [default].
  destruct (Ha a eq_refl) as (v4 & Hp & ->). pose proof Hp as Hp'. apply bind_Some in Hp' as (ip & Hip & H4).
  destruct (To4_bytes _ _ _ Hip H4) as (a & b & c & d & -> & _).
  unfold Datatypes.id. rewrite TrimSpace_graph by apply ip4_string_graph. rewrite Hp.
  case_bool_decide as He; [by rewrite He|]. done.
Qed.

Section theorem.
Context `{GoUnicode}.
Context (sha256 : string → string).
Context (decode : string → outcome string (list yamlVM)).
Context (range : gmap string string → list (string * string)).
Context (range_perm : ∀ m, range m ≡ₚ map_to_list m).
Context (cfg : MDSConfig).

(** C32: in every state the service can reach, the topology and every record in the
    cache are well formed: tag keys and values and topology entries keep to their
    alphabets, a public address is the canonical text of an IPv4 address. So, for a
    caller with a token, the lines of the listing of tags are the record's keys and
    those of the listing of placement the topology's, no key or value can forge
    another line, and the public address is served as the record has it. *)
Theorem served_well_typed s0 l st :
  acts sha256 decode range cfg l (new_reloader s0) = Some st →
  topology_typed (hostTopology (srv st)) ∧
  (∀ c r, topology c = hostTopology (srv st) → validateToken c r = true →
     ∃ body, HandlePlacementKeys c r = ok_text body ∧ Split body lf = sorted_keys (hostTopology (srv st)) ++ [""]) ∧
  ∀ id vm, vmConfigCache (srv st) !! id = Some vm → vm_typed id vm ∧
    ∀ c r, VM r = Some vm → validateToken c r = true →
      PublicIPv4 r = default "" (RawConfig vm !! "public-ipv4") ∧
      (Tags vm ≠ ∅ → ∃ body, HandleInstanceTagKeys c r = ok_text body ∧ Split body lf = sorted_keys (Tags vm) ++ [""]).
Proof.
  intros Hr. destruct (run_typed sha256 decode range range_perm cfg l _ _ (new_typed s0) Hr) as [Hc Ht _ _].
  split; [done|]. split.
  - intros c r Htop Htok. exists (Println (sorted_keys (topology c))). unfold HandlePlacementKeys, with_token.
    rewrite Htok. split; [done|]. rewrite Htop. apply sorted_keys_lines. intros k v Hkv. by apply (tt_valid _ Ht k v).
  - intros id vm Hvm. pose proof (Hc id vm Hvm) as Hty. split; [done|]. intros c r Hv Htok.
    split; [by eapply public_address|]. intros Hne. exists (Println (sorted_keys (Tags vm))).
    unfold HandleInstanceTagKeys, with_token, InstanceTags. rewrite Htok, Hv. cbn [negb].
    rewrite bool_decide_eq_false_2 by by rewrite map_size_empty_iff. split; [done|].
    apply sorted_keys_lines. intros k v Hkv. by apply (vt_tags _ _ Hty k v).
Qed.
End theorem.

#[local] Existing Instance caseless.
Lemma served_well_typed_witness :
  demo_go demo_actions (new_reloader (demo_files "none")) = Some demo_final ∧
  topology_typed (hostTopology (srv demo_final)) ∧
  ∃ vm, vmConfigCache (srv demo_final) !! "101" = Some vm ∧ vm_typed "101" vm.
Proof.
  split; [exact demo_runs|].
  destruct (served_well_typed (λ s, s) other_decode map_to_list (λ m, reflexivity _) demo_cfg _ _ _ demo_runs)
    as (Ht & _ & Hvm). split; [exact Ht|].
  destruct (vmConfigCache (srv demo_final) !! "101") as [vm|] eqn:E; [|destruct (demo_serves E)].
  exists vm. split; [done|]. exact (proj1 (Hvm "101" vm E)).
Defined.
