(* ===== verification/Routes.v ===== *)
(** * The routes (internal/server/server.go, New)

    The table [New] registers, with the wrapping of the identity-bearing paths,
    and what a request is answered: by a metadata handler, by the mux itself, or by
    an endpoint with effects of its own. *)

From S2P Require Import Prelude.
From S2P Require Import Go.
From S2P Require Import Net.
From S2P Require Import Tokens.
From S2P Require Import Inventory.
From S2P Require Import Proxmox.
From S2P Require Import Imds.
From S2P Require Import Mux.
From S2P Require Import Config.
From Stdlib Require Import Ascii.

Inductive endpoint :=
  | CreateToken
  | Metadata (h : handler)
  | EnrollStart
  | EnrollFinish
  | HealthCheck
  | CatchAll.

(** [handle]: the wrapper of [New] around identity-bearing handlers. *)
Definition handle (cfg : MDSConfig) (pattern : string) (h : handler) : route endpoint :=
  let path := let '(_, p, ok) := Cut pattern " "%char in if ok then p else pattern in
  Handle pattern
    (Metadata (if RequiresVMIdentity path then Imds.RequireVMIdentity (Config.RequireVMIdentity cfg) store h else h)).

Definition metadata_routes (cfg : MDSConfig) : list (route endpoint) := [
  handle cfg "GET /latest/meta-data/instance-id" HandleInstanceID;
  handle cfg "GET /latest/meta-data/local-hostname" HandleHostname;
  handle cfg "GET /latest/meta-data/public-ipv4" HandlePublicIPv4;
  handle cfg "GET /latest/meta-data/local-ipv4" HandleLocalIPv4;
  handle cfg "GET /latest/meta-data/placement/availability-zone" HandleAvailabilityZone;
  handle cfg "GET /latest/meta-data/placement/region" HandleRegion;
  handle cfg "GET /latest/meta-data/placement/{$}" HandlePlacementKeys;
  Handle "GET /latest/meta-data/placement" (Metadata HandlePlacementRedirect);
  handle cfg "GET /latest/meta-data/placement/{key}" HandlePlacementKey;
  handle cfg "GET /latest/meta-data/services/domain" HandleDomain;
  handle cfg "GET /latest/meta-data/tags/{$}" HandleTags;
  handle cfg "GET /latest/meta-data/tags/instance" HandleInstanceTagKeys;
  handle cfg "GET /latest/meta-data/tags/instance/{key}" HandleInstanceTag;
  handle cfg "GET /latest/meta-data/" HandleMetaDataIndex;
  handle cfg "GET /latest/dynamic/instance-identity/document" HandleInstanceIdentityDocument ].

(** [devid.Register]. *)
Definition enroll_routes : list (route endpoint) :=
  [Handle "POST /latest/devid/enroll/start" EnrollStart; Handle "POST /latest/devid/enroll/finish" EnrollFinish].

(** [enrolling]: [loadDevIDEnroller] gave an enroller. *)
Definition routes (cfg : MDSConfig) (enrolling : bool) : list (route endpoint) :=
  [Handle "PUT /latest/api/token" CreateToken] ++
  (if EnableEC2Compat cfg then metadata_routes cfg else []) ++
  (if EnableTPMAttestation cfg && enrolling then enroll_routes else []) ++
  [Handle "GET /health" HealthCheck; Handle "/" CatchAll].

(** The answer to a request with this [EscapedPath], or the endpoint that gives it. *)
Definition with_values (r : request) (values : string → string) : request :=
  mkRequest (Method r) (Path r) (Host r) (RemoteAddr r) (token_header r) values (VM r).
Definition answer (rs : list (route endpoint)) (c : context) (r : request) (escaped : string)
    : response + endpoint :=
  match findHandler rs (Method r) escaped with
  | Redirected path => inl (Redirect r path "Moved Permanently" 301)
  | NoRoute => inl NotFound
  | Found rt values =>
      match route_handler rt with
      | Metadata h => inl (h c (with_values r (path_value rt values)))
      | CatchAll => inl NotFound
      | e => inr e
      end
  end.
