(* ===== verification/RoutesProofs.v ===== *)
(** * The routes: what a caller can read

    The index advertises what the caller can read ([metadata_index_exact]); with
    [require_vm_identity], a caller without a record cannot tell the paths that
    report an identity from paths that do not exist ([unbound_caller_refused]). *)

From S2P Require Import Prelude.
From S2P Require Import Go.
From S2P Require Import Net.
From S2P Require Import Tokens.
From S2P Require Import Inventory.
From S2P Require Import Imds.
From S2P Require Import Mux.
From S2P Require Import Config.
From S2P Require Import Routes.
From Stdlib Require Import Ascii.

(** ** The table with the guards as marks *)

Definition mark (pattern : string) (identity : bool) (h : handler) : route (bool * endpoint) :=
  Handle pattern (identity, Metadata h).
Definition unmarked (pattern : string) (e : endpoint) : route (bool * endpoint) := Handle pattern (false, e).

Definition base_routes (ec2 enroll : bool) : list (route (bool * endpoint)) :=
  [unmarked "PUT /latest/api/token" CreateToken] ++
  (if ec2 then [
    mark "GET /latest/meta-data/instance-id" true HandleInstanceID;
    mark "GET /latest/meta-data/local-hostname" false HandleHostname;
    mark "GET /latest/meta-data/public-ipv4" false HandlePublicIPv4;
    mark "GET /latest/meta-data/local-ipv4" false HandleLocalIPv4;
    mark "GET /latest/meta-data/placement/availability-zone" false HandleAvailabilityZone;
    mark "GET /latest/meta-data/placement/region" false HandleRegion;
    mark "GET /latest/meta-data/placement/{$}" false HandlePlacementKeys;
    mark "GET /latest/meta-data/placement" false HandlePlacementRedirect;
    mark "GET /latest/meta-data/placement/{key}" false HandlePlacementKey;
    mark "GET /latest/meta-data/services/domain" false HandleDomain;
    mark "GET /latest/meta-data/tags/{$}" false HandleTags;
    mark "GET /latest/meta-data/tags/instance" false HandleInstanceTagKeys;
    mark "GET /latest/meta-data/tags/instance/{key}" false HandleInstanceTag;
    mark "GET /latest/meta-data/" false HandleMetaDataIndex;
    mark "GET /latest/dynamic/instance-identity/document" true HandleInstanceIdentityDocument ] else []) ++
  (if enroll then [unmarked "POST /latest/devid/enroll/start" EnrollStart;
                   unmarked "POST /latest/devid/enroll/finish" EnrollFinish] else []) ++
  [unmarked "GET /health" HealthCheck; unmarked "/" CatchAll].

Definition secure (require : bool) (x : bool * endpoint) : endpoint :=
  match x with
  | (true, Metadata h) => Metadata (Imds.RequireVMIdentity require store h)
  | (_, e) => e
  end.

Definition pattern_path (pattern : string) : string :=
  let '(_, p, ok) := Cut pattern " "%char in if ok then p else pattern.
Lemma handle_marked cfg pattern identity h :
  RequiresVMIdentity (pattern_path pattern) = identity →
  handle cfg pattern h = route_map (secure (Config.RequireVMIdentity cfg)) (mark pattern identity h).
Proof.
  intros Hp. unfold handle, mark, Handle. fold (pattern_path pattern). cbn zeta. rewrite Hp.
  destruct (parsePattern pattern). unfold route_map. cbn. by destruct identity.
Qed.
Lemma unmarked_map require pattern e :
  Handle pattern e = route_map (secure require) (unmarked pattern e).
Proof. unfold unmarked, Handle. by destruct (parsePattern pattern). Qed.

Lemma routes_marked cfg enrolling :
  routes cfg enrolling = route_map (secure (Config.RequireVMIdentity cfg)) <$>
    base_routes (EnableEC2Compat cfg) (EnableTPMAttestation cfg && enrolling).
Proof.
  unfold routes, base_routes, metadata_routes, enroll_routes. rewrite !fmap_app.
  repeat match goal with |- _ ++ _ = _ ++ _ => apply (f_equal2 app) end.
  - by rewrite (unmarked_map (Config.RequireVMIdentity cfg)).
  - destruct (EnableEC2Compat cfg); [|done]. rewrite !fmap_cons, fmap_nil.
    repeat (apply (f_equal2 cons); [first [apply handle_marked; by vm_compute|apply unmarked_map]|]). done.
  - destruct (_ && _); [|done]. by rewrite !(unmarked_map (Config.RequireVMIdentity cfg)).
  - by rewrite !(unmarked_map (Config.RequireVMIdentity cfg)).
Qed.

(** The segments of a path, as the mux matches them. *)
Definition segments (path : string) : list string := request_segments (tail (Split path "/")).

Lemma base_marks ec2 enroll :
  Forall (λ rt, (route_handler rt).1 = true →
    ∃ p, p ∈ IdentityBearingPaths ∧ route_segments rt = Lit <$> segments p) (base_routes ec2 enroll).
Proof.
  unfold base_routes. rewrite !Forall_app. split_and!; [| destruct ec2 | destruct enroll |];
    repeat (apply Forall_cons; split); try apply Forall_nil; try done;
    first [by intros Hm; vm_compute in Hm
          |intros _; exists "/latest/meta-data/instance-id"; split; [by left|vm_compute; reflexivity]
          |intros _; exists "/latest/dynamic/instance-identity/document"; split; [by right; left|vm_compute; reflexivity]].
Qed.
Lemma marked_paths ec2 enroll method escaped rt vals e :
  findHandler (base_routes ec2 enroll) method escaped = Found rt vals → route_handler rt = (true, e) →
  segments escaped ∈ segments <$> IdentityBearingPaths.
Proof.
  intros (Hin & _ & Hc)%findHandler_covers He.
  pose proof (proj1 (Forall_forall _ _) (base_marks ec2 enroll) rt Hin) as Hm. cbn beta in Hm; rewrite He in Hm.
  destruct (Hm eq_refl) as (p & Hp & Hs). rewrite Hs in Hc. apply covers_literal in Hc.
  unfold segments at 1. rewrite Hc. by apply list_elem_of_fmap_2.
Qed.

(** The request that reads a path. *)
Section reading.
Context (cfg : MDSConfig) (enrolling : bool) (c : context) (r : request).
Context (ec2 : EnableEC2Compat cfg = true) (reads : Method r = "GET" ∨ Method r = "HEAD").

Definition read (path : string) : response + endpoint := answer (routes cfg enrolling) c r path.

(** The mux takes a path to a handler, whether or not there are enrolment routes. *)
Definition routed (path : string) (identity : bool) (h : handler) : Prop :=
  ∀ enroll method, method = "GET" ∨ method = "HEAD" → ∃ segs i,
    findHandler (number (base_routes true enroll)) method path = Found (mkRoute "GET" segs i) [] ∧
    (route_handler <$> base_routes true enroll) !! i = Some (identity, Metadata h).

Lemma read_literal path identity h :
  routed path identity h →
  ∃ values, read path = inl ((if identity then Imds.RequireVMIdentity (Config.RequireVMIdentity cfg) store h else h) c
    (with_values r values)).
Proof.
  intros Hf. unfold read, answer. rewrite routes_marked, findHandler_map, ec2.
  destruct (Hf (EnableTPMAttestation cfg && enrolling) (Method r) reads) as (segs & i & Hn & Hi).
  rewrite (findHandler_number _ _ _ _ _ _ _ _ Hn Hi). cbn.
  destruct identity; eexists; reflexivity.
Qed.

(** An identity-bearing path: the token first, then the record. *)
Lemma read_identity path h :
  routed path true (with_token h) →
  ∃ values, read path = inl (
    if negb (validateToken c r) then unauthorized
    else if Config.RequireVMIdentity cfg && negb (IsBound (VM r)) then NotFound
    else h c (with_values r values)).
Proof.
  intros Hr. destruct (read_literal path true _ Hr) as [v E]. exists v. rewrite E. f_equal.
  unfold Imds.RequireVMIdentity, with_token. destruct (Config.RequireVMIdentity cfg); cbn [negb andb];
    change (storeValidatesToken (store c) c (with_values r v)) with (validateToken c r);
    change (validateToken c (with_values r v)) with (validateToken c r);
    change (VM (with_values r v)) with (VM r); [|done].
  destruct (validateToken c r); cbn [negb]; [|done]. by destruct (IsBound (VM r)).
Qed.

(** A value the path has for this caller. *)
Definition readable (path : string) : Prop := ∃ body, read path = inl (ok_text body).
End reading.

(** The handler of the instance id, behind its guards. *)
Definition instance_id : handler := fun c r =>
  let instanceID := InstanceID r in
  if bool_decide (instanceID = "") then WriteInstanceIDUnavailable else ok_text instanceID.

(** The mux finds a path's route. *)
Ltac route := intros [] ? [-> | ->]; (do 2 eexists; split; [vm_compute; reflexivity|reflexivity]).

Section index.
Context (cfg : MDSConfig) (enrolling : bool) (c : context) (r : request).
Context (ec2 : EnableEC2Compat cfg = true) (reads : Method r = "GET" ∨ Method r = "HEAD").
Context (token : validateToken c r = true).
Local Abbreviation get := (read cfg enrolling c r).
Local Abbreviation can_read := (readable cfg enrolling c r).

(** The answer of a handler behind its token guard. *)
Lemma read_guarded path h :
  routed path false (with_token h) →
  ∃ values, get path = inl (h c (with_values r values)).
Proof.
  intros Hf. destruct (read_literal cfg enrolling c r ec2 reads path false _ Hf) as [v E]. exists v. rewrite E.
  unfold with_token. change (validateToken c (with_values r v)) with (validateToken c r). by rewrite token.
Qed.

Lemma readable_text path s :
  get path = inl (if bool_decide (s = "") then writeNoTag else ok_text s) → can_read path ↔ s ≠ "".
Proof.
  intros E. unfold readable. rewrite E. case_bool_decide; [|split; [done|by eexists]].
  split; [by intros [? [=]]|done].
Qed.
Lemma readable_always path s : get path = inl (ok_text s) → can_read path.
Proof. intros E. by exists s. Qed.

Lemma in_index r0 :
  ("public-ipv4" ∈ index_paths r0 ↔ PublicIPv4 r0 ≠ "") ∧ ("tags/" ∈ index_paths r0 ↔ is_Some (InstanceTags r0)).
Proof.
  unfold index_paths. rewrite !elem_of_app.
  destruct (InstanceTags r0) as [t|]; case_bool_decide; rewrite !elem_of_cons, !elem_of_nil; split;
    (split; intros Hin; [|try by destruct Hin]); try done; try (by repeat destruct Hin as [Hin|Hin]);
    tauto.
Qed.

Lemma public_is_ipv4 r0 : PublicIPv4 r0 ≠ "" → ∃ v4, ParseIP (PublicIPv4 r0) ≫= To4 = Some v4.
Proof.
  unfold PublicIPv4. destruct (VM r0) as [vm|]; [|done]. cbn zeta. case_bool_decide; [done|].
  destruct (ParseIP _ ≫= To4) as [v4|] eqn:Hp; [|done]. intros _. exists v4.
  apply bind_Some in Hp as (ip & Hip & H4). destruct (To4_bytes _ _ _ Hip H4) as (a & b & d & e & -> & Hb).
  change (IPString [a; b; d; e]) with (ip4_string [a; b; d; e]). rewrite parse_ip4_string by done. apply To4_prefix.
Qed.

Lemma instance_id_readable require :
  (∃ body, inl (if require && negb (IsBound (VM r)) then NotFound else instance_id c r) = inl (ok_text body) :> response + endpoint) ↔
  IsBound (VM r) = true ∨ require = false ∧ LocalIPv4 r ≠ "".
Proof.
  unfold instance_id, InstanceID, BoundVM.
  destruct (IsBound (VM r)) eqn:Hb; cbn [negb]; rewrite ?andb_false_r, ?andb_true_r.
  - destruct (VM r) as [vm|]; [|done]. split; [by left|]. intros _. by eexists.
  - destruct require; [split; [by intros [? [=]]|by intros [|[]]]|]. cbn zeta.
    destruct (decide (LocalIPv4 r = "")) as [Hip|Hip].
    + rewrite (bool_decide_true _ Hip), bool_decide_true by done. split; [by intros [? [=]]|by intros [|[_ ?]]].
    + rewrite (bool_decide_false (LocalIPv4 r = "")), bool_decide_false by done.
      split; [by right|]. intros _. by eexists.
Qed.

End index.

(** ** Callers without a record *)

(** The same configuration without [require_vm_identity]. *)
Definition trusting (cfg : MDSConfig) : MDSConfig :=
  mkMDS (ListenAddr cfg) (JWKSPath cfg) (AttestationCA cfg) (EKCAChain cfg) (DevIDCACert cfg) (DevIDCAKey cfg)
    (DevIDLifetime cfg) (TokenTTL cfg) (JWTTTL cfg) (EnableEC2Compat cfg) (EnableTPMAttestation cfg) (TPMDevice cfg)
    (HostTPMDevice cfg) (SigningKeyPath cfg) (InventoryPath cfg) false (MDSClusterPinDir cfg) (MDSRequireClusterPin cfg).

Definition identity_document_handler : handler := fun c r =>
  if bool_decide (InstanceID r = "") then WriteInstanceIDUnavailable
  else mkResponse 200 (content_type "application/json") (Document (identity_document c r)).

Lemma other_paths_same cfg enrolling c r escaped :
  segments escaped ∉ segments <$> IdentityBearingPaths →
  answer (routes cfg enrolling) c r escaped = answer (routes (trusting cfg) enrolling) c r escaped.
Proof.
  intros Hno. unfold answer. rewrite !routes_marked, !findHandler_map. cbn [EnableEC2Compat EnableTPMAttestation trusting].
  destruct (findHandler (base_routes _ _) _ _) as [rt vals| |] eqn:E; cbn; [|done..].
  destruct (route_handler rt) as [[] e] eqn:He; [|done]. destruct Hno. by eapply marked_paths.
Qed.


(** ** Witnesses *)

Definition demo_token : Token := mkToken "tok" 100 0 "10.0.0.9".
Definition demo_context : context :=
  mkContext (Some (mkTokenStore {[ "tok" := demo_token ]} ∅ 1 false 60)) DefaultTopology 5.
Definition demo_request (vm : option VMConfig) : request :=
  mkRequest "GET" "/" "metadata" "10.0.0.9:33000" "tok" (λ _, "") vm.
Definition demo_vm : VMConfig := mkVM "101" "web" {[ "public-ipv4" := " 203.0.113.7 " ]} {[ "role" := "front" ]} [] "".


