(* ===== verification/Service.v ===== *)
(** * The metadata service as one machine (internal/server/server.go, src/main.go)

    The parts meet here: the connections with the record each was bound to when it
    was accepted, the limiter before the routes, the handlers over the token store,
    the inventory and the enrolment's stores. An event is one of them running from
    its start to its end: the stores' methods are atomic, and what else a handler
    reads while it runs is part of the event. A connection is a number. AccessLog adds
    the access log; diagnostic lines are left out. *)

From S2P Require Import Prelude.
From S2P Require Import Go.
From S2P Require Import Tokens.
From S2P Require Import Limiter.
From S2P Require Import Sessions.
From S2P Require Import Crypto.
From S2P Require Import Pins.
From S2P Require Import CA.
From S2P Require Import Csr.
From S2P Require Import Net.
From S2P Require Import Inventory.
From S2P Require Import Enroll.
From S2P Require Import Imds.
From S2P Require Import Mux.
From S2P Require Import Config.
From S2P Require Import Server.
From S2P Require Import Routes.

(** A connection that was accepted: the text of its peer's address, and the record
    every request on it carries. *)
Record connection := mkConnection { conn_addr : string; conn_vm : option VMConfig }.

Definition peerKeyFromAddr (remoteAddr : string) : string :=
  match PeerIP remoteAddr with Some ip => IPString ip | None => "unknown" end.

(** What a client sends: [call_escaped] is the [EscapedPath] of the URL. *)
Record call := mkCall {
  call_method : string;
  call_path : string;
  call_escaped : string;
  call_host : string;
  call_token : string;
  call_ek : string;
  call_body : string;
}.

Section service.
Context `{CR : Crypto} {CC : CACrypto} {WR : Wire} `{GU : GoUnicode}.
Context (decode : string → outcome string (list yamlVM)).
Context (range : gmap string string → list (string * string)).
Context (decode_start decode_finish : string → option (string * string)).
Context (float_part : Z → Z → nat → Z).
Context (NewCertPool : CertPool).
Context (AppendCertsFromPEM : string → option CertPool).
Context (PoolOf : certificate Key → CertPool).
Context (cfg : MDSConfig).

(** ** The server ([Server], and the package's own variables) *)

Record service := mkService {
  inventory : server;
  tokenStore : TokenStore;
  limiter : guestLimiter;
  devid : option Enroller;
  stores : world;
  connections : gmap nat connection;
}.
Definition set_inventory (x : server) (s : service) : service :=
  mkService x (tokenStore s) (limiter s) (devid s) (stores s) (connections s).
Definition set_tokens (x : TokenStore) (s : service) : service :=
  mkService (inventory s) x (limiter s) (devid s) (stores s) (connections s).
Definition set_limiter (x : guestLimiter) (s : service) : service :=
  mkService (inventory s) (tokenStore s) x (devid s) (stores s) (connections s).
Definition set_stores (x : world) (s : service) : service :=
  mkService (inventory s) (tokenStore s) (limiter s) (devid s) x (connections s).
Definition set_connections (x : gmap nat connection) (s : service) : service :=
  mkService (inventory s) (tokenStore s) (limiter s) (devid s) (stores s) x.

Definition sessionTTL : Z := (5 * Minute)%Z.

(** [imds.NewTokenStore] drops the error of [time.ParseDuration]. *)
Definition token_ttl : Z := match ParseDuration float_part (TokenTTL cfg) with Ok ttl => ttl | Err _ => 0%Z end.

(** [New]: a failed load or enroller is a warning. [pins] is the pin directory. *)
Definition New (a : attempt) (e : environment) (file : string → outcome string string)
    (pins : dirstate) : service :=
  let '(srv, _) := reloadNow sha256 decode range cfg a fresh_server in
  let enroller :=
    if EnableTPMAttestation cfg then
      match loadDevIDEnroller float_part NewCertPool AppendCertsFromPEM PoolOf cfg e file with
      | Ok enroller => enroller
      | Err _ => None
      end
    else None in
  mkService srv (NewTokenStore token_ttl) newGuestLimiter enroller (mkWorld (NewSessionStore sessionTTL) pins) ∅.

(** ** A request *)

(** What a request meets: the clocks of the limiter and of the handler, random bytes,
    what an enrolment leg reads, and what health reads. *)
Record moment := mkMoment {
  m_now : Z;
  m_since : Z;
  m_logged : Z;
  m_clock : Z;
  m_random : option string;
  m_leg : leg;
  m_env : environment;
}.
Inductive answered :=
| TooMany
| Minted (r : response)
| Metadata (r : response)
| Enrolment (r : reply)
| Readiness (h : health_body).

Definition request_of (c : connection) (q : call) : Imds.request :=
  Imds.mkRequest (call_method q) (call_path q) (call_host q) (conn_addr c) (call_token q) (λ _, "") (conn_vm c).
Definition enroll_request (c : connection) (q : call) : Enroll.request :=
  Enroll.mkRequest (conn_vm c) (call_ek q) (call_body q).
(** A leg asks for the inventory's pins: [Enroller.InventoryPins] is [inventoryPins]. *)
Definition leg_of (s : service) (m : moment) : leg :=
  let l := m_leg m in
  mkLeg (at_verify l) (at_session l) (at_issue l) (around l) (Some (inventoryPins (vmConfigCache (inventory s))))
    (session_random l) (challenge_random l) (between l) (faults1 l) (faults2 l).
Definition is_enrolling (s : service) : bool := bool_decide (is_Some (devid s)).

(** The routes. *)
Definition serve (c : connection) (q : call) (m : moment) (s : service) : service * answered :=
  let ctx := mkContext (Some (tokenStore s)) (hostTopology (inventory s)) (m_clock m) in
  let r := request_of c q in
  match answer (routes cfg (is_enrolling s)) ctx r (call_escaped q) with
  | inl rsp => (s, Metadata rsp)
  | inr CreateToken =>
      let '(ts, rsp) := HandleCreateToken (m_clock m) (m_random m) (tokenStore s) r in (set_tokens ts s, Minted rsp)
  | inr EnrollStart =>
      match devid s with
      | None => (s, Metadata NotFound)
      | Some e =>
          let '(w, rep) := HandleStart decode_start e (leg_of s m) (enroll_request c q) (stores s) in
          (set_stores w s, Enrolment rep)
      end
  | inr EnrollFinish =>
      match devid s with
      | None => (s, Metadata NotFound)
      | Some e =>
          let '(w, rep) := HandleFinish decode_finish e (leg_of s m) (enroll_request c q) (stores s) in
          (set_stores w s, Enrolment rep)
      end
  | inr HealthCheck =>
      let '(srv, h) := handleHealth cfg (is_enrolling s) (m_env m) (conn_vm c) (inventory s) in
      (set_inventory srv s, Readiness h)
  | inr _ => (s, Metadata NotFound)
  end.

(** [httpServer.Handler]: the limiter before the routes. *)
Definition handle_request (c : connection) (q : call) (m : moment) (s : service) : service * answered :=
  let '(l, ok) := guestLimitMiddleware (call_method q) (call_path q) (peerKeyFromAddr (conn_addr c))
                    (m_now m) (m_since m) (m_logged m) (limiter s) in
  let s := set_limiter l s in
  if ok : bool then serve c q m s else (s, TooMany).

(** ** The events *)

Inductive event :=
| Accept (c : nat) (remote : option (list Z)) (addr : string) (arp : outcome string string)
    (order : list (string * VMConfig)) (since logged : Z)
| ConnEvent (c : nat) (state : ConnState) (since logged : Z)
| Request (c : nat) (q : call) (m : moment)
| Reloads (e : reload_event)
| Scrub (now : Z)
| Sweep (order : list string) (now : Z)
| EditPins (edit : dirstate → dirstate).

(** net/http calls [ConnContext] when it has accepted a connection, and then
    [ConnState]; one beyond the cap is closed at once, and carries no request. [None]: the binding panicked,
    which ends the process. *)
Definition accept (c : nat) (remote : option (list Z)) (addr : string) (arp : outcome string string)
    (order : list (string * VMConfig)) (since logged : Z) (s : service) : option service :=
  let conn := extractVMConfig arp (vmConfigCache (inventory s)) order (mkConn remote None) in
  match once conn with
  | Some Panicked => None
  | _ =>
      let '(l, _) := trackConnState (peerKeyFromAddr addr) c StateNew since logged (limiter s) in
      let s := set_limiter l s in
      Some (set_connections (<[c := mkConnection addr (connContext conn)]> (connections s)) s)
  end.

Definition conn_event (c : nat) (state : ConnState) (since logged : Z) (s : service) : service :=
  match connections s !! c with
  | None => s
  | Some conn =>
      let '(l, _) := trackConnState (peerKeyFromAddr (conn_addr conn)) c state since logged (limiter s) in
      let s := set_limiter l s in
      match state with
      | StateClosed | StateHijacked => set_connections (delete c (connections s)) s
      | _ => s
      end
  end.

Definition step (ev : event) (s : service) : option (service * option answered) :=
  match ev with
  | Accept c remote addr arp order since logged =>
      if bool_decide (c ∈ dom (connections s)) then Some (s, None)
      else s ← accept c remote addr arp order since logged s; Some (s, None)
  | ConnEvent c state since logged => Some (conn_event c state since logged s, None)
  | Request c q m =>
      match connections s !! c with
      | None => Some (s, None)
      | Some conn =>
          if bool_decide (c ∈ overCap (limiter s)) then Some (s, None)
          else let '(s, a) := handle_request conn q m s in Some (s, Some a)
      end
  | Reloads e => Some (set_inventory (reload_step sha256 decode range cfg (inventory s) e) s, None)
  | Scrub now => Some (set_limiter (scrubIdlePeers now (limiter s)) s, None)
  | Sweep order now => Some (set_tokens (cleanupExpired order now (tokenStore s)) s, None)
  | EditPins edit => Some (set_stores (mkWorld (w_sessions (stores s)) (edit (w_pins (stores s)))) s, None)
  end.

(** [RefreshActiveVMConfigCache], for SIGHUP: [active] is the server [New] made, if
    it has. *)
Definition RefreshActiveVMConfigCache (active : option service) (a : attempt) : option service * outcome string () :=
  match active with
  | None => (None, Err "server not initialized")
  | Some s =>
      let '(srv, r) := reloadNow sha256 decode range cfg a (inventory s) in (Some (set_inventory srv s), r)
  end.

Fixpoint steps (evs : list event) (s : service) : option service :=
  match evs with [] => Some s | ev :: evs => r ← step ev s; steps evs r.1 end.

(** ** The process (src/main.go) *)

Inductive ending := Fatal (msg : string) | Stopped | Crashed.
(** From [New] to the signal that stops the process; a hangup in between is an event.
    [listen] is the error of the listener, if any. *)
Definition serve_until_stopped (listen : option string) (evs : list event) (s : service) : ending * option service :=
  match listen with
  | Some e => (Fatal ("Server error: " +:+ e), Some s)
  | None => match steps evs s with Some s => (Stopped, Some s) | None => (Crashed, None) end
  end.
End service.

Section main.
Context `{CR : Crypto} {CC : CACrypto} {WR : Wire} `{GU : GoUnicode}.
Context (decode : string → outcome string (list yamlVM)).
Context (range : gmap string string → list (string * string)).
Context (decode_start decode_finish : string → option (string * string)).
Context (float_part : Z → Z → nat → Z).
Context (NewCertPool : CertPool).
Context (AppendCertsFromPEM : string → option CertPool).
Context (PoolOf : certificate Key → CertPool).
Context (decode_config : string → MDSConfig → outcome string MDSConfig).

(** [main]; without a path the defaults serve. *)
Definition main_config (configPath : string) (file : string → outcome string string) : outcome string MDSConfig :=
  if bool_decide (configPath = "") then Ok DefaultConfig
  else prefix_error "Failed to load config: " (Load float_part decode_config (file configPath)).
Definition main (configPath : string) (file : string → outcome string string) (a : attempt) (e : environment)
    (pins : dirstate) (listen : option string) (evs : list event) : ending * option service :=
  match main_config configPath file with
  | Err msg => (Fatal msg, None)
  | Ok cfg =>
      serve_until_stopped decode range decode_start decode_finish cfg listen evs
        (New decode range float_part NewCertPool AppendCertsFromPEM PoolOf cfg a e file pins)
  end.
End main.
