(* ===== verification/ServiceProofs.v ===== *)
(** * The metadata service: what an answer rests on

    A history is what the service has been through since [New]. Whatever its events
    are, a certificate names the guest whose connection it went out on, and that
    guest is known by the MAC the kernel resolved and a record of the inventory
    ([certificate_names_its_caller]); metadata is for holders of a token this service
    minted ([metadata_needs_token]). *)

From S2P Require Import Prelude.
From S2P Require Import Go.
From S2P Require Import Tokens.
From S2P Require Import Limiter.
From S2P Require Import Sessions.
From S2P Require Import Crypto.
From S2P Require Import Pins.
From S2P Require Import CA.
From S2P Require Import Csr.
From S2P Require Import Net.
From S2P Require Import Inventory.
From S2P Require Import Proxmox.
From S2P Require Import Enroll.
From S2P Require Import EnrollProofs.
From S2P Require Import Imds.
From S2P Require Import Mux.
From S2P Require Import Config.
From S2P Require Import Server.
From S2P Require Import ServerProofs.
From S2P Require Import Served.
From S2P Require Import Routes.
From S2P Require Import RoutesProofs.
From S2P Require Import Service.

(** ** Tokens in the store were minted *)

Lemma delete_all_subset rem m : delete_all rem m ⊆ m.
Proof.
  apply map_subseteq_spec. intros v tok. rewrite delete_all_lookup. by case_decide.
Qed.
Lemma prune_subset peer now ts : tokens (prunePeerExpiredLocked peer now ts) ⊆ tokens ts.
Proof.
  destruct (decide (peer_tokens ts peer = [])); [by rewrite prune_nil|]. rewrite prune_drop by done.
  apply delete_all_subset.
Qed.
Lemma cleanup_subset order now ts : tokens (cleanupExpired order now ts) ⊆ tokens ts.
Proof.
  unfold cleanupExpired. assert (tokens (discardExpiredLocked order now ts) ⊆ tokens ts) as Hd; [|by case_match].
  unfold discardExpiredLocked. revert ts. induction order as [|peer order IH]; intros ts; cbn; [done|].
  etrans; [apply IH|apply prune_subset].
Qed.
Lemma generate_source peer now rnd ts v tok :
  tokens (generateTokenAt peer now rnd ts).1 !! v = Some tok →
  tokens ts !! v = Some tok ∨ (generateTokenAt peer now rnd ts).2 = Ok tok ∧ v = Tokens.Value tok.
Proof.
  rewrite generate_eq. destruct rnd as [b|]; cbn [fst snd]; [|by left]. cbv zeta.
  assert (tokens (make_room (mint_peer peer) now ts) ⊆ tokens ts) as Hs.
  { unfold make_room. etrans; [|apply prune_subset]. rewrite evict_drop by done. apply delete_all_subset. }
  destruct (GlobalTokenEmergencyCap <=? _)%Z; cbn [fst snd tokens store_token set_brake Tokens.Value].
  - left. by eapply lookup_weaken.
  - rewrite lookup_insert. case_decide as Hv.
    + intros [= <-]. by right.
    + left. by eapply lookup_weaken.
Qed.
Lemma prune_ttl peer now ts : tokenTTL (prunePeerExpiredLocked peer now ts) = tokenTTL ts.
Proof. unfold prunePeerExpiredLocked. repeat case_match; done. Qed.
Lemma discard_ttl order now ts : tokenTTL (discardExpiredLocked order now ts) = tokenTTL ts.
Proof.
  unfold discardExpiredLocked. revert ts. induction order as [|peer order IH]; intros ts; cbn; [done|].
  by rewrite IH, prune_ttl.
Qed.
Lemma cleanup_ttl order now ts : tokenTTL (cleanupExpired order now ts) = tokenTTL ts.
Proof. unfold cleanupExpired. case_match; cbn [tokenTTL set_brake]; apply discard_ttl. Qed.
Lemma generate_ttl peer now rnd ts :
  tokenTTL (generateTokenAt peer now rnd ts).1 = tokenTTL ts ∧
  ∀ tok, (generateTokenAt peer now rnd ts).2 = Ok tok →
    ExpiresAt tok = Add now (tokenTTL ts) ∧ Peer tok = mint_peer peer.
Proof.
  rewrite generate_eq. destruct rnd as [b|]; cbn [fst snd]; [|done]. cbv zeta. unfold make_room.
  rewrite evict_drop by done. destruct (_ <=? _)%Z; cbn [fst snd tokenTTL set_brake store_token drop_tokens];
    rewrite prune_ttl; (split; [done|]); [done|]. by intros tok [= <-].
Qed.

(** ** Answers behind the token guard *)

(** A handler that gives nothing away without a token. *)
Definition guarded (h : handler) : Prop := ∀ c r, Status (h c r) = 200%Z → validateToken c r = true.
Lemma with_token_guarded h : guarded (with_token h).
Proof. intros c r. unfold with_token. by destruct (validateToken c r). Qed.
Lemma wrapped_guarded require h : guarded h → guarded (Imds.RequireVMIdentity require store h).
Proof.
  intros Hh c r. unfold Imds.RequireVMIdentity. destruct require; cbn [negb]; [|by apply Hh].
  destruct (storeValidatesToken (store c) c r); cbn [negb]; [|by apply Hh]. by destruct (negb (IsBound (VM r))); [|apply Hh].
Qed.
Lemma redirect_guarded : guarded HandlePlacementRedirect.
Proof. intros c r. unfold HandlePlacementRedirect, Redirect. done. Qed.

Definition guarded_endpoint (e : endpoint) : Prop := match e with Routes.Metadata h => guarded h | _ => True end.
Lemma handle_guarded cfg p h : guarded h → guarded_endpoint (route_handler (handle cfg p h)).
Proof.
  intros Hh. unfold handle, Handle. destruct (parsePattern p). cbn.
  destruct (RequiresVMIdentity _); [by apply wrapped_guarded|done].
Qed.
Lemma redirect_route_guarded p : guarded_endpoint (route_handler (Handle p (Routes.Metadata HandlePlacementRedirect))).
Proof. unfold Handle. destruct (parsePattern p). apply redirect_guarded. Qed.
Lemma other_guarded p e : (if e is Routes.Metadata _ then False else True) → guarded_endpoint (route_handler (Handle p e)).
Proof. unfold Handle. destruct (parsePattern p). by destruct e. Qed.
Lemma routes_guarded cfg enrolling : Forall (λ rt, guarded_endpoint (route_handler rt)) (routes cfg enrolling).
Proof.
  unfold routes, metadata_routes, enroll_routes. rewrite !Forall_app.
  split_and!; [|destruct (EnableEC2Compat cfg)|destruct (EnableTPMAttestation cfg && enrolling)|];
    repeat (apply Forall_cons; split); try apply Forall_nil;
    try (apply handle_guarded, with_token_guarded); try apply redirect_route_guarded; try (apply other_guarded); exact I.
Qed.

(** What the mux answers by itself is no 200. *)
Lemma answer_guarded cfg enrolling c r escaped rsp :
  answer (routes cfg enrolling) c r escaped = inl rsp → Status rsp = 200%Z → validateToken c r = true.
Proof.
  unfold answer. destruct (findHandler _ _ _) as [rt vals|path|] eqn:Hf; [|by intros [= <-]..].
  apply findHandler_covers in Hf as (Hin & _).
  pose proof (proj1 (Forall_forall _ _) (routes_guarded cfg enrolling) rt Hin) as Hg. cbn beta in Hg.
  destruct (route_handler rt) as [|h| | | |]; try done; intros [= <-]; [|done]. intros H. by apply Hg in H.
Qed.

(** ** Histories *)

Section history.
Context `{CR : Crypto} {CC : CACrypto} {WR : Wire} `{GU : GoUnicode}.
Context (decode : string → outcome string (list yamlVM)).
Context (range : gmap string string → list (string * string)).
Context (decode_start decode_finish : string → option (string * string)).
Context (cfg : MDSConfig).
Local Abbreviation step := (Service.step decode range decode_start decode_finish cfg).
Local Abbreviation serve := (Service.serve decode_start decode_finish cfg).
Local Abbreviation load := (load_sources decode range cfg).
Implicit Types (s : service) (log : list (event * option answered)).

(** An event the runtime may yield. *)
Definition possible (ev : event) s : Prop :=
  match ev with Accept _ _ _ _ order _ _ => order ≡ₚ map_to_list (vmConfigCache (inventory s)) | _ => True end.

(** From [s0], the events of [log], each with its answer, lead to [s]. *)
Inductive history (s0 : service) : list (event * option answered) → service → Prop :=
| history_nil : history s0 [] s0
| history_step log s ev s' a :
    history s0 log s → possible ev s → step ev s = Some (s', a) → history s0 (log ++ [(ev, a)]) s'.

(** The event happened, in a state [s]. *)
Definition occurred s0 log s (x : event * option answered) : Prop :=
  ∃ log1 log2, log = log1 ++ x :: log2 ∧ history s0 log1 s ∧ possible x.1 s.
Lemma occurred_more s0 log log' s x : occurred s0 log s x → occurred s0 (log ++ log') s x.
Proof. intros (l1 & l2 & -> & H). exists l1, (l2 ++ log'). by rewrite <- (assoc_L (++)). Qed.
Lemma occurred_last s0 log s ev a : history s0 log s → possible ev s → occurred s0 (log ++ [(ev, a)]) s (ev, a).
Proof. intros Hh Hp. by exists log, []. Qed.

(** What the metadata handlers say to a request on a connection. *)
Definition metadata_answer s (c : connection) (q : call) (m : moment) : response + endpoint :=
  answer (routes cfg (is_enrolling s)) (mkContext (Some (tokenStore s)) (hostTopology (inventory s)) (m_clock m))
    (request_of c q) (call_escaped q).

(** How a request that passes the limiter ends. *)
Inductive ends (c : connection) (q : call) (m : moment) s : service → answered → Prop :=
| ends_metadata rsp : metadata_answer s c q m = inl rsp → ends c q m s s (Metadata rsp)
| ends_unrouted : ends c q m s s (Metadata NotFound)
| ends_minted ts rsp :
    HandleCreateToken (m_clock m) (m_random m) (tokenStore s) (request_of c q) = (ts, rsp) →
    ends c q m s (set_tokens ts s) (Minted rsp)
| ends_start e w rep :
    devid s = Some e → HandleStart decode_start e (leg_of s m) (enroll_request c q) (stores s) = (w, rep) →
    ends c q m s (set_stores w s) (Enrolment rep)
| ends_finish e w rep :
    devid s = Some e → HandleFinish decode_finish e (leg_of s m) (enroll_request c q) (stores s) = (w, rep) →
    ends c q m s (set_stores w s) (Enrolment rep)
| ends_health ready checked h :
    ends c q m s (set_inventory (set_ca_readable ready checked (inventory s)) s) (Readiness h)
| ends_healthy h : ends c q m s s (Readiness h).

Lemma serve_ends c q m s s' a : serve c q m s = (s', a) → ends c q m s s' a.
Proof.
  unfold Service.serve. fold (metadata_answer s c q m). destruct (metadata_answer s c q m) as [rsp|ep] eqn:Ha.
  { intros [= <- <-]. by apply ends_metadata. }
  destruct ep.
  - destruct (HandleCreateToken _ _ _ _) as [ts rsp] eqn:E. intros [= <- <-]. by apply ends_minted.
  - intros [= <- <-]. apply ends_unrouted.
  - destruct (devid s) as [e|] eqn:Hd; [|intros [= <- <-]; apply ends_unrouted].
    destruct (HandleStart _ _ _ _ _) as [w rep] eqn:E. intros [= <- <-]. by eapply ends_start.
  - destruct (devid s) as [e|] eqn:Hd; [|intros [= <- <-]; apply ends_unrouted].
    destruct (HandleFinish _ _ _ _ _) as [w rep] eqn:E. intros [= <- <-]. by eapply ends_finish.
  - unfold handleHealth, readiness, devIDCAReadableCached.
    assert (set_inventory (inventory s) s = s) as Hid by by destruct s.
    destruct (EnableTPMAttestation cfg); cbv zeta;
      [destruct (caCheckedAt (inventory s)) as [t|]; [destruct (_ <? _)%Z|]|]; intros [= <- <-];
      rewrite ?Hid; first [apply ends_healthy|apply ends_health].
  - intros [= <- <-]. apply ends_unrouted.
Qed.

(** A request on a connection that is served. *)
Lemma request_ends c q m s s' a conn :
  connections s !! c = Some conn → step (Request c q m) s = Some (s', Some a) →
  ∃ l, a = TooMany ∧ s' = set_limiter l s ∨ ends conn q m (set_limiter l s) s' a.
Proof.
  intros Hc. cbn [Service.step]. rewrite Hc. case_bool_decide; [done|]. unfold handle_request.
  destruct (guestLimitMiddleware _ _ _ _ _ _ _) as [l ok].
  destruct ok; [|intros [= <- <-]; exists l; by left].
  destruct (Service.serve _ _ _ _ _ _ _) as [s1 a1] eqn:E. intros [= -> ->]. exists l. right. by apply serve_ends.
Qed.

(** ** What the service has comes from its history *)

(** The connection was accepted, and bound to the record. *)
Definition bound_in s0 log (c : nat) (conn : connection) (vm : VMConfig) : Prop :=
  ∃ s remote arp order t1 t2, occurred s0 log s (Accept c remote (conn_addr conn) arp order t1 t2, None) ∧
    extractVMConfigByRouting arp (vmConfigCache (inventory s)) order remote = Bound vm.
(** A start leg opened the session. *)
Definition opened_in s0 log (sess : Session SigningRequest) : Prop :=
  ∃ s c q m conn e rep blob secret, occurred s0 log s (Request c q m, Some (Enrolment rep)) ∧
    connections s !! c = Some conn ∧ devid s0 = Some e ∧ status rep = 200%Z ∧
    vetted decode_start e (leg_of s m) (enroll_request conn q) sess ∧ body rep = StartBody (SessionID sess) blob secret.
(** A request to the token endpoint was answered with the token. *)
Definition minted_in s0 log (tok : Token) : Prop :=
  ∃ s c q m conn rsp, occurred s0 log s (Request c q m, Some (Minted rsp)) ∧ connections s !! c = Some conn ∧
    Status rsp = 200%Z ∧ Body rsp = Text (Tokens.Value tok) ∧ ExpiresAt tok = Add (m_clock m) (tokenTTL (tokenStore s0)).

Definition attempts_of log : list attempt :=
  omap (λ x, match x.1 with Reloads e => Some (event_attempt e) | _ => None end) log.

Record accounted (a0 : attempt) (s0 : service) log s : Prop := {
  acc_devid : devid s = devid s0;
  acc_session_ttl : Sessions.sessionTTL (w_sessions (stores s)) = Sessions.sessionTTL (w_sessions (stores s0));
  acc_token_ttl : tokenTTL (tokenStore s) = tokenTTL (tokenStore s0);
  acc_inventory : followed sha256 decode range cfg (a0 :: attempts_of log) (inventory s);
  acc_bound c conn vm : connections s !! c = Some conn → conn_vm conn = Some vm → bound_in s0 log c conn vm;
  acc_sessions id sess : sessions (w_sessions (stores s)) !! id = Some sess → SessionID sess = id ∧ opened_in s0 log sess;
  acc_tokens v tok : tokens (tokenStore s) !! v = Some tok → v = Tokens.Value tok ∧ minted_in s0 log tok;
}.

Lemma bound_more s0 log log' c conn vm : bound_in s0 log c conn vm → bound_in s0 (log ++ log') c conn vm.
Proof. intros (s & r & arp & o & t1 & t2 & Ho & H). exists s, r, arp, o, t1, t2. split; [by apply occurred_more|done]. Qed.
Lemma opened_more s0 log log' sess : opened_in s0 log sess → opened_in s0 (log ++ log') sess.
Proof.
  intros (s & c & q & m & conn & e & rep & b1 & b2 & Ho & H). exists s, c, q, m, conn, e, rep, b1, b2.
  split; [by apply occurred_more|done].
Qed.
Lemma minted_more s0 log log' tok : minted_in s0 log tok → minted_in s0 (log ++ log') tok.
Proof.
  intros (s & c & q & m & conn & rsp & Ho & H). exists s, c, q, m, conn, rsp. split; [by apply occurred_more|done].
Qed.

(** An event that leaves the stores, the tokens and the inventory's files alone. *)
Lemma accounted_frame a0 s0 log s ev a s' :
  accounted a0 s0 log s → attempts_of [(ev, a)] = [] →
  devid s' = devid s → Sessions.sessionTTL (w_sessions (stores s')) = Sessions.sessionTTL (w_sessions (stores s)) →
  tokenTTL (tokenStore s') = tokenTTL (tokenStore s) →
  followed sha256 decode range cfg (a0 :: attempts_of log) (inventory s') →
  (∀ c conn vm, connections s' !! c = Some conn → conn_vm conn = Some vm →
     connections s !! c = Some conn ∨ bound_in s0 (log ++ [(ev, a)]) c conn vm) →
  (∀ id sess, sessions (w_sessions (stores s')) !! id = Some sess →
     sessions (w_sessions (stores s)) !! id = Some sess ∨ SessionID sess = id ∧ opened_in s0 (log ++ [(ev, a)]) sess) →
  (∀ v tok, tokens (tokenStore s') !! v = Some tok →
     tokens (tokenStore s) !! v = Some tok ∨ v = Tokens.Value tok ∧ minted_in s0 (log ++ [(ev, a)]) tok) →
  accounted a0 s0 (log ++ [(ev, a)]) s'.
Proof.
  intros [H1 H2 H3 H4 H5 H6 H7] Hat Hd Hs Ht Hi Hc Hss Htk. split; [congruence..| | | |].
  - unfold attempts_of. rewrite omap_app. fold (attempts_of log) (attempts_of [(ev, a)]). by rewrite Hat, app_nil_r.
  - intros c conn vm Hl Hv. destruct (Hc c conn vm Hl Hv) as [Ho|]; [by eapply bound_more, H5|done].
  - intros id sess Hl. destruct (Hss id sess Hl) as [Ho|]; [|done].
    destruct (H6 id sess Ho). split; [done|by apply opened_more].
  - intros v tok Hl. destruct (Htk v tok Hl) as [Ho|]; [|done].
    destruct (H7 v tok Ho). split; [done|by apply minted_more].
Qed.

Lemma create_token_source now rnd ts r ts' rsp v tok :
  HandleCreateToken now rnd ts r = (ts', rsp) → tokens ts' !! v = Some tok →
  tokens ts !! v = Some tok ∨
  v = Tokens.Value tok ∧ Status rsp = 200%Z ∧ Body rsp = Text (Tokens.Value tok) ∧ ExpiresAt tok = Add now (tokenTTL ts).
Proof.
  unfold HandleCreateToken. set (peer := match PeerIP _ with Some ip => IPString ip | None => "unknown" end).
  pose proof (generate_source peer now rnd ts v tok) as Hs. destruct (generate_ttl peer now rnd ts) as [_ Ht].
  destruct (generateTokenAt peer now rnd ts) as [ts1 [t|[]]]; cbn [fst snd] in *; intros [= <- <-] Hl.
  - destruct (Hs Hl) as [|[[= ->] ->]]; [by left|right]. split_and!; [done..|]. by apply Ht.
  - destruct (Hs Hl) as [|[]]; [by left|done].
  - destruct (Hs Hl) as [|[]]; [by left|done].
Qed.
Lemma create_token_ttl now rnd ts r : tokenTTL (HandleCreateToken now rnd ts r).1 = tokenTTL ts.
Proof.
  unfold HandleCreateToken. set (peer := match PeerIP _ with Some ip => IPString ip | None => "unknown" end).
  destruct (generate_ttl peer now rnd ts) as [Ht _]. by destruct (generateTokenAt peer now rnd ts) as [ts1 [t|[]]].
Qed.

Lemma accounted_request a0 s0 log s c q m s' a :
  history s0 log s → accounted a0 s0 log s → step (Request c q m) s = Some (s', a) →
  accounted a0 s0 (log ++ [(Request c q m, a)]) s'.
Proof.
  intros Hh Ha Hstep. pose proof (occurred_last s0 log s (Request c q m) a Hh I) as Hlast.
  assert (∀ s', s' = s → accounted a0 s0 (log ++ [(Request c q m, a)]) s') as Hsame.
  { intros ? ->. apply (accounted_frame _ _ _ s); try done; [by destruct Ha|by intros; left..]. }
  destruct (connections s !! c) as [conn|] eqn:Hc; cycle 1.
  { cbn in Hstep. rewrite Hc in Hstep. injection Hstep as <- <-. by apply Hsame. }
  destruct a as [a|]; cycle 1.
  { cbn in Hstep. rewrite Hc in Hstep. destruct (bool_decide _); [by injection Hstep as <-; apply Hsame|].
    by destruct (handle_request _ _ _ _ _ _ _). }
  destruct (request_ends _ _ _ _ _ _ _ Hc Hstep) as (l & [[-> ->]|He]).
  { apply (accounted_frame _ _ _ s); try done; [by destruct Ha|by intros; left..]. }
  pose proof (acc_inventory _ _ _ _ Ha) as Hinv. pose proof (acc_devid _ _ _ _ Ha) as Hdev.
  pose proof (acc_token_ttl _ _ _ _ Ha) as Httl.
  inversion He as [rsp Hans| |ts rsp Hm|e w rep Hd Hs|e w rep Hd Hs|ready checked h|h]; subst; clear He;
    apply (accounted_frame _ _ _ s); cbn [devid stores tokenStore inventory connections set_limiter set_tokens set_stores
      Service.set_inventory] in *; try done; try (by intros; left).
  - rewrite <- (create_token_ttl (m_clock m) (m_random m) (tokenStore s) (request_of conn q)). by rewrite Hm.
  - intros v tok Hl. destruct (create_token_source _ _ _ _ _ _ _ _ Hm Hl) as [|(? & ? & ? & ?)]; [by left|right].
    split; [done|]. exists s, c, q, m, conn, rsp. split_and!; [done..|congruence].
  - apply start_step in Hs as (_ & Ht & _). done.
  - intros id sess Hl. apply start_step in Hs as (_ & _ & Hs). destruct (Hs id sess Hl) as [|(? & ? & ? & b1 & b2 & ?)]; [by left|right].
    split; [done|]. exists s, c, q, m, conn, e, rep, b1, b2. split_and!; try done; congruence.
  - by apply (finish_step decode_start) in Hs as (Ht & _ & _).
  - intros id sess Hl. apply (finish_step decode_start) in Hs as (_ & Hs & _). left. by apply Hs.
  - by destruct Hinv.
Qed.

Lemma accounted_step a0 s0 log s ev s' a :
  history s0 log s → possible ev s → accounted a0 s0 log s → step ev s = Some (s', a) →
  accounted a0 s0 (log ++ [(ev, a)]) s'.
Proof.
  intros Hh Hp Ha Hstep. pose proof (acc_inventory _ _ _ _ Ha) as Hinv.
  pose proof (occurred_last s0 log s ev a Hh Hp) as Hlast.
  destruct ev as [c remote addr arp order t1 t2|c state t1 t2|c q m|e|now|order now|edit];
    [| |by eapply accounted_request|..]; cbn [Service.step] in Hstep.
  - case_bool_decide as Hin.
    { injection Hstep as <- <-. apply (accounted_frame _ _ _ s); try done; by intros; left. }
    apply bind_Some in Hstep as (s1 & Hacc & [= <- <-]). unfold accept in Hacc.
    cbn [extractVMConfig once remote_ip] in Hacc. destruct (trackConnState _ _ _ _ _ _) as [l over].
    assert (∀ vm, connContext (mkConn remote (Some (extractVMConfigByRouting arp (vmConfigCache (inventory s)) order remote))) = Some vm →
      extractVMConfigByRouting arp (vmConfigCache (inventory s)) order remote = Bound vm) as Hb.
    { intros vm. unfold connContext. cbn. by case_match; intros [= <-]. }
    destruct (extractVMConfigByRouting _ _ _ _) eqn:E; try done; injection Hacc as <-;
      (apply (accounted_frame _ _ _ s); try done; [|by intros; left..]);
      intros c' conn vm'; cbn [connections set_connections set_limiter]; rewrite lookup_insert;
      (case_decide as Hcc; [|by left]); intros [= <-] Hv; right; apply Hb in Hv; subst c';
      (eexists s, remote, arp, order, t1, t2; split; [exact Hlast|]; by rewrite E, Hv).
  - injection Hstep as <- <-. unfold conn_event. destruct (connections s !! c) as [conn|] eqn:Hc; cycle 1.
    { apply (accounted_frame _ _ _ s); try done; by intros; left. }
    destruct (trackConnState _ _ _ _ _ _) as [l over].
    destruct state; apply (accounted_frame _ _ _ s); try done; try (by intros; left);
      intros c' conn'; cbn [connections set_connections set_limiter]; intros vm [_ Hl]%lookup_delete_Some Hv; by left.
  - injection Hstep as <- <-. destruct Ha as [H1 H2 H3 H4 H5 H6 H7]. split; try done.
    + unfold attempts_of. rewrite omap_app. cbn [inventory Service.set_inventory].
      exact (step_followed _ _ _ _ (a0 :: attempts_of log) (inventory s) e Hinv).
    + intros c conn vm Hl Hv. by eapply bound_more, H5.
    + intros id sess Hl. destruct (H6 id sess Hl). split; [done|by apply opened_more].
    + intros v tok Hl. destruct (H7 v tok Hl). split; [done|by apply minted_more].
  - injection Hstep as <- <-. apply (accounted_frame _ _ _ s); try done; by intros; left.
  - injection Hstep as <- <-. apply (accounted_frame _ _ _ s); try done; try (by intros; left).
    + apply cleanup_ttl.
    + intros v tok Hl. left. eapply lookup_weaken; [exact Hl|]. apply cleanup_subset.
  - injection Hstep as <- <-. apply (accounted_frame _ _ _ s); try done; by intros; left.
Qed.

(** ** The theorems *)

Context (float_part : Z → Z → nat → Z).
Context (NewCertPool : CertPool).
Context (AppendCertsFromPEM : string → option CertPool).
Context (PoolOf : certificate Key → CertPool).
(** A map is ranged over in some order of its own pairs. *)
Context (range_perm : ∀ m, range m ≡ₚ map_to_list m).
Local Abbreviation start := (New decode range float_part NewCertPool AppendCertsFromPEM PoolOf cfg).

Lemma start_fields a env file pins :
  let s0 := start a env file pins in
  connections s0 = ∅ ∧ sessions (w_sessions (stores s0)) = ∅ ∧ Sessions.sessionTTL (w_sessions (stores s0)) = sessionTTL ∧
  tokens (tokenStore s0) = ∅ ∧ tokenTTL (tokenStore s0) = token_ttl float_part cfg ∧
  inventory s0 = (reloadNow sha256 decode range cfg a fresh_server).1.
Proof. unfold New. by destruct (reloadNow _ _ _ _ _ _) as [srv r]. Qed.

Lemma history_accounted a env file pins log s :
  history (start a env file pins) log s → accounted a (start a env file pins) log s.
Proof.
  intros Hh. induction Hh as [|log s ev s' ans Hh IH Hp Hs]; [|by eapply accounted_step].
  destruct (start_fields a env file pins) as (Hc & Hss & _ & Htk & _ & Hi). split; try done.
  - rewrite Hi. apply (attempt_followed _ _ _ _ []). by split; [|left].
  - intros c conn vm. by rewrite Hc, lookup_empty.
  - intros id sess. by rewrite Hss, lookup_empty.
  - intros v tok. by rewrite Htk, lookup_empty.
Qed.

Lemma bound_by_mac arp cache order remote vm :
  order ≡ₚ map_to_list cache → extractVMConfigByRouting arp cache order remote = Bound vm →
  ∃ ip mac id, remote = Some ip ∧ getMACFromARP arp (IPString ip) = FoundMAC mac ∧ id ≠ "" ∧
    cache !! id = Some vm ∧ owns vm (clean_mac (clean_mac mac)).
Proof.
  intros Ho. unfold extractVMConfigByRouting. destruct remote as [ip|]; [|done].
  destruct (getMACFromARP _ _) as [|mac|] eqn:Hm; [done| |done]. case_bool_decide; [done|].
  destruct (findVMConfigByMAC _ _ _) as [vm'|] eqn:Hf; [|done]. intros [= ->]. unfold findVMConfigByMAC, GetVMIDByMAC in Hf.
  destruct (List.find _ order) as [[id r]|] eqn:Hfind; cbn [fst] in Hf; [|by rewrite bool_decide_true in Hf].
  apply List.find_some in Hfind as [Hin%list_elem_of_In Hown%owns_spec]. rewrite Ho in Hin.
  apply elem_of_map_to_list in Hin. case_bool_decide; [done|]. cbn [negb snd] in *.
  rewrite Hf in Hin. injection Hin as ->. by exists ip, mac, id.
Qed.

(** The guest behind a connection: when it was accepted, the kernel resolved its
    address to a MAC of the record, which one load of the inventory had read. *)
Definition known_caller a s0 log c (conn : connection) (vm : VMConfig) : Prop :=
  ∃ s ip arp order t1 t2 mac at1 t,
    occurred s0 log s (Accept c (Some ip) (conn_addr conn) arp order t1 t2, None) ∧
    getMACFromARP arp (IPString ip) = FoundMAC mac ∧ owns vm (clean_mac (clean_mac mac)) ∧
    at1 ∈ a :: attempts_of log ∧ load (at_load at1) = (Ok (vmConfigCache (inventory s)), t) ∧
    VMID vm ≠ "" ∧ vmConfigCache (inventory s) !! VMID vm = Some vm.

Lemma attempts_of_prefix log1 log2 x : attempts_of log1 ⊆ attempts_of (log1 ++ x :: log2).
Proof. unfold attempts_of. rewrite omap_app. set_solver. Qed.

Lemma bound_known a env file pins log s c conn vm :
  let s0 := start a env file pins in
  history s0 log s → connections s !! c = Some conn → conn_vm conn = Some vm → known_caller a s0 log c conn vm.
Proof.
  intros s0 Hh Hc Hv. pose proof (history_accounted _ _ _ _ _ _ Hh) as Ha.
  destruct (acc_bound _ _ _ _ Ha c conn vm Hc Hv) as (s1 & remote & arp & order & t1 & t2 & Ho & Hb).
  pose proof Ho as (log1 & log2 & Hlog & Hh1 & Hp). cbn [possible fst] in Hp.
  destruct (bound_by_mac _ _ _ _ _ Hp Hb) as (ip & mac & id & -> & Hmac & Hid & Hl & Hown).
  pose proof (history_accounted _ _ _ _ _ _ Hh1) as Ha1.
  destruct (followed_whole _ _ _ _ _ _ (acc_inventory _ _ _ _ Ha1)) as [[Hn _]|(at1 & Hin & Hload)].
  { by rewrite Hn, lookup_empty in Hl. }
  destruct (load_typed decode range range_perm cfg (at_load at1)) as [_ Hty]. rewrite Hload in Hty.
  pose proof (vt_id _ _ (Hty _ eq_refl id vm Hl)) as <-.
  exists s1, ip, arp, order, t1, t2, mac, at1, (hostTopology (inventory s1)). split_and!; try done.
  rewrite Hlog. apply elem_of_cons in Hin as [->|Hin]; [by left|]. right. by apply attempts_of_prefix.
Qed.

Lemma known_more a s0 log log' c conn vm : known_caller a s0 log c conn vm → known_caller a s0 (log ++ log') c conn vm.
Proof.
  intros (s & ip & arp & o & t1 & t2 & mac & at1 & t & Ho & Hm & Hown & Hin & H).
  exists s, ip, arp, o, t1, t2, mac, at1, t. split_and!; [by apply occurred_more|done|done| |apply H..].
  unfold attempts_of. rewrite omap_app. set_solver.
Qed.
Lemma start_no_certificate e l r w w' rep pem :
  HandleStart decode_start e l r w = (w', rep) → body rep ≠ FinishBody pem.
Proof.
  unfold HandleStart. repeat case_match; intros [= <- <-]; cbn; try done; unfold writeEnrollAuthError; by case_match.
Qed.
Lemma finish_certificate e l r w w' rep pem :
  HandleFinish decode_finish e l r w = (w', rep) → body rep = FinishBody pem → status rep = 200%Z.
Proof.
  unfold HandleFinish. repeat case_match; intros [= <- <-]; cbn; try done;
    unfold writeEnrollAuthError, finish_error; by case_match.
Qed.

(** C1: a certificate names the guest it is sent to. Whatever the service has been
    through, a certificate goes out only on a connection bound to a record, for which
    the kernel had resolved the peer's address to a MAC of that record when the
    connection was accepted, and which one load of the inventory had read; only
    after a start leg, on such a connection of a record with the same VM ID and with
    the same EK certificate, that opened the session no more than five minutes
    before, after every check; for the nonce encrypted to that EK. The certificate
    names the VM, holds the DevID key of the start leg's request and is no CA. *)
Theorem certificate_names_its_caller `{!CALaws} (sha256_length : ∀ x, String.length (sha256 x) = 32)
    a env file pins log s c q m s' rep pem :
  let s0 := start a env file pins in
  history s0 log s → step (Request c q m) s = Some (s', Some (Enrolment rep)) → body rep = FinishBody pem →
  ∃ conn vm cert sess s1 c1 q1 m1 conn1 vm1 e rep1 blob secret ca leaf resp,
    connections s !! c = Some conn ∧ conn_vm conn = Some vm ∧ known_caller a s0 log c conn vm ∧
    ParseEKCertHeader (call_ek q) = Ok cert ∧
    occurred s0 log s1 (Request c1 q1 m1, Some (Enrolment rep1)) ∧
    connections s1 !! c1 = Some conn1 ∧ conn_vm conn1 = Some vm1 ∧ known_caller a s0 log c1 conn1 vm1 ∧
    VMID vm1 = VMID vm ∧ devid s = Some e ∧
    vetted decode_start e (leg_of s1 m1) (enroll_request conn1 q1) sess ∧ SessEKFingerprint sess = EKFingerprint cert ∧
    body rep1 = StartBody (SessionID sess) blob secret ∧ alive sessionTTL (at_session (m_leg m)) sess ∧
    decode_finish (call_body q) = Some (SessionID sess, resp) ∧ base64_decode resp = Some (Nonce sess) ∧
    pem = pem_Encode "CERTIFICATE" (Raw leaf) +:+ pem_Encode "CERTIFICATE" (Raw (ca_cert ca)) ∧
    CommonName leaf = VMID vm ∧ (PublicKeyOf <$> DevIDKey (Sessions.Request sess)) = Some (Ok (PublicKey leaf)) ∧
    CertIsCA leaf = false.
Proof.
  intros s0 Hh Hstep Hbody. pose proof (history_accounted _ _ _ _ _ _ Hh) as Ha.
  destruct (connections s !! c) as [conn|] eqn:Hc; [|by cbn in Hstep; rewrite Hc in Hstep].
  destruct (request_ends _ _ _ _ _ _ _ Hc Hstep) as (l & [[? _]|He]); [done|].
  inversion He as [| | |e w ? Hd Hs|e w ? Hd Hf| |]; subst; [by apply start_no_certificate with (pem := pem) in Hs|].
  pose proof (finish_certificate _ _ _ _ _ _ _ Hf Hbody) as H200.
  apply (finish_step decode_start) in Hf as (_ & _ & Hf). destruct (Hf H200) as (id & sess & Hl & _ & Halive & Hcomp).
  cbn [stores set_limiter leg_of at_session] in Hl, Halive. destruct (acc_sessions _ _ _ _ Ha id sess Hl) as [<- Hop].
  destruct Hop as (s1 & c1 & q1 & m1 & conn1 & e1 & rep1 & blob & secret & Ho & Hc1 & Hd1 & _ & Hv & Hb1).
  pose proof (acc_devid _ _ _ _ Ha) as Hdev. cbn [devid set_limiter] in Hd.
  assert (e1 = e) as -> by congruence.
  destruct (legs_agree _ _ _ sha256_length _ _ _ _ _ _ Hv (Hcomp eq_refl)) as
    (vm & cert & ca & leaf & resp & (Hbound & Hcert & _) & Hvm & Hek & Hdf & Hresp & Hb & Hcn & Hpk & Hca).
  pose proof Hv as (vm1 & _ & _ & _ & _ & _ & _ & (Hbound1 & _) & Hvm1 & _).
  apply BoundVM_Some in Hbound as [Hbv _], Hbound1 as [Hbv1 _].
  rewrite (acc_session_ttl _ _ _ _ Ha) in Halive. destruct (start_fields a env file pins) as (_ & _ & Httl & _).
  cbn zeta in Httl. rewrite Httl in Halive. rewrite Hbody in Hb. injection Hb as ->.
  exists conn, vm, cert, sess, s1, c1, q1, m1, conn1, vm1, e, rep1, blob, secret, ca, leaf, resp.
  split_and!; try done; try congruence; [by eapply bound_known|].
  destruct Ho as (log1 & log2 & -> & Hh1 & _). apply known_more. by eapply bound_known.
Qed.

(** C2: metadata is for holders of a token of this service. Whatever the service has
    been through, a metadata request is answered with 200 only if it carries a token
    that an earlier request of this history was answered with, not longer ago than
    the tokens' lifetime. The answer is the handlers' for the record the connection
    was bound to when it was accepted, by the MAC the kernel resolved, if to any; and
    it changes nothing but the peer's budget. *)
Theorem metadata_needs_token a env file pins log s c q m s' rsp :
  let s0 := start a env file pins in
  history s0 log s → step (Request c q m) s = Some (s', Some (Metadata rsp)) → Status rsp = 200%Z →
  ∃ conn s1 c1 q1 m1 rsp1 l,
    connections s !! c = Some conn ∧ metadata_answer s conn q m = inl rsp ∧
    (∀ vm, conn_vm conn = Some vm → known_caller a s0 log c conn vm) ∧
    occurred s0 log s1 (Request c1 q1 m1, Some (Minted rsp1)) ∧
    Status rsp1 = 200%Z ∧ Body rsp1 = Text (call_token q) ∧ call_token q ≠ "" ∧
    (m_clock m ≤ Add (m_clock m1) (token_ttl float_part cfg))%Z ∧
    s' = set_limiter l s.
Proof.
  intros s0 Hh Hstep H200. pose proof (history_accounted _ _ _ _ _ _ Hh) as Ha.
  destruct (connections s !! c) as [conn|] eqn:Hc; [|by cbn in Hstep; rewrite Hc in Hstep].
  destruct (request_ends _ _ _ _ _ _ _ Hc Hstep) as (l & [[? _]|He]); [done|].
  inversion He as [? Hans| | | | | |]; subst; [|done]. change (metadata_answer s conn q m = inl rsp) in Hans.
  pose proof (answer_guarded _ _ _ _ _ _ Hans H200) as Htok.
  unfold validateToken, storeValidatesToken, ValidateToken in Htok. cbn [store clock token_header request_of] in Htok.
  case_bool_decide as Hne; [done|]. destruct (tokens (tokenStore s) !! call_token q) as [tok|] eqn:Hl; [|done].
  destruct (acc_tokens _ _ _ _ Ha _ _ Hl) as [Hv (s1 & c1 & q1 & m1 & conn1 & rsp1 & Ho & _ & Hst & Hb & Hex)].
  destruct (start_fields a env file pins) as (_ & _ & _ & _ & Httl & _). cbn zeta in Httl. rewrite Httl in Hex.
  exists conn, s1, c1, q1, m1, rsp1, l. split_and!; try done.
  - intros vm Hvm. by eapply bound_known.
  - by rewrite Hv.
  - unfold After in Htok. rewrite Hex in Htok. destruct (Z.ltb_spec (Add (m_clock m1) (token_ttl float_part cfg)) (m_clock m)); [done|lia].
Qed.
End history.

(** ** A guest that enrols and reads its identity *)

#[local] Existing Instance caseless.
Definition toy_mds : MDSConfig := {|
  ListenAddr := ":80"; JWKSPath := ""; AttestationCA := ""; EKCAChain := "/ek-chain.pem"; DevIDCACert := "/ca.pem";
  DevIDCAKey := "/ca.key"; DevIDLifetime := "2160h"; TokenTTL := "60s"; JWTTTL := ""; EnableEC2Compat := true;
  EnableTPMAttestation := true; TPMDevice := ""; HostTPMDevice := ""; SigningKeyPath := "";
  InventoryPath := "/inventory.yaml"; RequireVMIdentity := true; MDSClusterPinDir := ""; MDSRequireClusterPin := false |}.
Definition toy_file (name : string) : outcome string string :=
  if bool_decide (name = "/ca.pem") then Ok ("CERTIFICATE:CERT|ca|k" +:+ lf_string)
  else if bool_decide (name = "/ca.key") then Ok ("PRIVATE KEY:k" +:+ lf_string) else Ok "roots".
Definition toy_inventory (_ : string) : outcome string (list yamlVM) :=
  Ok [mkYaml "350" "web" ["BC:24:11:00:00:01"] "" "" "" "" ∅].
Definition toy_attempt : attempt := mkAttempt (mkSources (Content "") Proxmox.demo_pve) (mkSources (Content "") Proxmox.demo_pve) 0.
Definition toy_environment : environment := mkEnvironment "" "" (λ _, Ok 1%Z) (λ _, true) 0.

Abbreviation toy_service := (service (CR := toy_crypto) (CC := toy_ca_crypto) (WR := toy_wire)).
Definition toy_new : toy_service :=
  New (CR := toy_crypto) (CC := toy_ca_crypto) (WR := toy_wire) toy_inventory map_to_list no_fractions [] (λ _, Some ["ekca"])
    (λ _, []) toy_mds toy_attempt toy_environment toy_file (Listing ∅).
Definition toy_step (ev : event) (s : toy_service) : option (toy_service * option answered) :=
  Service.step (CR := toy_crypto) (CC := toy_ca_crypto) (WR := toy_wire) toy_inventory map_to_list toy_body toy_body toy_mds ev s.

Definition toy_arp : string := "10.0.0.5 0x1 0x2 bc:24:11:00:00:01 * vmbr_imds".
Definition toy_accept : event :=
  Accept 1 (Some [10; 0; 0; 5]%Z) "10.0.0.5:40000" (Ok toy_arp) (map_to_list (vmConfigCache (inventory toy_new))) 0 0.
Definition toy_moment (now : Z) : moment := mkMoment now now now now (Some "token") (toy_leg now) toy_environment.
Definition toy_post (path body : string) : call := mkCall "POST" path path "" "" (base64_encode "CERT|ekca|ek1") body.
Definition toy_first : event := Request 1 (toy_post "/latest/devid/enroll/start" toy_start) (toy_moment 0).
Definition toy_second : event := Request 1 (toy_post "/latest/devid/enroll/finish" toy_finish) (toy_moment Minute).

(** The state and the answer after an event that goes through. *)
Definition after (ev : event) (s : toy_service) : toy_service := match toy_step ev s with Some (s, _) => s | None => s end.
Definition said (ev : event) (s : toy_service) : option answered := match toy_step ev s with Some (_, a) => a | None => None end.
Lemma after_step ev s : is_Some (toy_step ev s) → toy_step ev s = Some (after ev s, said ev s).
Proof. unfold after, said. by intros [[s' a] ->]. Qed.
Definition goes (ev : event) (s : toy_service) : bool := match toy_step ev s with Some _ => true | None => false end.
Lemma goes_step ev s : goes ev s = true → toy_step ev s = Some (after ev s, said ev s).
Proof. unfold goes. intros H. apply after_step. destruct (toy_step ev s); [by eexists|done]. Qed.
Definition toy_bound : toy_service := after toy_accept toy_new.
Definition toy_opened : toy_service := after toy_first toy_bound.

Lemma toy_goes : goes toy_accept toy_new && goes toy_first toy_bound && goes toy_second toy_opened = true.
Proof. vm_compute. exact eq_refl. Qed.

Definition reply_of (a : option answered) : option reply := match a with Some (Enrolment rep) => Some rep | _ => None end.
Lemma reply_of_Some a rep : reply_of a = Some rep → a = Some (Enrolment rep).
Proof. destruct a as [[]|]; try done. by intros [= ->]. Qed.
Definition toy_chain : string :=
  "CERTIFICATE:CERT|350|devid1|60000000000|7776060000000000" +:+ lf_string +:+ "CERTIFICATE:CERT|ca|k" +:+ lf_string.
Lemma toy_certified : reply_of (said toy_second toy_opened) = Some (mkReply 200 (FinishBody toy_chain)).
Proof. by vm_compute. Qed.

Abbreviation toy_history := (history (CR := toy_crypto) (CC := toy_ca_crypto) (WR := toy_wire) toy_inventory map_to_list
  toy_body toy_body toy_mds toy_new).
Lemma toy_history_bound : toy_history [(toy_accept, said toy_accept toy_new)] toy_bound.
Proof.
  apply (history_step toy_inventory map_to_list toy_body toy_body toy_mds toy_new [] toy_new toy_accept);
    [apply history_nil|exact (Permutation_refl _)|].
  apply (goes_step toy_accept toy_new). pose proof toy_goes as [[H _]%andb_prop _]%andb_prop. exact H.
Qed.
Lemma toy_history_opened :
  toy_history [(toy_accept, said toy_accept toy_new); (toy_first, said toy_first toy_bound)] toy_opened.
Proof.
  apply (history_step toy_inventory map_to_list toy_body toy_body toy_mds toy_new [(toy_accept, said toy_accept toy_new)]
    toy_bound toy_first); [apply toy_history_bound|exact I|].
  apply (goes_step toy_first toy_bound). pose proof toy_goes as [[_ H]%andb_prop _]%andb_prop. exact H.
Qed.
Lemma toy_step_second : toy_step toy_second toy_opened =
  Some (after toy_second toy_opened, Some (Enrolment (mkReply 200 (FinishBody toy_chain)))).
Proof.
  rewrite <- (reply_of_Some _ _ toy_certified). apply (goes_step toy_second toy_opened).
  pose proof toy_goes as [_ H]%andb_prop. exact H.
Qed.

Lemma certificate_names_its_caller_witness :
  ∃ conn vm (leaf ca : certificate string), connections toy_opened !! 1 = Some conn ∧ conn_vm conn = Some vm ∧
    CommonName leaf = VMID vm ∧ CertIsCA leaf = false ∧
    toy_chain = pem_Encode "CERTIFICATE" (Raw leaf) +:+ pem_Encode "CERTIFICATE" (Raw ca).
Proof.
  destruct (certificate_names_its_caller (CR := toy_crypto) (CC := toy_ca_crypto) (WR := toy_wire) toy_inventory map_to_list
    toy_body toy_body toy_mds no_fractions [] (λ _, Some ["ekca"]) (λ _, []) (λ m, reflexivity _) (take_pad_length 32)
    toy_attempt toy_environment toy_file (Listing ∅)
    [(toy_accept, said toy_accept toy_new); (toy_first, said toy_first toy_bound)] toy_opened
    1 (toy_post "/latest/devid/enroll/finish" toy_finish) (toy_moment Minute) (after toy_second toy_opened)
    (mkReply 200 (FinishBody toy_chain)) toy_chain toy_history_opened toy_step_second eq_refl)
    as (conn & vm & cert & sess & s1 & c1 & q1 & m1 & conn1 & vm1 & e & rep1 & blob & secret & ca & leaf & resp & H).
  exists conn, vm, leaf, (ca_cert ca).
  destruct H as (H1 & H2 & _ & _ & _ & _ & _ & _ & _ & _ & _ & _ & _ & _ & _ & _ & Hpem & Hcn & _ & Hca).
  exact (conj H1 (conj H2 (conj Hcn (conj Hca Hpem)))).
Defined.

(** The guest takes a token and asks who it is. *)
Definition toy_mint : call := mkCall "PUT" "/latest/api/token" "/latest/api/token" "" "" "" "".
Definition toy_put : event := Request 1 toy_mint (toy_moment Second).
Definition toy_token : string := base64_encode "token".
Definition toy_ask : call := mkCall "GET" "/latest/meta-data/instance-id" "/latest/meta-data/instance-id" "" toy_token "" "".
Definition toy_get : event := Request 1 toy_ask (toy_moment (2 * Second)).
Definition toy_minted : toy_service := after toy_put toy_bound.
Definition metadata_of (a : option answered) : option (Z * content) :=
  match a with Some (Metadata rsp) => Some (Status rsp, Body rsp) | _ => None end.
Lemma metadata_of_Some a st b : metadata_of a = Some (st, b) → ∃ rsp, a = Some (Metadata rsp) ∧ Status rsp = st ∧ Body rsp = b.
Proof. destruct a as [[| |rsp| |]|]; try done. intros [= <- <-]. by exists rsp. Qed.
Lemma toy_reads : goes toy_put toy_bound && goes toy_get toy_minted = true.
Proof. vm_compute. exact eq_refl. Qed.
Lemma toy_identity : metadata_of (said toy_get toy_minted) = Some (200%Z, Text "i-350").
Proof. by vm_compute. Qed.
Lemma toy_history_minted :
  toy_history [(toy_accept, said toy_accept toy_new); (toy_put, said toy_put toy_bound)] toy_minted.
Proof.
  apply (history_step toy_inventory map_to_list toy_body toy_body toy_mds toy_new [(toy_accept, said toy_accept toy_new)]
    toy_bound toy_put); [apply toy_history_bound|exact I|].
  apply (goes_step toy_put toy_bound). pose proof toy_reads as [H _]%andb_prop. exact H.
Qed.
Lemma toy_step_get : ∃ rsp, toy_step toy_get toy_minted = Some (after toy_get toy_minted, Some (Metadata rsp)) ∧
  Status rsp = 200%Z ∧ Body rsp = Text "i-350".
Proof.
  destruct (metadata_of_Some _ _ _ toy_identity) as (rsp & H1 & H2 & H3). exists rsp. rewrite <- H1.
  split; [|by split]. apply (goes_step toy_get toy_minted). pose proof toy_reads as [_ H]%andb_prop. exact H.
Qed.

Lemma metadata_needs_token_witness :
  ∃ (rsp rsp1 : response) conn, connections toy_minted !! 1 = Some conn ∧ Body rsp = Text "i-350" ∧ Body rsp1 = Text toy_token.
Proof.
  destruct toy_step_get as (rsp & Hstep & H200 & Hb).
  destruct (metadata_needs_token (CR := toy_crypto) (CC := toy_ca_crypto) (WR := toy_wire) toy_inventory map_to_list
    toy_body toy_body toy_mds no_fractions [] (λ _, Some ["ekca"]) (λ _, []) (λ m, reflexivity _)
    toy_attempt toy_environment toy_file (Listing ∅)
    [(toy_accept, said toy_accept toy_new); (toy_put, said toy_put toy_bound)] toy_minted
    1 toy_ask (toy_moment (2 * Second)) (after toy_get toy_minted) rsp toy_history_minted Hstep H200)
    as (conn & s1 & c1 & q1 & m1 & rsp1 & l & Hc & _ & _ & _ & _ & Hb1 & _).
  exists rsp, rsp1, conn. exact (conj Hc (conj Hb Hb1)).
Defined.
