(* ===== verification/ServiceTokens.v ===== *)
(** * How long a token lasts in the service

    The limiter lets at most thirty token requests of a peer through in a minute,
    and the store holds thirty-two tokens for it, so no token is evicted for a minute
    after it was minted ([tokens_live_a_minute]). With tokens that last no longer
    than that, as by default, eviction never cuts a token's life short. *)

From S2P Require Import Prelude.
From S2P Require Import Go.
From S2P Require Import Tokens.
From S2P Require Import Limiter.
From S2P Require Import Sessions.
From S2P Require Import Crypto.
From S2P Require Import Pins.
From S2P Require Import CA.
From S2P Require Import Csr.
From S2P Require Import Net.
From S2P Require Import Inventory.
From S2P Require Import Enroll.
From S2P Require Import EnrollProofs.
From S2P Require Import Imds.
From S2P Require Import Mux.
From S2P Require Import Config.
From S2P Require Import Server.
From S2P Require Import Routes.
From S2P Require Import RoutesProofs.
From S2P Require Import Service.
From S2P Require Import ServiceProofs.

(** ** The token endpoint is where the limiter counts *)

Definition mints (rt : route endpoint) : Prop :=
  route_handler rt = CreateToken → route_method rt = "PUT" ∧ route_segments rt = Lit <$> segments "/latest/api/token".
Lemma handle_mints cfg p h : mints (handle cfg p h).
Proof. unfold mints, handle, Handle. by destruct (parsePattern p). Qed.
Lemma other_mints p e : (if e is CreateToken then False else True) → mints (Handle p e).
Proof. unfold mints, Handle. destruct (parsePattern p). by destruct e. Qed.
Lemma routes_mint cfg enrolling : Forall mints (routes cfg enrolling).
Proof.
  unfold routes, metadata_routes, enroll_routes. rewrite !Forall_app.
  split_and!; [by repeat constructor|destruct (EnableEC2Compat cfg)|destruct (EnableTPMAttestation cfg && enrolling)|];
    repeat (apply Forall_cons; split); try apply Forall_nil; try apply handle_mints; try (apply other_mints); exact I.
Qed.

Lemma answer_mints cfg enrolling c r escaped :
  answer (routes cfg enrolling) c r escaped = inr CreateToken →
  Method r = "PUT" ∧ segments escaped = segments "/latest/api/token".
Proof.
  unfold answer. destruct (findHandler _ _ _) as [rt vals|path|] eqn:Hf; [|done..].
  pose proof (findHandler_method _ _ _ _ _ Hf) as Hm. apply findHandler_covers in Hf as (Hin & _ & Hc).
  pose proof (proj1 (Forall_forall _ _) (routes_mint cfg enrolling) rt Hin) as Hr. unfold mints in Hr.
  destruct (route_handler rt) as [|h| | | |]; try done. intros _. destruct (Hr eq_refl) as [Hput Hs].
  rewrite Hput in Hm. rewrite Hs in Hc. apply covers_literal in Hc. split; [|exact Hc].
  by destruct Hm as [?|[?|[_ ?]]].
Qed.

(** ** One key for both *)

Lemma append_nonempty a c b : a +:+ String c b ≠ "".
Proof. by destruct a. Qed.
Lemma join_nonempty x y l c : Join (x :: y :: l) (String c "") ≠ "".
Proof. unfold Join. cbn [String.concat]. apply append_nonempty. Qed.
Lemma groups_two l : 4 ≤ length l → ∃ x y g, groups_of l = x :: y :: g.
Proof. destruct l as [|a [|b [|c [|d l]]]]; cbn; intros; try lia. by eexists _, _, _. Qed.
Lemma ip6_nonempty ip : length ip = 16 → ip6_string ip ≠ "".
Proof.
  intros Hl. unfold ip6_string. destruct (groups_two ip) as (x & y & g & Hg); [lia|].
  destruct (best_run 0 _ _) as [zs ze]. destruct (Nat.ltb_spec zs 8).
  - apply append_nonempty.
  - rewrite Hg. destruct zs as [|[|zs]]; [lia..|]. rewrite string_app_nil_r. apply join_nonempty.
Qed.
Lemma peerKey_nonempty addr : peerKeyFromAddr addr ≠ "".
Proof.
  unfold peerKeyFromAddr. destruct (PeerIP addr) as [ip|] eqn:Hp; [|done]. unfold PeerIP in Hp.
  pose proof (ParseIP_bytes _ _ Hp) as [_ Hl]. unfold IPString. destruct (To4 ip) as [v4|] eqn:H4; [|by apply ip6_nonempty].
  destruct (To4_bytes _ _ _ Hp H4) as (a & b & c & d & -> & _). apply join_nonempty.
Qed.
Lemma mint_peer_key addr : mint_peer (peerKeyFromAddr addr) = peerKeyFromAddr addr.
Proof. unfold mint_peer. rewrite bool_decide_false; [done|apply peerKey_nonempty]. Qed.

(** ** Histories with one clock *)

Section life.
Context `{CR : Crypto} {CC : CACrypto} {WR : Wire} `{GU : GoUnicode}.
Context (decode : string → outcome string (list yamlVM)).
Context (range : gmap string string → list (string * string)).
Context (decode_start decode_finish : string → option (string * string)).
Context (cfg : MDSConfig).
Local Abbreviation step := (Service.step decode range decode_start decode_finish cfg).
Local Abbreviation serve := (Service.serve decode_start decode_finish cfg).
Implicit Types (s : service) (log : list (event * option answered)).

Definition time_of (t : Z) (ev : event) : Z :=
  match ev with Request _ _ m => m_now m | Scrub now | Sweep _ now => now | _ => t end.
(** One clock that does not go back, random bytes that no live token is made of, and
    a path that is its escaped form decoded. *)
Definition ordinary (t : Z) (ev : event) s : Prop :=
  possible ev s ∧ (t ≤ time_of t ev)%Z ∧
  match ev with
  | Request _ q m => m_clock m = m_now m ∧ fresh_random (m_random m) (tokenStore s) ∧
      (segments (call_escaped q) = segments "/latest/api/token" → call_path q = "/latest/api/token")
  | _ => True
  end.
Inductive timely (s0 : service) (t0 : Z) : list (event * option answered) → Z → service → Prop :=
| timely_nil : timely s0 t0 [] t0 s0
| timely_step log t s ev s' a :
    timely s0 t0 log t s → ordinary t ev s → step ev s = Some (s', a) →
    timely s0 t0 (log ++ [(ev, a)]) (time_of t ev) s'.
Lemma timely_history s0 t0 log t s : timely s0 t0 log t s → history decode range decode_start decode_finish cfg s0 log s.
Proof. induction 1 as [|log t s ev s' a _ IH [Hp _] Hs]; [constructor|by econstructor]. Qed.

Lemma serve_tokens c q m s s' a :
  serve c q m s = (s', a) → limiter s' = limiter s ∧
  ((tokenStore s' = tokenStore s ∧ (if a is Minted _ then False else True)) ∨
   metadata_answer cfg s c q m = inr CreateToken ∧ ∃ ts rsp,
     HandleCreateToken (m_clock m) (m_random m) (tokenStore s) (request_of c q) = (ts, rsp) ∧
     tokenStore s' = ts ∧ a = Minted rsp).
Proof.
  unfold Service.serve. fold (metadata_answer cfg s c q m). destruct (metadata_answer cfg s c q m) as [rsp|ep] eqn:Ha.
  { intros [= <- <-]. by split; [|left]. }
  destruct ep; try (intros [= <- <-]; by split; [|left]).
  - destruct (HandleCreateToken _ _ _ _) as [ts rsp] eqn:E. intros [= <- <-]. split; [done|right].
    split; [done|]. by exists ts, rsp.
  - destruct (devid s); [destruct (HandleStart _ _ _ _ _)|]; intros [= <- <-]; by split; [|left].
  - destruct (devid s); [destruct (HandleFinish _ _ _ _ _)|]; intros [= <- <-]; by split; [|left].
  - destruct (handleHealth _ _ _ _ _). intros [= <- <-]. by split; [|left].
Qed.

Lemma request_split c q m s s' a :
  step (Request c q m) s = Some (s', a) →
  (s' = s ∧ a = None) ∨ ∃ conn l ok,
    guestLimitMiddleware (call_method q) (call_path q) (peerKeyFromAddr (conn_addr conn)) (m_now m) (m_since m)
      (m_logged m) (limiter s) = (l, ok) ∧
    ((ok = false ∧ s' = set_limiter l s ∧ a = Some TooMany) ∨
     (ok = true ∧ ∃ a1, a = Some a1 ∧ serve conn q m (set_limiter l s) = (s', a1))).
Proof.
  cbn [Service.step]. destruct (connections s !! c) as [conn|]; [|intros [= <- <-]; by left].
  case_bool_decide; [intros [= <- <-]; by left|]. unfold handle_request.
  destruct (guestLimitMiddleware _ _ _ _ _ _ _) as [l ok] eqn:E. intros Hs. right. exists conn, l, ok. split; [done|].
  destruct ok; [right|left; by injection Hs as <- <-]. split; [done|].
  destruct (Service.serve _ _ _ _ _ _ _) as [s1 a1]. injection Hs as <- <-. by exists a1.
Qed.

(** What an event does to the budget of a peer and to the store. *)
Record token_effect (key : string) (P : list Z) (t : Z) s s' (Q : list Z) (ops : list ts_op) : Prop := {
  te_rate : rate_inv limitKindToken key t (limiter s') (P ++ Q);
  te_now x : x ∈ Q → x = t;
  te_store : tokenStore s' = ts_run ops (tokenStore s);
  te_fresh : trace_fresh ops (tokenStore s);
  te_times o : o ∈ ops → op_time o = t;
  te_one : length ops ≤ 1;
  te_mints : mints_of key ops ≤ length Q;
}.
Lemma effect_quiet key P t s s' e :
  rate_inv limitKindToken key t (limiter s) P → (t ≤ Limiter.tick t e)%Z →
  pass_time limitKindToken key (e, (Limiter.step e (limiter s)).2) = None →
  limiter s' = (Limiter.step e (limiter s)).1 → tokenStore s' = tokenStore s →
  token_effect key P (Limiter.tick t e) s s' [] [].
Proof.
  intros Hr Ht Hp Hl Hts. pose proof (rate_inv_step limitKindToken key t e (limiter s) P ltac:(done) Hr Ht) as H.
  rewrite Hp, <- Hl in H. split; cbn; try done; try lia; by intros ? ?%not_elem_of_nil.
Qed.

Lemma track_effect key P t s s' k c state since logged :
  rate_inv limitKindToken key t (limiter s) P →
  limiter s' = (trackConnState k c state since logged (limiter s)).1 → tokenStore s' = tokenStore s →
  token_effect key P t s s' [] [].
Proof. intros Hr Hl Hts. by apply (effect_quiet key P t s s' (Limiter.ConnEvent k c state since logged)). Qed.
Lemma same_effect key P t t' s s' :
  rate_inv limitKindToken key t (limiter s) P → (t ≤ t')%Z → limiter s' = limiter s → tokenStore s' = tokenStore s →
  token_effect key P t' s s' [] [].
Proof.
  intros Hr Ht Hl Hts. split; cbn; try done; try lia; try by intros ? ?%not_elem_of_nil. rewrite app_nil_r, Hl.
  eapply rate_inv_same; [done..|apply (inv_conns _ _ _ _ _ Hr)|done].
Qed.

(** The token endpoint's answer is the mint's. *)
Lemma create_token_mint now rnd ts r ts' rsp :
  HandleCreateToken now rnd ts r = (ts', rsp) →
  ts' = (generateTokenAt (peerKeyFromAddr (RemoteAddr r)) now rnd ts).1 ∧
  (Status rsp = 200%Z → ∃ tok, (generateTokenAt (peerKeyFromAddr (RemoteAddr r)) now rnd ts).2 = Ok tok ∧
     Body rsp = Text (Tokens.Value tok)).
Proof.
  unfold HandleCreateToken. fold (peerKeyFromAddr (RemoteAddr r)).
  destruct (generateTokenAt _ now rnd ts) as [ts1 [tok|[]]]; intros [= <- <-]; (split; [done|]); [by exists tok|done..].
Qed.

(** A request the token endpoint answered: the limiter charged it, and the store minted. *)
Lemma request_minted t c q m s s' rsp :
  ordinary t (Request c q m) s → step (Request c q m) s = Some (s', Some (Minted rsp)) → ∃ key,
    guestLimitMiddleware "PUT" "/latest/api/token" key (m_now m) (m_since m) (m_logged m) (limiter s) = (limiter s', true) ∧
    mint_peer key = key ∧ tokenStore s' = (generateTokenAt key (m_now m) (m_random m) (tokenStore s)).1 ∧
    (Status rsp = 200%Z → ∃ tok, (generateTokenAt key (m_now m) (m_random m) (tokenStore s)).2 = Ok tok ∧
       Body rsp = Text (Tokens.Value tok)).
Proof.
  intros (_ & _ & Hclock & _ & Hurl) [[_ ?]|(conn & l & ok & Hlim & [(_ & _ & [=])|(-> & a1 & [= <-] & Hs)])]%request_split; [done|].
  apply serve_tokens in Hs as [Hl [[_ ?]|(Hans & ts & rsp' & Hm & Hts & [= <-])]]; [done|]. cbn [set_limiter limiter tokenStore] in *.
  apply answer_mints in Hans as [Hput Hseg]. cbn [Method request_of] in Hput. apply Hurl in Hseg. rewrite Hput, Hseg in Hlim.
  apply create_token_mint in Hm as [-> Hok]. cbn [RemoteAddr request_of] in *. rewrite Hclock in *.
  exists (peerKeyFromAddr (conn_addr conn)). rewrite mint_peer_key, Hl. done.
Qed.

Definition is_minted (a : option answered) : bool := match a with Some (Minted _) => true | _ => false end.
Lemma request_other t c q m s s' a :
  ordinary t (Request c q m) s → step (Request c q m) s = Some (s', a) → is_minted a = false →
  tokenStore s' = tokenStore s ∧ (limiter s' = limiter s ∨ ∃ method path key c1 c2,
    limiter s' = (guestLimitMiddleware method path key (m_now m) c1 c2 (limiter s)).1).
Proof.
  intros Ho [[-> ->]|(conn & l & ok & Hlim & Hcases)]%request_split Ha; [by split; [|left]|].
  assert (limiter s' = l ∧ tokenStore s' = tokenStore s) as [-> ->].
  { destruct Hcases as [(_ & -> & _)|(_ & a1 & -> & Hs)]; [done|].
    apply serve_tokens in Hs as [-> [[-> _]|(_ & ? & ? & _ & _ & ->)]]; done. }
  split; [done|]. right. eexists _, _, _, _, _. by rewrite Hlim.
Qed.

(** One request of the limiter, and the times it paid for. *)
Lemma limited_request key t P method path pk now c1 c2 s :
  rate_inv limitKindToken key t (limiter s) P → (t ≤ now)%Z →
  let r := guestLimitMiddleware method path pk now c1 c2 (limiter s) in
  let Q := option_list (pass_time limitKindToken key (Limiter.Request method path pk now c1 c2, r.2)) in
  rate_inv limitKindToken key now r.1 (P ++ Q) ∧ ∀ x, x ∈ Q → x = now.
Proof.
  intros Hr Ht r Q.
  split; [exact (rate_inv_step limitKindToken key t (Limiter.Request method path pk now c1 c2) (limiter s) P ltac:(done) Hr Ht)|].
  intros x. subst Q. cbn. destruct r.2; [|by intros ?%not_elem_of_nil]. destruct (_ && _); cbn; [|by intros ?%not_elem_of_nil].
  by intros ->%list_elem_of_singleton.
Qed.

Lemma mint_paid key t P t' s s' pk c1 c2 :
  rate_inv limitKindToken key t (limiter s) P → (t ≤ t')%Z →
  guestLimitMiddleware "PUT" "/latest/api/token" pk t' c1 c2 (limiter s) = (limiter s', true) →
  ∃ Q, rate_inv limitKindToken key t' (limiter s') (P ++ Q) ∧ (∀ x, x ∈ Q → x = t') ∧ (pk = key → Q = [t']).
Proof.
  intros Hr Ht Hlim. destruct (limited_request key t P "PUT" "/latest/api/token" pk t' c1 c2 s Hr Ht) as [Hq HQ].
  rewrite Hlim in Hq, HQ. cbn [fst snd] in Hq, HQ. eexists. split_and!; [exact Hq|exact HQ|].
  intros ->. cbn. by rewrite bool_decide_eq_true_2.
Qed.

Lemma request_effect key P t c q m s s' a :
  ordinary t (Request c q m) s → rate_inv limitKindToken key t (limiter s) P →
  step (Request c q m) s = Some (s', a) → ∃ Q ops, token_effect key P (m_now m) s s' Q ops.
Proof.
  intros Ho Hr Hs. pose proof Ho as (_ & Ht & _ & Hfresh & _). cbn [time_of] in Ht.
  destruct (is_minted a) eqn:Hno; cycle 1.
  - destruct (request_other _ _ _ _ _ _ _ Ho Hs Hno) as [Hts [Hl|(method & path & pk & c1 & c2 & Hl)]].
    { exists [], []. by eapply same_effect. }
    destruct (limited_request key t P method path pk (m_now m) c1 c2 s Hr Ht) as [Hq HQ].
    eexists _, []. split; [rewrite Hl; exact Hq|exact HQ|done|done|by intros ? ?%not_elem_of_nil|cbn; lia|cbn; lia].
  - destruct a as [[|rsp| | |]|]; try done. destruct (request_minted _ _ _ _ _ _ _ Ho Hs) as (pk & Hlim & Hpk & Hts & _).
    destruct (mint_paid key t P _ s s' pk _ _ Hr Ht Hlim) as (Q & Hq & HQ & Hpaid).
    exists Q, [OpMint pk (m_now m) (m_random m)].
    split; cbn; try done; [by intros o ->%list_elem_of_singleton|]. rewrite Hpk. case_decide as Hk; [by rewrite (Hpaid Hk)|lia].
Qed.

Lemma step_effect key P t ev s s' a :
  ordinary t ev s → rate_inv limitKindToken key t (limiter s) P → step ev s = Some (s', a) →
  ∃ Q ops, token_effect key P (time_of t ev) s s' Q ops.
Proof.
  intros Ho Hr Hs. destruct ev as [c remote addr arp order t1 t2|c state t1 t2|c q m|e|now|order now|edit];
    [| |by eapply request_effect|..]; pose proof Ho as (_ & Ht & _); cbn [Service.step] in Hs; exists [].
  - case_bool_decide; [injection Hs as <- <-; exists []; by eapply same_effect|].
    apply bind_Some in Hs as (s1 & Hacc & [= <- <-]). exists []. unfold accept in Hacc. cbn zeta in Hacc.
    destruct (trackConnState (peerKeyFromAddr addr) c StateNew t1 t2 (limiter s)) as [l over] eqn:E.
    assert (limiter s1 = l ∧ tokenStore s1 = tokenStore s) as [Hl Hts] by (by destruct (once _) as [[]|]; simplify_eq).
    eapply (track_effect _ _ _ _ _ (peerKeyFromAddr addr) c StateNew t1 t2); [done|by rewrite E|done].
  - injection Hs as <- <-. exists []. unfold conn_event.
    destruct (connections s !! c) as [conn|]; [|by eapply same_effect].
    destruct (trackConnState (peerKeyFromAddr (conn_addr conn)) c state t1 t2 (limiter s)) as [l over] eqn:E.
    eapply (track_effect _ _ _ _ _ (peerKeyFromAddr (conn_addr conn)) c state t1 t2);
      [done|by destruct state; rewrite E|by destruct state].
  - injection Hs as <- <-. exists []. by eapply same_effect.
  - injection Hs as <- <-. exists []. by apply (effect_quiet key P t s _ (Limiter.ScrubTick now)).
  - injection Hs as <- <-. exists [OpCleanup order now].
    destruct (same_effect key P t now s s Hr Ht eq_refl eq_refl) as [H1 _ _ _ _ _ _].
    split; try done; cbn; [by intros ? ?%not_elem_of_nil|by intros o ->%list_elem_of_singleton].
  - injection Hs as <- <-. exists []. by eapply same_effect.
Qed.

(** ** What holds in between *)

Definition sound (t : Z) s : Prop :=
  store_wf (tokenStore s) ∧ ∀ key, ∃ P, rate_inv limitKindToken key t (limiter s) P.
Lemma exec_ttl op ts : tokenTTL (ts_exec op ts) = tokenTTL ts.
Proof. destruct op; cbn [ts_exec fst]; [apply generate_ttl|apply cleanup_ttl|apply discard_ttl|apply prune_ttl]. Qed.
Lemma sound_step t ev s s' a :
  sound t s → ordinary t ev s → step ev s = Some (s', a) → sound (time_of t ev) s' ∧ tokenTTL (tokenStore s') = tokenTTL (tokenStore s).
Proof.
  intros [Hwf Hr] Ho Hs. destruct (Hr "") as [P0 HP0]. destruct (step_effect "" P0 t ev s s' a Ho HP0 Hs) as (Q0 & ops & He).
  split; [split|].
  - rewrite (te_store _ _ _ _ _ _ _ He). apply run_wf; [done|apply (te_fresh _ _ _ _ _ _ _ He)].
  - intros key. destruct (Hr key) as [P HP]. destruct (step_effect key P t ev s s' a Ho HP Hs) as (Q & ops' & He').
    exists (P ++ Q). apply (te_rate _ _ _ _ _ _ _ He').
  - rewrite (te_store _ _ _ _ _ _ _ He). pose proof (te_one _ _ _ _ _ _ _ He) as H1.
    destruct ops as [|o [|]]; cbn in H1 |- *; [done| |lia]. apply exec_ttl.
Qed.

(** The token is stored, and behind it no more tokens of its peer than the budget has
    paid since. *)
Definition kept (tok : Token) (minted t : Z) s : Prop :=
  ∃ P1 P2, rate_inv limitKindToken (Peer tok) t (limiter s) (P1 ++ minted :: P2) ∧ (∀ x, x ∈ P2 → (minted ≤ x)%Z) ∧
    (minted ≤ t)%Z ∧
    ((t < minted + limitWindow)%Z → (t ≤ ExpiresAt tok)%Z → stored_with (length P2) tok (tokenStore s)).

Lemma stored_with_le k k' tok ts : k ≤ k' → stored_with k tok ts → stored_with k' tok ts.
Proof. intros Hk (l1 & l2 & Hl & Hle). exists l1, l2. split; [done|lia]. Qed.
Lemma stored_with_exec k tok op ts :
  live (op_time op) tok → k ≤ 30 → stored_with k tok ts → stored_with (k + mints_of (Peer tok) [op]) tok (ts_exec op ts).
Proof.
  intros Hl Hk Hs. destruct op; cbn [ts_exec mints_of op_time] in *.
  - rewrite Nat.add_0_r. by apply stored_with_mint.
  - rewrite Nat.add_0_r. unfold cleanupExpired. case_match; by apply stored_with_discard.
  - rewrite Nat.add_0_r. by apply stored_with_discard.
  - rewrite Nat.add_0_r. by apply stored_with_prune.
Qed.

(** Within a minute of the mint, the budget has paid for twenty-nine more at most. *)
Lemma paid_since key t l P1 minted P2 :
  rate_inv limitKindToken key t l (P1 ++ minted :: P2) → (∀ x, x ∈ P2 → (minted ≤ x)%Z) → (t < minted + limitWindow)%Z →
  length P2 ≤ 29.
Proof.
  intros [_ Hp _ Hr] Hge Ht. specialize (Hr t). rewrite filter_app, filter_cons, length_app in Hr.
  assert (∀ x, x = minted ∨ x ∈ P2 → in_minute t x) as Hin.
  { intros x Hx. assert (x ≤ t)%Z by (apply Hp; set_solver). unfold in_minute. destruct Hx as [->|Hx%Hge]; lia. }
  rewrite decide_True in Hr by (apply Hin; by left). rewrite (filter_all _ P2) in Hr by (intros x Hx; apply Hin; by right).
  cbn [length max_of] in Hr. unfold maxTokenPUTsPerPeer in Hr. lia.
Qed.

Lemma kept_step tok minted t ev s s' a :
  kept tok minted t s → ordinary t ev s → step ev s = Some (s', a) → kept tok minted (time_of t ev) s'.
Proof.
  intros (P1 & P2 & Hr & Hge & Hle & Hst) Ho Hs. pose proof Ho as (_ & Ht & _).
  destruct (step_effect (Peer tok) _ t ev s s' a Ho Hr Hs) as (Q & ops & [Hr' HQ Hts _ Htimes Hone Hm]).
  rewrite <- (assoc_L (++)) in Hr'. cbn [app] in Hr'. exists P1, (P2 ++ Q).
  assert (∀ x, x ∈ P2 ++ Q → (minted ≤ x)%Z) as Hge'.
  { intros x [Hx%Hge|Hx%HQ]%elem_of_app; lia. }
  split_and!; [done|done|lia|]. intros Hw Hex. assert (t < minted + limitWindow)%Z as Hwin by lia.
  pose proof (paid_since _ _ _ _ _ _ Hr Hge Hwin) as Hpaid.
  specialize (Hst ltac:(lia) ltac:(lia)). rewrite Hts, length_app. destruct ops as [|o [|]]; cbn [ts_run length] in *; [| |lia].
  - eapply stored_with_le; [|done]. lia.
  - apply (stored_with_le (length P2 + mints_of (Peer tok) [o])); [lia|]. apply stored_with_exec; [|lia|exact Hst].
    unfold live, After. apply Z.ltb_ge. rewrite (Htimes o) by by left. lia.
Qed.

Lemma timely_sound s0 t0 log t s :
  sound t0 s0 → timely s0 t0 log t s → sound t s ∧ tokenTTL (tokenStore s) = tokenTTL (tokenStore s0).
Proof.
  intros H0. induction 1 as [|log t s ev s' a _ [IH Ht] Ho Hs]; [done|].
  destruct (sound_step _ _ _ _ _ IH Ho Hs). split; [done|congruence].
Qed.

Lemma timely_app s0 t0 log1 log2 t s :
  timely s0 t0 (log1 ++ log2) t s → ∃ t1 s1, timely s0 t0 log1 t1 s1 ∧ timely s1 t1 log2 t s.
Proof.
  revert t s. induction log2 as [|x log2 IH] using rev_ind; intros t s.
  { rewrite app_nil_r. intros H. exists t, s. split; [done|constructor]. }
  rewrite (assoc_L (++)). intros H. inversion H as [Heq|log t' s' ev s'' a H' Ho Hs Heq]; [by destruct (app_cons_not_nil _ _ _ Heq)|].
  apply app_inj_tail in Heq as [-> <-]. destruct (IH _ _ H') as (t1 & s1 & Ha & Hb). exists t1, s1.
  split; [done|]. by econstructor.
Qed.
Lemma timely_cons s0 t0 ev a log t s :
  timely s0 t0 ((ev, a) :: log) t s →
  ∃ s1, ordinary t0 ev s0 ∧ step ev s0 = Some (s1, a) ∧ timely s1 (time_of t0 ev) log t s.
Proof.
  intros H. destruct (timely_app s0 t0 [(ev, a)] log t s H) as (t1 & s1 & H1 & H2).
  inversion H1 as [|log0 t' s' ev' s'' a' H' Ho Hs Heq]; subst.
  destruct log0 as [|? [|]]; [|done..]. injection Heq as -> ->. inversion H' as [|? ? ? ? ? ? ? ? ? Hnil]; subst; [by exists s1|].
  by destruct (app_cons_not_nil _ _ _ (eq_sym Hnil)).
Qed.
Lemma timely_kept tok minted s0 t0 log t s : kept tok minted t0 s0 → timely s0 t0 log t s → kept tok minted t s.
Proof. intros H0. induction 1 as [|log t s ev s' a _ IH Ho Hs]; [done|by eapply kept_step]. Qed.

(** A guest with a record and a token reads its ID. *)
Lemma bound_reads_id enrolling c r vm :
  EnableEC2Compat cfg = true → Method r = "GET" → VM r = Some vm → VMID vm ≠ "" → validateToken c r = true →
  answer (routes cfg enrolling) c r "/latest/meta-data/instance-id" = inl (ok_text ("i-" +:+ VMID vm)).
Proof.
  intros ec2 Hget Hvm Hid Htok.
  destruct (read_identity cfg enrolling c r ec2 (or_introl Hget) "/latest/meta-data/instance-id" instance_id ltac:(route)) as [v E].
  unfold read in E. rewrite E, Htok. cbn [negb].
  assert (IsBound (VM r) = true) as Hb by (rewrite Hvm; cbn; by rewrite bool_decide_false).
  rewrite Hb, andb_false_r. unfold instance_id, InstanceID, BoundVM. cbn [VM with_values]. rewrite Hb, Hvm.
  by rewrite bool_decide_false.
Qed.

(** ** The theorem *)

Context (float_part : Z → Z → nat → Z).
Context (NewCertPool : CertPool).
Context (AppendCertsFromPEM : string → option CertPool).
Context (PoolOf : certificate Key → CertPool).

(** C3: a token lives its life. In every history with one clock that does not go
    back, whatever requests, connections, reloads and sweeps there are, a token that
    the service answered a request with stays valid for a minute, or until it
    expires if that is sooner: the limiter lets fewer requests of a peer through in a
    minute than the store holds tokens for it, so none is evicted. While it is
    valid, a guest whose connection is bound to a record reads its own ID with it. *)
Theorem tokens_live_a_minute a env file pins t0 log1 c q m rsp log2 t s v now :
  timely (New decode range float_part NewCertPool AppendCertsFromPEM PoolOf cfg a env file pins) t0
    (log1 ++ (Request c q m, Some (Minted rsp)) :: log2) t s →
  Status rsp = 200%Z → Body rsp = Text v →
  (t ≤ now)%Z → (now < m_now m + 60 * Second)%Z → (now ≤ Add (m_now m) (token_ttl float_part cfg))%Z →
  ValidateToken now v (tokenStore s) = true ∧
  ∀ conn vm q' m', conn_vm conn = Some vm → VMID vm ≠ "" → EnableEC2Compat cfg = true → v ≠ "" →
    call_method q' = "GET" → call_escaped q' = "/latest/meta-data/instance-id" → call_token q' = v → m_clock m' = now →
    metadata_answer cfg s conn q' m' = inl (ok_text ("i-" +:+ VMID vm)).
Proof.
  set (s0 := New _ _ _ _ _ _ _ _ _ _ _). intros Hh H200 Hb Hnow Hmin Hexp.
  destruct (start_fields decode range cfg float_part NewCertPool AppendCertsFromPEM PoolOf a env file pins) as (_ & _ & _ & _ & Httl0 & _).
  assert (sound t0 s0) as Hs0.
  { subst s0. unfold New. destruct (reloadNow _ _ _ _ _ _). split; [apply new_store_wf|]. intros key. exists []. apply rate_inv_new. }
  destruct (timely_app _ _ _ _ _ _ Hh) as (t1 & s1 & H1 & (s2 & Ho & Hstep & H2)%timely_cons).
  destruct (timely_sound _ _ _ _ _ Hs0 H1) as [Hs1 Httl1]. change (tokenTTL (tokenStore s0) = token_ttl float_part cfg) in Httl0.
  destruct (sound_step _ _ _ _ _ Hs1 Ho Hstep) as [Hs2 _]. destruct (timely_sound _ _ _ _ _ Hs2 H2) as [[Hwf _] _].
  destruct Hs1 as [Hwf1 Hr1].
  assert (∃ tok, v = Tokens.Value tok ∧ ExpiresAt tok = Add (m_now m) (token_ttl float_part cfg) ∧ kept tok (m_now m) (m_now m) s2)
    as (tok & -> & Hex & Hk).
  { destruct (request_minted _ _ _ _ _ _ _ Ho Hstep) as (key & Hlim & Hkey & Hts & Hok). destruct (Hok H200) as (tok & Htok & Hv).
    destruct (generate_ttl key (m_now m) (m_random m) (tokenStore s1)) as [_ Hgen]. destruct (Hgen tok Htok) as [Hex Hpeer].
    rewrite Hkey in Hpeer. exists tok. split; [congruence|]. split; [congruence|].
    destruct (Hr1 key) as [P HP]. destruct (mint_paid key t1 P _ s1 s2 key _ _ HP (proj1 (proj2 Ho)) Hlim) as (Q & Hq & _ & HQ).
    rewrite (HQ eq_refl) in Hq. exists P, []. rewrite Hpeer. split_and!; [done|by intros ? ?%not_elem_of_nil|lia|]. intros _ _.
    rewrite Hts. by apply generate_stored. }
  assert (ValidateToken now (Tokens.Value tok) (tokenStore s) = true) as Hvalid.
  { destruct (timely_kept _ _ _ _ _ _ _ Hk H2) as (P1 & P2 & _ & _ & _ & Hst).
    unfold limitWindow in Hst. rewrite (stored_with_validate (length P2) tok _ now Hwf (Hst ltac:(lia) ltac:(lia))).
    unfold After. rewrite Hex. destruct (Z.ltb_spec (Add (m_now m) (token_ttl float_part cfg)) now); [lia|done]. }
  split; [done|]. intros conn vm q' m' Hvm Hid Hec Hne Hget Hesc Htok Hclock. unfold metadata_answer. rewrite Hesc.
  apply bound_reads_id; try done. unfold validateToken, storeValidatesToken. cbn. rewrite Htok, Hclock.
  by rewrite bool_decide_false.
Qed.
End life.

(** ** A minute with a token *)

#[local] Existing Instance caseless.
Definition minted_of (a : option answered) : option (Z * content) :=
  match a with Some (Minted rsp) => Some (Status rsp, Body rsp) | _ => None end.
Lemma minted_of_Some a st b : minted_of a = Some (st, b) → ∃ rsp, a = Some (Minted rsp) ∧ Status rsp = st ∧ Body rsp = b.
Proof. destruct a as [[|rsp| | |]|]; try done. intros [= <- <-]. by exists rsp. Qed.
Lemma toy_put_answer : minted_of (said toy_put toy_bound) = Some (200%Z, Text toy_token).
Proof. by vm_compute. Qed.
Lemma toy_goes_put : goes toy_put toy_bound = true.
Proof. pose proof toy_reads as [H _]%andb_prop. exact H. Qed.
Lemma toy_fresh : fresh_random (Some "token") (tokenStore toy_bound).
Proof. intros b [= <-]. by vm_compute. Qed.
Abbreviation toy_timely := (timely (CR := toy_crypto) (CC := toy_ca_crypto) (WR := toy_wire) toy_inventory map_to_list
  toy_body toy_body toy_mds toy_new 0).
Lemma toy_timely_minted rsp : said toy_put toy_bound = Some (Minted rsp) →
  toy_timely [(toy_accept, said toy_accept toy_new); (toy_put, Some (Minted rsp))] Second toy_minted.
Proof.
  intros Hr. apply (timely_step toy_inventory map_to_list toy_body toy_body toy_mds toy_new 0
    [(toy_accept, said toy_accept toy_new)] 0 toy_bound toy_put).
  - apply (timely_step toy_inventory map_to_list toy_body toy_body toy_mds toy_new 0 [] 0 toy_new toy_accept).
    + apply timely_nil.
    + exact (conj (Permutation_refl _) (conj (Z.le_refl 0) I)).
    + apply (goes_step toy_accept toy_new). pose proof toy_goes as [[H _]%andb_prop _]%andb_prop. exact H.
  - refine (conj I (conj _ (conj eq_refl (conj toy_fresh (λ _, eq_refl))))). by vm_compute.
  - rewrite <- Hr. exact (goes_step toy_put toy_bound toy_goes_put).
Qed.

Lemma tokens_live_a_minute_witness :
  ValidateToken (60 * Second) toy_token (tokenStore toy_minted) = true.
Proof.
  destruct (minted_of_Some _ _ _ toy_put_answer) as (rsp & Hr & H200 & Hb).
  refine (proj1 (tokens_live_a_minute (CR := toy_crypto) (CC := toy_ca_crypto) (WR := toy_wire) toy_inventory map_to_list
    toy_body toy_body toy_mds no_fractions [] (λ _, Some ["ekca"]) (λ _, []) toy_attempt toy_environment toy_file (Listing ∅) 0
    [(toy_accept, said toy_accept toy_new)] 1 toy_mint (toy_moment Second) rsp [] Second toy_minted toy_token (60 * Second)
    (toy_timely_minted rsp Hr) H200 Hb _ _ _)); by vm_compute.
Defined.
