(* ===== verification/AccessLog.v ===== *)
(** * The access log (internal/server/server.go)

    [loggingMiddleware] stands around the limiter and the routes and writes one line
    for every request that is answered: method, quoted path, status, duration, peer
    and VM. The logger's time stamp is left out. A guest chooses the path, and the
    path may hold line breaks; the log has one line per answered request all the same,
    in their order, with the connection's own peer and VM ([access_log_exact]). *)

From stdpp Require Import pretty.
From S2P Require Import Prelude.
From S2P Require Import Go.
From S2P Require Import Tokens.
From S2P Require Import Limiter.
From S2P Require Import Sessions.
From S2P Require Import Crypto.
From S2P Require Import Pins.
From S2P Require Import CA.
From S2P Require Import Csr.
From S2P Require Import Net.
From S2P Require Import Inventory.
From S2P Require Import Enroll.
From S2P Require Import Imds.
From S2P Require Import Mux.
From S2P Require Import Config.
From S2P Require Import Server.
From S2P Require Import Served.
From S2P Require Import Routes.
From S2P Require Import Service.
From Stdlib Require Import Ascii.

(** ** A line *)

Definition peerForLog (remoteAddr : string) : string :=
  match PeerIP remoteAddr with Some ip => IPString ip | None => "-" end.
Definition vmForLog (vm : option VMConfig) : string :=
  match vm with
  | Some vm => if negb (bool_decide (VMID vm = "")) then VMID vm else "-"
  | None => "-"
  end.

(** [responseWriter]: 200 unless the handler writes another code. *)
Definition statusCode (a : answered) : Z :=
  match a with
  | TooMany => (writeTooManyRequests.1).1
  | Minted r | Metadata r => Status r
  | Enrolment r => status r
  | Readiness _ => 200%Z
  end.

(** [log.Printf] ends a line that does not end by itself. *)
Definition ended (line : string) : string :=
  if HasPrefix (srev line) lf_string then line else line +:+ lf_string.

(** One answered request: what the connection is, what it asked, and how long it took. *)
Record access := mkAccess { on : connection; asked : call; reply_to : answered; took : Z }.

Section log.
Context `{CR : Crypto} {CC : CACrypto} {WR : Wire} `{GU : GoUnicode}.

Definition access_line (x : access) : string :=
  call_method (asked x) +:+ " " +:+ Quote (call_path (asked x)) +:+ " " +:+ Itoa (statusCode (reply_to x)) +:+ " " +:+
  DurationString (took x) +:+ " " +:+ peerForLog (conn_addr (on x)) +:+ " " +:+ vmForLog (conn_vm (on x)).

Context (decode : string → outcome string (list yamlVM)).
Context (range : gmap string string → list (string * string)).
Context (decode_start decode_finish : string → option (string * string)).
Context (cfg : MDSConfig).
Local Abbreviation step := (Service.step decode range decode_start decode_finish cfg).

(** The request as [loggingMiddleware] serves it, and what it logs. *)
Definition loggingMiddleware (c : connection) (q : call) (m : moment) (took : Z) (s : service)
    : service * answered * string :=
  let '(s, a) := handle_request decode_start decode_finish cfg c q m s in
  (s, a, ended (access_line (mkAccess c q a took))).

(** An event of the service with the text it logs, and its duration. *)
Definition logged_step (ev : event) (took : Z) (s : service) : option (service * list access * string) :=
  match ev with
  | Request c q m =>
      match connections s !! c with
      | None => Some (s, [], "")
      | Some conn =>
          if bool_decide (c ∈ overCap (limiter s)) then Some (s, [], "")
          else let '(s, a, text) := loggingMiddleware conn q m took s in Some (s, [mkAccess conn q a took], text)
      end
  | _ => '(s, _) ← step ev s; Some (s, [], "")
  end.
Fixpoint logged_steps (evs : list (event * Z)) (s : service) : option (service * list access * string) :=
  match evs with
  | [] => Some (s, [], "")
  | (ev, took) :: evs =>
      '(s, xs, text) ← logged_step ev took s;
      '(s, xs', text') ← logged_steps evs s;
      Some (s, xs ++ xs', text +:+ text')
  end.
End log.

(** ** No part of a line breaks it *)

Lemma Join_no c l sep : ContainsByte c sep = false → (∀ x, x ∈ l → ContainsByte c x = false) → ContainsByte c (Join l sep) = false.
Proof.
  intros Hs. induction l as [|x [|y l] IH]; intros Hl; [done|by apply Hl; left|].
  change (Join (x :: y :: l) sep) with (x +:+ sep +:+ Join (y :: l) sep).
  rewrite !ContainsByte_app, Hs, (Hl x) by by left. apply IH. intros; apply Hl; by right.
Qed.
Lemma hex_digit_lf d : ContainsByte lf (String (hex_digit (d mod 16)) "") = false.
Proof.
  assert ((d mod 16)%Z ∈ seqZ 0 16) as Hin by (apply elem_of_seqZ; pose proof (Z.mod_pos_bound d 16); lia).
  revert Hin. generalize (d mod 16)%Z. clear. intros d.
  change (seqZ 0 16) with [0; 1; 2; 3; 4; 5; 6; 7; 8; 9; 10; 11; 12; 13; 14; 15]%Z.
  repeat (intros [->|Hin]%elem_of_cons; [done|]; revert Hin). by intros ?%not_elem_of_nil.
Qed.
Lemma hex4_lf z : ContainsByte lf (hex4 z) = false.
Proof.
  assert (∀ d s, ContainsByte lf s = false → ContainsByte lf (String (hex_digit (d mod 16)) s) = false) as Hc.
  { intros d s Hs. pose proof (hex_digit_lf d) as Hd. cbn [ContainsByte] in *. rewrite Hs. by rewrite orb_false_r in *. }
  unfold hex4. repeat case_match; by repeat apply Hc.
Qed.
Lemma IPString_lf ip : ContainsByte lf (IPString ip) = false.
Proof.
  unfold IPString. destruct (To4 ip) as [v4|].
  - apply Join_no; [done|]. intros x (z & -> & _)%list_elem_of_fmap. by apply Itoa_no.
  - unfold ip6_string. destruct (best_run _ _ _) as [zs ze].
    assert (∀ l, ContainsByte lf (Join (hex4 <$> l) ":") = false) as Hj.
    { intros l. apply Join_no; [done|]. intros x (z & -> & _)%list_elem_of_fmap. apply hex4_lf. }
    rewrite ContainsByte_app, Hj. destruct (zs <? 8); [|done]. by rewrite ContainsByte_app, Hj.
Qed.

Lemma concat_lines (a : string) l : String.concat "" (a :: l) = a +:+ String.concat "" l.
Proof. destruct l; [|done]. cbn. induction a as [|c a IH]; [done|]. cbn. by rewrite <-IH. Qed.

(** What a byte becomes inside quotes. *)
Lemma quote_byte_lf c : ContainsByte lf (quote_byte c) = false.
Proof. by destruct c as [[] [] [] [] [] [] [] []]. Qed.
Lemma between_quotes_lf s : ContainsByte lf (between_quotes quote_byte s) = false.
Proof.
  unfold between_quotes. cbn zeta. rewrite !ContainsByte_app. cbn [ContainsByte].
  rewrite orb_false_r, bool_decide_eq_false_2 by done. cbn [orb]. rewrite orb_false_r.
  apply (Join_no lf _ ""); [done|]. intros x (c & -> & _)%list_elem_of_fmap. apply quote_byte_lf.
Qed.

Section lines.
Context `{CR : Crypto} {CC : CACrypto} {WR : Wire} `{GU : GoUnicode}.
Context (decode : string → outcome string (list yamlVM)).
Context (range : gmap string string → list (string * string)).
Context (decode_start decode_finish : string → option (string * string)).
Context (cfg : MDSConfig).
(** [strconv.Quote] escapes the line breaks of a string that is not ASCII too. *)
Context (quote_escapes : ∀ s, ContainsByte lf (uni_quote s) = false).
Local Abbreviation logged := (logged_steps decode range decode_start decode_finish cfg).
Local Abbreviation steps := (Service.steps decode range decode_start decode_finish cfg).

(** A method is a token, which net/http checks; an ID is the operator's. *)
Definition plain_access (x : access) : Prop :=
  ContainsByte lf (call_method (asked x)) = false ∧ ContainsByte lf (vmForLog (conn_vm (on x))) = false.

Lemma access_line_lf x : plain_access x → ContainsByte lf (access_line x) = false.
Proof.
  intros [Hm Hv]. unfold access_line. rewrite !ContainsByte_app, Hm, Hv, Itoa_no, DurationString_no by done.
  assert (ContainsByte lf (Quote (call_path (asked x))) = false) as ->.
  { unfold Quote. destruct (sforall _ _); [apply between_quotes_lf|apply quote_escapes]. }
  unfold peerForLog. destruct (PeerIP _); [by rewrite IPString_lf|done].
Qed.

Lemma ended_line s : ContainsByte lf s = false → ended s = s +:+ lf_string.
Proof.
  intros Hs. unfold ended. destruct (HasPrefix (srev s) lf_string) eqn:Hp; [|done].
  assert (sforall (λ c, negb (bool_decide (lf = c))) s = true) as Hf.
  { revert Hs. clear. induction s as [|c s IH]; [done|].
    cbn [sforall ContainsByte]. intros [Hc Hs]%orb_false_iff. by rewrite Hc, (IH Hs). }
  rewrite <-sforall_srev in Hf. apply HasPrefix_spec in Hp as [r Hr]. by rewrite Hr in Hf.
Qed.

Lemma logged_step_exact ev t s s' xs text :
  logged_step decode range decode_start decode_finish cfg ev t s = Some (s', xs, text) → Forall plain_access xs →
  (∃ a, Service.step decode range decode_start decode_finish cfg ev s = Some (s', a) ∧
    reply_to <$> xs = option_list a) ∧
  text = String.concat "" ((λ x, access_line x +:+ lf_string) <$> xs).
Proof.
  assert (∀ r : option (Service.service * option answered), (∀ s a, r = Some (s, a) → a = None) →
    ('(s, _) ← r; Some (s, [] : list access, "")) = Some (s', xs, text) →
    (∃ a, r = Some (s', a) ∧ reply_to <$> xs = option_list a) ∧
    text = String.concat "" ((λ x, access_line x +:+ lf_string) <$> xs)) as Hquiet.
  { intros [[s1 a]|] Hr; [|done]. intros [= <- <- <-]. rewrite (Hr _ _ eq_refl). split; [by exists None|done]. }
  destruct ev as [c remote addr arp order t1 t2|c state t1 t2|c q m|e|now|order now|edit]; cbn [logged_step].
  1: { intros H _. apply Hquiet; [|done]. intros s1 a. cbn [Service.step]. destruct (bool_decide _); [by intros [= <- <-]|].
       by destruct (accept _ _ _ _ _ _ _ _) as [s2|]; [intros [= <- <-]|]. }
  2: { cbn [Service.step]. destruct (connections s !! c) as [conn|]; [|intros [= <- <- <-] _; split; [by exists None|done]].
       destruct (bool_decide _); [intros [= <- <- <-] _; split; [by exists None|done]|].
       unfold loggingMiddleware. destruct (handle_request _ _ _ _ _ _ _) as [s1 a]. intros [= <- <- <-] [Hx _]%Forall_cons.
       split; [by exists (Some a)|]. rewrite ended_line by by apply access_line_lf. done. }
  all: intros H _; apply Hquiet; [|done]; by intros s1 a [= <- <-].
Qed.

(** A guest cannot write in the log but by its requests. Whatever events the service
    goes through, and whatever line breaks or quotes the paths hold, the log read line
    by line is one line for each request that was answered, in their order: its
    method, its path in quotes, the status it was answered with, the duration, the
    address of its connection's peer and the VM the connection is bound to. Logging
    changes nothing else. *)
Theorem access_log_exact evs s s' xs text :
  logged evs s = Some (s', xs, text) → Forall plain_access xs →
  steps (fst <$> evs) s = Some s' ∧ Split text lf = (access_line <$> xs) ++ [""].
Proof.
  intros H Hx. assert (steps (fst <$> evs) s = Some s' ∧ text = String.concat "" ((λ x, access_line x +:+ lf_string) <$> xs)) as [Hs ->].
  { revert s xs text H Hx. induction evs as [|[ev t] evs IH]; intros s xs text; cbn [logged_steps]; [by intros [= -> <- <-]|].
    intros (((s1 & xs1) & text1) & H1 & H)%bind_Some. apply bind_Some in H as (((s2 & xs2) & text2) & H2 & [= -> <- <-]).
    intros [Hx1 Hx2]%Forall_app. apply logged_step_exact in H1 as [(a & Hstep & _) ->]; [|done].
    destruct (IH s1 xs2 text2 H2 Hx2) as [Hs ->]. cbn [fmap list_fmap Service.steps fst]. rewrite Hstep. split; [done|].
    rewrite fmap_app. clear. induction xs1 as [|x xs1 IHx]; [done|]. cbn [app fmap list_fmap]. rewrite !concat_lines. by rewrite <-IHx, string_app_assoc. }
  split; [done|]. clear Hs H. induction Hx as [|x xs Hx _ IH]; [done|].
  cbn [fmap list_fmap app]. rewrite concat_lines, string_app_assoc.
  assert (∀ r, lf_string +:+ r = String lf r) as -> by done. rewrite Split_app by by apply access_line_lf. f_equal. exact IH.
Qed.
End lines.
