(* ===== verification/Nics.v ===== *)
(** * Guest NICs (internal/proxmox/nics.go)

    Every [net<n>] line of every guest's live section, sorted by VM id and index.
    [sort.Slice] is not stable, so the sort is a parameter of which only order and
    content are known. Log lines are left out. *)

From S2P Require Import Prelude.
From S2P Require Import Go.
From S2P Require Import Net.
From S2P Require Import Inventory.
From S2P Require Import Pins.
From S2P Require Import Proxmox.
From Stdlib Require Import Ascii.

Record NIC := mkNIC {
  NicVMID : string;
  Index : Z;
  Model : string;
  MAC : string;
  Bridge : string;
}.
#[export] Instance NIC_eq_dec : EqDecision NIC.
Proof. solve_decision. Defined.

Definition Tap (n : NIC) : string := "tap" +:+ NicVMID n +:+ "i" +:+ Itoa (Index n).

(** The decimal value of a string of digits. *)
Fixpoint decimal_value (s : string) (acc : Z) : Z :=
  match s with "" => acc | String c s => decimal_value s (acc * 10 + digit_value c)%Z end.

(** [nicKeyPattern]: the index. *)
Definition nic_key (key : string) : option Z :=
  let '(digits, ok) := CutPrefix key "net" in
  if ok && length_between 1 2 digits && sforall is_digit digits then Some (decimal_value digits 0) else None.
(** [macPattern]. *)
Definition hex_any (c : ascii) : bool := is_hex c || in_range 65 70 c.
Definition mac_octet (s : string) : bool := (String.length s =? 2) && sforall hex_any s.
Definition is_mac (s : string) : bool :=
  let parts := Split s ":" in (length parts =? 6) && forallb mac_octet parts.
(** [vmidPattern]. *)
Definition is_vmid (s : string) : bool :=
  match s with
  | "" => false
  | String c r => is_digit c && negb (bool_decide (c = "0"%char)) && (String.length r <=? 8) && sforall is_digit r
  end.

Section nics.
Context `{GoUnicode}.
Context (sort : list NIC → list NIC).

(** One field of a line: the NIC so far and its MAC as written. *)
Definition nic_field (st : NIC * string) (field : string) : NIC * string :=
  let '(nic, mac) := st in
  let '(k, v, _) := Cut (TrimSpace field) "=" in
  let set_model m := mkNIC (NicVMID nic) (Index nic) m (MAC nic) (Bridge nic) in
  if bool_decide (k = "bridge") then (mkNIC (NicVMID nic) (Index nic) (Model nic) (MAC nic) v, mac)
  else if bool_decide (k = "model") then (set_model v, mac)
  else if bool_decide (k = "macaddr") then (nic, v)
  else if bool_decide (mac = "") && is_mac v then (set_model k, v)
  else (nic, mac).

Definition parseNIC (vmid : string) (index : Z) (value : string) : NIC :=
  let '(nic, mac) := foldl nic_field (mkNIC vmid index "" "" "", "") (Split value ",") in
  if is_mac mac then mkNIC (NicVMID nic) (Index nic) (Model nic) (ToLower mac) (Bridge nic) else nic.

Definition nic_line (vmid line : string) : option NIC :=
  let '(key, value, ok) := Cut line ":" in
  if ok then index ← nic_key (TrimSpace key); Some (parseNIC vmid index (TrimSpace value)) else None.
Fixpoint nic_lines (vmid : string) (lines : list string) : list NIC :=
  match lines with
  | [] => []
  | line :: lines =>
      let line := TrimSpace line in
      if HasPrefix line "[" then []
      else match nic_line vmid line with
           | Some nic => nic :: nic_lines vmid lines
           | None => nic_lines vmid lines
           end
  end.
Definition parseNICs (vmid data : string) : list NIC := nic_lines vmid (Split data lf).

(** The loop over the config files. *)
Fixpoint read_nics (files : list (string * file_state)) (nics : list NIC) : outcome string (list NIC) :=
  match files with
  | [] => Ok nics
  | (path, f) :: files =>
      let vmid := vmid_of path in
      if negb (is_vmid vmid) then read_nics files nics
      else
        match f with
        | Content data => read_nics files (nics ++ parseNICs vmid data)
        | Missing => Err ("failed to read " +:+ path +:+ ": no such file or directory")
        | Failed e => Err ("failed to read " +:+ path +:+ ": " +:+ e)
        end
  end.

Definition GuestNICs (pveRoot : string) (p : pve) : outcome string (list NIC) :=
  let configDir := JoinPath [root_of pveRoot; "local"; "qemu-server"] in
  match conf_dir p with
  | Err e => Err ("failed to read " +:+ configDir +:+ ": " +:+ e)
  | Ok _ =>
      match conf_glob p with
      | Err e => Err ("failed to list VM config files: " +:+ e)
      | Ok files => sort <$> read_nics files []
      end
  end.
End nics.

(** The order [GuestNICs] sorts by. *)
Definition nic_before (a b : NIC) : Prop :=
  let x := decimal_value (NicVMID a) 0 in let y := decimal_value (NicVMID b) 0 in
  (x < y)%Z ∨ x = y ∧ (Index a ≤ Index b)%Z.
#[export] Instance nic_before_dec : RelDecision nic_before.
Proof. unfold nic_before. intros a b. apply _. Defined.

(** ** What a NIC read from a config can hold *)

Definition plain_nic (n : NIC) : Prop :=
  is_vmid (NicVMID n) = true ∧ (0 ≤ Index n < 100)%Z ∧ (MAC n = "" ∨ is_mac (MAC n) = true ∧ ToLower (H := caseless) (MAC n) = MAC n).

Example nics_of_lines :
  parseNICs (H := caseless) "350" (Join ["# c"; "net0: virtio=BC:24:11:00:01:99,bridge=vmbr0"; "net12 : model=e1000, macaddr=52:54:00:00:03:01,bridge=vmbr_imds";
    "net123: x"; "net2: virtio=nonsense,bridge=vmbr_imds"; "[snap]"; "net3: virtio=BC:24:11:00:01:98"] lf_string) =
  [mkNIC "350" 0 "virtio" "bc:24:11:00:01:99" "vmbr0"; mkNIC "350" 12 "e1000" "52:54:00:00:03:01" "vmbr_imds";
   mkNIC "350" 2 "" "" "vmbr_imds"].
Proof. by vm_compute. Qed.
