(* ===== verification/Bind.v ===== *)
(** * The bridge binder (internal/bridgebind)

    [Render] writes the nftables script, [Tick] is one check of the binder. The
    kernel's table is reached through [NFT], as in the code; what an implementation
    promises is a class of its own ([NFTLaws]). Log lines are left out; their
    repetition guards are kept where they are state. *)

From S2P Require Import Prelude.
From S2P Require Import Go.
From S2P Require Import Inventory.
From S2P Require Import Proxmox.
From S2P Require Import Imds.
From S2P Require Import Nics.
From Stdlib Require Import Ascii.

(** ** The script (render.go) *)

Definition Table : string := "vtpm_mds_bind".
Definition tab (n : nat) : string := Nat.iter n (String (chr 9)) "".
Definition nft_line (indent : nat) (s : string) : string := tab indent +:+ s +:+ lf_string.

(** The rules of one NIC on the bridge. *)
Definition nic_rules (n : NIC) : string :=
  let tap := quoted (Tap n) in
  if bool_decide (MAC n = "") then nft_line 2 ("iifname " +:+ tap +:+ " counter drop")
  else
    nft_line 2 ("iifname " +:+ tap +:+ " ether type { 8021q, 8021ad } counter drop") +:+
    nft_line 2 ("iifname " +:+ tap +:+ " ether saddr != " +:+ MAC n +:+ " counter drop") +:+
    nft_line 2 ("iifname " +:+ tap +:+ " ether type arp arp saddr ether != " +:+ MAC n +:+ " counter drop").

Fixpoint render_rules (bridge : string) (nics : list NIC) : string :=
  match nics with
  | [] => ""
  | n :: nics =>
      if negb (bool_decide (Bridge n = bridge)) then render_rules bridge nics
      else nic_rules n +:+ render_rules bridge nics
  end.

Definition Render (bridge : string) (nics : list NIC) : string :=
  nft_line 0 ("table bridge " +:+ Table) +:+
  nft_line 0 ("delete table bridge " +:+ Table) +:+
  nft_line 0 ("table bridge " +:+ Table +:+ " {") +:+
  nft_line 1 "chain from_guests {" +:+
  nft_line 2 "type filter hook prerouting priority -200; policy accept;" +:+
  render_rules bridge nics +:+
  nft_line 1 "}" +:+ nft_line 0 "}".

Fixpoint Bound (bridge : string) (nics : list NIC) : nat :=
  match nics with
  | [] => 0
  | n :: nics => if bool_decide (Bridge n = bridge) then S (Bound bridge nics) else Bound bridge nics
  end.

(** ** The table *)

Class NFT (T : Type) := {
  Apply : string → T → T * outcome string ();
  List : T → outcome string string;
}.
(** A script is loaded in one transaction, and the listing without counters is
    that of the rules. *)
Class NFTLaws (T : Type) `{NFT T} := {
  listing : string → string;
  apply_ok script t t' : Apply script t = (t', Ok ()) → List t' = Ok (listing script);
  apply_err script t t' e : Apply script t = (t', Err e) → List t' = List t;
}.

(** ** The binder (binder.go) *)

Record tableState := mkTable { missing : bool; table_listing : string }.
#[export] Instance tableState_eq_dec : EqDecision tableState.
Proof. solve_decision. Defined.
Definition stateOf (l : outcome string string) : tableState :=
  match l with Err _ => mkTable true "" | Ok listing => mkTable false listing end.

Record Binder := mkBinder {
  fp : string;
  haveFP : bool;
  want : string;
  ports : nat;
  seen : tableState;
  failing : bool;
  failMsg : string;
  readMsg : string;
}.
Definition new_binder : Binder := mkBinder "" false "" 0 (mkTable false "") false "" "".

Section binder.
Context `{GoUnicode} `{NFT T}.
Context (sha256 : string → string) (sort : list NIC → list NIC).
Context (PVERoot BridgeName : string).

(** What a check reads: the configurations when the fingerprint is taken and when
    the NICs are read. *)
Record reading := mkReading { fp_source : pve; nic_source : pve }.

(** The first part: the configurations, when their fingerprint changed. *)
Definition read_configs (rd : reading) (b : Binder) : Binder * bool :=
  let now := Sum sha256 (SourceFingerprint PVERoot (fp_source rd)) in
  if haveFP b && bool_decide (now = fp b) then (b, false)
  else
    match GuestNICs sort PVERoot (nic_source rd) with
    | Err e => (mkBinder now true (want b) (ports b) (seen b) (failing b) (failMsg b) e, false)
    | Ok nics =>
        let script := Render BridgeName nics in
        if negb (bool_decide (script = want b))
        then (mkBinder now true script (Bound BridgeName nics) (seen b) (failing b) (failMsg b) "", true)
        else (mkBinder now true (want b) (ports b) (seen b) (failing b) (failMsg b) "", false)
    end.

(** The second part: the table. *)
Definition restore_table (changed : bool) (b : Binder) (t : T) : Binder * T * bool :=
  if bool_decide (want b = "") then (b, t, false)
  else
    let now := stateOf (List t) in
    if negb changed && negb (failing b) && bool_decide (now = seen b) then (b, t, false)
    else
      match Apply (want b) t with
      | (t, Err e) => (mkBinder (fp b) (haveFP b) (want b) (ports b) (seen b) true e (readMsg b), t, false)
      | (t, Ok _) => (mkBinder (fp b) (haveFP b) (want b) (ports b) (stateOf (List t)) false "" (readMsg b), t, true)
      end.

Definition Tick (rd : reading) (b : Binder) (t : T) : Binder * T * bool :=
  let '(b, changed) := read_configs rd b in restore_table changed b t.

(** The error [Run] returns after its first check, if any. *)
Definition first_check_error (b : Binder) : option string :=
  if bool_decide (want b = "")
  then Some ("cannot read guest NICs, no table bridge " +:+ Table +:+ " applied: " +:+ readMsg b)
  else if failing b then Some ("first apply of table bridge " +:+ Table +:+ " failed: " +:+ failMsg b)
  else None.

(** A run: checks, and whatever happens to the table between them. *)
Inductive bind_event := Checked (rd : reading) | Outside (change : T → T).
Definition bind_step (st : Binder * T) (e : bind_event) : Binder * T :=
  match e with
  | Checked rd => (Tick rd st.1 st.2).1
  | Outside change => (st.1, change st.2)
  end.
Definition bind_run (evs : list bind_event) (t : T) : Binder * T := foldl bind_step (new_binder, t) evs.
End binder.
Arguments bind_event : clear implicits.
