(* ===== verification/BindProofs.v ===== *)
(** * The bridge binder: the table follows the configurations

    After every check the table is the one the guests' configurations ask for, or
    the apply failed and is retried ([binder_restores_table]). *)

From S2P Require Import Prelude.
From S2P Require Import Go.
From S2P Require Import Net.
From S2P Require Import Inventory.
From S2P Require Import Proxmox.
From S2P Require Import Imds.
From S2P Require Import Nics.
From S2P Require Import Bind.
From Stdlib Require Import Ascii.

(** ** NICs as the configurations have them *)

Section nics.
Context `{GoUnicode}.

(** What a NIC can hold: nothing that could end a word of the script. *)
Record plain_nic (n : NIC) : Prop := {
  plain_vmid : is_vmid (NicVMID n) = true;
  plain_index : (0 ≤ Index n < 100)%Z;
  plain_mac : MAC n = "" ∨ is_mac (MAC n) = true;
}.

Lemma lower_hex c : hex_any c = true → hex_any (lower_byte c) = true ∧ is_ascii c = true.
Proof.
  unfold hex_any, is_ascii. rewrite !orb_true_iff, !is_hex_spec, !in_range_spec, lower_byte_spec, Z.ltb_lt.
  intros Hc. destruct (is_upper c) eqn:Hu.
  - apply in_range_spec in Hu. lia.
  - lia.
Qed.

Lemma lower_colon c : bool_decide (lower_byte c = ":"%char) = bool_decide (c = ":"%char).
Proof.
  apply bool_decide_ext. split; [|by intros ->]. intros Hc%(f_equal byte). rewrite lower_byte_spec in Hc.
  destruct (is_upper c) eqn:Hu; [|by apply byte_inj]. apply in_range_spec in Hu.
  change (byte ":") with 58%Z in Hc. lia.
Qed.

Lemma Split_lower s : Split (smap lower_byte s) ":" = smap lower_byte <$> Split s ":".
Proof.
  induction s as [|c s IH]; [done|]. cbn [smap Split]. rewrite lower_colon, IH. case_bool_decide; [done|].
  by destruct (Split s ":").
Qed.

Lemma Split_sforall (p : ascii → bool) c s :
  p c = true → Forall (λ w, sforall p w = true) (Split s c) → sforall p s = true.
Proof.
  intros Hc. induction s as [|d s IH]; [done|]. cbn [Split]. case_bool_decide as Hd.
  - intros [_ Hs]%Forall_cons. cbn. by rewrite Hd, Hc, IH.
  - destruct (Split s c) as [|w ws]; rewrite Forall_cons; cbn [sforall].
    + rewrite andb_true_iff. intros [[Hd' _] _]. rewrite Hd'. by apply IH.
    + rewrite andb_true_iff. intros [[Hd' Hw] Hws]. rewrite Hd'. apply IH. by constructor.
Qed.

Lemma lower_octet w : mac_octet w = true → mac_octet (smap lower_byte w) = true ∧ sforall is_ascii w = true.
Proof.
  unfold mac_octet. rewrite !andb_true_iff. intros [Hl Hw].
  assert (String.length (smap lower_byte w) = String.length w) as Hsame.
  { clear. induction w as [|c w IH]; cbn; [done|by rewrite IH]. }
  rewrite Hsame. clear Hsame. rewrite Hl. clear Hl. induction w as [|c w IH]; [done|]. cbn in *.
  apply andb_true_iff in Hw as [Hc Hw]. destruct (lower_hex c Hc) as [-> ->]. cbn. tauto.
Qed.

Lemma mac_lower mac : is_mac mac = true → is_mac (ToLower mac) = true.
Proof.
  unfold is_mac. cbn zeta. rewrite !andb_true_iff. intros [Hl Hf].
  assert (Forall (λ w, mac_octet w = true) (Split mac ":")) as Ho.
  { apply Forall_forall. intros w Hw. apply (proj1 (forallb_forall _ _) Hf). first [exact Hw|by apply list_elem_of_In]. }
  rewrite ToLower_ascii.
  - rewrite Split_lower, length_fmap. split; [done|]. apply forallb_forall. intros w Hw.
    apply list_elem_of_In, list_elem_of_fmap in Hw as (w' & -> & Hw). rewrite Forall_forall in Ho.
    apply lower_octet, Ho. first [exact Hw|by apply list_elem_of_In].
  - apply (Split_sforall _ ":"); [done|]. eapply Forall_impl; [exact Ho|]. intros w Hw. by apply lower_octet.
Qed.

Lemma digits_range s acc n :
  sforall is_digit s = true → String.length s ≤ n → (0 ≤ acc)%Z →
  (0 ≤ decimal_value s acc < (acc + 1) * 10 ^ Z.of_nat n)%Z.
Proof.
  revert acc n. induction s as [|c s IH]; intros acc n Hs Hl Ha; cbn [decimal_value].
  - assert (1 ≤ 10 ^ Z.of_nat n)%Z by lia. nia.
  - cbn in Hs, Hl. apply andb_true_iff in Hs as [Hc Hs]. apply in_range_spec in Hc. destruct n as [|n]; [lia|].
    destruct (IH (acc * 10 + digit_value c)%Z n Hs) as [H0 H1]; [lia|unfold digit_value; lia|].
    split; [done|]. eapply Z.lt_le_trans; [exact H1|]. rewrite Nat2Z.inj_succ, Z.pow_succ_r by lia.
    unfold digit_value. nia.
Qed.

Lemma nic_key_range key i : nic_key key = Some i → (0 ≤ i < 100)%Z.
Proof.
  unfold nic_key. destruct (CutPrefix key "net") as [d ok]. destruct ok; cbn [andb]; [|done].
  destruct (length_between 1 2 d) eqn:Hl; cbn [andb]; [|done]. destruct (sforall is_digit d) eqn:Hd; [|done].
  intros [= <-]. unfold length_between in Hl. apply andb_true_iff in Hl as [_ Hl%Nat.leb_le].
  pose proof (digits_range d 0 2 Hd Hl). lia.
Qed.

Lemma parseNIC_plain vmid i value :
  is_vmid vmid = true → (0 ≤ i < 100)%Z → plain_nic (parseNIC vmid i value).
Proof.
  intros Hv Hi. unfold parseNIC.
  assert (∀ l st, NicVMID st.1 = vmid → Index st.1 = i → MAC st.1 = "" →
    let st' := foldl nic_field st l in NicVMID st'.1 = vmid ∧ Index st'.1 = i ∧ MAC st'.1 = "") as Hfold.
  { induction l as [|f l IH]; intros st H1 H2 H3; cbn [foldl]; [done|].
    apply IH; unfold nic_field; destruct st as [nic mac]; destruct (Cut (TrimSpace f) "=") as [[k v] ?];
      cbn zeta; cbn [fst] in *; repeat (destruct (bool_decide _)); try destruct (_ && _); done. }
  specialize (Hfold (Split value ",") (mkNIC vmid i "" "" "", "") eq_refl eq_refl eq_refl).
  destruct (foldl nic_field _ _) as [nic mac]. cbn in Hfold. destruct Hfold as (H1 & H2 & H3).
  destruct (is_mac mac) eqn:Hm; split; cbn; rewrite ?H1, ?H2; try done; [right; by apply mac_lower|by left].
Qed.

Lemma parseNICs_plain vmid data : is_vmid vmid = true → Forall plain_nic (parseNICs vmid data).
Proof.
  intros Hv. unfold parseNICs. induction (Split data lf) as [|line lines IH]; cbn [nic_lines]; [done|].
  cbn zeta. destruct (HasPrefix _ _); [done|]. unfold nic_line. destruct (Cut _ _) as [[key value] []]; [|done].
  destruct (nic_key _) as [i|] eqn:Hk; cbn; [|done]. constructor; [|done].
  apply parseNIC_plain; [done|by eapply nic_key_range].
Qed.

Lemma read_nics_plain files nics l :
  Forall plain_nic nics → read_nics files nics = Ok l → Forall plain_nic l.
Proof.
  revert nics. induction files as [|[path f] files IH]; intros nics Hn; cbn [read_nics]; [by intros [= <-]|].
  cbn zeta. destruct (is_vmid _) eqn:Hv; cbn [negb]; [|by apply IH].
  destruct f as [data| |e]; [|done..]. apply IH. apply Forall_app. split; [done|by apply parseNICs_plain].
Qed.

Lemma GuestNICs_plain (sort : list NIC → list NIC) root p nics :
  (∀ l, sort l ≡ₚ l) → GuestNICs sort root p = Ok nics → Forall plain_nic nics.
Proof.
  intros Hs. unfold GuestNICs. destruct (conf_dir p); [|done]. destruct (conf_glob p) as [files|]; [|done].
  cbn zeta. destruct (read_nics files []) as [l|] eqn:E; cbn; [|done]. intros [= <-]. rewrite Hs.
  by eapply read_nics_plain.
Qed.
End nics.

(** ** The table *)

Section binder.
Context `{GoUnicode} `{NL : NFTLaws T}.
Context (sha256 : string → string) (sort : list NIC → list NIC).
Context (sort_perm : ∀ l, sort l ≡ₚ l).
Context (PVERoot BridgeName : string).
Local Abbreviation nics_of := (GuestNICs sort PVERoot).
Local Abbreviation fingerprint := (fun p => Sum sha256 (SourceFingerprint PVERoot p)).
Local Abbreviation tick := (Tick sha256 sort PVERoot BridgeName).
Local Abbreviation run_events := (bind_run sha256 sort PVERoot BridgeName).

Lemma Render_rule nics n : n ∈ nics → Bridge n = BridgeName →
  ∃ before after, Render BridgeName nics = before +:+ nic_rules n +:+ after.
Proof.
  intros Hn Hb. assert (∃ before after, render_rules BridgeName nics = before +:+ nic_rules n +:+ after) as (x & y & Hr).
  { induction nics as [|m nics IH]; [by apply not_elem_of_nil in Hn|]. cbn [render_rules].
    apply elem_of_cons in Hn as [<-|Hn].
    - rewrite bool_decide_true by done. cbn [negb]. by exists "", (render_rules BridgeName nics).
    - destruct (IH Hn) as (x & y & Hr). case_bool_decide; cbn [negb]; [|by exists x, y].
      exists (nic_rules m +:+ x), y. by rewrite Hr, string_app_assoc. }
  unfold Render. rewrite Hr. generalize (nft_line 0 ("table bridge " +:+ Table)), (nft_line 0 ("delete table bridge " +:+ Table)),
    (nft_line 0 ("table bridge " +:+ Table +:+ " {")), (nft_line 1 "chain from_guests {"), (nft_line 1 "}" +:+ nft_line 0 "}"),
    (nft_line 2 "type filter hook prerouting priority -200; policy accept;"). intros a b c d e f.
  exists (a +:+ b +:+ c +:+ d +:+ f +:+ x), (y +:+ e). by rewrite !string_app_assoc.
Qed.

(** The state between checks: a table that was set and not failed on was seen as
    set; what the binder wants is what its last reading asks for. *)
Definition seen_set (b : Binder) : Prop :=
  want b ≠ "" → failing b = false → seen b = mkTable false (listing (T := T) (want b)).
Definition last_read (rds : list reading) (b : Binder) : Prop :=
  haveFP b = true → ∃ rd, rd ∈ rds ∧ fp b = fingerprint (fp_source rd) ∧
    match nics_of (nic_source rd) with Ok nics => want b = Render BridgeName nics | Err _ => True end.

(** Reading the configurations. *)
Lemma read_configs_spec rds rd b :
  let '(b1, changed) := read_configs sha256 sort PVERoot BridgeName rd b in
  seen b1 = seen b ∧ failing b1 = failing b ∧ (changed = false → want b1 = want b) ∧
  haveFP b1 = true ∧ fp b1 = fingerprint (fp_source rd) ∧
  (last_read rds b → last_read (rds ++ [rd]) b1) ∧
  (last_read rds b →
   (∀ rd', rd' ∈ rds → fingerprint (fp_source rd') = fingerprint (fp_source rd) →
      nics_of (nic_source rd') = nics_of (nic_source rd)) →
   want b1 = match nics_of (nic_source rd) with Ok nics => Render BridgeName nics | Err _ => want b end).
Proof.
  unfold read_configs. cbn zeta. destruct (haveFP b && bool_decide _) eqn:Hfp.
  - apply andb_true_iff in Hfp as [Hh Hfp%bool_decide_eq_true]. split_and!; try done.
    + intros Hl _. destruct (Hl Hh) as (rd' & Hin & ? & ?). exists rd'. split; [apply elem_of_app; by left|done].
    + intros Hl Hstill. destruct (Hl Hh) as (rd' & Hin & Hf & Hw). rewrite <- (Hstill rd' Hin) by congruence.
      by destruct (nics_of (nic_source rd')).
  - assert (rd ∈ rds ++ [rd]) as Hin by (apply elem_of_app; right; by left).
    destruct (nics_of (nic_source rd)) as [nics|e] eqn:E.
    + cbn zeta. destruct (decide (Render BridgeName nics = want b)) as [Hs|Hs];
        [rewrite (bool_decide_true _ Hs)|rewrite (bool_decide_false _ Hs)]; cbn [negb]; refine (conj _ (conj _ (conj _ (conj _ (conj _ (conj _ _)))))); try done;
        intros _ _; exists rd; by rewrite E.
    + refine (conj _ (conj _ (conj _ (conj _ (conj _ (conj _ _)))))); try done. intros _ _. exists rd. by rewrite E.
Qed.

(** The table after a check. *)
Inductive checked (w : string) (t t' : T) (b' : Binder) : Prop :=
  | check_nothing : w = "" → t' = t → checked w t t' b'
  | check_set : List t' = Ok (listing w) → failing b' = false → checked w t t' b'
  | check_failed e : (Apply w t).2 = Err e → List t' = List t → failing b' = true → checked w t t' b'.

Lemma restore_table_spec changed b t :
  (changed = false → seen_set b) →
  let '(b', t', applied) := restore_table changed b t in
  want b' = want b ∧ fp b' = fp b ∧ haveFP b' = haveFP b ∧ seen_set b' ∧ checked (want b) t t' b'.
Proof.
  intros Hseen. unfold restore_table. cbn zeta. case_bool_decide as Hw.
  { split_and!; [done..| |by apply check_nothing]. intros Hw'. done. }
  destruct (negb changed && negb (failing b) && bool_decide (stateOf (List t) = seen b)) eqn:Hidle.
  - apply andb_true_iff in Hidle as [[Hc%negb_true_iff Hf%negb_true_iff]%andb_true_iff Hs%bool_decide_eq_true].
    split_and!; [done..|by apply Hseen|]. apply check_set; [|done]. rewrite (Hseen Hc Hw Hf) in Hs.
    by destruct (List t); simplify_eq/=.
  - destruct (Apply (want b) t) as [t' [[]|e]] eqn:Ha; cbn.
    + apply apply_ok in Ha. split_and!; [done..| |by apply check_set]. intros _ _. cbn. by rewrite Ha.
    + split_and!; [done..| |]; [by intros _|]. apply (check_failed _ _ _ _ e); [by rewrite Ha|by eapply apply_err|done].
Qed.

(** What a check leads to, and that the next one is idle. *)
Lemma tick_idle rd b t :
  haveFP b = true → fp b = fingerprint (fp_source rd) → seen_set b → failing b = false →
  want b = "" ∨ List t = Ok (listing (want b)) → tick rd b t = (b, t, false).
Proof.
  intros Hh Hf Hs Hn Hl. unfold Tick, read_configs. cbn zeta. rewrite Hh, Hf, bool_decide_true by done. cbn [andb].
  unfold restore_table. case_bool_decide as Hw; [done|]. destruct Hl as [|Hl]; [done|].
  by rewrite (Hs Hw Hn), Hl, Hn, bool_decide_true.
Qed.

Lemma changed_or_seen changed (b b1 : Binder) :
  seen b1 = seen b → failing b1 = failing b → (changed = false → want b1 = want b) →
  seen_set b → changed = false → seen_set b1.
Proof. intros H1 H2 H3 Hs Hc. unfold seen_set. rewrite H1, H2, H3 by done. exact Hs. Qed.

Definition readings (evs : list (bind_event T)) : list reading :=
  omap (λ e, match e with Checked rd => Some rd | Outside _ => None end) evs.

Lemma run_in_step evs t0 :
  seen_set (run_events evs t0).1 ∧ last_read (readings evs) (run_events evs t0).1.
Proof.
  unfold bind_run, readings. induction evs as [|e evs [IHs IHl]] using rev_ind.
  { split; [intros Hw; by destruct Hw|done]. }
  rewrite foldl_app, omap_app. cbn [foldl]. destruct (foldl _ _ evs) as [b t].
  destruct e as [rd|change]; cbn [bind_step fst snd omap list_omap]; [|by rewrite app_nil_r].
  unfold Tick. pose proof (read_configs_spec (readings evs) rd b) as Hr.
  destruct (read_configs _ _ _ _ rd b) as [b1 changed]. destruct Hr as (H1 & H2 & H3 & _ & _ & H5 & _).
  pose proof (restore_table_spec changed b1 t (changed_or_seen changed b b1 H1 H2 H3 IHs)) as Ht.
  destruct (restore_table changed b1 t) as [[b' t'] applied]. cbn [fst].
  destruct Ht as (Hw & Hf & Hh & Hs & _). split; [done|].
  unfold last_read. rewrite Hw, Hf, Hh. by apply H5.
Qed.

(** C38: the bridge table follows the guests' configurations. Whatever was done
    to the table between checks, a check leaves exactly the table they ask for, and
    the next check does nothing; or the apply failed, the table is as it was and
    the next check tries again. While the configurations cannot be read, the last
    table is kept up. Every port on the bridge has its rules, made of digits and
    MAC addresses only. This holds unless the configurations changed during an
    earlier reading and back again. *)
Theorem binder_restores_table evs t0 rd :
  (∀ rd', rd' ∈ readings evs → fingerprint (fp_source rd') = fingerprint (fp_source rd) →
     nics_of (nic_source rd') = nics_of (nic_source rd)) →
  let '(b, t) := run_events evs t0 in
  let '(b', t', _) := tick rd b t in
  want b' = match nics_of (nic_source rd) with Ok nics => Render BridgeName nics | Err _ => want b end ∧
  (∀ nics, nics_of (nic_source rd) = Ok nics → Forall plain_nic nics ∧
     ∀ n, n ∈ nics → Bridge n = BridgeName → ∃ before after, want b' = before +:+ nic_rules n +:+ after) ∧
  checked (want b') t t' b' ∧
  (failing b' = false → tick rd b' t' = (b', t', false)).
Proof.
  intros Hstill. pose proof (run_in_step evs t0) as [Hs Hl]. destruct (run_events evs t0) as [b t].
  cbn [fst] in *. unfold Tick at 1.
  pose proof (read_configs_spec (readings evs) rd b) as Hr.
  destruct (read_configs _ _ _ _ rd b) as [b1 changed]. destruct Hr as (H1 & H2 & H3 & H4 & H5 & _ & H6).
  pose proof (restore_table_spec changed b1 t (changed_or_seen changed b b1 H1 H2 H3 Hs)) as Ht.
  destruct (restore_table changed b1 t) as [[b' t'] applied]. destruct Ht as (Hw & Hf & Hh & Hs' & Hc).
  specialize (H6 Hl Hstill). rewrite <- Hw in H6, Hc. split_and!; [done| |done|].
  - intros nics Hn. split; [by eapply GuestNICs_plain|]. rewrite H6, Hn. intros n. apply Render_rule.
  - intros Hfail. apply tick_idle; [congruence..|done|done|].
    destruct Hc as [Hw0 _|Hset _|e _ _ Hbad]; [by left|by right|congruence].
Qed.
End binder.

(** ** Witness: a table in memory *)

#[export] Instance toy_nft : NFT (option string * bool) := {|
  Apply (script : string) (t : option string * bool) := if t.2 then (t, Err "netlink: Operation not permitted") else ((Some script, false), Ok ());
  List (t : option string * bool) := match t.1 with Some s => Ok s | None => Err "No such file or directory" end;
|}.
#[export] Instance toy_nft_laws : NFTLaws (option string * bool).
Proof.
  refine {| listing s := s |}.
  - intros script [tbl []] t'; cbn; [done|]. by intros [= <-].
  - intros script [tbl []] t' e; cbn; [|done]. by intros [= <- _].
Defined.

Definition toy_sort : list NIC → list NIC := merge_sort nic_before.
Definition toy_reading : reading :=
  let p := mkPve (Ok "nodes/pve1") (Ok ())
    (Ok [("/etc/pve/local/qemu-server/350.conf", Content "net1: virtio=BC:24:11:00:02:99,bridge=vmbr_imds")]) Missing Missing in
  mkReading p p.
(** The table is set, removed from outside, and restored. *)
Definition toy_events : list (bind_event (option string * bool)) := [Checked toy_reading; Outside (λ t : option string * bool, (None, t.2))].
Lemma binder_restores_table_witness :
  let '(b, t) := bind_run (H := caseless) (λ s, s) toy_sort "" "vmbr_imds" toy_events (None, false) in
  t.1 = None ∧
  let '(b', t', _) := Tick (H := caseless) (λ s, s) toy_sort "" "vmbr_imds" toy_reading b t in
  t'.1 = Some (want b') ∧
  ∃ before after, want b' = before +:+ nic_rules (mkNIC "350" 1 "virtio" "bc:24:11:00:02:99" "vmbr_imds") +:+ after.
Proof.
  pose proof (binder_restores_table (H := caseless) (T := option string * bool) (λ s, s) toy_sort
    (λ l, merge_sort_Permutation _ l) "" "vmbr_imds" toy_events (None, false) toy_reading) as Ht.
  specialize (Ht ltac:(intros rd' Hrd _; apply list_elem_of_singleton in Hrd; by rewrite Hrd)).
  destruct (bind_run _ _ _ _ _ _) as [b t] eqn:E.
  assert (t = (None, false)) as ->.
  { change t with ((b, t).2). rewrite <- E. by vm_compute. }
  split; [done|]. destruct (Tick _ _ _ _ _ b _) as [[b' t'] applied] eqn:E'.
  destruct Ht as (_ & Hn & Hc & _).
  assert (GuestNICs (H := caseless) toy_sort "" (nic_source toy_reading) =
    Ok [mkNIC "350" 1 "virtio" "bc:24:11:00:02:99" "vmbr_imds"]) as Hnics by by vm_compute.
  destruct (Hn _ Hnics) as [_ Hrules]. split.
  - destruct Hc as [Hw _|Hset _|e Hbad _ _].
    + exfalso. destruct (Hrules _ (list_elem_of_here _ _) eq_refl) as (x & y & Hxy). rewrite Hw in Hxy.
      clear - Hxy. by destruct x.
    + clear - Hset. change (match t'.1 with Some s => Ok s | None => Err "No such file or directory" end = Ok (want b')) in Hset.
      by destruct t'.1; [injection Hset as ->|].
    + discriminate Hbad.
  - exact (Hrules _ (list_elem_of_here _ _) eq_refl).
Defined.
