(* ===== verification/BindMain.v ===== *)
(** * The binder's process (internal/bridgebind/binder.go, cmd/vtpm-mds-bind/main.go)

    [Exec] is the implementation of [NFT] that runs the nft binary; [Run] checks at
    once, fails visibly when that leaves no table, and then checks until it is
    stopped, writing the script it applied into its run directory. The flags are
    arguments. [run_needs_table]: when the process starts, and what it says when it
    does not. *)

From S2P Require Import Prelude.
From S2P Require Import Go.
From S2P Require Import Inventory.
From S2P Require Import Proxmox.
From S2P Require Import Nics.
From S2P Require Import Bind.
From S2P Require Import BindProofs.

(** ** Running nft *)

Section exec.
(** A process: the binary, its input and arguments; its output, or its error with
    what it wrote to standard error. Only applying a script changes the kernel. *)
Context {T : Type}.
Context (command : string → string → list string → T → T * outcome (string * string) string).
Context (Path : string).

Definition exec_text (args : list string) (r : outcome (string * string) string) : outcome string string :=
  match r with
  | Ok out => Ok out
  | Err (e, errOut) => Err (Path +:+ " [" +:+ Join args " " +:+ "]: " +:+ e +:+ ": " +:+ TrimSpace errOut)
  end.
Definition exec_run (stdin : string) (args : list string) (t : T) : T * outcome string string :=
  let '(t, r) := command Path stdin args t in (t, exec_text args r).

Definition Exec : NFT T := {|
  Apply script t := let '(t, r) := exec_run script ["-f"; "-"] t in (t, _ ← r; Ok ());
  List t := (exec_run "" ["-s"; "list"; "table"; "bridge"; Table] t).2;
|}.
End exec.

(** ** The process *)

Section process.
Context `{GU : GoUnicode} {T : Type} {N : NFT T}.
Context (sha256 : string → string) (sort : list NIC → list NIC).
Context (PVERoot BridgeName RunDir : string).
Local Abbreviation tick := (Tick sha256 sort PVERoot BridgeName).

(** The binder, the kernel's table, and the files of its run directory. *)
Record running := mkRunning { run_binder : Binder; run_table : T; run_files : gmap string string }.

(** [fault]: the file cannot be written, which is logged. *)
Definition writeScript (b : Binder) (fault : bool) (files : gmap string string) : gmap string string :=
  if bool_decide (RunDir = "") then files
  else if fault then files else <[JoinPath [RunDir; Table +:+ ".nft"] := want b]> files.

(** A check, with the copy of the script when it was applied. *)
Definition run_tick (rd : reading) (fault : bool) (st : running) : running :=
  let '(b, t, applied) := tick rd (run_binder st) (run_table st) in
  mkRunning b t (if applied then writeScript b fault (run_files st) else run_files st).

(** Between checks others may change the table. *)
Inductive run_event := Ticked (rd : reading) (fault : bool) | Meddled (change : T → T).
Definition run_step (st : running) (e : run_event) : running :=
  match e with
  | Ticked rd fault => run_tick rd fault st
  | Meddled change => mkRunning (run_binder st) (change (run_table st)) (run_files st)
  end.

(** [Run]: [evs] is what happens until the context is done. *)
Definition Run (rd : reading) (fault : bool) (evs : list run_event) (t : T) : running * option string :=
  let st := run_tick rd fault (mkRunning new_binder t ∅) in
  match first_check_error (run_binder st) with
  | Some e => (st, Some e)
  | None => (foldl run_step st evs, None)
  end.

(** [main]. *)
Inductive ending := Printed (script : string) | Fatal (msg : string) | Stopped.
Definition main (printOnly : bool) (rd : reading) (fault : bool) (evs : list run_event) (t : T) : T * ending :=
  if bool_decide (BridgeName = "") then (t, Fatal "-bridge must not be empty")
  else if printOnly : bool then
    match GuestNICs sort PVERoot (nic_source rd) with
    | Err e => (t, Fatal e)
    | Ok nics => (t, Printed (Render BridgeName nics))
    end
  else
    match Run rd fault evs t with
    | (st, Some e) => (run_table st, Fatal e)
    | (st, None) => (run_table st, Stopped)
    end.

(** ** When it starts *)

Lemma Render_nonempty bridge nics : Render bridge nics ≠ "".
Proof. done. Qed.

(** The process goes on after its first check exactly when the guests' configurations
    could be read and their table was applied; the table is then theirs, and the copy
    is what was applied. Otherwise it ends with the reason, and the kernel's table is
    as it was. *)
Theorem run_needs_table {L : NFTLaws T} rd fault evs t :
  match GuestNICs sort PVERoot (nic_source rd) with
  | Err e => Run rd fault evs t = (mkRunning (fst (fst (tick rd new_binder t))) t ∅,
      Some ("cannot read guest NICs, no table bridge vtpm_mds_bind applied: " +:+ e))
  | Ok nics =>
      match Apply (Render BridgeName nics) t with
      | (t1, Err e) => List t1 = List t ∧ ∃ b, Run rd fault evs t =
          (mkRunning b t1 ∅, Some ("first apply of table bridge vtpm_mds_bind failed: " +:+ e))
      | (t1, Ok _) => List t1 = Ok (listing (Render BridgeName nics)) ∧ ∃ b,
          want b = Render BridgeName nics ∧
          Run rd fault evs t = (foldl run_step (mkRunning b t1 (writeScript b fault ∅)) evs, None)
      end
  end.
Proof.
  unfold Run, run_tick, Tick, read_configs. cbn [run_binder run_table run_files new_binder haveFP andb want].
  destruct (GuestNICs sort PVERoot (nic_source rd)) as [nics|e]; [|done].
  rewrite bool_decide_eq_false_2 by done. cbn [negb]. unfold restore_table. cbn [want failing].
  rewrite bool_decide_eq_false_2 by done. cbn [negb andb].
  destruct (Apply (Render BridgeName nics) t) as [t1 [[]|e]] eqn:Ha.
  - pose proof (apply_ok _ _ _ Ha) as Hl. split; [done|]. eexists. split; [|reflexivity]. done.
  - split; [by eapply apply_err|]. by eexists.
Qed.
End process.
