(* ===== verification/Spire.v ===== *)
(** * The SPIRE client (internal/reconcile/spire.go)

    The operations of [spireAPI] over the SPIRE server's gRPC services, which are
    the class [SpireRPC]. A list call is a loop over pages that ends with the
    server's last page; the model bounds it with fuel, and what the server
    documents of its tokens says how much is enough. *)

From S2P Require Import Prelude.
From S2P Require Import Go.
From S2P Require Import Net.
From S2P Require Import Wanted.
From S2P Require Import Diff.
From S2P Require Import Bans.
From S2P Require Import Pass.
From Stdlib Require Import Ascii.

(** ** The messages of the services *)

Record SPIFFEID := mkID { TrustDomain : string; IDPath : string }.
#[export] Instance SPIFFEID_eq_dec : EqDecision SPIFFEID.
Proof. solve_decision. Defined.

Record types_Entry := mkProto {
  Id : string;
  ParentId : option SPIFFEID;
  SpiffeId : option SPIFFEID;
  ProtoSelectors : list (string * string);
  Admin : bool;
  Downstream : bool;
  DnsNames : list string;
  FederatesWith : list string;
  X509SvidTtl : Z;
  JwtSvidTtl : Z;
  Hint : string;
  ExpiresAt : Z;
  StoreSvid : bool;
}.
Record types_Agent := mkProtoAgent {
  ProtoAgentId : option SPIFFEID;
  ProtoAgentSelectors : list (string * string);
  ProtoBanned : bool;
}.
(** A status: its code and message. *)
Abbreviation status := (Z * string)%type.
Definition codes_OK : Z := 0.
Definition codes_NotFound : Z := 5.

Class SpireRPC (W : Type) := {
  ListEntries : SPIFFEID → string → fallible W string (list types_Entry * string);
  BatchCreateEntry : list types_Entry → fallible W string (list status);
  BatchDeleteEntry : list string → fallible W string (list (string * status));
  ListAgents : string → string → fallible W string (list types_Agent * string);
  BanAgentRPC : SPIFFEID → fallible W string ();
}.

(** ** The client *)

Definition idString (id : option SPIFFEID) : string :=
  match id with None => "" | Some i => "spiffe://" +:+ TrustDomain i +:+ IDPath i end.
Definition selectorStrings (sel : list (string * string)) : list string :=
  (λ x, x.1 +:+ ":" +:+ x.2) <$> sel.

Definition entryFromProto (e : types_Entry) : Entry :=
  mkEntry (Id e) (idString (ParentId e)) (idString (SpiffeId e)) (selectorStrings (ProtoSelectors e))
    (negb (Admin e) && negb (Downstream e) && bool_decide (DnsNames e = []) && bool_decide (FederatesWith e = []) &&
     (X509SvidTtl e =? 0)%Z && (JwtSvidTtl e =? 0)%Z && bool_decide (Hint e = "") && (ExpiresAt e =? 0)%Z &&
     negb (StoreSvid e)).
Definition agentFromProto (a : types_Agent) : Agent :=
  mkAgent (idString (ProtoAgentId a)) (selectorStrings (ProtoAgentSelectors a)) (ProtoBanned a).

Section client.
Context {W : Type} `{SpireRPC W}.
(** [codes.Code.String]. *)
Context (code_name : Z → string).
Context (td : string).

Definition id (path : string) : SPIFFEID := mkID td path.

(** The loop of [Entries] and of [Agents]. A call carries its filter and the token;
    the page size, a constant of the requests, is the server's to honour. *)
Fixpoint list_pages {P Q} (fuel : nat) (fetch : string → fallible W string (list P * string)) (f : P → Q)
    (token : string) (out : list Q) : fallible W string (list Q) :=
  match fuel with
  | O => throw "more pages"
  | S fuel =>
      '(page, next) ← fetch token;
      let out := out ++ (f <$> page) in
      if bool_decide (next = "") then mret out else list_pages fuel fetch f next out
  end.

Definition Entries (fuel : nat) : fallible W string (list Entry) :=
  wrap (String.append "list entries: ")
    (list_pages fuel (ListEntries (id "/spire/server")) entryFromProto "" []).
Definition Agents (fuel : nat) : fallible W string (list Agent) :=
  wrap (String.append "list agents: ") (list_pages fuel (ListAgents "tpm_devid") agentFromProto "" []).

(** The entry to create for an alias. *)
Definition proto_selector (sel : string) : string * string := let '(typ, val, _) := Cut sel ":" in (typ, val).
Definition entry_request (a : Alias) : outcome string types_Entry :=
  let '(path, ok) := CutPrefix (Wanted.SPIFFEID a) ("spiffe://" +:+ td) in
  if negb ok then Err ("alias " +:+ Wanted.SPIFFEID a +:+ " is outside trust domain " +:+ td)
  else Ok (mkProto "" (Some (id "/spire/server")) (Some (id path)) (proto_selector <$> Selectors a)
             false false [] [] 0 0 "" 0 false).
Fixpoint entry_requests (aliases : list Alias) : outcome string (list types_Entry) :=
  match aliases with
  | [] => Ok []
  | a :: aliases => e ← entry_request a; es ← entry_requests aliases; Ok (e :: es)
  end.

(** [errors.Join]. *)
Definition join_errors (errs : list string) : fallible W string () :=
  match errs with [] => mret () | _ => throw (Join errs lf_string) end.

(** The results that failed. The index of a result past the aliases would panic;
    the server answers one result for each entry. *)
Fixpoint create_errors (aliases : list Alias) (results : list status) : list string :=
  match aliases, results with
  | a :: aliases, (code, msg) :: results =>
      (if (code =? codes_OK)%Z then []
       else ["create " +:+ Wanted.SPIFFEID a +:+ ": " +:+ code_name code +:+ ": " +:+ msg]) ++
      create_errors aliases results
  | _, _ => []
  end.
Definition Create (aliases : list Alias) : fallible W string () :=
  match aliases with
  | [] => mret ()
  | _ =>
      match entry_requests aliases with
      | Err e => throw e
      | Ok reqs =>
          results ← wrap (String.append "create entries: ") (BatchCreateEntry reqs);
          join_errors (create_errors aliases results)
      end
  end.

Definition delete_error (r : string * status) : option string :=
  let '(i, (code, msg)) := r in
  if (code =? codes_OK)%Z || (code =? codes_NotFound)%Z then None
  else Some ("delete " +:+ i +:+ ": " +:+ code_name code +:+ ": " +:+ msg).
Definition Delete (ids : list string) : fallible W string () :=
  match ids with
  | [] => mret ()
  | _ =>
      results ← wrap (String.append "delete entries: ") (BatchDeleteEntry ids);
      join_errors (omap delete_error results)
  end.

Definition Ban (agentID : string) : fallible W string () :=
  let '(path, ok) := CutPrefix agentID ("spiffe://" +:+ td) in
  if negb ok then throw ("agent " +:+ agentID +:+ " is outside trust domain " +:+ td)
  else wrap (String.append ("ban " +:+ agentID +:+ ": ")) (BanAgentRPC (id path)).

(** The client as the reconciler's interface. *)
Definition SPIRE (fuel : nat) : spireAPI W := {|
  Pass.Entries := Entries fuel;
  Pass.Create := Create;
  Pass.Delete := Delete;
  Pass.Agents := Agents fuel;
  Pass.BanAgent := Ban;
|}.
End client.
