(* ===== verification/SpireProofs.v ===== *)
(** * The SPIRE client keeps the interface's promises

    [SpireRPCLaws] states what the server's API documents of its calls;
    [spire_client_implements] derives the laws the pass is proved against
    ([SpireServer]), so the theorems about a pass hold of the client. *)

From S2P Require Import Prelude.
From S2P Require Import Go.
From S2P Require Import Wanted.
From S2P Require Import Diff.
From S2P Require Import Bans.
From S2P Require Import Pass.
From S2P Require Import PassProofs.
From S2P Require Import Spire.
From Stdlib Require Import Ascii.

Abbreviation distinct_ids l := (NoDup (Id <$> l)).

(** A created entry is its request with an ID; its selectors may be reordered. *)
Definition created_from (r e : types_Entry) : Prop :=
  ParentId e = ParentId r ∧ SpiffeId e = SpiffeId r ∧ ProtoSelectors e ≡ₚ ProtoSelectors r ∧
  Default (entryFromProto e) = Default (entryFromProto r).

(** [listed w]: the entries parented on the server. A token stands for the entries
    that are still to come ([rest]), and pages make progress ([pages_left]). *)
Class SpireRPCLaws (W : Type) `{SpireRPC W} (td : string) := {
  listed : W → list types_Entry;
  rest : W → string → list types_Entry;
  pages_left : W → string → nat;
  rest_start w : rest w "" ≡ₚ listed w;
  ListEntries_law token w w' r :
    ListEntries (id td "/spire/server") token w = (w', r) →
    listed w' = listed w ∧ (∀ t, rest w' t = rest w t ∧ pages_left w' t = pages_left w t) ∧
    ∀ page next, r = Ok (page, next) →
      if bool_decide (next = "") then rest w token ≡ₚ page
      else rest w token ≡ₚ page ++ rest w next ∧ pages_left w next < pages_left w token;
  ListAgents_law kind token w : listed (ListAgents kind token w).1 = listed w;
  BanAgent_law i w : listed (BanAgentRPC i w).1 = listed w;
  BatchCreateEntry_law reqs w w' r :
    BatchCreateEntry reqs w = (w', r) → distinct_ids (listed w) →
    (∀ e, e ∈ reqs → ParentId e = Some (id td "/spire/server")) →
    ∃ done news, sublist done reqs ∧ Forall2 created_from done news ∧
      listed w' ≡ₚ listed w ++ news ∧ distinct_ids (listed w ++ news) ∧
      ∀ rs, r = Ok rs → length rs = length reqs ∧ (Forall (λ s, s.1 = codes_OK) rs → done = reqs);
  BatchDeleteEntry_law ids w w' r :
    BatchDeleteEntry ids w = (w', r) →
    ∃ done, done ⊆ ids ∧ listed w' ≡ₚ filter (λ e, Id e ∉ done) (listed w) ∧
      ∀ rs, r = Ok rs → rs.*1 = ids ∧
        ∀ i code msg, (i, (code, msg)) ∈ rs → code = codes_OK ∨ code = codes_NotFound → i ∉ Id <$> listed w';
}.

(** ** Text *)

Lemma Cut_absent s c b a : Cut s c = (b, a, false) → ContainsByte c s = false.
Proof.
  revert b. induction s as [|x s IH]; intros b; [done|]. cbn. case_bool_decide; [done|].
  destruct (Cut s c) as [[b' a'] ok]. intros [= <- <- ->]. apply orb_false_iff. split; [by apply bool_decide_eq_false; congruence|by eapply IH].
Qed.
Lemma proto_selector_text sel : ContainsByte ":" sel = true →
  (proto_selector sel).1 +:+ ":" +:+ (proto_selector sel).2 = sel.
Proof.
  intros Hin. unfold proto_selector. destruct (Cut sel ":") as [[b a] ok] eqn:E.
  destruct ok; [|apply Cut_absent in E; congruence].
  apply Cut_spec in E as [-> _]. done.
Qed.

Lemma selectorStrings_typed a : typed a → selectorStrings (proto_selector <$> Selectors a) = Selectors a.
Proof.
  unfold typed, selectorStrings. induction (Selectors a) as [|s l IH]; [done|].
  intros [Hs Hl]%Forall_cons. rewrite !fmap_cons, proto_selector_text by done. f_equal. by apply IH.
Qed.

Lemma SortStrings_perm l l' : l ≡ₚ l' → SortStrings l = SortStrings l'.
Proof.
  intros Hp. unfold SortStrings. apply (StronglySorted_unique String.le).
  - apply (StronglySorted_merge_sort _).
  - apply (StronglySorted_merge_sort _).
  - by rewrite !merge_sort_Permutation.
Qed.
Lemma selectorKey_perm l l' : l ≡ₚ l' → selectorKey l = selectorKey l'.
Proof. intros Hp. unfold selectorKey. by rewrite (SortStrings_perm l l'). Qed.

(** ** The calls *)

Section client.
Context {W : Type} (code_name : Z → string) (td : string) `{SpireRPCLaws W td}.
Local Abbreviation all := (listed (td := td)).

Lemma sublist_same_length {A} (l k : list A) : sublist l k → length k ≤ length l → l = k.
Proof.
  intros Hs. induction Hs as [|x l k Hs IH|x l k Hs IH]; cbn; intros Hl; [done|f_equal; apply IH; lia|].
  apply sublist_length in Hs. lia.
Qed.
Lemma sublist_Forall2 {A B} (R : A → B → Prop) l k k' :
  Forall2 R l k → sublist k' k → ∃ l', sublist l' l ∧ Forall2 R l' k'.
Proof.
  intros Hf Hs. revert l Hf. induction Hs as [|x k1 k2 Hs IH|x k1 k2 Hs IH]; intros l Hf.
  - apply Forall2_nil_inv_r in Hf as ->. exists []. by split; [constructor|].
  - apply Forall2_cons_inv_r in Hf as (a & l1 & Ha & Hl & ->). destruct (IH _ Hl) as (l' & ? & ?).
    exists (a :: l'). split; by constructor.
  - apply Forall2_cons_inv_r in Hf as (a & l1 & Ha & Hl & ->). destruct (IH _ Hl) as (l' & ? & ?).
    exists l'. split; [by constructor|done].
Qed.

(** Listing: the pages add up, and enough fuel lists them all. *)
Lemma list_entries_pages fuel token out w w' r :
  list_pages fuel (ListEntries (id td "/spire/server")) entryFromProto token out w = (w', r) →
  all w' = all w ∧ ∀ es, r = Ok es → es ≡ₚ out ++ (entryFromProto <$> rest (td := td) w token).
Proof.
  revert token out w. induction fuel as [|fuel IH]; intros token out w; cbn [list_pages].
  { by intros [= <- <-]. }
  unfold mbind at 1, fallible_bind at 1. destruct (ListEntries _ token w) as [w1 [[page next]|e]] eqn:E;
    destruct (ListEntries_law token w w1 _ E) as (Hl & Hr & Hp); [|by intros [= <- <-]].
  specialize (Hp page next eq_refl). case_bool_decide.
  - intros [= <- <-]. split; [done|]. intros es [= <-]. by rewrite Hp.
  - intros [Hl' Hes]%IH. split; [congruence|]. intros es Hok. destruct Hp as [Hp _].
    rewrite (Hes es Hok), <- (assoc_L (++)), <- fmap_app, Hp. by rewrite (proj1 (Hr next)).
Qed.

Lemma list_entries_fuel fuel fuel' token out w :
  pages_left (td := td) w token < fuel → fuel ≤ fuel' →
  list_pages fuel (ListEntries (id td "/spire/server")) entryFromProto token out w =
  list_pages fuel' (ListEntries (id td "/spire/server")) entryFromProto token out w.
Proof.
  revert fuel' token out w. induction fuel as [|fuel IH]; intros fuel' token out w Hf Hle; [lia|].
  destruct fuel' as [|fuel']; [lia|]. cbn [list_pages]. unfold mbind, fallible_bind.
  destruct (ListEntries _ token w) as [w1 [[page next]|e]] eqn:E; [|done].
  destruct (ListEntries_law token w w1 _ E) as (_ & Hr & Hp). specialize (Hp page next eq_refl).
  case_bool_decide; [done|]. destruct Hp as [_ Hp]. apply IH; [|lia]. rewrite (proj2 (Hr next)). lia.
Qed.

Lemma list_agents_pages {Q} fuel (f : types_Agent → Q) token out w :
  all (list_pages fuel (ListAgents "tpm_devid") f token out w).1 = all w.
Proof.
  revert token out w. induction fuel as [|fuel IH]; intros token out w; cbn [list_pages]; [done|].
  unfold mbind, fallible_bind. pose proof (ListAgents_law (td := td) "tpm_devid" token w) as Hl.
  destruct (ListAgents _ token w) as [w1 [[page next]|e]]; cbn [fst] in *; [|done].
  case_bool_decide; [done|]. by rewrite IH.
Qed.

Lemma wrap_fst {S E A} (g : E → E) (m : fallible S E A) s : (wrap g m s).1 = (m s).1.
Proof. unfold wrap. by destruct (m s) as [? []]. Qed.
Lemma wrap_Ok {S E A} (g : E → E) (m : fallible S E A) s a : (wrap g m s).2 = Ok a → (m s).2 = Ok a.
Proof. unfold wrap. by destruct (m s) as [? []]. Qed.

(** The requests, and the entries made of them. *)
Lemma entry_requests_spec aliases reqs : entry_requests td aliases = Ok reqs →
  Forall2 (λ a r, entry_request td a = Ok r) aliases reqs.
Proof.
  revert reqs. induction aliases as [|a aliases IH]; intros reqs; cbn [entry_requests]; [by intros [= <-]|].
  intros (e & He & (es & Hes & [= <-])%bind_Ok)%bind_Ok. constructor; [done|by apply IH].
Qed.

Lemma request_created a r e : typed a → entry_request td a = Ok r → created_from r e →
  ParentId r = Some (id td "/spire/server") ∧
  ParentID (entryFromProto e) = diff_parent td ∧ EntrySPIFFEID (entryFromProto e) = Wanted.SPIFFEID a ∧
  selectorKey (EntrySelectors (entryFromProto e)) = selectorKey (Selectors a) ∧ Default (entryFromProto e) = true.
Proof.
  intros Ht. unfold entry_request, CutPrefix. remember ("spiffe://" +:+ td) as pre eqn:Hpre.
  destruct (HasPrefix _ _) eqn:Hp; [|done]. cbn [negb]. intros [= <-] (H1 & H2 & H3 & H4).
  apply HasPrefix_spec in Hp as [path Hp]. cbn [ParentId SpiffeId ProtoSelectors] in H1, H2, H3.
  rewrite Hp, sdrop_app in H2.
  split; [done|]. unfold entryFromProto in *. cbn [ParentID EntrySPIFFEID EntrySelectors] in *.
  rewrite H1, H2. split; [done|]. split; [rewrite Hp, Hpre; cbn [idString TrustDomain IDPath id]; by rewrite string_app_assoc|]. split; [|done].
  apply selectorKey_perm. unfold selectorStrings at 1. rewrite H3. by rewrite <- (selectorStrings_typed a Ht) at 2.
Qed.

Lemma create_errors_ok aliases rs :
  length rs = length aliases → create_errors code_name aliases rs = [] → Forall (λ s, s.1 = codes_OK) rs.
Proof.
  revert rs. induction aliases as [|a aliases IH]; intros [|[code msg] rs] Hl; cbn; try done.
  destruct (code =? codes_OK)%Z eqn:Hc; cbn; [|done]. intros Hr. constructor; [by apply Z.eqb_eq|].
  apply IH; [by injection Hl|done].
Qed.

Lemma join_errors_ok errs (w : W) : (join_errors errs w).1 = w ∧ ((join_errors errs w).2 = Ok () → errs = []).
Proof. by destruct errs. Qed.

Lemma client_create_spec aliases w :
  let r := Create code_name td aliases w in
  distinct_ids (all w) → (∀ a, a ∈ aliases → typed a) →
  ∃ done news, done ⊆ aliases ∧ created td done (entryFromProto <$> news) ∧
    all r.1 ≡ₚ all w ++ news ∧ distinct_ids (all w ++ news) ∧ (r.2 = Ok () → done = aliases).
Proof.
  intros r Hd Ht. assert (∃ done news, done ⊆ aliases ∧ created td done (entryFromProto <$> news) ∧
    all w ≡ₚ all w ++ news ∧ distinct_ids (all w ++ news) ∧ done = []) as Hnone.
  { exists [], []. split_and!; [set_solver|constructor|by rewrite app_nil_r|by rewrite app_nil_r|done]. }
  unfold r, Create. destruct aliases as [|a0 al0] eqn:Ea.
  { destruct Hnone as (done & news & ? & ? & ? & ? & ->). by exists [], news. }
  rewrite <- Ea in *. clear Ea a0 al0 r. destruct (entry_requests td aliases) as [reqs|e] eqn:Er.
  2:{ destruct Hnone as (done & news & ? & ? & ? & ? & ->). exists [], news. by split_and!. }
  apply entry_requests_spec in Er. unfold mbind, fallible_bind, wrap.
  destruct (BatchCreateEntry reqs w) as [w' res] eqn:E.
  destruct (BatchCreateEntry_law (td := td) reqs w w' res E Hd) as (dn & news & Hsub & Hf & Hl & Hdd & Hrs).
  { intros e He. apply list_elem_of_lookup in He as [i Hi].
    destruct (Forall2_lookup_r _ _ _ _ _ Er Hi) as (a & Hai & Hae). unfold entry_request in Hae.
    destruct (CutPrefix _ _) as [path []]; [|done]. by injection Hae as <-. }
  destruct (sublist_Forall2 _ _ _ _ Er Hsub) as (da & Hda & Hdf).
  assert (da ⊆ aliases) as Hin by (intros a Ha; by eapply elem_of_submseteq; [|apply sublist_submseteq]).
  assert (created td da (entryFromProto <$> news)) as Hc.
  { unfold created. apply Forall2_fmap_r. clear - Hdf Hf Hin Ht.
    revert news Hf. induction Hdf as [|a q da dn Hq Hdf IH]; intros news Hf.
    - by apply Forall2_nil_inv_l in Hf as ->.
    - apply Forall2_cons_inv_l in Hf as (e & news' & He & Hf & ->). constructor; [|apply IH; [set_solver|done]].
      by destruct (request_created a q e (Ht a (Hin a (list_elem_of_here _ _))) Hq He) as (_ & ? & ? & ? & ?). }
  exists da, news. destruct res as [rs|e]; cbn [fst snd].
  - destruct (join_errors_ok (create_errors code_name aliases rs) w') as [Hj1 Hj2].
    rewrite Hj1. split_and!; [done..|]. intros Hok%Hj2. destruct (Hrs rs eq_refl) as [Hlen Hall].
    pose proof (Forall2_length _ _ _ Er) as Hlen2.
    rewrite (Hall (create_errors_ok aliases rs ltac:(lia) Hok)) in Hdf.
    pose proof (Forall2_length _ _ _ Hdf). by apply sublist_same_length; [|lia].
  - by split_and!.
Qed.

Lemma delete_errors_ok rs i code msg :
  omap (delete_error code_name) rs = [] → (i, (code, msg)) ∈ rs → code = codes_OK ∨ code = codes_NotFound.
Proof.
  intros Hnil Hin. destruct (delete_error code_name (i, (code, msg))) as [x|] eqn:E.
  - assert (x ∈ omap (delete_error code_name) rs) as Hx by (apply list_elem_of_omap; eauto).
    rewrite Hnil in Hx. by apply elem_of_nil in Hx.
  - cbn in E. destruct (_ || _) eqn:Hc; [|done]. apply orb_true_iff in Hc as [?%Z.eqb_eq|?%Z.eqb_eq]; auto.
Qed.

Lemma deleted_protos ids l :
  deleted ids (entryFromProto <$> l) = entryFromProto <$> filter (λ e, Id e ∉ ids) l.
Proof.
  unfold deleted. induction l as [|e l IH]; [done|]. rewrite fmap_cons, !filter_cons.
  destruct (decide (Id e ∉ ids)) as [Hd|Hd]; [rewrite decide_True by done|rewrite decide_False by done];
    rewrite ?fmap_cons; by rewrite IH.
Qed.

Lemma client_delete_spec ids w :
  let r := Delete code_name ids w in
  ∃ done, done ⊆ ids ∧ all r.1 ≡ₚ filter (λ e, Id e ∉ done) (all w) ∧ (r.2 = Ok () → done = ids).
Proof.
  intros r. unfold r, Delete. destruct ids as [|i0 ids0] eqn:Ei.
  { exists []. split_and!; [done| |done]. cbn. rewrite filter_all; [done|]. intros e _. apply not_elem_of_nil. }
  rewrite <- Ei. clear Ei i0 ids0 r. unfold mbind, fallible_bind, wrap.
  destruct (BatchDeleteEntry ids w) as [w' res] eqn:E.
  destruct (BatchDeleteEntry_law (td := td) ids w w' res E) as (dn & Hsub & Hl & Hrs).
  destruct res as [rs|e]; cbn [fst snd]; [|by exists dn].
  destruct (join_errors_ok (omap (delete_error code_name) rs) w') as [Hj1 Hj2]. rewrite Hj1.
  destruct (decide (omap (delete_error code_name) rs = [])) as [Hnil|Hne].
  2:{ exists dn. split_and!; [done..|]. by intros Hok%Hj2. }
  exists ids. split_and!; [done| |done]. destruct (Hrs rs eq_refl) as [Hids Hgone].
  assert (∀ e, e ∈ all w' → Id e ∉ ids) as Hw'.
  { intros e He Hin. rewrite <- Hids in Hin. apply list_elem_of_fmap in Hin as ([i [code msg]] & Heq & Hr).
    cbn in Heq. subst i. apply (Hgone _ _ _ Hr); [|by apply list_elem_of_fmap_2].
    by eapply delete_errors_ok. }
  rewrite <- (filter_all (λ e, Id e ∉ ids) (all w')) by done. rewrite Hl, list_filter_filter.
  erewrite list_filter_iff; [done|]. intros e. cbn. set_solver.
Qed.
End client.

(** With enough fuel the listing ends: with a result, or with a call's error. *)
Section client_total.
Context {W : Type} (td : string) `{SpireRPCLaws W td}.

Lemma list_entries_ends fuel token out w :
  pages_left (td := td) w token < fuel →
  (∃ es, (list_pages fuel (ListEntries (id td "/spire/server")) entryFromProto token out w).2 = Ok es) ∨
  ∃ token' w' e, (ListEntries (id td "/spire/server") token' w').2 = Err e ∧
    (list_pages fuel (ListEntries (id td "/spire/server")) entryFromProto token out w).2 = Err e.
Proof.
  revert token out w. induction fuel as [|fuel IH]; intros token out w Hf; [lia|].
  cbn [list_pages]. unfold mbind, fallible_bind.
  destruct (ListEntries _ token w) as [w1 [[page next]|e]] eqn:E.
  2:{ right. exists token, w, e. by rewrite E. }
  destruct (ListEntries_law token w w1 _ E) as (_ & Hr & Hp). specialize (Hp page next eq_refl).
  case_bool_decide; [left; by eexists|]. apply IH. rewrite (proj2 (Hr next)). lia.
Qed.
End client_total.

(** ** The refinement *)

Section refinement.
Context {W : Type} (code_name : Z → string) (td : string) `{SpireRPCLaws W td} (fuel : nat).

Lemma Entries_spec w :
  listed (td := td) (Spire.Entries td fuel w).1 = listed (td := td) w ∧
  ∀ es, (Spire.Entries td fuel w).2 = Ok es → es ≡ₚ entryFromProto <$> listed (td := td) w.
Proof.
  unfold Spire.Entries. rewrite wrap_fst. destruct (list_pages _ _ _ _ _ w) as [w' r] eqn:E.
  destruct (list_entries_pages td _ _ _ _ _ _ E) as [Hl Hes]. split; [done|]. intros es Hok%wrap_Ok.
  rewrite E in Hok. rewrite (Hes es Hok). by rewrite rest_start.
Qed.

Lemma Ban_spec i w : listed (td := td) (Ban td i w).1 = listed (td := td) w.
Proof. unfold Ban. destruct (CutPrefix _ _) as [path []]; [|done]. cbn. rewrite wrap_fst. apply BanAgent_law. Qed.

#[export] Program Instance spire_server : @SpireServer W (SPIRE code_name td fuel) td :=
  {| entries_of w := entryFromProto <$> listed (td := td) w |}.
Next Obligation. intros w. cbn. destruct (Entries_spec w) as [-> ?]. done. Qed.
Next Obligation. intros w. cbn. unfold Spire.Agents. by rewrite wrap_fst, list_agents_pages. Qed.
Next Obligation. intros i w. cbn. by rewrite Ban_spec. Qed.
Next Obligation.
  intros aliases w Hd Ht. cbn in *. rewrite <- list_fmap_compose in Hd.
  destruct (client_create_spec code_name td aliases w Hd Ht) as (done & news & H1 & H2 & H3 & H4 & H5).
  exists done, (entryFromProto <$> news). rewrite H3, <- fmap_app. split_and!; [done..| |done].
  by rewrite <- list_fmap_compose.
Qed.
Next Obligation.
  intros ids w. cbn. destruct (client_delete_spec code_name td ids w) as (done & H1 & H2 & H3).
  exists done. by rewrite H2, <- deleted_protos.
Qed.

(** C15: the SPIRE client implements the interface the reconciler's pass is proved
    against: over any server that keeps the documented promises of its API, [SPIRE]
    satisfies the laws of [SpireServer], its view of the entries being the listed
    messages read by [entryFromProto]. The paging loop ends: with more fuel than the
    server has pages the listing no longer depends on the fuel, and is a result
    or the error of one of its calls. *)
Theorem spire_client_implements :
  (∃ S : @SpireServer W (SPIRE code_name td fuel) td,
     ∀ w, @entries_of W (SPIRE code_name td fuel) td S w = entryFromProto <$> listed (td := td) w) ∧
  ∀ w, pages_left (td := td) w "" < fuel →
    (∀ fuel', fuel ≤ fuel' → Spire.Entries td fuel w = Spire.Entries td fuel' w) ∧
    ((∃ es, (Spire.Entries td fuel w).2 = Ok es) ∨
     ∃ token w' e, (ListEntries (id td "/spire/server") token w').2 = Err e ∧
       (Spire.Entries td fuel w).2 = Err ("list entries: " +:+ e)).
Proof.
  split; [by exists spire_server|]. intros w Hf. unfold Spire.Entries. split.
  - intros fuel' Hle. unfold wrap. by rewrite (list_entries_fuel td fuel fuel').
  - unfold wrap. destruct (list_entries_ends td fuel "" [] w Hf) as [[es Hes]|(t & w' & e & He & Hr)].
    + left. exists es. destruct (list_pages _ _ _ _ _ w) as [w1 r]. cbn in *. by subst r.
    + right. exists t, w', e. split; [done|]. destruct (list_pages _ _ _ _ _ w) as [w1 r]. cbn in *. by subst r.
Qed.
End refinement.

(** ** A server in memory

    Entries of the server as parent, pages of two, tokens as long as their offset. *)

Section memory_rpc.
Context (td : string).

Definition stars (n : nat) : string := String.concat "" (replicate n "*").
Definition fresh_id (es : list types_Entry) : string := fresh (list_to_set (Id <$> es) : gset string).
Definition with_id (i : string) (r : types_Entry) : types_Entry :=
  mkProto i (ParentId r) (SpiffeId r) (ProtoSelectors r) (Admin r) (Downstream r) (DnsNames r)
    (FederatesWith r) (X509SvidTtl r) (JwtSvidTtl r) (Hint r) (ExpiresAt r) (StoreSvid r).
(** A second entry of the same ID and selectors is refused. *)
Definition clashes (r e : types_Entry) : bool :=
  bool_decide (SpiffeId r = SpiffeId e ∧ ProtoSelectors r = ProtoSelectors e).
Fixpoint rpc_create (reqs : list types_Entry) (es : list types_Entry) : list types_Entry * list status :=
  match reqs with
  | [] => (es, [])
  | r :: reqs =>
      if existsb (clashes r) es
      then let '(es, rs) := rpc_create reqs es in (es, (6%Z, "similar entry already exists") :: rs)
      else let '(es, rs) := rpc_create reqs (es ++ [with_id (fresh_id es) r]) in (es, (codes_OK, "") :: rs)
  end.

#[export] Instance mem_rpc : SpireRPC (list types_Entry) := {|
  ListEntries _ token es :=
    let o := length (String.list_ascii_of_string token) in
    (es, Ok (take 2 (drop o es), if decide (o + 2 < length es) then stars (o + 2) else ""));
  BatchCreateEntry reqs es := let '(es, rs) := rpc_create reqs es in (es, Ok rs);
  BatchDeleteEntry ids es := (filter (λ e, Id e ∉ ids) es, Ok ((λ i, (i, (codes_OK, ""))) <$> ids));
  ListAgents _ _ es := (es, Ok ([], ""));
  BanAgentRPC _ es := (es, Ok ());
|}.

Lemma stars_length n : length (String.list_ascii_of_string (stars n)) = n.
Proof. induction n as [|[|n] IH]; [done|done|]. change (S (length (String.list_ascii_of_string (stars (S n)))) = S (S n)). by rewrite IH. Qed.
Lemma stars_nonempty n : stars (n + 2) ≠ "".
Proof. intros Hn. pose proof (stars_length (n + 2)) as Hl. rewrite Hn in Hl. cbn in Hl. lia. Qed.

Lemma rpc_create_spec reqs es :
  distinct_ids es → let r := rpc_create reqs es in
  length r.2 = length reqs ∧
  ∃ done news, sublist done reqs ∧ Forall2 created_from done news ∧ r.1 = es ++ news ∧
    distinct_ids r.1 ∧ (Forall (λ s, s.1 = codes_OK) r.2 → done = reqs).
Proof.
  revert es. induction reqs as [|q reqs IH]; intros es Hd; cbn [rpc_create].
  { split; [done|]. exists [], []. split_and!; [constructor|constructor|by rewrite app_nil_r|done..]. }
  destruct (existsb (clashes q) es).
  - destruct (IH es Hd) as (Hlen & dn & news & H1 & H2 & H3 & H4 & H5).
    destruct (rpc_create reqs es) as [es' rs]. cbn [fst snd length] in *. split; [lia|].
    exists dn, news. split_and!; [by constructor|done..|]. by intros [? _]%Forall_cons.
  - assert (distinct_ids (es ++ [with_id (fresh_id es) q])) as Hd'.
    { rewrite fmap_app. apply NoDup_app. split_and!; [done| |apply NoDup_singleton].
      intros i Hi ->%list_elem_of_singleton.
      apply (is_fresh (list_to_set (Id <$> es) : gset string)). by apply elem_of_list_to_set. }
    destruct (IH _ Hd') as (Hlen & dn & news & H1 & H2 & H3 & H4 & H5).
    destruct (rpc_create reqs _) as [es' rs]. cbn [fst snd length] in *. split; [lia|].
    exists (q :: dn), (with_id (fresh_id es) q :: news).
    split_and!; [by constructor|by constructor|by rewrite H3, <- (assoc_L (++))|done|].
    intros [_ ?]%Forall_cons. by rewrite H5.
Qed.

#[export] Program Instance mem_rpc_laws : SpireRPCLaws (list types_Entry) td := {|
  listed es := es;
  rest es token := drop (length (String.list_ascii_of_string token)) es;
  pages_left es token := length (drop (length (String.list_ascii_of_string token)) es);
|}.
Next Obligation. done. Qed.
Next Obligation.
  intros token w w' r. cbn. set (o := length (String.list_ascii_of_string token)). intros [= <- <-].
  split; [done|]. split; [done|]. intros page next [= <- <-].
  destruct (decide _) as [Hlt|Hge].
  - rewrite bool_decide_false by apply stars_nonempty. rewrite stars_length, <- drop_drop, take_drop, !length_drop.
    split; [done|lia].
  - rewrite bool_decide_true by done. rewrite take_ge; [done|]. rewrite length_drop. lia.
Qed.
Next Obligation. done. Qed.
Next Obligation. done. Qed.
Next Obligation.
  intros reqs w w' r. cbn. intros E Hd _. destruct (rpc_create_spec reqs w Hd) as (Hlen & dn & news & H1 & H2 & H3 & H4 & H5).
  destruct (rpc_create reqs w) as [es rs]. injection E as <- <-. cbn in *. subst es. exists dn, news.
  split_and!; [done..|]. by intros ? [= <-].
Qed.
Next Obligation.
  intros ids w w' r. cbn. intros [= <- <-]. exists ids. split_and!; [done..|]. intros rs [= <-]. split.
  - rewrite <- list_fmap_compose. by apply list_fmap_id.
  - intros i code msg Hin _ (e & -> & He)%list_elem_of_fmap. apply list_elem_of_filter in He as [Hn _].
    apply list_elem_of_fmap in Hin as (j & [= <- _ _] & Hj). done.
Qed.
End memory_rpc.

(** Three entries on two pages, one of them to delete. *)
Definition demo_id (path : string) : option SPIFFEID := Some (mkID "example.org" path).
Definition demo_proto (i path : string) : types_Entry :=
  mkProto i (demo_id "/spire/server") (demo_id path) [("tpm_devid", "subject:cn:" +:+ i)] false false [] [] 0 0 "" 0 false.
Definition demo_protos : list types_Entry := [demo_proto "1" "/pve/c1/a"; demo_proto "2" "/pve/c1/b"; demo_proto "3" "/x"].
Example client_lists :
  (Spire.Entries (H := mem_rpc) "example.org" 3 demo_protos).2 = Ok (entryFromProto <$> demo_protos).
Proof. reflexivity. Qed.
Example client_runs_out :
  (Spire.Entries (H := mem_rpc) "example.org" 1 demo_protos).2 = Err "list entries: more pages".
Proof. reflexivity. Qed.

Lemma spire_client_implements_witness :
  (∃ S : @SpireServer (list types_Entry) (SPIRE (λ _, "code") "example.org" 4) "example.org",
    ∀ w, @entries_of _ (SPIRE (λ _, "code") "example.org" 4) "example.org" S w = entryFromProto <$> w) ∧
  pages_left (td := "example.org") demo_protos "" < 4 ∧
  Spire.Entries (H := mem_rpc) "example.org" 4 demo_protos = Spire.Entries (H := mem_rpc) "example.org" 40 demo_protos.
Proof.
  assert (pages_left (td := "example.org") demo_protos "" < 4) as Hf by (cbn; lia).
  destruct (spire_client_implements (λ _, "code") "example.org" 4) as [[S HS] Hall].
  split; [by exists S|]. split; [done|]. apply (proj1 (Hall _ Hf) 40). lia.
Defined.
