(* ===== verification/Json.v ===== *)
(** * encoding/json, as the Proxmox API client uses it

    A text is read into a [json] value by a parameter; storing a value into Go's
    types is written out after [json.Unmarshal]: null empties a map or a slice and
    leaves other types as they are, a member is matched by its name without regard
    to case, every occurrence is stored in turn, and a value of the wrong kind
    fails the call. *)

From S2P Require Import Prelude.
From S2P Require Import Go.
From S2P Require Import Net.
From Stdlib Require Import Ascii.

(** A number is kept as its literal. *)
Inductive json :=
| JNull
| JBool (b : bool)
| JNumber (lit : string)
| JString (s : string)
| JArray (l : list json)
| JObject (members : list (string * json)).

(** The syntax, and float64: [first_value] is the value a [Decoder] reads first
    from these bytes; [parse_float] is [strconv.ParseFloat], [None] when out of range. *)
Class GoJSON := {
  first_value : string → option json;
  float64 : Type;
  parse_float : string → option float64;
  float_of_Z : Z → float64;
  float_eqb : float64 → float64 → bool;
}.

(** [isValidNumber]. *)
Fixpoint digits (s : string) : nat * string :=
  match s with
  | String c r => if is_digit c then let '(n, r) := digits r in (S n, r) else (0, s)
  | "" => (0, "")
  end.
Definition number_exponent (s : string) : bool :=
  match s with
  | "" => true
  | String e r =>
      if bool_decide (e = "e"%char) || bool_decide (e = "E"%char) then
        let r := match r with
                 | String s r' => if bool_decide (s = "+"%char) || bool_decide (s = "-"%char) then r' else r
                 | "" => r
                 end in
        let '(n, r) := digits r in (0 <? n) && bool_decide (r = "")
      else false
  end.
Definition number_fraction (s : string) : bool :=
  match s with
  | String "." (String c r) => if is_digit c then number_exponent (digits r).2 else false
  | _ => number_exponent s
  end.
Definition isValidNumber (s : string) : bool :=
  let s := match s with String "-" r => r | _ => s end in
  match s with
  | String "0" r => number_fraction r
  | String c r => if is_digit c then number_fraction (digits r).2 else false
  | "" => false
  end.

(** ** Storing a value *)

Definition store_string (s : string) (j : json) : option string :=
  match j with JNull => Some s | JString s' => Some s' | _ => None end.
(** A [json.Number]: a number, or a string that is one. *)
Definition store_number (s : string) (j : json) : option string :=
  match j with
  | JNull => Some s
  | JNumber lit => Some lit
  | JString s' => if isValidNumber s' then Some s' else None
  | _ => None
  end.

Section store.
Context `{GoJSON} `{GoUnicode}.

Definition store_float (x : float64) (j : json) : option float64 :=
  match j with JNull => Some x | JNumber lit => parse_float lit | _ => None end.

Fixpoint store_all {A B} (store : A → B → option A) (a : A) (l : list B) : option A :=
  match l with [] => Some a | b :: l => a ← store a b; store_all store a l end.

(** A map's value is decoded into a fresh zero element. *)
Definition store_map {A} (zero : A) (store : A → json → option A) (m : gmap string A) (j : json)
    : option (gmap string A) :=
  match j with
  | JNull => Some ∅
  | JObject members => store_all (λ m kv, a ← store zero kv.2; Some (<[kv.1 := a]> m)) m members
  | _ => None
  end.

(** A struct: each member goes to the field its name folds to, others are ignored. *)
Definition store_struct {A} (field : string → option (A → json → option A)) (a : A) (j : json) : option A :=
  match j with
  | JNull => Some a
  | JObject members =>
      store_all (λ a kv, match field kv.1 with Some store => store a kv.2 | None => Some a end) a members
  | _ => None
  end.

(** A slice that is empty before: elements decoded into zero values. *)
Definition store_slice {A} (zero : A) (store : A → json → option A) (j : json) : option (list A) :=
  match j with
  | JNull => Some []
  | JArray js => mapM (store zero) js
  | _ => None
  end.
End store.

(** ** strconv.ParseInt(s, 10, 64) *)

Fixpoint decimal_of (s : string) (acc : Z) : option Z :=
  match s with
  | "" => Some acc
  | String c r => if is_digit c then decimal_of r (acc * 10 + digit_value c) else None
  end.
Definition ParseInt (s : string) : option Z :=
  let '(neg, r) := match s with String "-" r => (true, r) | String "+" r => (false, r) | _ => (false, s) end in
  if bool_decide (r = "") then None
  else
    n ← decimal_of r 0;
    let n := if neg : bool then (- n)%Z else n in
    if (min_int64 <=? n)%Z && (n <=? max_int64)%Z then Some n else None.

Example numbers :
  isValidNumber <$> ["0"; "-0.5e+3"; "12"; "01"; ""; "+1"; "1."; "1e"] =
    [true; true; true; false; false; false; false; false] ∧
  ParseInt <$> ["100"; "-7"; "+7"; "1e2"; ""; "9223372036854775808"] =
    [Some 100%Z; Some (-7)%Z; Some 7%Z; None; None; None].
Proof. by vm_compute. Qed.
