(* ===== verification/PveApi.v ===== *)
(** * The Proxmox API client (internal/reconcile/proxmox.go)

    A call changes the state of the cluster behind it, [W]; every failure is an
    error whose text begins with that of [ErrDoubtful], which it wraps. *)

From S2P Require Import Prelude.
From S2P Require Import Go.
From S2P Require Import Crypto.
From S2P Require Import Net.
From S2P Require Import Json.
From S2P Require Import Wanted.
From Stdlib Require Import Ascii.

Definition ErrDoubtful : string := "doubtful read".

(** [strings.TrimRight(s, "/")]. *)
Definition TrimRightSlash (s : string) : string :=
  let fix trim s := match s with String "/" r => trim r | _ => s end in srev (trim (srev s)).

(** [strings.ReplaceAll(s, old, new)] for an [old] that is not empty; [skip] is
    what is left of the occurrence being replaced. *)
Fixpoint replace_from (old new : string) (skip : nat) (s : string) : string :=
  match s with
  | "" => ""
  | String c r =>
      match skip with
      | S skip => replace_from old new skip r
      | O =>
          if HasPrefix s old then new +:+ replace_from old new (String.length old - 1) r
          else String c (replace_from old new 0 r)
      end
  end.
Definition ReplaceAll (s old new : string) : string := replace_from old new 0 s.

(** An [http.Client], by what the program sets of it: its roots of trust, [None]
    being the system's, and its timeout, 0 being none. *)
Record http_client (Pool : Type) := mkHTTP { RootCAs : option Pool; Timeout : Z }.
Arguments mkHTTP {Pool}. Arguments RootCAs {Pool}. Arguments Timeout {Pool}.
Definition DefaultClient {Pool} : http_client Pool := mkHTTP None 0.

Record ProxmoxClient (Pool : Type) := mkPve { BaseURL : string; Token : string; HTTP : option (http_client Pool) }.
Arguments mkPve {Pool}. Arguments BaseURL {Pool}. Arguments Token {Pool}. Arguments HTTP {Pool}.

(** An answer: its status and the bytes of its body up to the end or a failure. *)
Record pve_response := mkPveResponse { PveStatus : Z; PveBody : string }.
(** The error of a call: its text, and the text of the error it wraps. *)
Record http_failure := mkFailure { FailureText : string; Unwrapped : option string }.

(** The network: a GET of a URL with an Authorization header, and whether
    [http.NewRequest] takes the URL. *)
Class HTTPClient (W Pool : Type) := {
  valid_url : string → bool;
  Do : http_client Pool → string → string → fallible W http_failure pve_response;
}.

Section client.
Context {W Pool : Type} `{HTTPClient W Pool} `{GoJSON} `{GoUnicode}.
Context (c : ProxmoxClient Pool).

Definition of_outcome {A} (o : outcome string A) : fallible W string A := λ w, (w, o).
Definition doubtful (text : string) : string := ErrDoubtful +:+ ": " +:+ text.
Definition failed_get (path text : string) : string := doubtful ("GET " +:+ path +:+ ": " +:+ text).

(** The text of a failed call, without the token. *)
Definition failure_text (e : http_failure) : string :=
  let msg := default (FailureText e) (Unwrapped e) in
  if negb (bool_decide (Token c = "")) then ReplaceAll msg (Token c) "[token]" else msg.

(** The struct with the member "data", kept as it is. *)
Definition data_field (name : string) : option (option json → json → option (option json)) :=
  if EqualFold name "data" then Some (λ _ j, Some (Some j)) else None.

(** [store] decodes into [out], which begins as the zero value. *)
Definition get {A} (path : string) (store : json → option A) : fallible W string A :=
  let url := TrimRightSlash (BaseURL c) +:+ path in
  if negb (valid_url url) then throw (doubtful ("building request for " +:+ path))
  else λ w,
    match Do (default DefaultClient (HTTP c)) url ("PVEAPIToken=" +:+ Token c) w with
    | (w, Err e) => (w, Err (failed_get path (failure_text e)))
    | (w, Ok resp) =>
        (w,
         if negb (PveStatus resp =? 200)%Z then Err (failed_get path ("status " +:+ Itoa (PveStatus resp)))
         else
           match first_value (PveBody resp) ≫= store_struct data_field None with
           | None => Err (failed_get path "bad JSON")
           | Some data =>
               match data ≫= store with
               | None => Err (failed_get path "unexpected data")
               | Some out => Ok out
               end
           end)
    end.

(** ** CheckPrivileges *)

Definition permissions : Type := gmap string (gmap string float64).
Definition store_permissions : json → option permissions :=
  store_map ∅ (store_map (float_of_Z 0) store_float) ∅.

Definition privileges_needed : list (string * string) := [("VM.Audit", "/vms"); ("Pool.Audit", "/pool")].
Definition holds_privilege (perms : permissions) (need : string * string) : bool :=
  float_eqb (default (float_of_Z 0) (default ∅ (perms !! need.2) !! need.1)) (float_of_Z 1).
Definition missing_privileges (perms : permissions) : list string :=
  (λ need, "missing " +:+ need.1 +:+ " on " +:+ need.2) <$>
    filter (λ need, holds_privilege perms need = false) privileges_needed.

Definition CheckPrivileges : fallible W string () :=
  perms ← get "/api2/json/access/permissions" store_permissions;
  let missing := missing_privileges perms in
  match missing with
  | [] => mret ()
  | _ => throw (doubtful (Join (SortStrings missing) ", "))
  end.

(** ** Guests *)

Record pve_row := mkRow {
  RowVMID : string;
  RowType : string;
  RowPool : string;
  RowTags : string;
  RowTemplate : float64;
}.
Definition row_field (name : string) : option (pve_row → json → option pve_row) :=
  if EqualFold name "vmid" then
    Some (λ r j, v ← store_number (RowVMID r) j; Some (mkRow v (RowType r) (RowPool r) (RowTags r) (RowTemplate r)))
  else if EqualFold name "type" then
    Some (λ r j, v ← store_string (RowType r) j; Some (mkRow (RowVMID r) v (RowPool r) (RowTags r) (RowTemplate r)))
  else if EqualFold name "pool" then
    Some (λ r j, v ← store_string (RowPool r) j; Some (mkRow (RowVMID r) (RowType r) v (RowTags r) (RowTemplate r)))
  else if EqualFold name "tags" then
    Some (λ r j, v ← store_string (RowTags r) j; Some (mkRow (RowVMID r) (RowType r) (RowPool r) v (RowTemplate r)))
  else if EqualFold name "template" then
    Some (λ r j, v ← store_float (RowTemplate r) j; Some (mkRow (RowVMID r) (RowType r) (RowPool r) (RowTags r) v))
  else None.
Definition store_rows : json → option (list pve_row) :=
  store_slice (mkRow "" "" "" "" (float_of_Z 0)) (store_struct row_field).

Fixpoint guests_of (rows : list pve_row) : outcome string (list Guest) :=
  match rows with
  | [] => Ok []
  | e :: rows =>
      if negb (bool_decide (RowType e = "qemu")) then guests_of rows
      else
        match ParseInt (RowVMID e) with
        | None => Err (doubtful "GET /api2/json/cluster/resources: bad vmid")
        | Some id =>
            guests ← guests_of rows;
            Ok (mkGuest (Itoa id) (RowPool e) (RowTags e) (negb (float_eqb (RowTemplate e) (float_of_Z 0))) :: guests)
        end
  end.

Definition Guests : fallible W string (list Guest) :=
  rows ← get "/api2/json/cluster/resources?type=vm" store_rows;
  of_outcome (guests_of rows).

Definition Read : fallible W string (list Guest) :=
  _ ← CheckPrivileges;
  guests ← Guests;
  match guests with [] => throw (doubtful "no qemu guest listed") | _ => mret guests end.
End client.
