(* ===== verification/PveApiProofs.v ===== *)
(** * What a read of a cluster's API means

    [pve_read_exact]: exactly when a read is acted on; [pve_errors_hide_token]: what
    its errors say. *)

From S2P Require Import Prelude.
From S2P Require Import Go.
From S2P Require Import Crypto.
From S2P Require Import Net.
From S2P Require Import Json.
From S2P Require Import Wanted.
From S2P Require Import PveApi.
From Stdlib Require Import Ascii.

Section read.
Context {W Pool : Type} `{HTTPClient W Pool} `{GoJSON} `{GoUnicode}.
Context (c : ProxmoxClient Pool).

Definition pve_get (path : string) : fallible W http_failure pve_response :=
  Do (default DefaultClient (HTTP c)) (TrimRightSlash (BaseURL c) +:+ path) ("PVEAPIToken=" +:+ Token c).
(** The API answered with status 200 and a "data" member that decodes to [out]. *)
Definition answered {A} (path : string) (store : json → option A) (w w' : W) (out : A) : Prop :=
  valid_url (TrimRightSlash (BaseURL c) +:+ path) = true ∧
  ∃ resp data, pve_get path w = (w', Ok resp) ∧ PveStatus resp = 200%Z ∧
    first_value (PveBody resp) ≫= store_struct data_field None = Some (Some data) ∧ store data = Some out.

Lemma get_Ok {A} path (store : json → option A) w w' out :
  get c path store w = (w', Ok out) ↔ answered path store w w' out.
Proof.
  unfold get, answered, pve_get. cbv zeta. destruct (valid_url _); cbn [negb].
  2:{ split; [by intros [=]|by intros [? _]]. }
  destruct (Do _ _ _ w) as [w1 [resp|e]]; [|naive_solver].
  destruct (Z.eqb_spec (PveStatus resp) 200); cbn [negb]; [|naive_solver].
  destruct (first_value _ ≫= _) as [[data|]|] eqn:Ed; cbn; [|naive_solver..].
  destruct (store data) as [o|] eqn:Es; [|naive_solver].
  split; [intros [= <- <-]; eauto 10|]. intros (_ & r & d & [= <- <-] & _ & Hd & Hs). naive_solver.
Qed.

Lemma failed_get_cases {A} path (store : json → option A) w w' e :
  get c path store w = (w', Err e) →
  e = doubtful ("building request for " +:+ path) ∨
  (∃ f, pve_get path w = (w', Err f) ∧ e = failed_get path (failure_text c f)) ∨
  (∃ code, e = failed_get path ("status " +:+ Itoa code)) ∨
  e = failed_get path "bad JSON" ∨ e = failed_get path "unexpected data".
Proof.
  unfold get, pve_get. cbv zeta. destruct (valid_url _); cbn [negb]; [|by intros [= <- <-]; auto].
  destruct (Do _ _ _ w) as [w1 [resp|f]]; [|intros [= <- <-]; eauto 10].
  destruct (Z.eqb _ _); cbn [negb]; [|intros [= <- <-]; eauto 10].
  destruct (first_value _ ≫= _) as [data|]; [|intros [= <- <-]; auto 10].
  destruct (data ≫= store); intros [=]; subst; auto 10.
Qed.

(** A row of a qemu guest, as a guest. *)
Definition row_guest (r : pve_row) (g : Guest) : Prop :=
  ∃ id, ParseInt (RowVMID r) = Some id ∧ VMID g = Itoa id ∧ Wanted.Pool g = RowPool r ∧ Tags g = RowTags r ∧
    Template g = negb (float_eqb (RowTemplate r) (float_of_Z 0)).

Lemma guests_of_Ok rows gs :
  guests_of rows = Ok gs ↔ Forall2 row_guest (filter (λ r, RowType r = "qemu") rows) gs.
Proof.
  revert gs. induction rows as [|r rows IH]; intros gs; cbn [guests_of].
  { rewrite filter_nil. split; [by intros [= <-]|]. by intros ->%Forall2_nil_inv_l. }
  rewrite filter_cons. case_bool_decide as Hr; cbn [negb].
  2:{ by rewrite decide_False, IH. }
  rewrite decide_True by done. split.
  - destruct (ParseInt (RowVMID r)) as [id|] eqn:Hid; [|done].
    intros (gs' & Hgs & [= <-])%bind_Ok. constructor; [by exists id|by apply IH].
  - intros (g & gs' & (id & -> & Hg) & Hf & ->)%Forall2_cons_inv_l. apply IH in Hf. rewrite Hf. cbn.
    destruct g, Hg as (? & ? & ? & ?). cbn in *. by subst.
Qed.

Definition privileged (perms : permissions) : Prop :=
  ∀ need, need ∈ privileges_needed → holds_privilege perms need = true.
Lemma missing_none perms : missing_privileges perms = [] ↔ privileged perms.
Proof.
  unfold missing_privileges, privileged. split.
  - intros Hn%fmap_nil_inv need Hin. destruct (holds_privilege perms need) eqn:E; [done|].
    assert (need ∈ filter (λ need, holds_privilege perms need = false) privileges_needed) as Hf
      by by apply list_elem_of_filter.
    rewrite Hn in Hf. by apply elem_of_nil in Hf.
  - intros Hp. rewrite filter_none; [done|]. intros need Hin. by rewrite (Hp need Hin).
Qed.

Lemma CheckPrivileges_Ok w w' :
  CheckPrivileges c w = (w', Ok ()) ↔
  ∃ perms, answered "/api2/json/access/permissions" store_permissions w w' perms ∧ privileged perms.
Proof.
  unfold CheckPrivileges, mbind, fallible_bind.
  destruct (get c _ store_permissions w) as [w1 [perms|e]] eqn:E.
  - apply get_Ok in E as Ha. destruct (missing_privileges perms) as [|m l] eqn:Em.
    + apply missing_none in Em. split; [intros [= <-]; eauto|]. intros (p & Hp%get_Ok & _). by rewrite E in Hp; injection Hp as ->.
    + split; [by intros [=]|]. intros (p & Hp%get_Ok & Hpr). rewrite E in Hp. injection Hp as <- <-.
      apply missing_none in Hpr. congruence.
  - split; [by intros [=]|]. intros (p & Hp%get_Ok & _). congruence.
Qed.

Lemma Guests_Ok w w' gs :
  Guests c w = (w', Ok gs) ↔
  ∃ rows, answered "/api2/json/cluster/resources?type=vm" store_rows w w' rows ∧
    Forall2 row_guest (filter (λ r, RowType r = "qemu") rows) gs.
Proof.
  unfold Guests, mbind, fallible_bind, of_outcome. setoid_rewrite <- guests_of_Ok.
  destruct (get c _ store_rows w) as [w1 [rows|e]] eqn:E.
  - apply get_Ok in E as Ha. split; [intros [= <- Hg]; eauto|]. intros (r & Hr%get_Ok & Hg).
    rewrite E in Hr. injection Hr as <- <-. by rewrite Hg.
  - split; [by intros [=]|]. intros (r & Hr%get_Ok & _). congruence.
Qed.

(** C17: a read of a cluster is acted on in exactly one case: both requests were
    answered with status 200 and data of the right types, the token holds VM.Audit
    on /vms and Pool.Audit on /pool with the value 1, every qemu row has an integer
    vmid, and there is at least one; the guests are then the qemu rows in order,
    with the vmid in canonical decimal. *)
Theorem pve_read_exact w w' gs :
  Read c w = (w', Ok gs) ↔
  ∃ w1 perms rows,
    answered "/api2/json/access/permissions" store_permissions w w1 perms ∧
    (∀ need, need ∈ [("VM.Audit", "/vms"); ("Pool.Audit", "/pool")] → holds_privilege perms need = true) ∧
    answered "/api2/json/cluster/resources?type=vm" store_rows w1 w' rows ∧
    Forall2 row_guest (filter (λ r, RowType r = "qemu") rows) gs ∧ gs ≠ [].
Proof.
  unfold Read, mbind, fallible_bind. destruct (CheckPrivileges c w) as [w1 [[]|e]] eqn:Ec.
  2:{ split; [by intros [=]|]. intros (w2 & perms & rows & Ha & Hp & _).
      rewrite (proj2 (CheckPrivileges_Ok w w2)) in Ec by eauto. done. }
  assert (∀ w2 perms, answered "/api2/json/access/permissions" store_permissions w w2 perms → privileged perms → w2 = w1)
    as Hw1.
  { intros w2 perms Ha Hp. rewrite (proj2 (CheckPrivileges_Ok w w2)) in Ec by eauto. by injection Ec as ->. }
  apply CheckPrivileges_Ok in Ec as (perms & Ha & Hp).
  destruct (Guests c w1) as [w2 [gs'|e]] eqn:Eg.
  - apply Guests_Ok in Eg as Hg. destruct Hg as (rows & Hr & Hf). split.
    + destruct gs'; [done|]. intros [= <- <-]. by exists w1, perms, rows.
    + intros (w3 & p & rows' & Ha' & Hp' & Hr' & Hf' & Hne). rewrite (Hw1 w3 p Ha' Hp') in Hr'.
      rewrite (proj2 (Guests_Ok w1 w' gs)) in Eg by eauto. injection Eg as <- <-. by destruct gs.
  - split; [by intros [=]|]. intros (w3 & p & rows' & Ha' & Hp' & Hr' & Hf' & Hne).
    rewrite (Hw1 w3 p Ha' Hp') in Hr'. rewrite (proj2 (Guests_Ok w1 w' gs)) in Eg by eauto. done.
Qed.
End read.

(** ** What the errors say *)

Section token.
Context (tok : string).
Context (Hopen : ContainsByte "[" tok = false) (Hclose : ContainsByte "]" tok = false).
Context (Hbang : ContainsByte "!" tok = true).

Lemma replace_from_skip new n s : replace_from tok new n s = replace_from tok new 0 (sdrop n s).
Proof. revert n. induction s as [|c s IH]; intros [|n]; cbn [replace_from sdrop]; by try apply IH. Qed.

(** Up to the first bracket the text is the old one. *)
Lemma replaced_prefix s t :
  ContainsByte "[" t = false → HasPrefix (replace_from tok "[token]" 0 s) t = true → HasPrefix s t = true.
Proof.
  revert t. induction s as [|c s IH]; intros t Ht; [done|]. cbn [replace_from].
  destruct (HasPrefix (String c s) tok); destruct t as [|d t]; try done; cbn in Ht |- *.
  - intros [Hd%bool_decide_eq_true _]%andb_true_iff. by subst d.
  - apply orb_false_iff in Ht as [_ Ht]. rewrite !andb_true_iff. intros [? ?]. split; [done|]. by apply IH.
Qed.

Lemma replaced_hides s : Contains (ReplaceAll s tok "[token]") tok = false.
Proof.
  unfold ReplaceAll. remember (String.length s) as n eqn:Hn. revert s Hn.
  induction (lt_wf n) as [n _ IH]. intros [|c s] ->; [by apply (Contains_missing "!")|].
  cbn [replace_from]. destruct (HasPrefix (String c s) tok) eqn:Hp.
  - change ("[token]" +:+ ?r) with ("" +:+ String "[" ("token" +:+ String "]" r)).
    rewrite !Contains_sep, !(Contains_missing "!") by done. cbn [orb].
    rewrite replace_from_skip. eapply IH; [|done]. rewrite sdrop_length. cbn. lia.
  - pose proof (replaced_prefix (String c s) tok Hopen) as Hpre. cbn [replace_from] in Hpre. rewrite Hp in Hpre.
    cbn [Contains]. rewrite (IH (String.length s)) by (cbn; auto). rewrite orb_false_r.
    apply not_true_iff_false. intros Ht. by discriminate (Hpre Ht).
Qed.
End token.

Section errors.
Context {W Pool : Type} `{HTTPClient W Pool} `{GoJSON} `{GoUnicode}.
Context (c : ProxmoxClient Pool).

(** A token of the documented form, user@realm!id=secret, without white space or brackets. *)
Definition proper_token (tok : string) : Prop :=
  ContainsByte "[" tok = false ∧ ContainsByte "]" tok = false ∧ ContainsByte " " tok = false ∧
  ContainsByte "!" tok = true.
(** An error that wraps [ErrDoubtful] and does not show the token. *)
Definition discreet (e : string) : Prop := (∃ text, e = doubtful text) ∧ Contains e (Token c) = false.
Context (Htok : proper_token (Token c)).

Lemma plain_discreet text : ContainsByte "!" text = false → discreet (doubtful text).
Proof.
  intros Ht. split; [by eexists|]. apply (Contains_missing "!"); [apply Htok|].
  unfold doubtful. by rewrite !ContainsByte_app, Ht.
Qed.

Lemma failed_get_discreet {A} path (store : json → option A) w w' e :
  ContainsByte "!" path = false → get c path store w = (w', Err e) → discreet e.
Proof.
  intros Hp [->|[(f & _ & ->)|[[code ->]|[-> | ->]]]]%failed_get_cases; unfold failed_get;
    try (apply plain_discreet; by rewrite !ContainsByte_app, Hp).
  - split; [by eexists|]. destruct Htok as (Hopen & Hclose & Hspace & Hbang).
    assert (failure_text c f = ReplaceAll (default (FailureText f) (Unwrapped f)) (Token c) "[token]") as ->.
    { unfold failure_text. rewrite bool_decide_eq_false_2; [done|]. intros Heq. by rewrite Heq in Hbang. }
    set (msg := ReplaceAll _ _ _).
    assert (doubtful ("GET " +:+ path +:+ ": " +:+ msg) = (ErrDoubtful +:+ ": GET " +:+ path +:+ ":") +:+ String " " msg) as ->
      by (unfold doubtful; by rewrite !string_app_assoc).
    rewrite Contains_sep by done. apply orb_false_iff. split; [|by apply replaced_hides].
    apply (Contains_missing "!"); [done|]. by rewrite !ContainsByte_app, Hp.
  - apply plain_discreet. rewrite !ContainsByte_app, Hp. cbn.
    by apply Itoa_no.
Qed.

Lemma guests_of_discreet rows e : guests_of rows = Err e → discreet e.
Proof.
  induction rows as [|r rows IH]; cbn [guests_of]; [done|]. destruct (negb _); [done|].
  destruct (ParseInt _); [|intros [= <-]; by apply plain_discreet].
  intros [?|(gs & _ & ?)]%bind_Err; [by apply IH|done].
Qed.

(** C18: whatever goes wrong in a read, its error wraps [ErrDoubtful], by which the
    pass leaves the cluster alone, and for a token of the documented form (with a
    "!", and without white space or square brackets) its text, which is logged,
    does not contain the token, though the transport's message may. *)
Theorem pve_errors_hide_token w w' e :
  Read c w = (w', Err e) → (∃ text, e = "doubtful read: " +:+ text) ∧ Contains e (Token c) = false.
Proof.
  intros Hr. cut (discreet e); [by intros [[text ->] Ht]; split; [by exists text|]|].
  revert Hr. unfold Read, CheckPrivileges, Guests, mbind, fallible_bind, of_outcome.
  destruct (get c _ store_permissions w) as [w1 [perms|e1]] eqn:Ep;
    [|intros [= _ <-]; by refine (failed_get_discreet _ _ _ _ _ _ Ep)].
  unfold missing_privileges, privileges_needed. rewrite !filter_cons, filter_nil.
  repeat case_decide; try (intros [= _ <-]; by apply plain_discreet). cbn.
  destruct (get c _ store_rows w1) as [w2 [rows|e1]] eqn:Er;
    [|intros [= _ <-]; by refine (failed_get_discreet _ _ _ _ _ _ Er)].
  destruct (guests_of rows) as [[|g gs]|e1] eqn:Eg; [intros [= _ <-]; by apply plain_discreet|done|].
  intros [= _ <-]. by eapply guests_of_discreet.
Qed.
End errors.

(** ** An API in memory *)

#[local] Existing Instance caseless.

(** Numbers are integers, and the bodies are two known texts. *)
Definition demo_perms : json :=
  JObject [("data", JObject [("/vms", JObject [("VM.Audit", JNumber "1")]);
                             ("/pool", JObject [("Pool.Audit", JNumber "1"); ("Other", JNull)])])].
Definition demo_vm_row (vmid : json) (typ : string) : json :=
  JObject [("VMID", vmid); ("type", JString typ); ("node", JString "n1"); ("pool", JString "web"); ("template", JNumber "0")].
Definition demo_rows : json :=
  JObject [("Data", JArray [demo_vm_row (JNumber "100") "qemu"; demo_vm_row JNull "lxc"; demo_vm_row (JString "7") "qemu"])].
#[export] Instance demo_json : GoJSON := {|
  first_value s := if bool_decide (s = "perms") then Some demo_perms else if bool_decide (s = "rows") then Some demo_rows else None;
  float64 := Z;
  parse_float := ParseInt;
  float_of_Z z := z;
  float_eqb := Z.eqb;
|}.
(** The state counts the calls; the third and later ones fail, showing the header. *)
Definition demo_do (url auth : string) (n : nat) : nat * outcome http_failure pve_response :=
  (S n,
   if 2 <=? n then Err (mkFailure "Get: refused" (Some ("refused " +:+ auth)))
   else Ok (mkPveResponse 200 (if HasPrefix url "https://pve/api2/json/access" then "perms" else "rows"))).
#[export] Instance demo_http : HTTPClient nat () := {| valid_url _ := true; Do _ := demo_do |}.
Definition demo_client : ProxmoxClient () := mkPve "https://pve/" "a@pve!t=secret" None.
Definition demo_read (n : nat) : nat * outcome string (list Guest) :=
  Read demo_client n.

Example demo_reads_guests :
  demo_read 0 = (2, Ok [mkGuest "100" "web" "" false; mkGuest "7" "web" "" false]) ∧
  demo_read 2 = (3, Err "doubtful read: GET /api2/json/access/permissions: refused PVEAPIToken=[token]").
Proof. by vm_compute. Qed.

Lemma pve_read_exact_witness :
  ∃ w1 perms rows,
    answered demo_client
      "/api2/json/access/permissions" store_permissions 0 w1 perms ∧
    answered demo_client
      "/api2/json/cluster/resources?type=vm" store_rows w1 2 rows.
Proof.
  destruct (proj1 (pve_read_exact demo_client 0 2 _)
    (proj1 demo_reads_guests)) as (w1 & perms & rows & Ha & _ & Hr & _).
  by exists w1, perms, rows.
Defined.
Lemma pve_errors_hide_token_witness :
  proper_token (Token demo_client) ∧ ∃ e, demo_read 2 = (3, Err e) ∧ Contains e (Token demo_client) = false.
Proof.
  assert (proper_token (Token demo_client)) as Ht by done. split; [done|].
  eexists. split; [exact (proj2 demo_reads_guests)|].
  exact (proj2 (pve_errors_hide_token demo_client Ht 2 3 _
    (proj2 demo_reads_guests))).
Defined.
