(* ===== verification/Clusters.v ===== *)
(** * The reconciler's configuration (internal/reconcile/config.go)

    The strict YAML decoder, crypto/x509 and the file system are parameters; the
    checks of [LoadConfig], the fingerprints it computes and the API client a
    cluster's entry stands for are written out. *)

From S2P Require Import Prelude.
From S2P Require Import Go.
From S2P Require Import Crypto.
From S2P Require Import CA.
From S2P Require Import Net.
From S2P Require Import Wanted.
From S2P Require Import Pass.
From S2P Require Import PveApi.
From Stdlib Require Import Ascii.

Definition DefaultInterval : Z := (60 * Second)%Z.
Definition MinInterval : Z := (10 * Second)%Z.

Record ClusterConfig := mkConf {
  ConfName : string;
  APIURL : string;
  CAFile : string;
  TokenFile : string;
  Intermediates : list string;
  ConfFingerprints : list string;
}.
Record ReconcileConfig := mkReconcile {
  ConfTrustDomain : string;
  SPIRESocket : string;
  Interval : Z;
  Clusters : list ClusterConfig;
}.

Section config.
Context `{CR : Crypto} {CC : CACrypto} `{GU : GoUnicode}.
(** x509: the encoded subject and issuer, a signature check against another
    certificate, and a pool of the certificates of a PEM text, if there are any. *)
Context (RawSubject RawIssuer : certificate Key → string).
Context (CheckSignatureFrom : certificate Key → certificate Key → outcome string ()).
Context (AppendCertsFromPEM : string → option CertPool).
Context (os_ReadFile : string → outcome string string).
(** [KnownFields(true)] and [Decode] into a zero [Config]. *)
Context (decode : string → outcome string ReconcileConfig).

(** The loop over the PEM blocks up to the first certificate is [first_cert]. *)
Definition intermediateFingerprint (file : string) : outcome string string :=
  match os_ReadFile file with
  | Err e => Err ("read intermediate " +:+ file +:+ ": " +:+ e)
  | Ok data =>
      match first_cert (S (String.length data)) data with
      | Err e => Err ("intermediate " +:+ file +:+ ": " +:+ e)
      | Ok None => Err ("intermediate " +:+ file +:+ ": no certificate in PEM")
      | Ok (Some cert) =>
          if bool_decide (RawSubject cert = RawIssuer cert) && is_ok (CheckSignatureFrom cert cert)
          then Err ("intermediate " +:+ file +:+ " is self-signed (a root), not an intermediate")
          else Ok (hex_encode (sha1 (Raw cert)))
      end
  end.

(** ** LoadConfig *)

(** The variables of the loop over one cluster's intermediates. *)
Record files_state := mkFiles {
  seenFile : gset string;
  seenFP : gset string;
  kept_files : list string;
  fps : list string;
  fpOwner : gmap string string;
}.

Section files.
Context (fingerprint : string → outcome string string) (name : string).

Definition file_step (st : files_state) (f : string) : outcome string files_state :=
  if decide (f ∈ seenFile st) then Ok st
  else
    let seen := {[f]} ∪ seenFile st in
    fp ← prefix_error ("cluster " +:+ name +:+ ": ") (fingerprint f);
    if decide (fp ∈ seenFP st) then Ok (mkFiles seen (seenFP st) (kept_files st) (fps st) (fpOwner st))
    else
      let done := mkFiles seen ({[fp]} ∪ seenFP st) (kept_files st ++ [f]) (fps st ++ [fp]) (<[fp := name]> (fpOwner st)) in
      match fpOwner st !! fp with
      | Some other =>
          if negb (bool_decide (other = name))
          then Err ("fingerprint " +:+ fp +:+ " (" +:+ f +:+ ") is configured for clusters " +:+ other +:+ " and " +:+ name)
          else Ok done
      | None => Ok done
      end.
Fixpoint files_loop (st : files_state) (files : list string) : outcome string files_state :=
  match files with [] => Ok st | f :: files => st ← file_step st f; files_loop st files end.
End files.

Section clusters.
Context (path : string).

Definition cluster_checks (names : gset string) (c : ClusterConfig) : outcome string () :=
  let at_cluster := "config " +:+ path +:+ ": cluster " +:+ ConfName c +:+ ": " in
  if negb (validSegment (ConfName c))
  then Err ("config " +:+ path +:+ ": cluster name " +:+ Quote (ConfName c) +:+ " must use only a-z 0-9 . - _ and not be . or ..")
  else if decide (ConfName c ∈ names)
  then Err ("config " +:+ path +:+ ": duplicate cluster name " +:+ Quote (ConfName c))
  else if negb (HasPrefix (APIURL c) "https://") then Err (at_cluster +:+ "api_url must start with https://")
  else if bool_decide (TokenFile c = "") then Err (at_cluster +:+ "token_file is empty")
  else if bool_decide (Intermediates c = []) then Err (at_cluster +:+ "no intermediates")
  else Ok ().

(** One cluster: the names and owners so far, and the clusters as changed. *)
Definition cluster_load (st : gset string * gmap string string * list ClusterConfig) (c : ClusterConfig)
    : outcome string (gset string * gmap string string * list ClusterConfig) :=
  let '(names, owner, out) := st in
  _ ← cluster_checks names c;
  fs ← files_loop intermediateFingerprint (ConfName c) (mkFiles ∅ ∅ [] (ConfFingerprints c) owner) (Intermediates c);
  Ok ({[ConfName c]} ∪ names, fpOwner fs,
      out ++ [mkConf (ConfName c) (APIURL c) (CAFile c) (TokenFile c) (kept_files fs) (fps fs)]).
Fixpoint clusters_loop (st : gset string * gmap string string * list ClusterConfig) (cs : list ClusterConfig)
    : outcome string (gset string * gmap string string * list ClusterConfig) :=
  match cs with [] => Ok st | c :: cs => st ← cluster_load st c; clusters_loop st cs end.

Definition config_checks (cfg : ReconcileConfig) : outcome string () :=
  let at_config := "config " +:+ path +:+ ": " in
  if bool_decide (ConfTrustDomain cfg = "") || negb (validSegment (ConfTrustDomain cfg))
  then Err (at_config +:+ "trust_domain " +:+ Quote (ConfTrustDomain cfg) +:+ " must be non-empty and use only a-z 0-9 . - _")
  else if bool_decide (SPIRESocket cfg = "") then Err (at_config +:+ "spire_socket is empty")
  else if negb (HasPrefix (SPIRESocket cfg) "/")
  then Err (at_config +:+ "spire_socket " +:+ Quote (SPIRESocket cfg) +:+ " must be an absolute path")
  else if (Interval cfg <? MinInterval)%Z
  then Err (at_config +:+ "interval " +:+ DurationString (Interval cfg) +:+ " is below the minimum " +:+ DurationString MinInterval)
  else if bool_decide (length (Clusters cfg) = 0) then Err (at_config +:+ "no clusters")
  else Ok ().

Definition with_default (cfg : ReconcileConfig) : ReconcileConfig :=
  if (Interval cfg =? 0)%Z
  then mkReconcile (ConfTrustDomain cfg) (SPIRESocket cfg) DefaultInterval (Clusters cfg) else cfg.

Definition LoadConfig : outcome string ReconcileConfig :=
  match os_ReadFile path with
  | Err e => Err ("read config " +:+ path +:+ ": " +:+ e)
  | Ok data =>
      match decode data with
      | Err e => Err ("parse config " +:+ path +:+ ": " +:+ e)
      | Ok cfg =>
          let cfg := with_default cfg in
          _ ← config_checks cfg;
          '(_, _, clusters) ← clusters_loop (∅, ∅, []) (Clusters cfg);
          Ok (mkReconcile (ConfTrustDomain cfg) (SPIRESocket cfg) (Interval cfg) clusters)
      end
  end.
End clusters.

(** ** The API client of a cluster *)

Definition Client (c : ClusterConfig) : outcome string (ProxmoxClient CertPool) :=
  match os_ReadFile (TokenFile c) with
  | Err e => Err ("cluster " +:+ ConfName c +:+ ": read token file: " +:+ e)
  | Ok raw =>
      let token := TrimSpace raw in
      if bool_decide (token = "")
      then Err ("cluster " +:+ ConfName c +:+ ": token file " +:+ TokenFile c +:+ " is empty")
      else
        let client roots := mkPve (APIURL c) token (Some (mkHTTP roots (30 * Second)%Z)) in
        if bool_decide (CAFile c = "") then Ok (client None)
        else
          match os_ReadFile (CAFile c) with
          | Err e => Err ("cluster " +:+ ConfName c +:+ ": read ca_file: " +:+ e)
          | Ok pemData =>
              match AppendCertsFromPEM pemData with
              | None => Err ("cluster " +:+ ConfName c +:+ ": ca_file " +:+ CAFile c +:+ " holds no certificate")
              | Some pool => Ok (client (Some pool))
              end
          end
  end.

(** The target of a pass: the cluster as configured and what was read of it. *)
Definition target (c : ClusterConfig) (reading : outcome string (list Guest)) : Target :=
  mkTarget (mkCluster (ConfName c) (ConfFingerprints c)) reading.
End config.
