(* ===== verification/ClustersProofs.v ===== *)
(** * What a loaded configuration guarantees

    [config_loads_exact]: the files [LoadConfig] accepts, and the clusters it makes
    of them, which are targets the theorems about a pass apply to. *)

From S2P Require Import Prelude.
From S2P Require Import Go.
From S2P Require Import Crypto.
From S2P Require Import CA.
From S2P Require Import Wanted.
From S2P Require Import Pass.
From S2P Require Import PassProofs.
From S2P Require Import PveApi.
From S2P Require Import Clusters.
From Stdlib Require Import Ascii.

(** ** One cluster's intermediates *)

Section files.
Context (fp_of : string → outcome string string) (name : string) (owner0 : gmap string string).

(** A file with a fingerprint that no other cluster has. *)
Definition good_file (f : string) : Prop :=
  ∃ fp, fp_of f = Ok fp ∧ ∀ other, owner0 !! fp = Some other → other = name.

Record files_inv (done : list string) (st : files_state) : Prop := {
  fi_seen f : f ∈ seenFile st ↔ f ∈ done;
  fi_fp fp : fp ∈ seenFP st ↔ ∃ f, f ∈ done ∧ fp_of f = Ok fp;
  fi_fps fp : fp ∈ fps st ↔ fp ∈ seenFP st;
  fi_nodup : NoDup (fps st);
  fi_pairs : Forall2 (λ f fp, fp_of f = Ok fp) (kept_files st) (fps st);
  fi_kept : kept_files st ⊆ done;
  fi_owner fp : fpOwner st !! fp = if decide (fp ∈ seenFP st) then Some name else owner0 !! fp;
  fi_good f : f ∈ done → good_file f;
}.

Lemma files_inv_start : files_inv [] (mkFiles ∅ ∅ [] [] owner0).
Proof.
  split; cbn; try set_solver; constructor.
Qed.

Lemma file_step_spec done st f :
  files_inv done st →
  match file_step fp_of name st f with
  | Ok st' => files_inv (done ++ [f]) st'
  | Err _ => ¬ good_file f
  end.
Proof.
  intros [Hs Hf Hfps Hn Hp Hk Ho Hg]. unfold file_step. case_decide as Hseen.
  { apply Hs in Hseen. split; try done; set_solver. }
  assert (∀ g, g ∈ {[f]} ∪ seenFile st ↔ g ∈ done ++ [f]) as Hs'.
  { intros g. rewrite elem_of_union, elem_of_app, elem_of_singleton, list_elem_of_singleton, Hs. tauto. }
  destruct (fp_of f) as [fp|e] eqn:E; cbn; [|by intros (fp & ? & _); congruence].
  assert (∀ fp', (∃ g, g ∈ done ++ [f] ∧ fp_of g = Ok fp') ↔ fp' = fp ∨ ∃ g, g ∈ done ∧ fp_of g = Ok fp') as Hfp.
  { intros fp'. setoid_rewrite elem_of_app. setoid_rewrite list_elem_of_singleton. split.
    - intros (g & [Hg1| ->] & Hg2); [by eauto|left; congruence].
    - intros [->|(g & ? & ?)]; eauto. }
  assert (fp ∈ seenFP st → good_file f) as Hgood_old.
  { intros (g & Hg1 & Hg2)%Hf. destruct (Hg g Hg1) as (fp' & Hg3 & ?). exists fp'. split; [congruence|done]. }
  case_decide as Hfpin.
  { split; cbn [seenFile seenFP kept_files fps fpOwner]; [done| |done..| |done|].
    - intros fp'. rewrite Hfp, <- Hf. split; [by right|]. by intros [->|?].
    - intros g ?%Hk. apply elem_of_app. by left.
    - intros g [?| ->%list_elem_of_singleton]%elem_of_app; auto. }
  pose proof (Ho fp) as Hown. rewrite decide_False in Hown by done.
  assert (good_file f → files_inv (done ++ [f])
    (mkFiles ({[f]} ∪ seenFile st) ({[fp]} ∪ seenFP st) (kept_files st ++ [f]) (fps st ++ [fp]) (<[fp := name]> (fpOwner st)))) as Hnew.
  { intros Hgood. split; cbn [seenFile seenFP kept_files fps fpOwner].
    - done.
    - intros fp'. rewrite Hfp, elem_of_union, elem_of_singleton, Hf. done.
    - intros fp'. rewrite elem_of_app, elem_of_union, list_elem_of_singleton, elem_of_singleton, Hfps. tauto.
    - apply NoDup_app. split_and!; [done| |apply NoDup_singleton]. intros fp' H' ->%list_elem_of_singleton. by apply Hfps in H'.
    - apply Forall2_app; [done|]. by constructor.
    - intros g [?%Hk| ->%list_elem_of_singleton]%elem_of_app; apply elem_of_app; [by left|right; by left].
    - intros fp'. destruct (decide (fp' = fp)) as [->|Hne].
      + rewrite lookup_insert_eq, decide_True; [done|]. apply elem_of_union. left. by apply elem_of_singleton.
      + rewrite lookup_insert_ne, Ho by done. repeat case_decide; set_solver.
    - intros g [?| ->%list_elem_of_singleton]%elem_of_app; auto. }
  rewrite Hown. destruct (owner0 !! fp) as [other|] eqn:Eo.
  - case_bool_decide as Hother; cbn.
    + apply Hnew. exists fp. split; [done|]. by intros ? [= <-]%(eq_trans (eq_sym Eo)).
    + intros (fp' & Hfp' & Hall). assert (fp' = fp) as -> by congruence. by apply Hother, Hall.
  - apply Hnew. exists fp. split; [done|]. intros ? Hx. congruence.
Qed.

Lemma files_loop_spec done st fs :
  files_inv done st →
  match files_loop fp_of name st fs with
  | Ok st' => files_inv (done ++ fs) st'
  | Err _ => ¬ ∀ f, f ∈ fs → good_file f
  end.
Proof.
  revert done st. induction fs as [|f fs IH]; intros done st Hi; cbn [files_loop]; [by rewrite app_nil_r|].
  pose proof (file_step_spec done st f Hi) as Hstep. destruct (file_step _ _ st f) as [st'|e]; cbn.
  - specialize (IH _ _ Hstep). rewrite <- (assoc_L (++)) in IH. destruct (files_loop _ _ st' fs); [done|set_solver].
  - intros Hall. apply Hstep, Hall. by left.
Qed.
End files.

(** ** The clusters *)

Section config.
Context `{CR : Crypto} {CC : CACrypto} `{GU : GoUnicode}.
Context (RawSubject RawIssuer : certificate Key → string).
Context (CheckSignatureFrom : certificate Key → certificate Key → outcome string ()).
Context (os_ReadFile : string → outcome string string).
Context (decode : string → outcome string ReconcileConfig).
Context (path : string).
Local Abbreviation fp_of := (intermediateFingerprint RawSubject RawIssuer CheckSignatureFrom os_ReadFile).
Local Abbreviation load := (cluster_load RawSubject RawIssuer CheckSignatureFrom os_ReadFile path).
Local Abbreviation loop := (clusters_loop RawSubject RawIssuer CheckSignatureFrom os_ReadFile path).

(** A cluster's own entries are as they must be. *)
Record cluster_ok (c : ClusterConfig) : Prop := {
  co_name : validSegment (ConfName c) = true;
  co_url : HasPrefix (APIURL c) "https://" = true;
  co_token : TokenFile c ≠ "";
  co_some : Intermediates c ≠ [];
  co_files f : f ∈ Intermediates c → is_ok (fp_of f) = true;
}.
(** The names differ, and no intermediate is shared. *)
Definition clusters_ok (cs : list ClusterConfig) : Prop :=
  NoDup (ConfName <$> cs) ∧ (∀ c, c ∈ cs → cluster_ok c) ∧
  ∀ c c' f f' fp, c ∈ cs → c' ∈ cs → f ∈ Intermediates c → f' ∈ Intermediates c' →
    fp_of f = Ok fp → fp_of f' = Ok fp → ConfName c = ConfName c'.
(** The cluster [c'] that [c] is loaded as: one file for each fingerprint. *)
Definition loaded_from (c c' : ClusterConfig) : Prop :=
  (ConfName c', APIURL c', CAFile c', TokenFile c') = (ConfName c, APIURL c, CAFile c, TokenFile c) ∧
  Intermediates c' ⊆ Intermediates c ∧ Forall2 (λ f fp, fp_of f = Ok fp) (Intermediates c') (ConfFingerprints c') ∧
  ∀ fp, fp ∈ ConfFingerprints c' ↔ ∃ f, f ∈ Intermediates c ∧ fp_of f = Ok fp.

Definition owned_by (cs : list ClusterConfig) (fp n : string) : Prop :=
  ∃ c f, c ∈ cs ∧ f ∈ Intermediates c ∧ fp_of f = Ok fp ∧ ConfName c = n.
Record clusters_inv (done : list ClusterConfig) (names : gset string) (owner : gmap string string)
    (out : list ClusterConfig) : Prop := {
  ci_names n : n ∈ names ↔ n ∈ ConfName <$> done;
  ci_nodup : NoDup (ConfName <$> done);
  ci_ok c : c ∈ done → cluster_ok c;
  ci_owner fp n : owner !! fp = Some n ↔ owned_by done fp n;
  ci_out : Forall2 loaded_from done out;
  ci_fps : NoDup (concat (ConfFingerprints <$> out));
  ci_listed fp : fp ∈ concat (ConfFingerprints <$> out) ↔ ∃ n, owner !! fp = Some n;
}.

Lemma owned_by_app done c fp n :
  owned_by (done ++ [c]) fp n ↔ owned_by done fp n ∨ (ConfName c = n ∧ ∃ f, f ∈ Intermediates c ∧ fp_of f = Ok fp).
Proof.
  unfold owned_by. split.
  - intros (c' & f & [Hc| ->%list_elem_of_singleton]%elem_of_app & Hf & Hfp & Hn); [left|right]; eauto 10.
  - intros [(c' & f & Hc & Hf)|(Hn & f & Hf & Hfp)].
    + exists c', f. split; [by apply elem_of_app; left|done].
    + exists c, f. split; [apply elem_of_app; right; by left|done].
Qed.

Lemma cluster_checks_spec names c :
  cluster_checks path names c = Ok () ↔
  validSegment (ConfName c) = true ∧ ConfName c ∉ names ∧ HasPrefix (APIURL c) "https://" = true ∧
  TokenFile c ≠ "" ∧ Intermediates c ≠ [].
Proof.
  unfold cluster_checks. destruct (validSegment _); cbn [negb]; [|naive_solver].
  case_decide; [naive_solver|]. destruct (HasPrefix _ _); cbn [negb]; [|naive_solver].
  repeat case_bool_decide; naive_solver.
Qed.

(** What the next cluster must be. *)
Definition next_ok (names : gset string) (owner : gmap string string) (c : ClusterConfig) : Prop :=
  cluster_checks path names c = Ok () ∧ ∀ f, f ∈ Intermediates c → good_file fp_of (ConfName c) owner f.

Lemma next_ok_good names owner c f :
  next_ok names owner c → f ∈ Intermediates c → is_ok (fp_of f) = true.
Proof. intros [_ Hg] Hf. destruct (Hg f Hf) as (fp & -> & _). done. Qed.

Lemma clusters_inv_step done names owner out c fs :
  clusters_inv done names owner out → next_ok names owner c →
  files_inv fp_of (ConfName c) owner (Intermediates c) fs →
  clusters_inv (done ++ [c]) ({[ConfName c]} ∪ names) (fpOwner fs)
    (out ++ [mkConf (ConfName c) (APIURL c) (CAFile c) (TokenFile c) (kept_files fs) (fps fs)]).
Proof.
  intros [Hnm Hnd Hok Hown Hout Hfps Hlist] Hnext Hfs. pose proof Hnext as [Hck Hgood].
  apply cluster_checks_spec in Hck as (H1 & H2 & H3 & H4 & H5).
  assert (∀ fp, fp ∈ seenFP fs → ∀ n, owner !! fp ≠ Some n) as Hnew.
  { intros fp (f & Hf & Hfp)%(fi_fp _ _ _ _ _ Hfs) n Hn. destruct (Hgood f Hf) as (fp' & Hfp' & Hall).
    assert (fp' = fp) as -> by congruence. pose proof (Hall n Hn) as ->.
    apply Hown in Hn as (c' & f' & Hc' & _ & _ & Hname). apply H2, Hnm. rewrite <- Hname. by apply list_elem_of_fmap_2. }
  split.
  - intros n. rewrite elem_of_union, elem_of_singleton, fmap_app, elem_of_app, Hnm.
    cbn. rewrite list_elem_of_singleton. tauto.
  - rewrite fmap_app. apply NoDup_app. split_and!; [done| |apply NoDup_singleton].
    intros n Hn ->%list_elem_of_singleton. by apply H2, Hnm.
  - intros c' [?| ->%list_elem_of_singleton]%elem_of_app; [by apply Hok|]. split; try done. intros f. by apply (next_ok_good names owner).
  - intros fp n. rewrite owned_by_app, <- Hown, (fi_owner _ _ _ _ _ Hfs). case_decide as Hin.
    + pose proof (Hnew fp Hin n). apply (fi_fp _ _ _ _ _ Hfs) in Hin. naive_solver.
    + rewrite (fi_fp _ _ _ _ _ Hfs) in Hin. naive_solver.
  - apply Forall2_app; [done|]. constructor; [|constructor]. split; [done|]. cbn.
    split_and!; [apply Hfs|apply Hfs|]. intros fp. by rewrite (fi_fps _ _ _ _ _ Hfs), (fi_fp _ _ _ _ _ Hfs).
  - rewrite fmap_app, concat_app. cbn. rewrite app_nil_r. apply NoDup_app. split_and!; [done| |apply Hfs].
    intros fp [n Hn]%Hlist Hin%(fi_fps _ _ _ _ _ Hfs). by apply (Hnew fp Hin n).
  - intros fp. rewrite fmap_app, concat_app. cbn.
    rewrite app_nil_r, elem_of_app, Hlist, (fi_fps _ _ _ _ _ Hfs), (fi_owner _ _ _ _ _ Hfs).
    case_decide; naive_solver.
Qed.

Lemma clusters_inv_start : clusters_inv [] ∅ ∅ [].
Proof.
  split; cbn; try constructor; try done; try set_solver.
  intros (c & f & Hc & _). by apply elem_of_nil in Hc.
Qed.

Lemma clusters_loop_spec done names owner out cs :
  clusters_inv done names owner out → (∀ c, c ∈ cs → ConfFingerprints c = []) →
  match loop (names, owner, out) cs with
  | Ok (names', owner', out') => clusters_inv (done ++ cs) names' owner' out'
  | Err _ => ¬ clusters_ok (done ++ cs)
  end.
Proof.
  revert done names owner out. induction cs as [|c cs IH]; intros done names owner out Hi Hempty; cbn [clusters_loop].
  { by rewrite app_nil_r. }
  unfold cluster_load at 1. rewrite (Hempty c) by by left.
  assert (¬ next_ok names owner c → ¬ clusters_ok (done ++ c :: cs)) as Hbad.
  { intros Hn (Hnd & Hok & Hshare). apply Hn. destruct (Hok c) as [? ? ? ? Hfiles]; [apply elem_of_app; right; by left|].
    assert (ConfName c ∉ names) as Hfresh.
    { intros Hin%(ci_names _ _ _ _ Hi). rewrite fmap_app in Hnd. apply NoDup_app in Hnd as (_ & Hd & _).
      apply (Hd (ConfName c) Hin). cbn. by left. }
    split; [by apply cluster_checks_spec|]. intros f Hf. specialize (Hfiles f Hf).
    destruct (fp_of f) as [fp|e] eqn:E; [|done]. exists fp. split; [done|].
    intros n (c' & f' & Hc' & Hf' & Hfp' & <-)%(ci_owner _ _ _ _ Hi).
    apply (Hshare c' c f' f fp); try done; apply elem_of_app; [by left|right; by left]. }
  destruct (cluster_checks path names c) as [[]|e] eqn:Hck; cbn.
  2:{ apply Hbad. intros [Hck' _]. congruence. }
  pose proof (files_loop_spec fp_of (ConfName c) owner [] _ (Intermediates c) (files_inv_start fp_of (ConfName c) owner)) as Hloop.
  destruct (files_loop fp_of _ _ (Intermediates c)) as [fs|e]; cbn in Hloop |- *.
  - assert (next_ok names owner c) as Hnext by (split; [done|]; intros f; apply Hloop).
    specialize (IH _ _ _ _ (clusters_inv_step _ _ _ _ _ _ Hi Hnext Hloop)). rewrite <- (assoc_L (++)) in IH.
    apply IH. intros c' Hc'. apply Hempty. by right.
  - apply Hbad. intros [_ Hall]. by apply Hloop.
Qed.

Lemma clusters_inv_ok cs names owner out : clusters_inv cs names owner out → clusters_ok cs.
Proof.
  intros [Hnm Hnd Hok Hown _ _]. split_and!; [done..|]. intros c c' f f' fp Hc Hc' Hf Hf' Hfp Hfp'.
  assert (owner !! fp = Some (ConfName c)) as E1 by (apply Hown; by exists c, f).
  assert (owner !! fp = Some (ConfName c')) as E2 by (apply Hown; by exists c', f').
  congruence.
Qed.

(** The checks of the file's own fields. *)
Definition config_ok (cfg : ReconcileConfig) : Prop :=
  validSegment (ConfTrustDomain cfg) = true ∧ HasPrefix (SPIRESocket cfg) "/" = true ∧
  (MinInterval ≤ Interval cfg)%Z ∧ Clusters cfg ≠ [] ∧ clusters_ok (Clusters cfg).

Lemma config_checks_spec cfg :
  config_checks path cfg = Ok () ↔
  validSegment (ConfTrustDomain cfg) = true ∧ HasPrefix (SPIRESocket cfg) "/" = true ∧
  (MinInterval ≤ Interval cfg)%Z ∧ Clusters cfg ≠ [].
Proof.
  unfold config_checks. cbv zeta. destruct (validSegment (ConfTrustDomain cfg)) eqn:Hv; cbn [negb].
  2:{ rewrite orb_true_r. naive_solver. }
  case_bool_decide as Htd; [by rewrite Htd in Hv|]. cbn [orb].
  case_bool_decide as Hs; [rewrite Hs; naive_solver|].
  destruct (HasPrefix _ _); cbn [negb]; [|naive_solver].
  destruct (Z.ltb_spec (Interval cfg) MinInterval); [split; [done|]; intros; lia|].
  case_bool_decide as Hl; [apply nil_length_inv in Hl; naive_solver|].
  split; [|done]. intros _. split_and!; try done. intros Hc. by rewrite Hc in Hl.
Qed.

Lemma slashless_segment s : validSegment s = true → slashless s.
Proof. apply segment_no_slash. Qed.

Lemma Forall2_loaded_names l l' : Forall2 loaded_from l l' → ConfName <$> l' = ConfName <$> l.
Proof. intros Hf. induction Hf as [|c c' l l' [Hn _] Hf IH]; [done|]. cbn. rewrite IH. f_equal. congruence. Qed.

Lemma config_loaded data cfg0 :
  os_ReadFile path = Ok data → decode data = Ok cfg0 →
  (∀ c, c ∈ Clusters cfg0 → ConfFingerprints c = []) →
  let result := LoadConfig RawSubject RawIssuer CheckSignatureFrom os_ReadFile decode path in
  let cfg := with_default cfg0 in
  (is_ok result = true ↔ config_ok cfg) ∧
  ∀ loaded, result = Ok loaded →
    ConfTrustDomain loaded = ConfTrustDomain cfg0 ∧ SPIRESocket loaded = SPIRESocket cfg0 ∧
    Interval loaded = (if (Interval cfg0 =? 0)%Z then DefaultInterval else Interval cfg0) ∧
    Forall2 loaded_from (Clusters cfg0) (Clusters loaded) ∧
    NoDup (concat (ConfFingerprints <$> Clusters loaded)) ∧
    ∀ reading, valid_targets ((λ c, target c (reading c)) <$> Clusters loaded).
Proof.
  intros Hdata Hdec Hempty result cfg. unfold result, LoadConfig. rewrite Hdata, Hdec.
  fold cfg. assert (Clusters cfg = Clusters cfg0) as Hcs by (unfold cfg, with_default; by destruct (_ =? _)%Z).
  pose proof (config_checks_spec cfg) as Hck. unfold config_ok.
  destruct (config_checks path cfg) as [[]|e]; cbn [mbind outcome_bind is_ok].
  2:{ split; [|done]. split; [done|]. intros (H1 & H2 & H3 & H4 & _). by discriminate (proj2 Hck). }
  pose proof (clusters_loop_spec [] ∅ ∅ [] (Clusters cfg)) as Hloop. cbn [app] in Hloop.
  destruct (loop (∅, ∅, []) (Clusters cfg)) as [[[names owner] out]|e]; cbn [is_ok].
  - assert (clusters_inv (Clusters cfg) names owner out) as Hi.
    { apply Hloop; [apply clusters_inv_start|by rewrite Hcs]. }
    split; [split; [|done]; intros _; split_and!; try apply Hck; try done; by eapply clusters_inv_ok|].
    intros loaded [= <-]. cbn [ConfTrustDomain SPIRESocket Interval Clusters]. rewrite <- Hcs.
    split_and!; [unfold cfg, with_default; by destruct (_ =? _)%Z..|apply Hi|apply Hi|].
    intros reading. pose proof (Forall2_loaded_names _ _ (ci_out _ _ _ _ Hi)) as Hnames.
    assert (map name_of ((λ c, target c (reading c)) <$> out) = ConfName <$> Clusters cfg) as Htn.
    { rewrite <- Hnames. clear. induction out as [|c out IH]; [done|]. cbn in *. by rewrite IH. }
    split; rewrite Htn; [|apply Hi]. apply Forall_fmap, Forall_forall. intros c Hc.
    by apply slashless_segment, (ci_ok _ _ _ _ Hi).
  - split; [|done]. split; [done|]. intros (_ & _ & _ & _ & Hok). exfalso. revert Hok. apply Hloop; [apply clusters_inv_start|by rewrite Hcs].
Qed.

(** C19: [LoadConfig] accepts a file that decodes exactly when its fields pass the
    checks, the cluster names are valid and differ, every intermediate has a
    fingerprint and no two clusters share one; an interval of 0 is the default. A
    loaded cluster is the file's with one file for each fingerprint of its
    intermediates, no fingerprint is listed twice anywhere, and whatever is read of
    the clusters, they are targets as the theorems about a pass require. *)
Theorem config_loads_exact data cfg0 :
  os_ReadFile path = Ok data → decode data = Ok cfg0 →
  (∀ c, c ∈ Clusters cfg0 → ConfFingerprints c = []) →
  let result := LoadConfig RawSubject RawIssuer CheckSignatureFrom os_ReadFile decode path in
  let cfg := with_default cfg0 in
  (is_ok result = true ↔ config_ok cfg) ∧
  ∀ loaded, result = Ok loaded →
    ConfTrustDomain loaded = ConfTrustDomain cfg0 ∧ SPIRESocket loaded = SPIRESocket cfg0 ∧
    Interval loaded = (if (Interval cfg0 =? 0)%Z then DefaultInterval else Interval cfg0) ∧
    Forall2 loaded_from (Clusters cfg0) (Clusters loaded) ∧
    NoDup (concat (ConfFingerprints <$> Clusters loaded)) ∧
    ∀ reading, valid_targets ((λ c, target c (reading c)) <$> Clusters loaded).
Proof. apply config_loaded. Qed.
End config.

(** ** Two clusters *)

#[local] Existing Instance caseless.
Definition demo_pem (cn : string) : string := "X:" +:+ lf_string +:+ "CERTIFICATE:CERT|" +:+ cn +:+ "|k" +:+ lf_string.
Definition demo_file (name : string) : outcome string string :=
  if bool_decide (name = "/r.yaml") then Ok "yaml"
  else if bool_decide (name ∈ ["/a.pem"; "/a2.pem"]) then Ok (demo_pem "int-a")
  else if bool_decide (name = "/b.pem") then Ok (demo_pem "int-b") else Err "no such file".
Definition demo_conf (name : string) (files : list string) : ClusterConfig := mkConf name "https://pve" "" "/tok" files [].
Definition demo_config (files : list string) : ReconcileConfig :=
  mkReconcile "example.org" "/s.sock" 0 [demo_conf "c1" ["/a.pem"; "/a2.pem"; "/a.pem"]; demo_conf "c2" files].
Definition demo_load (files : list string) : outcome string ReconcileConfig :=
  LoadConfig (CR := toy_crypto) CommonName (λ _, "root") (λ _ _, Err "no") demo_file (λ _, Ok (demo_config files)) "/r.yaml".
Example demo_loaded :
  (λ cfg, Intermediates <$> Clusters cfg) <$> demo_load ["/b.pem"] = Ok [["/a.pem"]; ["/b.pem"]] ∧
  is_ok (demo_load ["/b.pem"; "/a2.pem"]) = false ∧
  demo_load ["/c.pem"] = Err "cluster c2: read intermediate /c.pem: no such file".
Proof. by vm_compute. Qed.

Lemma config_loads_exact_witness :
  ∃ loaded, demo_load ["/b.pem"] = Ok loaded ∧ Interval loaded = DefaultInterval ∧
    NoDup (concat (ConfFingerprints <$> Clusters loaded)) ∧
    ∀ reading, valid_targets ((λ c, target c (reading c)) <$> Clusters loaded).
Proof.
  destruct (demo_load ["/b.pem"]) as [loaded|e] eqn:E; [|by vm_compute in E].
  exists loaded. split; [done|].
  assert (∀ c, c ∈ Clusters (demo_config ["/b.pem"]) → ConfFingerprints c = []) as Hempty.
  { apply Forall_forall. by repeat constructor. }
  destruct (proj2 (config_loads_exact (CR := toy_crypto) CommonName (λ _, "root") (λ _ _, Err "no") demo_file
    (λ _, Ok (demo_config ["/b.pem"])) "/r.yaml" "yaml" _ eq_refl eq_refl Hempty) loaded E) as (_ & _ & Hi & _ & Hn & Ht).
  by split_and!.
Defined.
