(* ===== verification/Reconciler.v ===== *)
(** * The reconciler's process (cmd/vtpm-mds-reconcile/main.go)

    Flags are arguments. A network call's answer depends on the state of the network
    it meets, one for each cluster of a pass; a context that is cancelled shows as
    calls that fail. Between two passes others may change the SPIRE server. *)

From S2P Require Import Prelude.
From S2P Require Import Go.
From S2P Require Import Crypto.
From S2P Require Import CA.
From S2P Require Import Json.
From S2P Require Import Wanted.
From S2P Require Import Diff.
From S2P Require Import Bans.
From S2P Require Import Pass.
From S2P Require Import PveApi.
From S2P Require Import Clusters.

Section main.
Context `{CR : Crypto} {CC : CACrypto} `{GU : GoUnicode} `{GJ : GoJSON}.
Context (RawSubject RawIssuer : certificate Key → string).
Context (CheckSignatureFrom : certificate Key → certificate Key → outcome string ()).
Context (AppendCertsFromPEM : string → option CertPool).
Context (os_ReadFile : string → outcome string string).
Context (decode : string → outcome string ReconcileConfig).
(** The network, the SPIRE server as the client of a trust domain sees it, and the
    error of [grpc.NewClient], if any. *)
Context {N W : Type} {Net : HTTPClient N CertPool}.
Context (API : string → spireAPI W).
Context (grpc_NewClient : string → option string).

(** A cluster and its reader. *)
Abbreviation watched := (Cluster * ProxmoxClient CertPool)%type.

(** The loop over the clusters: clients, privileges, targets. *)
Definition watch (net : string → N) (c : ClusterConfig) : outcome string watched :=
  client ← Client AppendCertsFromPEM os_ReadFile c;
  _ ← prefix_error ("cluster " +:+ ConfName c +:+ ": ") (CheckPrivileges client (net (ConfName c))).2;
  Ok (mkCluster (ConfName c) (ConfFingerprints c), client).
Fixpoint watch_all (net : string → N) (cs : list ClusterConfig) : outcome string (list watched) :=
  match cs with
  | [] => Ok []
  | c :: cs => t ← watch net c; ts ← watch_all net cs; Ok (t :: ts)
  end.

Definition DialSPIRE (socket : string) : outcome string () :=
  match grpc_NewClient ("unix://" +:+ socket) with
  | Some e => Err ("spire socket " +:+ socket +:+ ": " +:+ e)
  | None => Ok ()
  end.

(** Up to the first pass; the error is what [log.Fatal] prints. *)
Definition start (path : string) (net : string → N) : fallible W string (ReconcileConfig * list watched) :=
  cfg ← of_outcome (LoadConfig RawSubject RawIssuer CheckSignatureFrom os_ReadFile decode path);
  ts ← of_outcome (watch_all net (Clusters cfg));
  _ ← of_outcome (DialSPIRE (SPIRESocket cfg));
  _ ← wrap (λ e, "spire socket " +:+ SPIRESocket cfg +:+ ": " +:+ e) (@Entries W (API (ConfTrustDomain cfg)));
  mret (cfg, ts).

(** The targets as a pass reads them. *)
Definition targets_at (net : string → N) (ts : list watched) : list Target :=
  (λ t, mkTarget t.1 (Read t.2 (net (ClusterName t.1))).2) <$> ts.

(** With -once: the exit code. *)
Definition once (td : string) (ts : list watched) (net : string → N) (w : W) : W * Z :=
  let '(st, r) := Pass (H := API td) td (targets_at net ts) false ∅ w in
  (world st, if negb (is_ok r) || (0 <? skipped st) then 1%Z else 0%Z).

(** One round of the loop: what others did to the server since the last one, and
    the network during the pass. *)
Record tick := mkTick { tick_others : W → W; tick_net : string → N }.
Record process := mkProcess { proc_world : W; proc_bans : BanTracker }.
Definition pass_at (td : string) (ts : list watched) (p : process) (t : tick) : pass_state * outcome string () :=
  Pass (H := API td) td (targets_at (tick_net t) ts) true (proc_bans p) (tick_others t (proc_world p)).
Definition loop_step (td : string) (ts : list watched) (p : process) (t : tick) : process :=
  let st := (pass_at td ts p t).1 in mkProcess (world st) (tracker st).
Definition loop (td : string) (ts : list watched) (ticks : list tick) (p : process) : process :=
  foldl (loop_step td ts) p ticks.

(** [main]; [ticks] are the passes after the first, up to the signal that ends the
    process. *)
Inductive ending := Fatal (msg : string) | Exited (code : Z) | Stopped.
Definition main (onceFlag : bool) (path : string) (boot : string → N) (first : tick) (ticks : list tick) (w : W)
    : W * ending :=
  match start path boot w with
  | (w, Err e) => (w, Fatal e)
  | (w, Ok (cfg, ts)) =>
      let td := ConfTrustDomain cfg in
      if onceFlag : bool
      then let '(w, code) := once td ts (tick_net first) (tick_others first w) in (w, Exited code)
      else (proc_world (loop td ts (first :: ticks) (mkProcess w ∅)), Stopped)
  end.
End main.
