(* ===== verification/ReconcilerProofs.v ===== *)
(** * What the reconciler's process does over its life

    [bans_take_two_passes]: what the process asks SPIRE to ban, over any history of
    passes. [once_exit_exact]: what an exit code of 0 says. *)

From S2P Require Import Prelude.
From S2P Require Import Go.
From S2P Require Import Crypto.
From S2P Require Import CA.
From S2P Require Import Json.
From S2P Require Import Wanted.
From S2P Require Import Diff.
From S2P Require Import Bans.
From S2P Require Import Pass.
From S2P Require Import PassProofs.
From S2P Require Import PveApi.
From S2P Require Import PveApiProofs.
From S2P Require Import Clusters.
From S2P Require Import ClustersProofs.
From S2P Require Import Reconciler.

(** A view of the server's state in which every request to ban is on record. *)
Class BanRecord (W : Type) `{spireAPI W} := {
  asked : W → list string;
  asked_Entries w : asked (Entries w).1 = asked w;
  asked_Create l w : asked (Create l w).1 = asked w;
  asked_Delete l w : asked (Delete l w).1 = asked w;
  asked_Agents w : asked (Agents w).1 = asked w;
  asked_Ban id w : asked (BanAgent id w).1 = asked w ++ [id];
}.

(** ** The readings of a pass *)

Create HintDb still.

Section pass.
Context {W : Type} `{API : spireAPI W} `{BR : !BanRecord W} `{GU : GoUnicode} (td : string).
Abbreviation state := (@pass_state W).
Implicit Types (st : state) (t : Target).

(** What a pass hands to [Observe] for a cluster, the agents being [l]. *)
Definition read_of (l : list Agent) (t : Target) : reading :=
  mkReading (Fingerprints (TargetCluster t))
    (list_to_set (VMID <$> match Reading t with Ok guests => guests | Err _ => [] end)) l.
Definition bans_at (c : reading) (b : BanTracker) : list Ban :=
  (Observe (read_fps c) (read_listed c) (read_agents c) b).2.

(** Nothing has been observed between the two states. *)
Definition quiet st st' : Prop :=
  tracker st' = tracker st ∧ asked (world st') = asked (world st) ∧ (∀ l, agents st = Some l → agents st' = Some l).
(** One cluster has been, with the agents the pass has listed. *)
Definition observed t st st' : Prop :=
  ∃ l ids, agents st' = Some l ∧ (∀ l', agents st = Some l' → l' = l) ∧
    tracker st' = observe_all [read_of l t] (tracker st) ∧
    asked (world st') = asked (world st) ++ ids ∧
    ∀ id, id ∈ ids → ∃ vm, mkBan id vm ∈ bans_at (read_of l t) (tracker st).

#[local] Instance quiet_preorder : PreOrder quiet.
Proof.
  split; [done|]. intros st1 st2 st3 (? & ? & ?) (? & ? & ?). unfold quiet. split_and!; [congruence..|auto].
Qed.
#[local] Abbreviation stays_quiet := (moves quiet).
Lemma quiet_log l : stays_quiet (log l).
Proof. by intros st. Qed.
Lemma quiet_call {A} (m : fallible W string A) : (∀ w, asked (m w).1 = asked w) → stays_quiet (lift m).
Proof. intros Hm st. unfold quiet. split_and!; cbn; auto. Qed.
#[local] Hint Resolve quiet_preorder moves_bind moves_ret moves_each moves_wrap moves_when quiet_log quiet_call
  asked_Entries asked_Create asked_Delete asked_Agents : still.

Lemma quiet_list_entries name : stays_quiet (list_entries name).
Proof.
  intros st. unfold list_entries, mbind at 1, fallible_bind, gets.
  destruct (entries st); [done|]. revert st. change (stays_quiet (es ← wrap (errorf name "list entries") (lift Entries);
      _ ← modify (fun st => mkPass (world st) (tracker st) (Some es) (agents st) (skipped st) (logs st));
      mret es)).
  apply (moves_bind quiet); [auto with still|]. intros es. apply (moves_bind quiet); [by intros st|auto with still].
Qed.

(** A pass of [-once] has no ban tracker. *)
Lemma quiet_no_bans targets : stays_quiet (each (cluster_step td false) targets).
Proof.
  apply (moves_each quiet). intros t. unfold cluster_step. destruct (Reading t) as [guests|e].
  - apply (moves_bind quiet); [apply quiet_list_entries|]. intros es. destruct (Wanted _ _ _) as [aliases problems].
    apply (moves_bind quiet); [apply (moves_each quiet); intros p; apply quiet_log|]. intros _.
    destruct (Diff _ _ _ _) as [create del].
    apply (moves_bind quiet); [|intros _; apply (moves_ret quiet)]. unfold apply_changes. cbn zeta. auto 10 with still.
  - apply (moves_bind quiet); [apply quiet_log|]. by intros _ st'.
Qed.

Lemma list_agents_spec name st :
  let r := list_agents name st in
  quiet st r.1 ∧ ∀ l, r.2 = Ok l → agents r.1 = Some l.
Proof.
  unfold list_agents, mbind, fallible_bind, gets.
  destruct (agents st) as [l|] eqn:E; cbn; [split; [done|by intros ? [= <-]]|].
  unfold wrap, lift. pose proof (asked_Agents (world st)) as Ha.
  destruct (Agents (world st)) as [w [l|e]]; cbn in *; (split; [split_and!; [done|done|congruence]|]); [by intros ? [= <-]|done].
Qed.

(** The bans of one cluster, as they were asked for. *)
Lemma ban_all_spec name bs st :
  let r := each (fun b => _ ← wrap (errorf name ("ban " +:+ BanAgentID b)) (lift (BanAgent (BanAgentID b)));
    log (LogBanned name b)) bs st in
  tracker r.1 = tracker st ∧ agents r.1 = agents st ∧
  ∃ ids, asked (world r.1) = asked (world st) ++ ids ∧ ids ⊆ BanAgentID <$> bs.
Proof.
  revert st. induction bs as [|b bs IH]; intros st; cbn [each].
  { split_and!; [done..|]. exists []. by rewrite app_nil_r. }
  rewrite !run_bind, run_wrap. unfold lift. pose proof (asked_Ban (BanAgentID b) (world st)) as Ha.
  destruct (BanAgent (BanAgentID b) (world st)) as [w [[]|e]]; cbn in Ha |- *.
  - specialize (IH (mkPass w (tracker st) (entries st) (agents st) (skipped st) (logs st ++ [LogBanned name b]))).
    cbn zeta in IH. destruct IH as (H1 & H2 & ids & H3 & H4). split_and!; [exact H1|exact H2|].
    exists (BanAgentID b :: ids). split; [etrans; [exact H3|]; cbn [world]; by rewrite Ha, <- (assoc_L (++))|].
    cbn. set_solver.
  - split_and!; [done..|]. exists [BanAgentID b]. split; [done|]. cbn. set_solver.
Qed.


(** A step that ends in the observation of its cluster unless it fails before. *)
Definition may_observe t (m : fallible state string ()) : Prop :=
  ∀ st, quiet st (m st).1 ∧ is_ok (m st).2 = false ∨ observed t st (m st).1.

Lemma may_observe_bind {A'} t (m : fallible state string A') (k : A' → fallible state string ()) :
  stays_quiet m → (∀ a, may_observe t (k a)) → may_observe t (m ≫= k).
Proof.
  intros Hm Hk st. specialize (Hm st). unfold mbind, fallible_bind.
  destruct (m st) as [st1 [a|e]]; cbn in *; [|by left]. destruct (Hk a st1) as [[Hq He]|(l & ids & Hl & Hone & Ht & Ha & Hb)].
  - left. split; [by etrans|done].
  - right. destruct Hm as (Ht1 & Ha1 & Hl1). exists l, ids. rewrite <- Ht1, <- Ha1.
    split_and!; [done|intros l' Hl'; by apply Hone, Hl1|done..].
Qed.

Lemma ban_agents_observes t name guests :
  Reading t = Ok guests → may_observe t (ban_agents name (Fingerprints (TargetCluster t)) guests).
Proof.
  intros Hr st. unfold ban_agents. rewrite run_bind.
  destruct (list_agents_spec name st) as [Hq Hl]. destruct (list_agents name st) as [st1 [l|e]]; cbn in Hq, Hl |- *; [|by left].
  right. specialize (Hl l eq_refl). destruct Hq as (Ht & Ha & Hk). rewrite run_bind. unfold observe.
  assert (read_of l t = mkReading (Fingerprints (TargetCluster t)) (list_to_set (VMID <$> guests)) l) as Hread
    by (unfold read_of; by rewrite Hr).
  destruct (Observe _ _ l (tracker st1)) as [b bs] eqn:Eo.
  pose proof (ban_all_spec name bs (mkPass (world st1) b (entries st1) (agents st1) (skipped st1) (logs st1))) as Hban.
  cbn zeta in Hban. destruct Hban as (Ht2 & Hl2 & ids & Ha2 & Hids). exists l, ids.
  split_and!.
  - etrans; [exact Hl2|exact Hl].
  - intros l' Hl'%Hk. congruence.
  - etrans; [exact Ht2|]. rewrite Hread, <- Ht.
    change (b = (Observe (Fingerprints (TargetCluster t)) (list_to_set (VMID <$> guests)) l (tracker st1)).1). by rewrite Eo.
  - etrans; [exact Ha2|]. cbn [world]. by rewrite Ha.
  - intros id (b' & -> & Hb)%Hids%list_elem_of_fmap. exists (BanVMID b'). rewrite Hread, <- Ht.
    change (mkBan (BanAgentID b') (BanVMID b') ∈
      (Observe (Fingerprints (TargetCluster t)) (list_to_set (VMID <$> guests)) l (tracker st1)).2).
    rewrite Eo. by destruct b'.
Qed.

Lemma cluster_step_reads t st :
  if is_ok (Reading t) then may_observe t (cluster_step td true t) else
  quiet st (cluster_step td true t st).1 ∧ (cluster_step td true t st).2 = Ok ().
Proof.
  unfold cluster_step. destruct (Reading t) as [guests|e] eqn:Hr; cbn [is_ok]; [|done].
  apply may_observe_bind; [apply quiet_list_entries|]. intros es.
  destruct (Wanted _ _ _) as [aliases problems]. apply may_observe_bind; [auto with still|]. intros _.
  destruct (Diff _ _ _ _) as [create del]. apply may_observe_bind; [unfold apply_changes; cbn zeta; auto 10 with still|].
  intros _. by apply ban_agents_observes.
Qed.

(** ** A whole pass *)

(** [seen] are the clusters observed, in order, with the agents [l]. *)
Record pass_reads (targets : list Target) st st' (r : outcome string ()) (l : list Agent) (seen : list Target) : Prop := {
  pr_sub : sublist seen targets;
  pr_good t : t ∈ seen → is_ok (Reading t) = true;
  pr_all : r = Ok () → ∀ t, t ∈ targets → is_ok (Reading t) = true → t ∈ seen;
  pr_agents : seen ≠ [] → agents st' = Some l;
  pr_keep l' : agents st = Some l' → agents st' = Some l';
  pr_tracker : tracker st' = observe_all (read_of l <$> seen) (tracker st);
  pr_asked id : id ∈ asked (world st') → id ∈ asked (world st) ∨
    ∃ seen1 t seen2 vm, seen = seen1 ++ t :: seen2 ∧
      mkBan id vm ∈ bans_at (read_of l t) (observe_all (read_of l <$> seen1) (tracker st));
}.

Lemma pass_reads_none targets st st' r l :
  quiet st st' → (r = Ok () → ∀ t, t ∈ targets → is_ok (Reading t) = false) → pass_reads targets st st' r l [].
Proof.
  intros (Ht & Ha & Hl) Hr. split; cbn; try done; try apply sublist_nil_l.
  - by intros t ?%not_elem_of_nil.
  - intros Hok t Hin Hg. rewrite (Hr Hok t Hin) in Hg. done.
  - rewrite Ha. by left.
Qed.

Lemma pass_reads_skip targets t st st1 st' r l seen :
  quiet st st1 → is_ok (Reading t) = false → pass_reads targets st1 st' r l seen →
  pass_reads (t :: targets) st st' r l seen.
Proof.
  intros (Ht & Ha & Hl) Hb [H1 H2 H3 H4 H5 H6 H7]. split; try done.
  - by constructor.
  - intros Hok t' [->|?]%elem_of_cons; [congruence|auto].
  - auto.
  - by rewrite H6, Ht.
  - intros id Hid. rewrite <- Ha, <- Ht. by apply H7.
Qed.

Lemma pass_reads_cons targets t st st1 st' r l seen :
  observed t st st1 → agents st1 = Some l → is_ok (Reading t) = true → pass_reads targets st1 st' r l seen →
  pass_reads (t :: targets) st st' r l (t :: seen).
Proof.
  intros (l1 & ids & Hl1 & Hone & Ht & Ha & Hb) Hl Hg [H1 H2 H3 H4 H5 H6 H7].
  assert (l1 = l) as -> by congruence. split.
  - by constructor.
  - intros t' [->|?]%elem_of_cons; auto.
  - intros Hok t' [->|?]%elem_of_cons ?; [by left|right; auto].
  - intros _. by apply H5.
  - intros l' Hl'%Hone. subst l'. by apply H5.
  - rewrite H6, Ht. done.
  - intros id [Hid|(s1 & t' & s2 & vm & -> & Hban)]%H7.
    + rewrite Ha in Hid. apply elem_of_app in Hid as [?|Hid]; [by left|right].
      destruct (Hb id Hid) as [vm Hvm]. exists [], t, seen, vm. done.
    + right. exists (t :: s1), t', s2, vm. split; [done|]. by rewrite Ht in Hban.
Qed.

Lemma observed_stop t targets st st1 l :
  observed t st st1 → agents st1 = Some l → is_ok (Reading t) = true → ∀ e, pass_reads (t :: targets) st st1 (Err e) l [t].
Proof.
  intros Ho Hl Hg e. eapply (pass_reads_cons targets t st st1); [done..|].
  apply pass_reads_none; [done|done].
Qed.

Lemma pass_runs_reads targets st :
  ∃ l seen, pass_reads targets st (each (cluster_step td true) targets st).1 (each (cluster_step td true) targets st).2 l seen.
Proof.
  revert st. induction targets as [|t targets IH]; intros st; cbn [each].
  { exists [], []. apply pass_reads_none; [done|]. by intros _ t ?%not_elem_of_nil. }
  pose proof (cluster_step_reads t st) as Hs. unfold mbind, fallible_bind.
  destruct (is_ok (Reading t)) eqn:Hg; [specialize (Hs st)|].
  - destruct (cluster_step td true t st) as [st1 [[]|e]]; cbn in Hs.
    + destruct Hs as [[_ ?]|Ho]; [done|]. destruct (IH st1) as (l & seen & Hp).
      pose proof Ho as (l1 & ids & Hl1 & _). destruct seen as [|t' seen].
      * exists l1, [t]. eapply pass_reads_cons; [done..|]. destruct Hp as [H1 H2 H3 H4 H5 H6 H7].
        split; [done|done|done|done|done|done|]. intros id [?|(s1 & t' & s2 & vm & Heq & _)]%H7; [by left|].
        by destruct s1.
      * exists l, (t :: t' :: seen). eapply pass_reads_cons; [done| |done|done].
        pose proof (pr_agents _ _ _ _ _ _ Hp ltac:(done)) as Hl. pose proof (pr_keep _ _ _ _ _ _ Hp l1 Hl1). congruence.
    + destruct Hs as [[Hq _]|Ho].
      * exists [], []. by apply pass_reads_none.
      * pose proof Ho as (l1 & ids & Hl1 & _). exists l1, [t]. by apply observed_stop.
  - destruct (cluster_step td true t st) as [st1 r]; cbn in Hs. destruct Hs as [Hq ->].
    destruct (IH st1) as (l & seen & Hp). exists l, seen. by eapply pass_reads_skip.
Qed.
End pass.

(** ** Every pass of a process *)

Section life.
Context `{CR : Crypto} `{GU : GoUnicode} `{GJ : GoJSON}.
Context {N W : Type} {Net : HTTPClient N CertPool} (API : string → spireAPI W) (td : string).
Context {BR : @BanRecord W (API td)}.
Abbreviation watched := (Cluster * ProxmoxClient CertPool)%type.
Context (ts : list watched) (ticks : list (@tick N W)) (w0 : W).

Implicit Types (t : watched) (k : nat) (tk : @tick N W).
Local Abbreviation asked_in := (@asked W (API td) BR).

(** The process after [k] passes, and what the pass of a tick reads. *)
Definition after k : process := loop API td ts (take k ticks) (mkProcess w0 ∅).
Definition pass_of k tk := pass_at API td ts (after k) tk.
Definition guests_at tk t : outcome string (list Guest) := (Read t.2 (tick_net tk (ClusterName t.1))).2.

Definition target_at tk t : Target := mkTarget t.1 (guests_at tk t).
Definition listing k : list Agent :=
  match ticks !! k with Some tk => default [] (agents (pass_of k tk).1) | None => [] end.
Definition reading_at (e : nat * watched) : reading :=
  match ticks !! e.1 with
  | Some tk => read_of (listing e.1) (target_at tk e.2)
  | None => mkReading [] ∅ []
  end.

(** The observations of the first [n] passes, in order. *)
Record history (n : nat) (es : list (nat * watched)) : Prop := {
  hi_before e : e ∈ es → e.1 < n ∧ e.2 ∈ ts;
  hi_good e tk : e ∈ es → ticks !! e.1 = Some tk → is_ok (guests_at tk e.2) = true ∧
    agents (pass_of e.1 tk).1 = Some (listing e.1);
  hi_order : StronglySorted (λ e e', e.1 ≤ e'.1) es;
  hi_nodup : NoDup es;
  hi_all k tk t : k < n → ticks !! k = Some tk → t ∈ ts → is_ok (guests_at tk t) = true →
    (pass_of k tk).2 = Ok () → (k, t) ∈ es;
  hi_tracker : proc_bans (after n) = observe_all (reading_at <$> es) ∅;
  hi_asked id : id ∈ asked_in (proc_world (after n)) → id ∈ asked_in w0 ∨
    ∃ es1 e es2 vm, es = es1 ++ e :: es2 ∧
      mkBan id vm ∈ bans_at (reading_at e) (observe_all (reading_at <$> es1) ∅);
}.

Context (names : NoDup ((λ t, ClusterName t.1) <$> ts)).
Context (others : ∀ tk w, tk ∈ ticks → asked_in (tick_others tk w) = asked_in w).

Lemma after_S n tk : ticks !! n = Some tk → after (S n) = loop_step API td ts (after n) tk.
Proof. intros Hn. unfold after, loop. by rewrite (take_S_r _ _ _ Hn), foldl_snoc. Qed.

Lemma observe_all_app cs cs' b : observe_all (cs ++ cs') b = observe_all cs' (observe_all cs b).
Proof. apply foldl_app. Qed.

Lemma history_start : history 0 [].
Proof.
  split; try done.
  - by intros e ?%not_elem_of_nil.
  - by intros e tk ?%not_elem_of_nil.
  - constructor.
  - constructor.
  - intros; lia.
  - by left.
Qed.

(** The observations of one pass. *)
Lemma pass_events n tk :
  ticks !! n = Some tk →
  ∃ seen, sublist seen ts ∧
    pass_reads (API := API td) (BR := BR) (target_at tk <$> ts) (mkPass (tick_others tk (proc_world (after n))) (proc_bans (after n)) None None 0 [])
      (pass_of n tk).1 (pass_of n tk).2 (listing n) (target_at tk <$> seen).
Proof.
  intros Hn. destruct (pass_runs_reads (API := API td) (BR := BR) td (target_at tk <$> ts)
    (mkPass (tick_others tk (proc_world (after n))) (proc_bans (after n)) None None 0 [])) as (l & seen & Hp).
  change (each (cluster_step td true) _ _) with (pass_of n tk) in Hp.
  destruct (sublist_fmap_inv _ _ _ (pr_sub _ _ _ _ _ _ Hp)) as (seen' & Hs & ->).
  exists seen'. split; [done|]. destruct seen' as [|t seen'].
  - destruct Hp as [H1 H2 H3 H4 H5 H6 H7]. split; try done.
    intros id [?|(s1 & t & s2 & vm & Heq & _)]%H7; [by left|by destruct s1].
  - assert (listing n = l) as ->; [|done]. unfold listing. rewrite Hn. by rewrite (pr_agents _ _ _ _ _ _ Hp).
Qed.

Lemma reading_tick n tk (seen : list watched) :
  ticks !! n = Some tk → reading_at <$> (pair n <$> seen) = read_of (listing n) <$> (target_at tk <$> seen).
Proof.
  intros Hn. rewrite <- !list_fmap_compose. apply list_fmap_ext. intros i t _. unfold compose, reading_at. cbn [fst].
  by rewrite Hn.
Qed.

Lemma history_step n es tk : ticks !! n = Some tk → history n es → ∃ es', history (S n) (es ++ es').
Proof.
  intros Hn [H1 H2 H3 H4 H5 H6 H7]. destruct (pass_events n tk Hn) as (seen & Hsub & Hp). exists (pair n <$> seen).
  assert (∀ e, e ∈ pair n <$> seen → e.1 = n ∧ e.2 ∈ seen) as Hnew by (by intros e (t & -> & ?)%list_elem_of_fmap).
  split.
  - intros e [He|[-> He]%Hnew]%elem_of_app; [apply H1 in He as [? ?]; split; [lia|done]|].
    split; [lia|]. by eapply elem_of_sublist.
  - intros e tk' [He|He]%elem_of_app Hl; [by eapply H2|]. apply Hnew in He as [He1 He2].
    rewrite He1 in Hl |- *. assert (tk' = tk) as -> by congruence. split.
    + apply (pr_good _ _ _ _ _ _ Hp (target_at tk e.2)). by apply list_elem_of_fmap_2.
    + apply (pr_agents _ _ _ _ _ _ Hp). by destruct seen; [apply not_elem_of_nil in He2|].
  - apply StronglySorted_app_2; [|done|].
    + intros e e' [? _]%H1 [-> _]%Hnew. lia.
    + clear. induction seen as [|t seen IH]; cbn; constructor; [done|]. apply Forall_forall. intros e (t' & -> & _)%list_elem_of_fmap. cbn. lia.
  - apply NoDup_app. split_and!; [done| |].
    + intros e [? _]%H1 [? _]%Hnew. lia.
    + apply NoDup_fmap_2; [by intros ? ? [= ->]|]. eapply sublist_NoDup; [|done]. by eapply NoDup_fmap_1.
  - intros k tk' t Hk Hl Ht Hg Hok. apply elem_of_app. destruct (decide (k = n)) as [->|]; [right|left; eapply H5; [lia|done..]].
    assert (tk' = tk) as -> by congruence. apply list_elem_of_fmap_2.
    pose proof (pr_all _ _ _ _ _ _ Hp Hok (target_at tk t)) as Hall.
    specialize (Hall (list_elem_of_fmap_2 _ _ _ Ht) Hg).
    apply list_elem_of_fmap in Hall as (t' & [= Heq _] & Ht').
    assert (t = t') as ->; [|done]. pose proof (elem_of_sublist _ _ _ Ht' Hsub) as Hin.
    apply list_elem_of_lookup in Ht as [i Hi], Hin as [j Hj].
    assert (i = j) as ->; [|congruence]. eapply (NoDup_lookup _ _ _ (ClusterName t.1) names); rewrite list_lookup_fmap.
    + by rewrite Hi.
    + rewrite Hj. cbn. by rewrite Heq.
  - rewrite (after_S n tk Hn), fmap_app, observe_all_app, <- H6, (reading_tick n tk seen Hn).
    exact (pr_tracker _ _ _ _ _ _ Hp).
  - intros id. rewrite (after_S n tk Hn). intros Hid. destruct (pr_asked _ _ _ _ _ _ Hp id Hid) as [Hold|Hban].
    + cbn [world] in Hold. rewrite others in Hold by (by eapply list_elem_of_lookup_2).
      destruct (H7 id Hold) as [?|(es1 & e & es2 & vm & -> & ?)]; [by left|right].
      exists es1, e, (es2 ++ (pair n <$> seen)), vm. split; [|done]. by rewrite <- (assoc_L (++)).
    + right. destruct Hban as (s1 & t & s2 & vm & Heq & Hban).
      apply fmap_app_inv in Heq as (seen1 & seen2 & -> & Heq2 & ->).
      destruct seen2 as [|t' seen2]; [done|]. cbn in Heq2. injection Heq2 as -> ->.
      exists (es ++ (pair n <$> seen1)), (n, t'), (pair n <$> seen2), vm.
      split; [by rewrite fmap_app, <- (assoc_L (++))|].
      rewrite fmap_app, observe_all_app, <- H6, (reading_tick n tk seen1 Hn). unfold reading_at at 1. cbn [fst snd].
      by rewrite Hn.
Qed.

Lemma history_exists n : n ≤ length ticks → ∃ es, history n es.
Proof.
  induction n as [|n IH]; intros Hn; [exists []; apply history_start|].
  destruct IH as [es Hes]; [lia|]. destruct (lookup_lt_is_Some_2 ticks n) as [tk Htk]; [lia|].
  destruct (history_step n es tk Htk Hes) as [es' ?]. by exists (es ++ es').
Qed.

(** In the pass of tick [k] a good read of [t] did not list the VM that the agent
    [id], of that cluster and not banned, was listed with. *)
Definition missed k tk t (id : string) : Prop :=
  ∃ guests l a fps vm, guests_at tk t = Ok guests ∧ agents (pass_of k tk).1 = Some l ∧
    a ∈ l ∧ AgentID a = id ∧ agentInfo a = (fps, vm, true) ∧
    belongs (Fingerprints t.1) fps = true ∧ vm ∉ VMID <$> guests.

Lemma missing_agent (c : reading) id :
  missing c id → ∃ a fps vm, a ∈ read_agents c ∧ AgentID a = id ∧ agentInfo a = (fps, vm, true) ∧
    belongs (read_fps c) fps = true ∧ vm ∉ read_listed c.
Proof.
  intros (fps & vm & Hv). destruct (read_view_agent _ _ _ _ _ Hv) as (a & Ha & Hid & Hav); [done|].
  pose proof (agent_view_missing _ _ _ _ _ Hav) as (Hi & Hb & Hn). exists a, fps, vm. split_and!; try done.
  revert Hav. unfold agent_view. destruct (agentInfo a) as [[fps' vm'] []]; cbn in Hi |- *; [by rewrite Hi|done].
Qed.

Lemma missing_missed n es k tk t id :
  history n es → (k, t) ∈ es → ticks !! k = Some tk → missing (reading_at (k, t)) id → missed k tk t id.
Proof.
  intros Hh He Hk (a & fps & vm & Ha & Hid & Hi & Hb & Hn)%missing_agent.
  destruct (hi_good _ _ Hh _ tk He Hk) as [Hg Hl]. cbn [fst snd] in *.
  unfold reading_at in *. cbn [fst snd] in *. rewrite Hk in *. cbn in *.
  destruct (guests_at tk t) as [guests|] eqn:E; [|done].
  exists guests, (listing k), a, fps, vm. split_and!; try done. intros Hin. apply Hn. by apply elem_of_list_to_set.
Qed.

Section banned.
Context (id : string) (t0 : watched).
Context (distinct_agents : ∀ k, NoDup (AgentID <$> listing k)).
Context (one_home : ∀ k a t, a ∈ listing k → AgentID a = id → t ∈ ts →
  belongs (Fingerprints t.1) (agentInfo a).1.1 = true → t = t0).

Lemma reading_agents e : read_agents (reading_at e) = listing e.1.
Proof. unfold reading_at, listing. by destruct (ticks !! e.1). Qed.
Lemma reading_fps n es e : history n es → n ≤ length ticks → e ∈ es → read_fps (reading_at e) = Fingerprints e.2.1.
Proof.
  intros Hh Hn He. destruct (hi_before _ _ Hh e He) as [Hlt _]. unfold reading_at.
  destruct (lookup_lt_is_Some_2 ticks e.1) as [tk ->]; [lia|done].
Qed.

Lemma missing_home n es e :
  history n es → n ≤ length ticks → e ∈ es → missing (reading_at e) id → e.2 = t0.
Proof.
  intros Hh Hn He (a & fps & vm & Ha & Hid & Hi & Hb & _)%missing_agent.
  rewrite reading_agents in Ha. rewrite (reading_fps n es e Hh Hn He) in Hb.
  eapply one_home; [done|done|by apply (hi_before _ _ Hh)|by rewrite Hi].
Qed.

Lemma reading_one_cluster n es es' :
  history n es → n ≤ length ticks → es' ⊆ es → one_cluster id (Fingerprints t0.1) (reading_at <$> es').
Proof.
  intros Hh Hn Hs c c' a (e & -> & He)%list_elem_of_fmap (e' & -> & He')%list_elem_of_fmap Ha Hid Hb.
  rewrite reading_agents in Ha. apply Hs in He, He'. rewrite (reading_fps n es e' Hh Hn He') in Hb |- *.
  by rewrite (one_home _ _ _ Ha Hid (proj2 (hi_before _ _ Hh e' He')) Hb).
Qed.

(** Two observations of a cluster are of two passes, and those of the passes in
    between lie between them. *)
Lemma history_between n a1 a2 j k t es2 :
  history n ((a1 ++ (j, t) :: a2) ++ (k, t) :: es2) →
  j < k ∧ ∀ l, j < l < k → (l, t) ∈ (a1 ++ (j, t) :: a2) ++ (k, t) :: es2 → (l, t) ∈ a2.
Proof.
  intros [_ _ Hso Hnd _ _ _]. rewrite <- (assoc_L (++)) in Hso, Hnd |- *. cbn in Hso, Hnd |- *.
  apply StronglySorted_app in Hso as (Ha1 & _ & Hso). apply StronglySorted_inv in Hso as [Hso Hja].
  apply StronglySorted_app in Hso as (_ & _ & Hso). apply StronglySorted_inv in Hso as [_ Hkes].
  apply NoDup_app in Hnd as (_ & _ & Hnd). apply NoDup_cons in Hnd as [Hni _].
  rewrite Forall_forall in Hja, Hkes. pose proof (Hja (k, t) ltac:(rewrite elem_of_app, elem_of_cons; tauto)) as Hjk.
  cbn in Hjk. assert (j ≠ k) as Hne by (intros ->; apply Hni; rewrite elem_of_app, elem_of_cons; tauto).
  split; [lia|]. intros l [Hl1 Hl2] [Hla|[Hla|[Hla|[Hla|Hla]%elem_of_cons]%elem_of_app]%elem_of_cons]%elem_of_app.
  - pose proof (Ha1 _ (j, t) Hla ltac:(by left)) as Hle. cbn in Hle. lia.
  - injection Hla as ->. lia.
  - done.
  - injection Hla as ->. lia.
  - pose proof (Hkes _ Hla) as Hle. cbn in Hle. lia.
Qed.

(** C11: over any number of passes, whatever fails in them, SPIRE is asked to ban an
    agent only if two of them each read the agent's cluster well and did not find
    the VM its selectors name, and every pass between the two either could not read
    that cluster well or failed. *)
Theorem bans_take_two_passes :
  id ∉ asked_in w0 → id ∈ asked_in (proc_world (loop API td ts ticks (mkProcess w0 ∅))) →
  t0 ∈ ts ∧ ∃ j k tj tk, j < k ∧ ticks !! j = Some tj ∧ ticks !! k = Some tk ∧
    missed j tj t0 id ∧ missed k tk t0 id ∧
    ∀ l tl, j < l < k → ticks !! l = Some tl → is_ok (guests_at tl t0) = false ∨ (pass_of l tl).2 ≠ Ok ().
Proof.
  intros Hnew Hasked. destruct (history_exists (length ticks)) as [es Hh]; [done|].
  pose proof (hi_asked _ _ Hh id) as Hc. unfold after in Hc. rewrite firstn_all in Hc.
  destruct (Hc Hasked) as [?|(es1 & [k t] & es2 & vm & -> & Hban)]; [done|]. clear Hc Hasked.
  assert ((k, t) ∈ es1 ++ (k, t) :: es2) as Hk by (apply elem_of_app; right; by left).
  destruct (ban_needs_two_misses id vm (Fingerprints t0.1) (reading_at <$> es1) (reading_at (k, t)))
    as (_ & Hmk & cs1 & c0 & cs2 & Heq & Hsame & Hmj & Hbetween); [| |exact Hban|].
  { intros c' Hc'. assert (∃ e, c' = reading_at e) as [e ->]; [|rewrite reading_agents; apply distinct_agents].
    apply elem_of_app in Hc' as [(e & -> & _)%list_elem_of_fmap| ->%list_elem_of_singleton]; by eexists. }
  { change [reading_at (k, t)] with (reading_at <$> [(k, t)]). rewrite <- fmap_app.
    eapply reading_one_cluster; [done..|]. intros e [?|?%list_elem_of_singleton]%elem_of_app; apply elem_of_app; [by left|right].
    subst e. by left. }
  apply fmap_app_inv in Heq as (a1 & a2 & -> & Heq & ->). destruct a2 as [|[j tj'] a2]; [done|].
  cbn in Heq. injection Heq as -> ->.
  assert ((j, tj') ∈ (a1 ++ (j, tj') :: a2) ++ (k, t) :: es2) as Hj by (rewrite !elem_of_app, elem_of_cons; tauto).
  pose proof (missing_home _ _ _ Hh ltac:(done) Hk Hmk) as Htk. pose proof (missing_home _ _ _ Hh ltac:(done) Hj Hmj) as Htj.
  cbn in Htk, Htj. subst t tj'.
  destruct (hi_before _ _ Hh _ Hk) as [Hkl Hin], (hi_before _ _ Hh _ Hj) as [Hjl _]. cbn in Hkl, Hjl, Hin.
  destruct (lookup_lt_is_Some_2 ticks k) as [tk Etk]; [done|].
  destruct (lookup_lt_is_Some_2 ticks j) as [tj Etj]; [done|].
  destruct (history_between _ _ _ _ _ _ _ Hh) as [Hjk Hmid].
  split; [done|]. exists j, k, tj, tk. split_and!; [done|done|done|by eapply missing_missed|by eapply missing_missed|].
  intros l tl Hl Etl. destruct (is_ok (guests_at tl t0)) eqn:Hg; [right|by left]. intros Hok.
  pose proof (hi_all _ _ Hh l tl t0 ltac:(lia) Etl Hin Hg Hok) as Hlin.
  apply (Hbetween (reading_at (l, t0))); [by apply list_elem_of_fmap_2, Hmid|].
  by rewrite !(reading_fps _ _ _ Hh ltac:(done)).
Qed.
End banned.
End life.

(** ** One pass and an exit code *)

Section skips.
Context {W : Type} `{API : spireAPI W} `{GU : GoUnicode} (td : string) (allowBans : bool).
Abbreviation state := (@pass_state W).

Definition skips_kept {A} (m : fallible state string A) : Prop := ∀ n, preserves (λ st, skipped st = n) m.
Lemma skips_bind {A B} (m : fallible state string A) (k : A → fallible state string B) :
  skips_kept m → (∀ a, skips_kept (k a)) → skips_kept (m ≫= k).
Proof. intros Hm Hk n. apply preserves_bind; [apply Hm|intros; apply Hk]. Qed.
Lemma skips_each {A} (f : A → fallible state string ()) l : (∀ a, skips_kept (f a)) → skips_kept (each f l).
Proof. intros Hf n. apply preserves_each. intros; apply Hf. Qed.
Lemma skips_wrap {A} g (m : fallible state string A) : skips_kept m → skips_kept (wrap g m).
Proof. intros Hm n. by apply preserves_wrap. Qed.
Lemma skips_when b (m : fallible state string ()) : skips_kept m → skips_kept (when b m).
Proof. intros Hm n. by apply preserves_when. Qed.
Lemma skips_ret {A} (a : A) : skips_kept (mret a).
Proof. by intros n st. Qed.
Lemma skips_log l : skips_kept (log l).
Proof. by intros n st. Qed.
Lemma skips_lift {A} (m : fallible W string A) : skips_kept (lift m).
Proof. by intros n st. Qed.
Lemma skips_have {A} (f : state → option A) (m : fallible state string A) :
  skips_kept m → skips_kept (have ← gets f; match have with Some a => mret a | None => m end).
Proof. intros Hm n st Hn. unfold mbind, fallible_bind, gets. destruct (f st); [done|by apply Hm]. Qed.
#[local] Hint Resolve skips_bind skips_each skips_wrap skips_when skips_ret skips_log skips_lift skips_have : still.

Lemma cluster_step_skips t st :
  is_ok (Reading t) = true → skipped (cluster_step td allowBans t st).1 = skipped st.
Proof.
  intros Hg. assert (skips_kept (cluster_step td allowBans t)) as Hk; [|by apply Hk].
  unfold cluster_step. destruct (Reading t) as [guests|]; [|done]. apply skips_bind.
  { apply skips_have. apply skips_bind; [auto with still|]. intros es. apply skips_bind; [by intros n s|auto with still]. }
  intros es. destruct (Wanted _ _ _) as [aliases problems]. apply skips_bind; [auto with still|]. intros _.
  destruct (Diff _ _ _ _) as [create del]. apply skips_bind; [unfold apply_changes; cbn zeta; auto 10 with still|].
  intros _. apply skips_when, skips_bind.
  { apply skips_have. apply skips_bind; [auto with still|]. intros l. apply skips_bind; [by intros n s|auto with still]. }
  intros l. apply skips_bind; [|auto with still]. intros n s Hs. unfold observe. by destruct (Observe _ _ _ _).
Qed.

Lemma pass_skips targets st :
  (each (cluster_step td allowBans) targets st).2 = Ok () →
  skipped (each (cluster_step td allowBans) targets st).1 = skipped st ↔ ∀ t, t ∈ targets → is_ok (Reading t) = true.
Proof.
  assert (∀ st, skipped st ≤ skipped (each (cluster_step td allowBans) targets st).1 ∧
    ((each (cluster_step td allowBans) targets st).2 = Ok () →
     skipped (each (cluster_step td allowBans) targets st).1 = skipped st ↔ ∀ t, t ∈ targets → is_ok (Reading t) = true)) as Hall;
    [|by apply Hall].
  clear st. induction targets as [|t targets IH]; intros st; cbn [each].
  { split; [done|]. intros _. split; [by intros _ t ?%not_elem_of_nil|done]. }
  rewrite run_bind. destruct (is_ok (Reading t)) eqn:Hg.
  - pose proof (cluster_step_skips t st Hg) as Hs. destruct (cluster_step td allowBans t st) as [st1 [[]|e]]; cbn in Hs |- *.
    + rewrite <- Hs. destruct (IH st1) as [Hle Hiff]. split; [done|]. intros Hok. rewrite (Hiff Hok).
      setoid_rewrite elem_of_cons. naive_solver.
    + rewrite Hs. split; [done|]. by intros ?.
  - assert (cluster_step td allowBans t st = (mkPass (world st) (tracker st) (entries st) (agents st) (S (skipped st))
      (logs st ++ [LogUnchanged (ClusterName (TargetCluster t)) (match Reading t with Err e => e | Ok _ => "" end)]), Ok ())) as ->.
    { unfold cluster_step. by destruct (Reading t). }
    destruct (IH (mkPass (world st) (tracker st) (entries st) (agents st) (S (skipped st))
      (logs st ++ [LogUnchanged (ClusterName (TargetCluster t)) (match Reading t with Err e => e | Ok _ => "" end)]))) as [Hle Hiff].
    cbn [skipped] in Hle, Hiff. split; [lia|]. intros Hok. split; [lia|]. intros Hgood.
    specialize (Hgood t ltac:(by left)). congruence.
Qed.
End skips.

Section once.
Context `{CR : Crypto} {CC : CACrypto} `{GU : GoUnicode} `{GJ : GoJSON}.
Context (RawSubject RawIssuer : certificate Key → string).
Context (CheckSignatureFrom : certificate Key → certificate Key → outcome string ()).
Context (AppendCertsFromPEM : string → option CertPool).
Context (os_ReadFile : string → outcome string string).
Context (decode : string → outcome string ReconcileConfig).
Context {N W : Type} {Net : HTTPClient N CertPool} (API : string → spireAPI W).
Context (grpc_NewClient : string → option string).
Abbreviation watched := (Cluster * ProxmoxClient CertPool)%type.
Local Abbreviation load := (LoadConfig RawSubject RawIssuer CheckSignatureFrom os_ReadFile decode).
Local Abbreviation run := (main RawSubject RawIssuer CheckSignatureFrom AppendCertsFromPEM os_ReadFile decode API grpc_NewClient).

(** A cluster's entry gives a client whose token has the privileges. *)
Definition watchable (boot : string → N) (c : ClusterConfig) (t : watched) : Prop :=
  t.1 = mkCluster (ConfName c) (ConfFingerprints c) ∧ Client AppendCertsFromPEM os_ReadFile c = Ok t.2 ∧
  (CheckPrivileges t.2 (boot (ConfName c))).2 = Ok ().

Lemma watch_all_spec boot cs ts :
  watch_all AppendCertsFromPEM os_ReadFile boot cs = Ok ts ↔ Forall2 (watchable boot) cs ts.
Proof.
  revert ts. induction cs as [|c cs IH]; intros ts; cbn [watch_all].
  { split; [by intros [= <-]|by intros ->%Forall2_nil_inv_l]. }
  rewrite bind_Ok. setoid_rewrite bind_Ok. setoid_rewrite IH. unfold watch. setoid_rewrite bind_Ok.
  split.
  - intros (t & (client & Hc & [] & Hp & [= <-]) & ts' & Hts & [= <-]). constructor; [|done].
    split_and!; [done|done|]. cbn. by destruct (CheckPrivileges client (boot (ConfName c))).2 as [[]|].
  - intros ([cl client] & ts' & (Heq & Hc & Hp) & Hts & ->)%Forall2_cons_inv_l. cbn in *. subst cl.
    exists (mkCluster (ConfName c) (ConfFingerprints c), client). split; [|by exists ts'].
    exists client. split; [done|]. exists (). by rewrite Hp.
Qed.

Lemma start_Ok path boot w w1 cfg ts :
  start RawSubject RawIssuer CheckSignatureFrom AppendCertsFromPEM os_ReadFile decode API grpc_NewClient path boot w =
    (w1, Ok (cfg, ts)) ↔
  load path = Ok cfg ∧ Forall2 (watchable boot) (Clusters cfg) ts ∧
  grpc_NewClient ("unix://" +:+ SPIRESocket cfg) = None ∧
  ∃ es, @Entries W (API (ConfTrustDomain cfg)) w = (w1, Ok es).
Proof.
  rewrite <- watch_all_spec. unfold start. rewrite run_bind. cbn [of_outcome].
  destruct (load path) as [cfg'|e]; [|split; [done|by intros [? _]]]. rewrite run_bind. cbn [of_outcome].
  destruct (watch_all _ _ _ (Clusters cfg')) as [ts'|e] eqn:Ew; [|split; [done|intros ([= ->] & ? & _); congruence]].
  rewrite run_bind. unfold of_outcome at 1, DialSPIRE.
  destruct (grpc_NewClient _) eqn:Eg; [split; [done|intros ([= ->] & _ & ? & _); congruence]|]. rewrite run_bind, run_wrap.
  destruct (@Entries W (API (ConfTrustDomain cfg')) w) as [w' [es|e]] eqn:Ee; [|split; [done|intros ([= ->] & _ & _ & ? & ?); congruence]].
  split.
  - intros [= -> -> ->]. split_and!; [done|done|done|by exists es].
  - intros ([= ->] & Hw & _ & es' & Hes). rewrite Hw in Ew. injection Ew as ->. rewrite Hes in Ee. by injection Ee as -> _.
Qed.


Lemma watched_names boot net cs ts :
  Forall2 (watchable boot) cs ts → map name_of (targets_at net ts) = ConfName <$> cs.
Proof.
  intros Hf. induction Hf as [|c t cs ts (Ht & _) _ IH]; [done|].
  change (ClusterName t.1 :: map name_of (targets_at net ts) = ConfName c :: (ConfName <$> cs)). by rewrite IH, Ht.
Qed.

Lemma watched_valid boot net path data cfg0 cfg ts :
  os_ReadFile path = Ok data → decode data = Ok cfg0 → (∀ c, c ∈ Clusters cfg0 → ConfFingerprints c = []) →
  load path = Ok cfg → Forall2 (watchable boot) (Clusters cfg) ts →
  ConfTrustDomain cfg = ConfTrustDomain cfg0 ∧ SPIRESocket cfg = SPIRESocket cfg0 ∧ valid_targets (targets_at net ts).
Proof.
  intros Hdata Hdec Hfps Hl Hw.
  destruct (config_loaded RawSubject RawIssuer CheckSignatureFrom os_ReadFile decode path data cfg0 Hdata Hdec Hfps) as [_ Hload].
  destruct (Hload cfg Hl) as (Htd & Hs & _ & _ & _ & Hv). split_and!; [done..|]. specialize (Hv (λ _, Err "")).
  unfold valid_targets in *. rewrite (watched_names _ _ _ _ Hw).
  assert (map name_of ((λ c, target c (Err "")) <$> Clusters cfg) = ConfName <$> Clusters cfg) as Hn; [|by rewrite Hn in Hv].
  clear. induction (Clusters cfg) as [|c cs IH]; [done|]. cbn in *. by rewrite IH.
Qed.

Lemma watch_exists boot net cs :
  (∀ c, c ∈ cs → ∃ t guests, watchable boot c t ∧ (Read t.2 (net (ConfName c))).2 = Ok guests) →
  ∃ ts, Forall2 (watchable boot) cs ts ∧ ∀ t, t ∈ ts → is_ok (Read t.2 (net (ClusterName t.1))).2 = true.
Proof.
  induction cs as [|c cs IH]; intros Hall.
  { exists []. split; [done|]. by intros t ?%not_elem_of_nil. }
  destruct IH as (ts & Hw & Hgood); [intros; apply Hall; by right|].
  destruct (Hall c ltac:(by left)) as (t & guests & Ht & Hr). exists (t :: ts). split; [by constructor|].
  intros t' [->|?]%elem_of_cons; [|auto]. destruct Ht as (-> & _). cbn. by rewrite Hr.
Qed.

Lemma once_code td ts net w :
  (once API td ts net w).2 = 0%Z ↔
  (Pass (H := API td) td (targets_at net ts) false ∅ w).2 = Ok () ∧
  ∀ t, t ∈ ts → is_ok (Read t.2 (net (ClusterName t.1))).2 = true.
Proof.
  unfold once. assert ((∀ t, t ∈ ts → is_ok (Read t.2 (net (ClusterName t.1))).2 = true) ↔
    ∀ t, t ∈ targets_at net ts → is_ok (Reading t) = true) as ->.
  { unfold targets_at. setoid_rewrite list_elem_of_fmap. split; [by intros Ht t (? & -> & ?); apply Ht|].
    intros Ht t Hin. by apply (Ht (mkTarget t.1 (Read t.2 (net (ClusterName t.1))).2)); exists t. }
  pose proof (pass_skips (API := API td) td false (targets_at net ts) (mkPass w ∅ None None 0 [])) as Hs.
  change (each _ _ _) with (Pass (H := API td) td (targets_at net ts) false ∅ w) in Hs.
  destruct (Pass _ _ _ _ _) as [st [[]|e]]; cbn in Hs |- *; [|by split; [|intros [? _]]].
  rewrite <- Hs by done. destruct (skipped st); cbn; split; try done; by intros [_ ?].
Qed.

Context (Servers : ∀ td, @SpireServer W (API td) td) (Records : ∀ td, @BanRecord W (API td)).
Local Abbreviation entries_in td := (@entries_of W (API td) td (Servers td)).
Local Abbreviation asked_in td := (@asked W (API td) (Records td)).

(** No cluster of the configuration owns the entry. *)
Definition foreign (td : string) (cs : list ClusterConfig) (e : Entry) : bool :=
  forallb (λ c, negb (owned td (ConfName c) e)) cs.

Lemma requests_names td targets :
  (∀ t, t ∈ targets → is_ok (Reading t) = true) → (requests td targets).*1 = map name_of targets.
Proof.
  induction targets as [|t targets IH]; intros Hg; [done|]. specialize (Hg t ltac:(by left)) as Ht.
  assert (requests td (t :: targets) = option_list (plan td t) ++ requests td targets) as ->
    by (unfold requests; cbn; by destruct (plan td t)).
  rewrite fmap_app, IH by (intros; apply Hg; by right). unfold plan. by destruct (Reading t).
Qed.

Lemma foreign_requests td boot net cs ts e :
  Forall2 (watchable boot) cs ts → (∀ t, t ∈ ts → is_ok (Read t.2 (net (ClusterName t.1))).2 = true) →
  forallb (λ r, negb (owned td r.1 e)) (requests td (targets_at net ts)) = foreign td cs e.
Proof.
  intros Hw Hg. assert ((requests td (targets_at net ts)).*1 = ConfName <$> cs) as Hn.
  { rewrite requests_names; [by eapply watched_names|]. by intros t' (t & -> & Ht)%list_elem_of_fmap; apply Hg. }
  unfold foreign. revert Hn. generalize (requests td (targets_at net ts)). clear Hw. induction cs as [|c cs IH]; intros [|r rs]; try done.
  cbn. intros [= -> Hn]. by rewrite IH.
Qed.

Lemma pass_never_bans td targets st :
  @asked W (API td) (Records td) (world (each (cluster_step (H := API td) td false) targets st).1) = asked_in td (world st).
Proof.
  by destruct (quiet_no_bans (BR := Records td) td targets st) as (_ & ? & _).
Qed.

Lemma main_once path boot first ticks w w' :
  run true path boot first ticks w = (w', Exited 0) ↔
  ∃ cfg ts w1 es, load path = Ok cfg ∧ Forall2 (watchable boot) (Clusters cfg) ts ∧
    grpc_NewClient ("unix://" +:+ SPIRESocket cfg) = None ∧ @Entries W (API (ConfTrustDomain cfg)) w = (w1, Ok es) ∧
    once API (ConfTrustDomain cfg) ts (tick_net first) (tick_others first w1) = (w', 0%Z).
Proof.
  unfold main. split.
  - destruct (start _ _ _ _ _ _ _ _ _ _ w) as [w1 [[cfg ts]|e]] eqn:Es; [|done].
    apply start_Ok in Es as (Hl & Hw & Hg & es & He). intros Hr. exists cfg, ts, w1, es. split_and!; try done.
    destruct (once _ _ _ _ _) as [w2 code]. by injection Hr as -> ->.
  - intros (cfg & ts & w1 & es & Hl & Hw & Hg & He & Ho).
    assert (start RawSubject RawIssuer CheckSignatureFrom AppendCertsFromPEM os_ReadFile decode API grpc_NewClient path boot w =
      (w1, Ok (cfg, ts))) as -> by (apply start_Ok; eauto). by rewrite Ho.
Qed.

(** C16: [-once] exits with 0 only if the configuration is valid, every cluster's
    token has its privileges and every cluster was read well; SPIRE's aliases are
    then in line with all of them, the entries of no configured cluster are as they
    were, and no ban was asked for. While SPIRE is up, it does so whenever the
    configuration is valid and the clusters answer well. *)
Theorem once_exit_exact path data cfg0 boot first ticks w :
  os_ReadFile path = Ok data → decode data = Ok cfg0 → (∀ c, c ∈ Clusters cfg0 → ConfFingerprints c = []) →
  let td := ConfTrustDomain cfg0 in
  let before := tick_others first (@Entries W (API td) w).1 in
  distinct (entries_in td before) →
  (∀ w', run true path boot first ticks w = (w', Exited 0) →
    ∃ cfg, load path = Ok cfg ∧
      (∀ c, c ∈ Clusters cfg → ∃ t guests, watchable boot c t ∧ (Read t.2 (tick_net first (ConfName c))).2 = Ok guests ∧
         in_line td (ConfName c) (entries_in td w') (Wanted td t.1 guests).1) ∧
      filter (λ e, foreign td (Clusters cfg) e = true) (entries_in td w') ≡ₚ
        filter (λ e, foreign td (Clusters cfg) e = true) (entries_in td before) ∧
      asked_in td w' = asked_in td before) ∧
  (∀ cfg, SpireUp (H1 := Servers td) td → load path = Ok cfg →
    grpc_NewClient ("unix://" +:+ SPIRESocket cfg0) = None →
    (∀ c, c ∈ Clusters cfg → ∃ t guests, watchable boot c t ∧ (Read t.2 (tick_net first (ConfName c))).2 = Ok guests) →
    ∃ w', run true path boot first ticks w = (w', Exited 0)).
Proof.
  intros Hdata Hdec Hfps td before Hd.
  split.
  - intros w' (cfg & ts & w1 & es & Hl & Hw & _ & He & Ho)%main_once. exists cfg. split; [done|].
    destruct (watched_valid boot (tick_net first) path data cfg0 cfg ts) as (Htd & _ & Hv); [done..|]. fold td in Htd.
    rewrite Htd in He, Ho.
    unfold before in *. rewrite He in Hd |- *. cbn [fst] in *.
    destruct (proj1 (once_code td ts (tick_net first) (tick_others first w1)) ltac:(by rewrite Ho)) as [Hok Hg].
    destruct (pass_settles td false _ ∅ _ Hv Hd Hok) as [Hline Hframe].
    pose proof (pass_never_bans td (targets_at (tick_net first) ts) (mkPass (tick_others first w1) ∅ None None 0 [])) as Hb.
    unfold once in Ho. change (each _ _ _) with (Pass (H := API td) td (targets_at (tick_net first) ts) false ∅ (tick_others first w1)) in Hb.
    destruct (Pass _ _ _ _ _) as [st r]. injection Ho as <- _. cbn [fst] in *. split_and!; [| |exact Hb].
    + intros c Hc. apply list_elem_of_lookup in Hc as [i Hi]. destruct (Forall2_lookup_l _ _ _ _ _ Hw Hi) as (t & Ht & Hwt).
      pose proof Hwt as (Hc1 & _). apply list_elem_of_lookup_2 in Ht. specialize (Hg t Ht). rewrite Hc1 in Hg. cbn in Hg.
      destruct (Read t.2 _).2 as [guests|] eqn:Er; [|done]. exists t, guests. split; [done|]. split; [done|].
      specialize (Hline (mkTarget t.1 (Ok guests)) guests). rewrite Hc1 in Hline |- *. apply Hline; [|done].
      apply list_elem_of_fmap. exists t. split; [|done]. cbv beta. rewrite Hc1. cbn [ClusterName]. by rewrite Er.
    + etrans; [|etrans; [exact Hframe|]]; apply reflexive_eq, list_filter_iff; intros e;
        by rewrite (foreign_requests td boot (tick_net first) _ ts _ Hw Hg).
  - intros cfg Hup Hl Hg Hall. destruct (watch_exists boot (tick_net first) _ Hall) as (ts & Hw & Hgood).
    destruct (watched_valid boot (tick_net first) path data cfg0 cfg ts) as (Htd & Hsock & Hv); [done..|]. fold td in Htd.
    pose proof (Entries_up td (SpireUp := Hup) w) as Heu. destruct (@Entries W (API td) w) as [w1 [es|e]] eqn:He; [|done].
    pose proof (pass_succeeds td false _ ∅ _ Hv Hd) as Hok.
    destruct (once API td ts (tick_net first) (tick_others first w1)) as [w' code] eqn:Ho.
    exists w'. apply main_once. exists cfg, ts, w1, es. rewrite Htd, Hsock. split_and!; [done..|].
    rewrite Ho. f_equal. change code with (w', code).2. rewrite <- Ho. apply once_code. split; [|done].
    unfold before in Hok. cbn [fst] in Hok. by destruct (Pass _ _ _ _ _).2 as [[]|].
Qed.
End once.

(** ** A process in memory *)

#[local] Existing Instance caseless.
#[export] Instance mem_record td : @BanRecord memory (mem_api td).
Proof. by exists mem_banned. Defined.

(** The state of the network is whether the cluster answers. *)
#[export] Instance demo_net : HTTPClient string (@CertPool toy_crypto) := {|
  valid_url _ := true;
  Do _ url _ n :=
    (n, if bool_decide (n = "down") then Err (mkFailure "Get: timeout" None)
        else Ok (mkPveResponse 200 (if HasPrefix url "https://pve/api2/json/access" then "perms" else "rows")));
|}.
Definition demo_watched : list (Cluster * ProxmoxClient (@CertPool toy_crypto)) :=
  [(mkCluster "c1" ["ab12"], mkPve "https://pve" "a@pve!t=x" None)].
Definition demo_tick (n : string) : @tick string memory := mkTick (λ m, m) (λ _, n).
(** VM 9 is not among the guests; in between, the cluster does not answer. *)
Definition demo_ticks : list tick := demo_tick <$> ["up"; "down"; "up"; "up"].
Abbreviation demo_process := (loop mem_api "example.org" demo_watched demo_ticks (mkProcess demo_memory ∅)).
Example demo_process_bans : mem_banned (proc_world demo_process) = ["a"].
Proof. by vm_compute. Qed.

Lemma bans_take_two_passes_witness :
  mem_banned (proc_world demo_process) = ["a"] ∧
  ∃ j k tj tk, j < k ∧ demo_ticks !! j = Some tj ∧ demo_ticks !! k = Some tk ∧ is_ok (guests_at tj (mkCluster "c1" ["ab12"], mkPve "https://pve" "a@pve!t=x" None)) = true.
Proof.
  assert (mem_banned (proc_world demo_process) = ["a"]) as Hb by by vm_compute. split; [exact Hb|].
  assert (∀ (tk : @tick string memory) w, tk ∈ demo_ticks → mem_banned (tick_others tk w) = mem_banned w) as Hothers
    by by intros tk w (n & -> & _)%list_elem_of_fmap.
  destruct (bans_take_two_passes mem_api "example.org" demo_watched demo_ticks demo_memory
    ltac:(apply NoDup_singleton) Hothers "a" (mkCluster "c1" ["ab12"], mkPve "https://pve" "a@pve!t=x" None)) as (_ & j & k & tj & tk & Hjk & Hj & Hk & Hm & _).
  - intros k. destruct (decide (k < 4)) as [Hk|Hk].
    + do 4 (destruct k as [|k]; [apply (bool_decide_unpack _); by vm_compute|]). lia.
    + unfold listing. rewrite lookup_ge_None_2 by (cbn; lia). constructor.
  - by intros k a t _ _ ->%list_elem_of_singleton _.
  - apply (bool_decide_unpack _). by vm_compute.
  - unfold asked, mem_record. rewrite Hb. by left.
  - exists j, k, tj, tk. split_and!; [done..|]. destruct Hm as (guests & l & a & fps & vm & -> & _). done.
Defined.

(** A cluster that answers, a valid configuration: exit 0. *)
Definition once_file (name : string) : outcome string string :=
  if bool_decide (name = "/tok") then Ok "a@pve!t=x" else demo_file name.
Definition once_config : ReconcileConfig := mkReconcile "example.org" "/s.sock" 0 [demo_conf "c1" ["/a.pem"]].
Definition demo_once (net : string) : memory * ending :=
  main (CR := toy_crypto) CommonName (λ _, "root") (λ _ _, Err "no") (λ _, None) once_file (λ _, Ok once_config)
    mem_api (λ _, None) true "/r.yaml" (λ _, "up") (demo_tick net) [] demo_memory.
Example demo_once_exits : (demo_once "up").2 = Exited 0 ∧ (demo_once "down").2 = Exited 1.
Proof. by vm_compute. Qed.

Lemma once_exit_exact_witness :
  ∃ w', demo_once "up" = (w', Exited 0) ∧ mem_banned w' = [] ∧
    ∃ guests, in_line "example.org" "c1" (node_aliases "example.org" (mem_entries w')) guests.
Proof.
  assert (∀ c, c ∈ Clusters once_config → ConfFingerprints c = []) as Hfps by by intros c ->%list_elem_of_singleton.
  assert (distinct (node_aliases "example.org" (mem_entries demo_memory))) as Hd
    by (apply (bool_decide_unpack _); by vm_compute).
  destruct (once_exit_exact (CR := toy_crypto) CommonName (λ _, "root") (λ _ _, Err "no") (λ _, None) once_file
    (λ _, Ok once_config) mem_api (λ _, None) mem_server mem_record "/r.yaml" "yaml" once_config
    (λ _, "up") (demo_tick "up") [] demo_memory eq_refl eq_refl Hfps Hd) as [Hzero Hup].
  assert (demo_once "up" = ((demo_once "up").1, Exited 0)) as Hr.
  { rewrite <- (proj1 demo_once_exits). by destruct (demo_once "up"). }
  exists (demo_once "up").1. split; [exact Hr|].
  destruct (Hzero _ Hr) as (cfg & Hl & Hline & _ & Hb). split; [exact Hb|].
  destruct (Hline (List.hd (demo_conf "" []) (Clusters cfg))) as (t & guests & _ & _ & Hi).
  - injection Hl as <-. by left.
  - exists (Wanted "example.org" t.1 guests).1. injection Hl as <-. exact Hi.
Defined.
